(* ===== verification/_CoqProject ===== *)
-Q . S2P
Prelude.v
GoStrings.v
GoPaths.v
GoNumbers.v
GoFiles.v
GoFilesFacts.v
DistCache.v
DistCacheFacts.v
GitCache.v
GitCacheFacts.v
GoFlags.v
ReleaseSteps.v
Bootstrap.v
Promote.v
PromoteFacts.v
OCIFetch.v
OCIFetchFacts.v
OCIBuild.v
OCIBuildFacts.v
OCIReleaseFacts.v
Values.v
Expression.v
ExpressionFacts.v
Environment.v
Proto.v
Evolution.v
StepFile.v
ShortReference.v
Schema.v
Decoding.v
SchemaFacts.v
SpecDefinition.v
World.v
Resources.v
Runner.v
RunnerFacts.v
Termination.v
RunnerSpec.v
Fetchers.v
Builders.v
OCISteps.v
OCIFixtures.v
Fixtures.v
Variables.v
Streamer.v
Jobs.v
Service.v
Commands.v
CommandsFacts.v
Program.v
Client.v
Session.v
Request.v
Harness.v
Proxy.v
Witnesses.v
SchemaWitnesses.v
RunnerWitnesses.v
ServiceWitnesses.v
DecodingWitnesses.v
CommandWitnesses.v
OCIWitnesses.v
BuildWitnesses.v
CacheWitnesses.v
FetcherWitnesses.v
ToolWitnesses.v
OCIStepWitnesses.v
