(* ===== verification/Prelude.v ===== *)
(** * step-runner

    A model of the GitLab step runner (src/) and the theorems that make it correct.

    The program runs CI steps.  A job gives it a step file; the file is read and
    compiled to a definition, the definition is parsed to steps, and the steps are
    run: an executable step runs a command, a sequence runs its steps in order, and
    a step that is named by a reference is fetched when its turn comes, from a
    directory, a Git repository, or the steps that are distributed with the
    program.  Steps hand values on through outputs, exported variables and
    expressions.  The same program serves jobs over gRPC, tunnels that protocol,
    and has steps of its own that fetch, build and promote OCI images.

    ** How Go is modelled

    - A call is a function to [res]: a value, a non-nil error, or a panic; errors
      keep their chain, so their texts are those of the code.  Calls with effects
      are computations: [M] of World.v over the objects, files and system of a
      running step, and [F] of GoFiles.v over a tree of files with modes and a list
      of system calls that fail.
    - Strings are byte strings.  The functions of [strings], [strconv], [bufio] and
      [path/filepath] the code uses are written out in GoStrings, GoNumbers and
      GoPaths; numbers have the width of a word of the machine where the code parses
      them, 32 or 64 bits, as the programs are built for both ([WordSize]).
    - Ranging over a Go map has no fixed order: [MapRange] gives an order, and the
      theorems hold for every one.
    - Environments are shared by pointer and mutated, so they are objects on a heap.
    - Goroutines are transition systems whose labels are the atomic steps, and the
      theorems quantify over all interleavings.  A panic that nothing recovers kills
      the process, and with it the service and its other jobs.
    - A write that fails may have created or cut the file, and left a part of its data;
      the error of closing a file is returned where the code returns it.  A layer is
      read from its archive each time it is needed, not when it is made.
    - Code that is not in the repository is a parameter with the laws the code
      relies on: the operating system and the fetchers ([System], [JobSystem],
      [CommandSystem]), the YAML and JSON codecs ([StepFileEnv], [StructPB],
      [Format], [JSON]), go-git ([GitLib]), the registry and the archive
      formats ([Layers], [ImageBuilder] and the registries of Promote and
      OCIFetch).  Every property that has a hypothesis has a witness at a concrete
      instance.

    ** The parts

    Expressions and values.  Values.v: package context, the messages of structpb
    (src/pkg/context).  Expression.v: src/pkg/internal/expression.  ExpressionFacts.v
    proves the index arithmetic of [interpolateString] equal to a lexer and a
    machine, and gives the meaning of templates.

    Environments.  Environment.v: environment.go, global_env.go and precond.
    Evolution.v: the changes a run may make to the objects.

    Step files and their compiler.  ShortReference.v, Schema.v and SchemaFacts.v:
    src/schema/v1, from the decoded file to the messages of Proto.v.  Decoding.v: the
    hooks of the decoder that give the dynamic fields their types.

    The runner (src/pkg/runner).  StepFile.v: the files steps write to.
    SpecDefinition.v: definitions, parameters and results.  World.v: effects.
    Resources.v: resources and the parser.  Runner.v: contexts and the three kinds of
    step.  RunnerFacts.v, Termination.v and RunnerSpec.v: what every run does to the
    objects, when it ends, and what it promises.

    Jobs and the service.  Variables.v, Streamer.v, Jobs.v, Service.v, Client.v:
    src/pkg/api.  A job is two programs, [Run] and [Close], over shared fields; the
    service is the interleaving of its requests.  Session.v puts a client at the
    service, and Request.v follows a request from its client to the run of its step
    and back.  Proxy.v: src/pkg/api/proxy.

    Commands.  Commands.v and CommandsFacts.v: src/cmd/run, src/cmd/ci,
    src/pkg/report, src/pkg/di.  Bootstrap.v: src/cmd/bootstrap, and the address of
    src/cmd/serve.  Program.v: src/main.go, src/cmd/root.go and the [NewCmd] functions,
    from the command line to the status the process exits with.

    Caches.  DistCache.v: src/dist/step_finder.go, src/pkg/cache/dist.  GitCache.v:
    src/pkg/cache/git.  Each has a file of facts.  Fetchers.v: the interface between
    the caches and the runner, whose instance [cached_system] gives any system the
    caches for fetchers.

    Images (src/dist/steps/step/oci).  Promote.v, OCIFetch.v, OCIBuild.v, with
    PromoteFacts.v, OCIFetchFacts.v, OCIBuildFacts.v and OCIReleaseFacts.v.
    OCISteps.v: the step.yml files, which join the programs to the runner; the class
    [OutputLines] is what the format of the lines between them promises.

    Releases.  ReleaseSteps.v: src/.gitlab/steps.

    Tests (src/pkg/testutil, src/pkg/api/internal/test and the testutil of the OCI
    steps).  Builders.v: the messages, contexts and steps that tests start from.
    Harness.v: how tests run steps and serve.  OCIFixtures.v: layers, images,
    registries and command lines.  Fixtures.v: trees of files, the Git server, and
    the check of src/schema/v1/test_common.go.

    The files named Witnesses apply each property at concrete inputs, and hold the
    small proofs of what the code does otherwise than its documents say.

    ** What the theorems show

    - Runs end ([run_terminates]), and so do commands ([commands_end]), with a fuel that is twice the depth
      of the definitions plus one, and more fuel changes nothing; results have the
      shape of the message they are stored in; a sequence runs its steps in order
      and stops at the first failure; step files do not outlive their step, unless the
      system refuses to remove them.
    - Environments: what a name means, what a mutation reaches, what a run changes
      ([run_environments]), and which variables a step is given by a reference, by
      the job and by each command.
    - The compiler: specifications are well typed, a definition is compiled exactly
      when it is of one type, with its steps in order ([Compile_definition]), and what
      the compiler emits the parser accepts, so that the steps of a request that are
      read and compiled are steps of the runner ([loaded_steps_parse]).
    - Jobs: while the process is alive and the requests for one identifier do not
      overlap, what a client is told of its request is what the run of its step
      returned, however the other requests and the run and the close of the jobs
      interleave ([request_outcome]); a close waits for the run, and a job ends; a client
      that follows a job gets its log ([client_sees_job]); the service loses no job
      as long as the requests for one identifier do not overlap.
    - Text: interpolation, short references, semantic versions and change logs are
      read back as what was written; outputs conform to the specification or are an
      error.
    - Caches: a version of a repository is in the cache whole or not at all, whatever
      fails, when the tree that is asked for names its files below its root and each
      once; a distributed step is there whole, whatever steps in other directories are
      fetched, when no system call fails; and what the runner loads from them is the
      file of the embedded step, or of the commit that the version names in the
      repository of the URL ([distributed_step_loaded], [git_step_loaded]).
    - Images: the best image for a platform is chosen, nothing is written outside
      the new directory, complete promotions keep floating tags on the greatest
      versions, a build publishes exactly its artifacts, whose archives are there while
      they are pushed, and a layer that is pulled unpacks to what went in.  The
      inputs of the steps reach their programs and the outputs of the programs the
      runner, whatever texts they are ([inputs_reach_programs],
      [outputs_reach_the_runner]).
    - Tests: what a test observes is a run ([tests_observe_runs]); a built layer can be
      unpacked from its start; a tree of files is built inside its directory, whatever
      fails ([Files_Build_confined]).

    ** Fuel and bounds

    [run], [Fetch] and [loadStep] take fuel because a definition can refer to
    definitions, and dynamic references to references; [nested n] says how deep, and
    [2 n + 1] is enough.  A reference that expands to itself has no bound and
    diverges ([dynamic_reference_diverges]).  [values_fuel] follows the pointers of
    environments; the size of the heap is enough while it has no cycle, and a run
    makes none.  A line of 65536 bytes ends a scan, as in [bufio].  Version numbers
    are those of a [uint], of 32 or 64 bits.

    ** What is not modelled, and why

    - Generated code (src/proto), sockets, signals and the transport of gRPC, the
      command-line library of src/cmd (the flags of the other programs are parsed as
      [flag] does), the messages that are only logged.
    - The JSON schemas and their library, and the text forms of YAML and JSON: the
      decoders are parameters.
    - Symbolic links, the permissions of directories, and files that are changed by
      others while the program runs.  A write fails after some bytes; a read fails
      whole.
    - Deadlines and contexts appear only where the code looks at them: the close of
      a job, and the followers of a log.
    - Of the tests: the ports and the deadlines they ask the system for, the repositories
      go-git makes in memory, pushing to the registry they start, and the copies that
      the steps of fetch have of builders that are modelled. *)

From Stdlib Require Export Ascii.
From stdpp Require Import gmap strings list fin_maps.

Declare Scope go_scope.
Delimit Scope go_scope with go.
#[export] Set Warnings "-register-all".

(** ** Errors *)

(** Sentinel errors of the Go standard library the code compares with
    [errors.Is] or [==]. *)
Inductive sentinel := Canceled | DeadlineExceeded.

(** What a system call fails with. *)
Inductive errno := ENOENT | EEXIST | ENOTEMPTY | ENOTDIR | EISDIR | EACCES | EINVAL | EIO | ENOSPC.

(** An [error] value.  [NewError] is [errors.New], or [fmt.Errorf] without a
    [%w] verb, applied to its already formatted text; [WrapError pre e post] is
    [fmt.Errorf("pre%wpost", e)]. *)
Inductive error :=
  | NewError (msg : string)
  | SentinelError (s : sentinel)
  | SysError (no : errno)
  | WrapError (pre : string) (cause : error) (post : string).

#[global] Instance sentinel_eq_dec : EqDecision sentinel.
Proof. solve_decision. Defined.
#[global] Instance errno_eq_dec : EqDecision errno.
Proof. solve_decision. Defined.
#[global] Instance error_eq_dec : EqDecision error.
Proof. solve_decision. Defined.

(** [errno.Error()] *)
Definition errno_text (no : errno) : string :=
  match no with
  | ENOENT => "no such file or directory"
  | EEXIST => "file exists"
  | ENOTEMPTY => "directory not empty"
  | ENOTDIR => "not a directory"
  | EISDIR => "is a directory"
  | EACCES => "permission denied"
  | EINVAL => "invalid argument"
  | EIO => "input/output error"
  | ENOSPC => "no space left on device"
  end.

(** The [Error()] method: the text of the whole chain. *)
Fixpoint Error (e : error) : string :=
  match e with
  | NewError msg => msg
  | SentinelError Canceled => "context canceled"
  | SentinelError DeadlineExceeded => "context deadline exceeded"
  | SysError no => errno_text no
  | WrapError pre cause post => pre +:+ Error cause +:+ post
  end.

(** [errors.Is(e, s)] for a sentinel [s]. *)
Fixpoint error_is (e : error) (s : sentinel) : bool :=
  match e with
  | NewError _ => false
  | SentinelError s' => bool_decide (s' = s)
  | SysError _ => false
  | WrapError _ cause _ => error_is cause s
  end.

(** The errno in the chain of an error. *)
Fixpoint error_errno (e : error) : option errno :=
  match e with
  | SysError no => Some no
  | WrapError _ cause _ => error_errno cause
  | _ => None
  end.

(** [errors.Is(e, os.ErrExist)] and [errors.Is(e, os.ErrNotExist)] *)
Definition is_ErrExist (e : error) : bool :=
  match error_errno e with Some EEXIST | Some ENOTEMPTY => true | _ => false end.
Definition is_ErrNotExist (e : error) : bool :=
  match error_errno e with Some ENOENT => true | _ => false end.

(** ** Results *)

(** What a call does: it returns a value, returns a non-nil error, or panics.
    [OutOfFuel] is the answer of a fuelled definition whose fuel ran out: it is
    not a behaviour of the program. *)
Inductive res (A : Type) :=
  | Ok (a : A)
  | Err (e : error)
  | Panic (why : string)
  | OutOfFuel.
Arguments Ok {A} a.
Arguments Err {A} e.
Arguments Panic {A} why.
Arguments OutOfFuel {A}.

#[global] Instance res_eq_dec {A} `{EqDecision A} : EqDecision (res A).
Proof. solve_decision. Defined.

#[global] Instance res_ret : MRet res := @Ok.
#[global] Instance res_bind : MBind res := fun A B f m =>
  match m with
  | Ok a => f a
  | Err e => Err e
  | Panic w => Panic w
  | OutOfFuel => OutOfFuel
  end.
#[global] Instance res_fmap : FMap res := fun A B f m =>
  match m with
  | Ok a => Ok (f a)
  | Err e => Err e
  | Panic w => Panic w
  | OutOfFuel => OutOfFuel
  end.

(** [if err != nil { return fmt.Errorf("pre%w", err) }] *)
Definition wrap_err {A} (pre : string) (m : res A) : res A :=
  match m with
  | Err e => Err (WrapError pre e "")
  | _ => m
  end.

Notation "m 'or_wrap' pre" := (wrap_err pre m) (at level 65) : go_scope.
Open Scope go_scope.

Definition is_ok {A} (m : res A) : bool :=
  match m with Ok _ => true | _ => false end.

(** A result that is a Go behaviour: not an artefact of the fuel. *)
Definition decided {A} (m : res A) : bool :=
  match m with OutOfFuel => false | _ => true end.

Lemma bind_Ok {A B} (m : res A) (f : A -> res B) b :
  m ≫= f = Ok b <-> exists a, m = Ok a /\ f a = Ok b.
Proof. destruct m; cbn; naive_solver. Qed.

Lemma bind_decided {A B} (m : res A) (f : A -> res B) :
  decided m = true -> (forall a, m = Ok a -> decided (f a) = true) ->
  decided (m ≫= f) = true.
Proof. destruct m; cbn; naive_solver. Qed.

Lemma fmap_Ok {A B} (f : A -> B) (m : res A) b :
  f <$> m = Ok b <-> exists a, m = Ok a /\ b = f a.
Proof. destruct m; cbn; naive_solver. Qed.

Lemma wrap_err_Ok {A} pre (m : res A) a : (m or_wrap pre) = Ok a <-> m = Ok a.
Proof. destruct m; naive_solver. Qed.

Lemma wrap_err_Err {A} pre (m : res A) e :
  (m or_wrap pre) = Err e <-> exists e', m = Err e' /\ e = WrapError pre e' "".
Proof. destruct m; naive_solver. Qed.

Lemma wrap_err_decided {A} pre (m : res A) : decided (m or_wrap pre) = decided m.
Proof. by destruct m. Qed.

Lemma wrap_err_is_ok {A} pre (m : res A) : is_ok (m or_wrap pre) = is_ok m.
Proof. by destruct m. Qed.

Lemma is_ok_true {A} (m : res A) : is_ok m = true <-> exists a, m = Ok a.
Proof. destruct m; naive_solver. Qed.

(** Hints for results, and the tactic that inverts [do]-blocks that returned. *)
Create HintDb go.
Create Rewrite HintDb go.
#[export] Hint Resolve bind_decided : go.
#[export] Hint Rewrite @wrap_err_decided @wrap_err_is_ok : go.

Ltac inv_ok :=
  repeat match goal with
  | H : Ok _ = Ok _ |- _ => injection H as H; subst
  | H : mret _ = Ok _ |- _ => injection H as H; subst
  | H : Err _ = Ok _ |- _ => discriminate H
  | H : Panic _ = Ok _ |- _ => discriminate H
  | H : OutOfFuel = Ok _ |- _ => discriminate H
  | H : wrap_err _ _ = Ok _ |- _ => apply wrap_err_Ok in H
  | H : _ ≫= _ = Ok _ |- _ => apply bind_Ok in H as (? & ? & H)
  | H : _ <$> _ = Ok _ |- _ => apply fmap_Ok in H as (? & ? & H)
  | H : exists _, _ |- _ => destruct H
  | H : _ /\ _ |- _ => destruct H
  end.

(** ** Ranging over a Go map *)

(** The order in which [for k, v := range m] visits a map is not specified:
    the definitions that range over a map take it from this interface, and the
    theorems hold for every instance. *)
Class MapRange := {
  map_range : forall {A}, gmap string A -> list (string * A);
  map_range_perm : forall A (m : gmap string A), map_range m ≡ₚ map_to_list m
}.

(** The instance that evaluates. *)
Definition canonical_range : MapRange :=
  {| map_range := fun A m => map_to_list m; map_range_perm := fun A m => reflexivity _ |}.

(** The instance that visits the entries in the opposite order. *)
Lemma reverse_perm A (m : gmap string A) : reverse (map_to_list m) ≡ₚ map_to_list m.
Proof. apply reverse_Permutation. Qed.
Definition reverse_range : MapRange :=
  {| map_range := fun A m => reverse (map_to_list m); map_range_perm := reverse_perm |}.

(** [for k, v := range l { r, err := f(k, v); if err != nil { return err };
    out[k] = r }] *)
Fixpoint range_build {A B} (f : string -> A -> res B) (l : list (string * A))
    (out : gmap string B) : res (gmap string B) :=
  match l with
  | [] => Ok out
  | (k, v) :: l' => r ← f k v; range_build f l' (<[k := r]> out)
  end.

(** [for k, v := range l { if err := f(k, v); err != nil { return err } }] *)
Fixpoint range_check {A} (f : string -> A -> res unit) (l : list (string * A)) : res unit :=
  match l with
  | [] => Ok tt
  | (k, v) :: l' => _ ← f k v; range_check f l'
  end.

(** [for _, x := range l { y, err := f(x); ...; out = append(out, y) }] *)
Fixpoint slice_map {A B} (f : A -> res B) (l : list A) : res (list B) :=
  match l with
  | [] => Ok []
  | x :: l' => y ← f x; ys ← slice_map f l'; Ok (y :: ys)
  end.

Section ranges.
  Context `{MR : MapRange}.

Definition range_map {A B} (f : string -> A -> res B) (m : gmap string A) :
    res (gmap string B) := range_build f (map_range m) ∅.

Definition range_all {A} (f : string -> A -> res unit) (m : gmap string A) : res unit :=
  range_check f (map_range m).

Lemma elem_of_map_range {A} (m : gmap string A) k v :
  (k, v) ∈ map_range m <-> m !! k = Some v.
Proof. rewrite map_range_perm. apply elem_of_map_to_list. Qed.

Lemma map_range_NoDup {A} (m : gmap string A) : NoDup (map_range m).*1.
Proof. rewrite map_range_perm. apply NoDup_fst_map_to_list. Qed.

Lemma map_range_empty {A} : map_range (∅ : gmap string A) = [].
Proof.
  apply Permutation_nil_r. rewrite map_range_perm, map_to_list_empty. done.
Qed.
End ranges.

Lemma range_build_Ok {A B} (f : string -> A -> res B) l acc out :
  NoDup l.*1 ->
  range_build f l acc = Ok out <->
  (forall k v, (k, v) ∈ l -> exists r, f k v = Ok r /\ out !! k = Some r) /\
  (forall k, k ∉ l.*1 -> out !! k = acc !! k).
Proof.
  revert acc. induction l as [|[k v] l IH]; cbn; intros acc Hnd.
  - split.
    + intros [= ->]. split; [|done]. intros k v Hin. by apply not_elem_of_nil in Hin.
    + intros [_ H]. f_equal. apply map_eq. intros k. symmetry. apply H. apply not_elem_of_nil.
  - apply NoDup_cons in Hnd as [Hk Hnd]. rewrite bind_Ok. split.
    + intros (r & Hr & Hb). apply IH in Hb as [H1 H2]; [|done]. split.
      * intros k' v' [[= -> ->]|Hin]%elem_of_cons; [|by apply H1].
        exists r. split; [done|]. rewrite (H2 k) by done. apply lookup_insert_eq.
      * intros k' Hk'. apply not_elem_of_cons in Hk' as [Hne Hk'].
        rewrite H2 by done. by rewrite lookup_insert_ne.
    + intros [H1 H2]. destruct (H1 k v) as (r & Hr & Hout); [left|].
      exists r. split; [done|]. apply IH; [done|]. split.
      * intros k' v' Hin. apply H1. by right.
      * intros k' Hk'. destruct (decide (k' = k)) as [->|Hne].
        -- by rewrite lookup_insert_eq.
        -- rewrite lookup_insert_ne by done. apply H2. by apply not_elem_of_cons.
Qed.

Lemma range_build_fail {A B} (f : string -> A -> res B) l acc :
  is_ok (range_build f l acc) = false ->
  exists k v, (k, v) ∈ l /\ (f k v ≫= fun _ => Ok acc) = range_build f l acc /\
    is_ok (f k v) = false.
Proof.
  revert acc. induction l as [|[k v] l IH]; cbn; intros acc; [done|].
  destruct (f k v) as [r| | |] eqn:Hf; cbn; intros H.
  - destruct (IH _ H) as (k' & v' & Hin & He & Hn). exists k', v'.
    split; [by right|]. rewrite <- He. by destruct (f k' v').
  - exists k, v. rewrite Hf. split; [left|done].
  - exists k, v. rewrite Hf. split; [left|done].
  - exists k, v. rewrite Hf. split; [left|done].
Qed.

Lemma range_check_Ok {A} (f : string -> A -> res unit) l :
  range_check f l = Ok tt <-> forall k v, (k, v) ∈ l -> f k v = Ok tt.
Proof.
  induction l as [|[k v] l IH]; cbn.
  - split; [|done]. intros _ k v Hin. by apply not_elem_of_nil in Hin.
  - rewrite bind_Ok. split.
    + intros ([] & Hf & Hl) k' v' [[= -> ->]|Hin]%elem_of_cons; [done|]. by apply IH.
    + intros H. exists tt. split; [apply H; left|]. apply IH. intros. apply H. by right.
Qed.

Lemma range_check_fail {A} (f : string -> A -> res unit) l :
  is_ok (range_check f l) = false ->
  exists k v, (k, v) ∈ l /\ f k v = range_check f l.
Proof.
  induction l as [|[k v] l IH]; cbn; [done|].
  destruct (f k v) as [[]| | |] eqn:Hf; cbn; intros H.
  2-4: exists k, v; rewrite Hf; split; [left|done].
  destruct (IH H) as (k' & v' & Hin & He). exists k', v'. split; [by right|done].
Qed.

Section range_facts.
  Context `{MR : MapRange}.

(** A range over a map that builds a map succeeds exactly when the body does
    on every entry, whatever the order; the result has the same keys. *)
Lemma range_map_Ok {A B} (f : string -> A -> res B) m out :
  range_map f m = Ok out <->
  forall k, match m !! k, out !! k with
            | Some v, Some r => f k v = Ok r
            | None, None => True
            | _, _ => False
            end.
Proof.
  unfold range_map. rewrite range_build_Ok by apply map_range_NoDup. split.
  - intros [H1 H2] k. destruct (m !! k) as [v|] eqn:Hm.
    + destruct (H1 k v) as (r & Hr & ->); [by apply elem_of_map_range|done].
    + rewrite H2; [by rewrite lookup_empty|].
      intros ([k' v] & -> & Hin)%list_elem_of_fmap.
      apply elem_of_map_range in Hin. cbn in *. congruence.
  - intros H. split.
    + intros k v Hin%elem_of_map_range. specialize (H k). rewrite Hin in H.
      destruct (out !! k) as [r|]; [eauto|done].
    + intros k Hk. rewrite lookup_empty. specialize (H k).
      destruct (m !! k) as [v|] eqn:Hm, (out !! k); try done.
      destruct Hk. apply list_elem_of_fmap. exists (k, v).
      split; [done|by apply elem_of_map_range].
Qed.

Lemma range_map_fail {A B} (f : string -> A -> res B) m :
  is_ok (range_map f m) = false ->
  exists k v, m !! k = Some v /\ (f k v ≫= fun _ => Ok ∅) = range_map f m /\
    is_ok (f k v) = false.
Proof.
  intros (k & v & Hin & He)%range_build_fail. exists k, v.
  split; [by apply elem_of_map_range|done].
Qed.

Lemma range_all_Ok {A} (f : string -> A -> res unit) m :
  range_all f m = Ok tt <-> map_Forall (fun k v => f k v = Ok tt) m.
Proof.
  unfold range_all. rewrite range_check_Ok. split.
  - intros H k v Hm. apply H. by apply elem_of_map_range.
  - intros H k v Hin. apply H. by apply elem_of_map_range.
Qed.

Lemma range_all_fail {A} (f : string -> A -> res unit) m :
  is_ok (range_all f m) = false -> exists k v, m !! k = Some v /\ f k v = range_all f m.
Proof.
  intros (k & v & Hin & He)%range_check_fail. exists k, v.
  split; [by apply elem_of_map_range|done].
Qed.

Lemma range_map_lookup {A B} (f : string -> A -> res B) m out k :
  range_map f m = Ok out ->
  match m !! k, out !! k with
  | Some v, Some r => f k v = Ok r
  | None, None => True
  | _, _ => False
  end.
Proof. intros H. by apply range_map_Ok. Qed.

Lemma range_map_is_ok {A B} (f : string -> A -> res B) m :
  is_ok (range_map f m) = true <-> map_Forall (fun k v => is_ok (f k v) = true) m.
Proof.
  split.
  - intros [out H]%is_ok_true k v Hm. pose proof (range_map_lookup f m out k H) as Hk.
    rewrite Hm in Hk. destruct (out !! k); [|done]. by rewrite Hk.
  - intros H. destruct (is_ok (range_map f m)) eqn:E; [done|].
    destruct (range_map_fail f m E) as (k & v & Hm & _ & Hn).
    rewrite (H k v Hm) in Hn. done.
Qed.

Lemma range_map_total {A B} (f : string -> A -> B) m :
  range_map (fun k v => Ok (f k v)) m = Ok (map_imap (fun k v => Some (f k v)) m).
Proof.
  apply range_map_Ok. intros k. rewrite map_lookup_imap. by destruct (m !! k).
Qed.
End range_facts.

(** The successful outcome of such a range does not depend on the order. *)
Lemma range_map_order {A B} (R1 R2 : MapRange) (f : string -> A -> res B) m out :
  @range_map R1 A B f m = Ok out -> @range_map R2 A B f m = Ok out.
Proof. rewrite !range_map_Ok. done. Qed.

Lemma slice_map_Ok {A B} (f : A -> res B) l out :
  slice_map f l = Ok out <-> Forall2 (fun x y => f x = Ok y) l out.
Proof.
  revert out. induction l as [|x l IH]; cbn; intros out.
  - split; [intros [= <-]; constructor|]. by inversion 1.
  - rewrite bind_Ok. split.
    + intros (y & Hy & (ys & Hys & [= <-])%bind_Ok). constructor; [done|]. by apply IH.
    + inversion 1 as [|? y ? ys Hy Hys]; subst. exists y. split; [done|].
      apply bind_Ok. exists ys. split; [by apply IH|done].
Qed.

(** ** Decided results *)

Lemma slice_map_decided {A B} (f : A -> res B) l :
  (forall x, x ∈ l -> decided (f x) = true) -> decided (slice_map f l) = true.
Proof.
  induction l as [|x l IH]; [done|]. intros H. cbn [slice_map].
  apply bind_decided; [apply H; left|]. intros y _.
  apply bind_decided; [apply IH; intros; apply H; by right|done].
Qed.

Lemma range_map_decided `{MR : MapRange} {A B} (f : string -> A -> res B) m :
  (forall k v, decided (f k v) = true) -> decided (range_map f m) = true.
Proof.
  intros H. unfold range_map. generalize (∅ : gmap string B).
  induction (map_range m) as [|[k v] l IH]; intros out; [done|]. cbn. apply bind_decided; auto.
Qed.

Lemma range_all_decided `{MR : MapRange} {A} (f : string -> A -> res unit) m :
  (forall k v, decided (f k v) = true) -> decided (range_all f m) = true.
Proof.
  intros H. unfold range_all. induction (map_range m) as [|[k v] l IH]; [done|].
  cbn. apply bind_decided; auto.
Qed.

Lemma fmap_decided {A B} (f : A -> B) (m : res A) : decided (f <$> m) = decided m.
Proof. by destruct m. Qed.

#[export] Hint Resolve slice_map_decided range_map_decided range_all_decided : go.

(** Proves that a result is decided by walking through the code that computes it;
    the calls are left to the hints. *)
Ltac walk_decided :=
  repeat first
    [ progress intros
    | lazymatch goal with
      | |- decided (@mbind res res_bind _ _ _ _) = true => apply bind_decided
      | |- decided (@fmap res res_fmap _ _ _ _) = true => rewrite fmap_decided
      | |- decided (wrap_err _ _) = true => rewrite wrap_err_decided
      | |- decided (range_map _ _) = true => apply range_map_decided
      | |- decided (range_all _ _) = true => apply range_all_decided
      | |- decided (Ok _) = true => reflexivity
      | |- decided (Err _) = true => reflexivity
      | |- decided (Panic _) = true => reflexivity
      | |- decided (match ?x with _ => _ end) = true => destruct x
      end
    | solve [auto with go] ].

(** ** Transition sequences *)

(** Reflexive transitive closure of a labelled step relation, with the labels
    in order. *)
Inductive steps {S L} (step : S -> L -> S -> Prop) : S -> list L -> S -> Prop :=
  | steps_nil s : steps step s [] s
  | steps_cons s l s' ls s'' :
      step s l s' -> steps step s' ls s'' -> steps step s (l :: ls) s''.

Lemma steps_app {S L} (step : S -> L -> S -> Prop) s ls s' ls' s'' :
  steps step s ls s' -> steps step s' ls' s'' -> steps step s (ls ++ ls') s''.
Proof. induction 1; cbn; [done|]. econstructor; eauto. Qed.

Lemma steps_invariant {S L} (step : S -> L -> S -> Prop) (I : S -> Prop) :
  (forall s l s', I s -> step s l s' -> I s') ->
  forall s ls s', I s -> steps step s ls s' -> I s'.
Proof. intros Hp s ls s' HI Hs. induction Hs; eauto. Qed.

(** The same with an invariant of the labels so far and the state. *)
Lemma steps_trace_invariant {S L} (step : S -> L -> S -> Prop) (I : list L -> S -> Prop) :
  (forall ls s l s', I ls s -> step s l s' -> I (ls ++ [l]) s') ->
  forall s ls s', I [] s -> steps step s ls s' -> I ls s'.
Proof.
  intros Hp s ls s' HI Hs. change ls with ([] ++ ls). revert HI. generalize (@nil L).
  induction Hs as [s|s l s1 ls s2 H1 _ IH]; intros pre HI; [by rewrite app_nil_r|].
  rewrite (cons_middle l pre ls), app_assoc. apply IH. by eapply Hp.
Qed.

(** Executes the labels in order, for a step that is a function. *)
Fixpoint run_labels {S L} (f : S -> L -> option S) (s : S) (ls : list L) : option S :=
  match ls with
  | [] => Some s
  | l :: ls => s' ← f s l; run_labels f s' ls
  end.

Lemma run_labels_steps {S L} (f : S -> L -> option S) s ls s' :
  run_labels f s ls = Some s' <-> steps (fun s l s' => f s l = Some s') s ls s'.
Proof.
  revert s. induction ls as [|l ls IH]; intros s; cbn.
  - split; [intros [= ->]; constructor|by inversion 1].
  - split.
    + intros (s1 & H1 & H2)%bind_Some. econstructor; [exact H1|by apply IH].
    + inversion 1; subst. apply bind_Some. eexists. split; [eassumption|by apply IH].
Qed.

#[export] Hint Constructors steps : go.
