(* ===== verification/GoStrings.v ===== *)
(** The functions of Go's [strings], [strconv], [unicode/utf8] and [bufio]
    packages the code uses, over byte strings, with the lemmas the components
    share.  A Go [string] is a [string] of bytes. *)

From stdpp Require Import gmap strings list pretty.
From S2P Require Import Prelude.
Open Scope go_scope.
Open Scope string_scope.
#[global] Arguments String.append : simpl nomatch.

(** ** Bytes and characters *)

(** The double quote, which the string literals below cannot hold. *)
Definition dquote : string := String "034"%char EmptyString.
Definition newline : string := String "010"%char EmptyString.

Definition byte_of (c : Ascii.ascii) : N := Ascii.N_of_ascii c.

(** The ASCII bytes of [unicode.IsSpace]. *)
Definition is_space_byte (c : Ascii.ascii) : bool :=
  let n := byte_of c in ((9 <=? n) && (n <=? 13) || (n =? 32))%N.

(** The two- and three-byte UTF-8 encodings of [unicode.IsSpace]: U+0085,
    U+00A0; U+1680, U+2000 to U+200A, U+2028, U+2029, U+202F, U+205F, U+3000. *)
Definition is_space_rune2 (a b : Ascii.ascii) : bool :=
  ((byte_of a =? 194) && ((byte_of b =? 133) || (byte_of b =? 160)))%N.
Definition is_space_rune3 (a b c : Ascii.ascii) : bool :=
  let '(x, y, z) := (byte_of a, byte_of b, byte_of c) in
  ((x =? 225) && (y =? 154) && (z =? 128)
   || (x =? 226) && (y =? 128) && ((128 <=? z) && (z <=? 138) || (z =? 168) || (z =? 169) || (z =? 175))
   || (x =? 226) && (y =? 129) && (z =? 159)
   || (x =? 227) && (y =? 128) && (z =? 128))%N.

Fixpoint trim_left_by (p2 : Ascii.ascii -> Ascii.ascii -> bool)
    (p3 : Ascii.ascii -> Ascii.ascii -> Ascii.ascii -> bool) (s : string) : string :=
  match s with
  | "" => ""
  | String a s1 =>
      if is_space_byte a then trim_left_by p2 p3 s1 else
      match s1 with
      | String b s2 =>
          if p2 a b then trim_left_by p2 p3 s2 else
          match s2 with
          | String c s3 => if p3 a b c then trim_left_by p2 p3 s3 else s
          | "" => s
          end
      | "" => s
      end
  end.

Definition trim_left : string -> string := trim_left_by is_space_rune2 is_space_rune3.
Definition trim_right (s : string) : string :=
  String.rev (trim_left_by (fun a b => is_space_rune2 b a) (fun a b c => is_space_rune3 c b a)
                (String.rev s)).

(** [strings.TrimSpace] *)
Definition TrimSpace (s : string) : string := trim_right (trim_left s).

(** [strings.ToLower].  ASCII letters, and the two other letters whose lower
    case is ASCII (U+0130 and U+212A), are mapped; other runes are kept, which
    no comparison of the code can tell from their lower case. *)
Fixpoint ToLower (s : string) : string :=
  match s with
  | "" => ""
  | String a s1 =>
      let n := byte_of a in
      if ((65 <=? n) && (n <=? 90))%N then String (Ascii.ascii_of_N (n + 32)) (ToLower s1) else
      match s1 with
      | String b s2 =>
          if ((n =? 196) && (byte_of b =? 176))%N then String "i"%char (ToLower s2) else
          match s2 with
          | String c s3 =>
              if ((n =? 226) && (byte_of b =? 132) && (byte_of c =? 170))%N
              then String "k"%char (ToLower s3) else String a (ToLower s1)
          | "" => String a (ToLower s1)
          end
      | "" => String a (ToLower s1)
      end
  end.

(** ** Searching and splitting *)

(** [strings.CutPrefix(s, p)] *)
Fixpoint cut_prefix (p s : string) : option string :=
  match p, s with
  | "", _ => Some s
  | String a p', String b s' => if Ascii.eqb a b then cut_prefix p' s' else None
  | String _ _, "" => None
  end.

(** [strings.HasPrefix(s, p)] *)
Definition HasPrefix (s p : string) : bool :=
  match cut_prefix p s with Some _ => true | None => false end.

(** [strings.TrimPrefix(s, p)] *)
Definition TrimPrefix (s p : string) : string := default s (cut_prefix p s).

(** [strings.HasSuffix(s, p)] *)
Definition HasSuffix (s p : string) : bool := HasPrefix (String.rev s) (String.rev p).

(** [strings.Contains(s, sub)] *)
Fixpoint Contains (s sub : string) : bool :=
  HasPrefix s sub || match s with "" => false | String _ s' => Contains s' sub end.

(** [strings.Cut(s, sep)]: the text before and after the first [sep]. *)
Fixpoint cut_at (sep s : string) : option (string * string) :=
  match cut_prefix sep s with
  | Some rest => Some ("", rest)
  | None => match s with
            | "" => None
            | String c s' => match cut_at sep s' with
                             | Some (b, r) => Some (String c b, r)
                             | None => None
                             end
            end
  end.
Definition Cut (s sep : string) : string * string * bool :=
  match cut_at sep s with
  | Some (b, r) => (b, r, true)
  | None => (s, "", false)
  end.

(** [strings.Split(s, sep)] for a non-empty [sep].  [skip] counts the bytes of
    a separator already recognised. *)
Fixpoint split_go (sep : string) (skip : nat) (s : string) : string * list string :=
  match s with
  | "" => ("", [])
  | String c s' =>
      match skip with
      | S k => split_go sep k s'
      | O => if HasPrefix s sep
             then let '(p, ps) := split_go sep (String.length sep - 1) s' in ("", p :: ps)
             else let '(p, ps) := split_go sep 0 s' in (String c p, ps)
      end
  end.
Definition Split (s sep : string) : list string :=
  let '(p, ps) := split_go sep 0 s in p :: ps.

(** [strings.Join(elems, sep)] *)
Fixpoint Join (l : list string) (sep : string) : string :=
  match l with
  | [] => ""
  | [x] => x
  | x :: l' => x +:+ sep +:+ Join l' sep
  end.

(** [s[i:j]] *)
Definition slice (s : string) (i j : nat) : string := String.substring i (j - i) s.

(** [s[i:]] *)
Definition slice_from (s : string) (i : nat) : string := slice s i (String.length s).

(** ** Formatting *)

(** One hexadecimal digit, as [%x] prints it. *)
Definition hex_digit (n : N) : Ascii.ascii :=
  Ascii.ascii_of_N (if (n <? 10)%N then 48 + n else 87 + n)%N.

(** One byte under [strconv.Quote]: bytes from 128 on are kept, which is what
    it does for the bytes of a printable character. *)
Definition quote_byte (c : Ascii.ascii) : string :=
  let n := byte_of c in
  let esc (x : Ascii.ascii) := String "\"%char (String x EmptyString) in
  if (n =? 34)%N then esc c
  else if (n =? 92)%N then esc c
  else if (n =? 7)%N then esc "a"%char
  else if (n =? 8)%N then esc "b"%char
  else if (n =? 12)%N then esc "f"%char
  else if (n =? 10)%N then esc "n"%char
  else if (n =? 13)%N then esc "r"%char
  else if (n =? 9)%N then esc "t"%char
  else if (n =? 11)%N then esc "v"%char
  else if ((n <? 32) || (n =? 127))%N
       then String "\"%char (String "x"%char (String (hex_digit (n / 16)) (String (hex_digit (n mod 16)) EmptyString)))
  else String c EmptyString.

Fixpoint quote_body (s : string) : string :=
  match s with
  | "" => ""
  | String c s' => quote_byte c +:+ quote_body s'
  end.

(** [strconv.Quote(s)], the verb [%q] *)
Definition quote (s : string) : string := dquote +:+ quote_body s +:+ dquote.

(** The verb [%d] *)
Definition itoa (z : Z) : string := pretty z.

(** [strconv.FormatBool] *)
Definition FormatBool (b : bool) : string := if b then "true" else "false".

(** ** UTF-8 *)

(** [utf8.ValidString]: [need] continuation bytes are still missing, the next
    one in the range [lo .. hi]. *)
Fixpoint utf8_go (need : nat) (lo hi : N) (s : string) : bool :=
  match s with
  | "" => match need with O => true | _ => false end
  | String c s' =>
      let n := byte_of c in
      match need with
      | S k => ((lo <=? n) && (n <=? hi))%N && utf8_go k 128 191 s'
      | O => if (n <? 128)%N then utf8_go 0 128 191 s'
             else if ((194 <=? n) && (n <=? 223))%N then utf8_go 1 128 191 s'
             else if (n =? 224)%N then utf8_go 2 160 191 s'
             else if (n =? 237)%N then utf8_go 2 128 159 s'
             else if ((225 <=? n) && (n <=? 239))%N then utf8_go 2 128 191 s'
             else if (n =? 240)%N then utf8_go 3 144 191 s'
             else if (n =? 244)%N then utf8_go 3 128 143 s'
             else if ((241 <=? n) && (n <=? 243))%N then utf8_go 3 128 191 s'
             else false
      end
  end.
Definition utf8_valid (s : string) : bool := utf8_go 0 128 191 s.

(** ** [bufio.Scanner] with [bufio.ScanLines] *)

(** [bufio.MaxScanTokenSize]: the buffer never grows past it, so a line that
    fills the buffer before its newline is seen makes [Scan] return false. *)
Definition MaxScanTokenSize : N := 65536.

(** [dropCR] *)
Definition dropCR (s : string) : string :=
  match String.rev s with
  | String "013"%char r => String.rev r
  | _ => s
  end.

(** The successive [Text()]s of a scanner over [s] and whether it stopped with
    [bufio.ErrTooLong].  [cur] is the pending line, reversed, and [n] its length. *)
Fixpoint scan_go (cur : string) (n : N) (s : string) : list string * bool :=
  match s with
  | "" => match cur with
          | "" => ([], false)
          | _ => ([dropCR (String.rev cur)], false)
          end
  | String c s' =>
      if (byte_of c =? 10)%N
      then let '(ls, e) := scan_go "" 0 s' in (dropCR (String.rev cur) :: ls, e)
      else if (n + 1 <? MaxScanTokenSize)%N then scan_go (String c cur) (n + 1) s'
      else ([], true)
  end.
Definition scan_lines (s : string) : list string * bool := scan_go "" 0 s.

(** Lines, each ended by a newline. *)
Fixpoint log_text (lines : list string) : string :=
  match lines with
  | [] => ""
  | l :: lines' => l +:+ newline +:+ log_text lines'
  end.

(** ** Lemmas *)

Lemma string_app_assoc (a b c : string) : (a +:+ b) +:+ c = a +:+ b +:+ c.
Proof. induction a as [|x a IH]; cbn; [done|]. by rewrite IH. Qed.

Lemma string_app_nil_r (a : string) : a +:+ "" = a.
Proof. induction a as [|x a IH]; cbn; [done|]. by rewrite IH. Qed.

Lemma string_concat_cons p ps : String.concat "" (p :: ps) = p +:+ String.concat "" ps.
Proof. destruct ps as [|q qs]; cbn; [by rewrite string_app_nil_r|done]. Qed.

Lemma string_app_cons (c : Ascii.ascii) (a b : string) : String c a +:+ b = String c (a +:+ b).
Proof. done. Qed.

Lemma string_length_app (a b : string) :
  String.length (a +:+ b) = String.length a + String.length b.
Proof. induction a as [|x a IH]; cbn; [done|]. by rewrite IH. Qed.

Lemma cut_prefix_app p s : cut_prefix p (p +:+ s) = Some s.
Proof. induction p as [|a p IH]; cbn; [done|]. by rewrite Ascii.eqb_refl. Qed.

Lemma cut_prefix_Some p s r : cut_prefix p s = Some r <-> s = p +:+ r.
Proof.
  split; [|intros ->; apply cut_prefix_app].
  revert s. induction p as [|a p IH]; intros s; cbn; [congruence|].
  destruct s as [|b s]; [done|]. destruct (Ascii.eqb_spec a b) as [->|]; [|done].
  intros H. by rewrite (IH s).
Qed.

Lemma HasPrefix_spec s p : HasPrefix s p = true <-> exists r, s = p +:+ r.
Proof.
  unfold HasPrefix. destruct (cut_prefix p s) as [r|] eqn:E.
  - split; [|done]. intros _. exists r. by apply cut_prefix_Some.
  - split; [done|]. intros [r ->]. by rewrite cut_prefix_app in E.
Qed.

Lemma rev_app_spec s1 s2 : String.rev_app s1 s2 = String.rev s1 +:+ s2.
Proof.
  unfold String.rev. revert s2. induction s1 as [|c s1 IH]; intros s2; cbn; [done|].
  rewrite (IH (String c s2)), (IH (String c "")), string_app_assoc. done.
Qed.

Lemma rev_cons c s : String.rev (String c s) = String.rev s +:+ String c "".
Proof. unfold String.rev at 1. cbn. apply rev_app_spec. Qed.

Lemma rev_string_app a b : String.rev (a +:+ b) = String.rev b +:+ String.rev a.
Proof.
  induction a as [|c a IH].
  - by rewrite string_app_nil_r.
  - rewrite string_app_cons, !rev_cons, IH, string_app_assoc. done.
Qed.

Lemma rev_involutive s : String.rev (String.rev s) = s.
Proof. induction s as [|c s IH]; [done|]. by rewrite rev_cons, rev_string_app, IH. Qed.

Lemma HasSuffix_spec s p : HasSuffix s p = true <-> exists r, s = r +:+ p.
Proof.
  unfold HasSuffix. rewrite HasPrefix_spec. split.
  - intros [r Hr]. exists (String.rev r).
    rewrite <- (rev_involutive s), Hr, rev_string_app, rev_involutive. done.
  - intros [r ->]. exists (String.rev r). apply rev_string_app.
Qed.

Lemma Contains_spec s sub : Contains s sub = true <-> exists a b, s = a +:+ sub +:+ b.
Proof.
  induction s as [|c s IH]; cbn [Contains].
  - rewrite orb_false_r, HasPrefix_spec. split.
    + intros [r Hr]. exists "", r. done.
    + intros (a & b & Hs). destruct a; [|done]. by exists b.
  - rewrite orb_true_iff, HasPrefix_spec, IH. split.
    + intros [[r Hr]|(a & b & ->)]; [by exists "", r|]. by exists (String c a), b.
    + intros (a & b & Hs). destruct a as [|x a]; [left; by exists b|right].
      injection Hs as -> ->. by exists a, b.
Qed.

Lemma cut_at_Some sep s b r : cut_at sep s = Some (b, r) -> s = b +:+ sep +:+ r.
Proof.
  revert b. induction s as [|c s IH]; intros b; cbn.
  - destruct (cut_prefix sep "") as [x|] eqn:E; [|done].
    intros [= <- <-]. by apply cut_prefix_Some in E.
  - destruct (cut_prefix sep (String c s)) as [x|] eqn:E.
    + intros [= <- <-]. by apply cut_prefix_Some in E.
    + destruct (cut_at sep s) as [[b' r']|]; [|done]. intros [= <- <-].
      rewrite (IH b') by done. done.
Qed.

Lemma cut_at_None sep s : cut_at sep s = None <-> Contains s sep = false.
Proof.
  induction s as [|c s IH]; cbn [cut_at Contains]; unfold HasPrefix.
  - by destruct (cut_prefix sep "").
  - destruct (cut_prefix sep (String c s)); [done|]. cbn [orb]. rewrite <- IH.
    destruct (cut_at sep s) as [[??]|]; split; congruence.
Qed.

(** The bytes a separator leaves to skip are its own. *)
Lemma split_go_skip sep k s :
  k <= String.length s ->
  split_go sep k s = split_go sep 0 (String.substring k (String.length s - k) s).
Proof.
  revert s. induction k as [|k IH]; intros s Hk.
  - rewrite Nat.sub_0_r. f_equal. induction s as [|c s IHs]; cbn; [done|].
    cbn in Hk. f_equal. apply IHs. lia.
  - destruct s as [|c s]; cbn in *; [lia|]. apply IH. lia.
Qed.

Lemma substring_app_r a b k :
  String.substring (String.length a) k (a +:+ b) = String.substring 0 k b.
Proof. induction a as [|c a IH]; cbn; [done|]. apply IH. Qed.

Lemma substring_full s k : String.length s <= k -> String.substring 0 k s = s.
Proof.
  revert k. induction s as [|c s IH]; intros [|k] Hk; cbn in *; try done; try lia.
  f_equal. apply IH. lia.
Qed.

Lemma split_go_app sep r :
  sep <> "" -> split_go sep 0 (sep +:+ r) = ("", (split_go sep 0 r).1 :: (split_go sep 0 r).2).
Proof.
  intros Hsep. destruct sep as [|c sep]; [done|].
  rewrite string_app_cons. cbn [split_go].
  replace (HasPrefix (String c (sep +:+ r)) (String c sep)) with true
    by (symmetry; apply HasPrefix_spec; by exists r).
  cbn [String.length]. rewrite Nat.sub_succ, Nat.sub_0_r.
  rewrite split_go_skip by (rewrite string_length_app; lia).
  rewrite substring_app_r, substring_full by (rewrite string_length_app; lia).
  by destruct (split_go _ 0 r).
Qed.

(** [strings.Split] and [strings.Join] are inverse to each other. *)
Lemma Join_Split s sep : sep <> "" -> Join (Split s sep) sep = s.
Proof.
  intros Hsep. unfold Split.
  enough (forall n s, String.length s <= n ->
    Join ((split_go sep 0 s).1 :: (split_go sep 0 s).2) sep = s) as H.
  { specialize (H (String.length s) s). by destruct (split_go sep 0 s); apply H. }
  clear s. induction n as [|n IH]; intros s Hn.
  - destruct s; cbn in *; [done|lia].
  - destruct (HasPrefix s sep) eqn:Hp.
    + apply HasPrefix_spec in Hp as [r ->]. rewrite split_go_app by done. cbn [fst snd].
      change (sep +:+ Join ((split_go sep 0 r).1 :: (split_go sep 0 r).2) sep = sep +:+ r).
      rewrite string_length_app in Hn. rewrite IH; [done|].
      destruct sep; [done|]. cbn in Hn. lia.
    + destruct s as [|c s]; [done|]. cbn [split_go]. rewrite Hp.
      cbn in Hn. specialize (IH s ltac:(lia)).
      destruct (split_go sep 0 s) as [p ps]. cbn [fst snd] in *.
      rewrite <- IH. by destruct ps.
Qed.

Lemma split_go_no_sep sep s :
  Contains s sep = false -> split_go sep 0 s = (s, []).
Proof.
  induction s as [|c s IH]; [done|]. cbn [Contains]. intros [Hp Hc]%orb_false_iff.
  cbn [split_go]. rewrite Hp, IH by done. done.
Qed.

Lemma Split_no_sep s sep : Contains s sep = false -> Split s sep = [s].
Proof. intros H. unfold Split. by rewrite split_go_no_sep. Qed.

Lemma Split_cons x sep r :
  String.length sep = 1 -> Contains x sep = false -> Split (x +:+ sep +:+ r) sep = x :: Split r sep.
Proof.
  intros Hsep Hx. unfold Split.
  assert (sep <> "") as Hne by (by destruct sep).
  enough (split_go sep 0 (x +:+ sep +:+ r) = (x, (split_go sep 0 r).1 :: (split_go sep 0 r).2)) as ->.
  { by destruct (split_go sep 0 r). }
  induction x as [|c x IH]; [exact (split_go_app sep r Hne)|].
  rewrite string_app_cons. cbn [Contains] in Hx. apply orb_false_iff in Hx as [Hp Hc].
  cbn [split_go]. replace (HasPrefix (String c (x +:+ sep +:+ r)) sep) with false.
  - by rewrite IH.
  - symmetry. destruct sep as [|a [|]]; try done. unfold HasPrefix in *. cbn in *.
    by destruct (Ascii.eqb a c).
Qed.

#[global] Arguments utf8_valid : simpl never.
#[global] Arguments quote : simpl never.
#[global] Arguments TrimSpace : simpl never.
#[global] Arguments itoa : simpl never.

(** ** Visible text *)

Fixpoint all_bytes (f : Ascii.ascii -> bool) (s : string) : bool :=
  match s with
  | "" => true
  | String c s' => f c && all_bytes f s'
  end.

(** A printable ASCII character other than the space. *)
Definition visible (c : Ascii.ascii) : bool := ((33 <=? byte_of c) && (byte_of c <=? 126))%N.

Lemma visible_range c : visible c = true -> (33 <= byte_of c <= 126)%N.
Proof. unfold visible. rewrite andb_true_iff, !N.leb_le. done. Qed.

Lemma all_bytes_app f a b : all_bytes f (a +:+ b) = all_bytes f a && all_bytes f b.
Proof. induction a as [|c a IH]; cbn; [done|]. by rewrite IH, andb_assoc. Qed.

Lemma all_bytes_rev f s : all_bytes f (String.rev s) = all_bytes f s.
Proof.
  induction s as [|c s IH]; [done|]. rewrite rev_cons, all_bytes_app, IH. cbn.
  by rewrite andb_true_r, andb_comm.
Qed.

Lemma all_bytes_impl (f g : Ascii.ascii -> bool) s :
  (forall c, f c = true -> g c = true) -> all_bytes f s = true -> all_bytes g s = true.
Proof.
  intros H. induction s as [|c s IH]; [done|]. cbn. rewrite !andb_true_iff. naive_solver.
Qed.

Lemma rune2_not_visible a b : visible a = true -> is_space_rune2 a b = false.
Proof.
  intros H%visible_range. unfold is_space_rune2.
  destruct (N.eqb_spec (byte_of a) 194); [lia|done].
Qed.

Lemma rune3_not_visible a b c : visible a = true -> is_space_rune3 a b c = false.
Proof.
  intros H%visible_range. unfold is_space_rune3.
  destruct (N.eqb_spec (byte_of a) 225); [lia|].
  destruct (N.eqb_spec (byte_of a) 226); [lia|].
  destruct (N.eqb_spec (byte_of a) 227); [lia|done].
Qed.

Lemma space_not_visible a : visible a = true -> is_space_byte a = false.
Proof.
  intros H%visible_range. unfold is_space_byte.
  apply orb_false_iff. split; [apply andb_false_iff; right; apply N.leb_gt|apply N.eqb_neq]; lia.
Qed.

Lemma trim_left_by_visible p2 p3 s :
  (forall a b, visible a = true -> visible b = true -> p2 a b = false) ->
  (forall a b c, visible a = true -> visible b = true -> visible c = true -> p3 a b c = false) ->
  all_bytes visible s = true -> trim_left_by p2 p3 s = s.
Proof.
  intros H2 H3 Hs. destruct s as [|a [|b [|c s]]]; [done|..]; cbn in Hs;
    repeat (apply andb_true_iff in Hs as [? Hs]); cbn [trim_left_by];
    rewrite space_not_visible by done; [done|..]; rewrite H2 by done; [done|].
  by rewrite H3.
Qed.

(** Trimming visible text changes nothing. *)
Lemma TrimSpace_visible s : all_bytes visible s = true -> TrimSpace s = s.
Proof.
  intros Hs. unfold TrimSpace, trim_left, trim_right.
  rewrite (trim_left_by_visible is_space_rune2 is_space_rune3 s);
    auto using rune2_not_visible, rune3_not_visible.
  rewrite trim_left_by_visible; [apply rev_involutive|..|by rewrite all_bytes_rev];
    auto using rune2_not_visible, rune3_not_visible.
Qed.

Lemma Contains_cons_byte (f : Ascii.ascii -> bool) c rest s :
  f c = false -> all_bytes f s = true -> Contains s (String c rest) = false.
Proof.
  intros Hc Hs. apply not_true_iff_false. rewrite Contains_spec. intros (a & b & ->).
  rewrite !all_bytes_app in Hs. cbn in Hs. by rewrite Hc, andb_false_r in Hs.
Qed.

(** The bytes of the names the step schema allows. *)
Definition name_byte (c : Ascii.ascii) : bool :=
  let n := byte_of c in
  ((48 <=? n) && (n <=? 57) || (65 <=? n) && (n <=? 90) || (97 <=? n) && (n <=? 122) || (n =? 95))%N.
Definition is_name (s : string) : bool := negb (String.eqb s "") && all_bytes name_byte s.

Lemma name_byte_visible c : name_byte c = true -> visible c = true.
Proof.
  unfold name_byte, visible. rewrite !orb_true_iff, !andb_true_iff, !N.leb_le, N.eqb_eq. lia.
Qed.

Lemma is_name_no_dot s : is_name s = true -> Contains s "." = false.
Proof.
  unfold is_name. intros [_ H]%andb_true_iff. by apply (Contains_cons_byte name_byte).
Qed.

Lemma Join_visible l :
  forallb is_name l = true -> all_bytes visible (Join l ".") = true.
Proof.
  induction l as [|x [|y l] IH]; cbn [forallb]; [done|..]; intros [[_ Hx]%andb_true_iff Hl]%andb_true_iff;
    pose proof (all_bytes_impl _ _ x name_byte_visible Hx) as Hv.
  - exact Hv.
  - change (all_bytes visible (x +:+ "." +:+ Join (y :: l) ".") = true).
    rewrite !all_bytes_app, Hv, IH by done. done.
Qed.

(** ** Lines *)

Lemma log_text_app l1 l2 : log_text (l1 ++ l2) = log_text l1 +:+ log_text l2.
Proof.
  induction l1 as [|x l1 IH]; [done|]. cbn [app log_text]. rewrite IH.
  by rewrite !string_app_assoc.
Qed.

Lemma scan_go_line cur n l rest :
  all_bytes (fun c => negb (byte_of c =? 10)%N) l = true ->
  (n + N.of_nat (String.length l) < MaxScanTokenSize)%N ->
  scan_go cur n (l +:+ newline +:+ rest) =
  (dropCR (String.rev cur +:+ l) :: (scan_lines rest).1, (scan_lines rest).2).
Proof.
  revert cur n. induction l as [|c l IH]; intros cur n.
  - intros _ _. cbn. rewrite string_app_nil_r. unfold scan_lines. by destruct (scan_go "" 0 rest).
  - cbn [all_bytes String.app scan_go]. intros [Hc Hl]%andb_true_iff Hn.
    apply negb_true_iff in Hc. rewrite Hc. cbn [String.length] in Hn.
    replace (n + 1 <? MaxScanTokenSize)%N with true by (symmetry; apply N.ltb_lt; lia).
    rewrite IH; [|done|lia]. rewrite rev_cons, string_app_assoc. done.
Qed.

(** A line the scanner gives back as it is. *)
Definition text_line (l : string) : Prop :=
  all_bytes (fun c => negb (byte_of c =? 10)%N) l = true /\ dropCR l = l /\
  (N.of_nat (String.length l) < MaxScanTokenSize)%N.

Lemma scan_text lines : Forall text_line lines -> scan_lines (log_text lines) = (lines, false).
Proof.
  induction 1 as [|l lines (Hnl & Hcr & Hlen) _ IH]; [done|].
  unfold scan_lines. cbn [log_text]. rewrite scan_go_line; [|done|lia]. cbn. by rewrite IH, Hcr.
Qed.
