(* ===== verification/GoPaths.v ===== *)
(** Lexical path processing of Go's [path/filepath] on Unix: [Clean], [Join]
    and [Dir]. *)

From stdpp Require Import gmap strings list.
From S2P Require Import Prelude GoStrings.
Open Scope go_scope.
Open Scope string_scope.
Open Scope list_scope.

(** One element of a path against the elements kept so far, innermost first. *)
Definition clean_elem (rooted : bool) (stack : list string) (c : string) : list string :=
  if String.eqb c "" || String.eqb c "." then stack
  else if String.eqb c ".." then
    match stack with
    | [] => if rooted then [] else [".."]
    | t :: stack' => if String.eqb t ".." then ".." :: stack else stack'
    end
  else c :: stack.

(** The elements of [Clean(path)]. *)
Definition clean_elems (path : string) : list string :=
  reverse (foldl (clean_elem (HasPrefix path "/")) [] (Split path "/")).

(** [filepath.Clean(path)] *)
Definition Clean (path : string) : string :=
  let body := Join (clean_elems path) "/" in
  if HasPrefix path "/" then "/" +:+ body
  else if String.eqb body "" then "." else body.

(** [filepath.Join(elems...)] and [path.Join(elems...)] *)
Fixpoint PathJoin (elems : list string) : string :=
  match elems with
  | [] => ""
  | e :: elems' => if String.eqb e "" then PathJoin elems' else Clean (Join elems "/")
  end.

(** [filepath.Dir(path)]: what precedes the last separator, cleaned. *)
Definition PathDir (path : string) : string :=
  let elems := Split path "/" in
  Clean (if (length elems =? 1)%nat then "" else Join (removelast elems) "/" +:+ "/").

Example PathDir_file : PathDir "a/b/step.txt" = "a/b".
Proof. reflexivity. Qed.
Example PathDir_root : PathDir "/step.txt" = "/".
Proof. reflexivity. Qed.
Example PathDir_plain : PathDir "step.txt" = ".".
Proof. reflexivity. Qed.

Example Clean_dots : Clean "a/./b//../c/" = "a/c".
Proof. reflexivity. Qed.
Example Clean_up : Clean "../../a" = "../../a".
Proof. reflexivity. Qed.
Example Clean_root : Clean "/../a" = "/a".
Proof. reflexivity. Qed.
Example Join_relative : PathJoin ["/work"; "./step"] = "/work/step".
Proof. reflexivity. Qed.
Example Join_empty : PathJoin [""; ""] = "".
Proof. reflexivity. Qed.
