(* ===== verification/GoNumbers.v ===== *)
(** Numbers in text: the decimal printing of [fmt] and the parsers of
    [strconv], at the word size of the machine: the programs are built for
    machines of 32 and of 64 bits (src/.gitlab/ci/build-binaries.gitlab-ci.yml). *)

From stdpp Require Import strings list pretty.
From S2P Require Import Prelude GoStrings.
Open Scope go_scope.
Open Scope string_scope.
Open Scope list_scope.

(** ** Printing *)

(** [fmt.Sprintf("%d", n)] of an unsigned integer. *)
Definition FormatUint (n : N) : string := pretty n.

(** ** Parsing *)

(** The size of [int] and of [uint], [strconv.IntSize]. *)
Class WordSize := {
  IntSize : N;
  IntSize_cases : IntSize = 32%N \/ IntSize = 64%N
}.

Definition word32 : WordSize := {| IntSize := 32; IntSize_cases := or_introl eq_refl |}.
Definition word64 : WordSize := {| IntSize := 64; IntSize_cases := or_intror eq_refl |}.

(** The greatest [uint]. *)
Definition max_uint `{WordSize} : N := (2 ^ IntSize - 1)%N.

(** An [int]: the sum of two wraps around. *)
Definition go_int `{WordSize} (z : Z) : Z :=
  ((z + 2 ^ (Z.of_N IntSize - 1)) mod 2 ^ Z.of_N IntSize - 2 ^ (Z.of_N IntSize - 1))%Z.

Definition max_uint64 : N := 18446744073709551615.
Definition uint64 (n : N) : N := (n mod 18446744073709551616)%N.

Definition is_digit (c : Ascii.ascii) : bool := ((48 <=? byte_of c) && (byte_of c <=? 57))%N.
Definition digit_value (c : Ascii.ascii) : N := (byte_of c - 48)%N.

Definition ErrSyntax : error := NewError "invalid syntax".
Definition ErrRange : error := NewError "value out of range".

(** [&NumError{fn, s, err}] *)
Definition NumError (fn s : string) (err : error) : error :=
  WrapError ("strconv." +:+ fn +:+ ": parsing " +:+ quote s +:+ ": ") err "".

(** The loop of [ParseUint] in base 10, with the value so far, in 64 bits: a digit
    that does not fit is found by comparing with the least value whose product
    overflows, and then by looking at the sum, which wraps around and must not exceed
    the greatest value of the bit size. *)
Definition cutoff : N := (max_uint64 / 10 + 1)%N.

Fixpoint parse_digits (maxVal n : N) (s : string) : N + error :=
  match s with
  | "" => inl n
  | String c s' =>
      if negb (is_digit c) then inr ErrSyntax
      else if (cutoff <=? n)%N then inr ErrRange
      else
        let n := uint64 (n * 10) in
        let n1 := uint64 (n + digit_value c) in
        if (n1 <? n)%N || (maxVal <? n1)%N then inr ErrRange
        else parse_digits maxVal n1 s'
  end.

(** [strconv.ParseUint(s, 10, bitSize)]: bit size 0 is that of [uint]. *)
Definition ParseUint `{WordSize} (s : string) (bitSize : N) : res N :=
  if String.eqb s "" then Err (NumError "ParseUint" s ErrSyntax)
  else match parse_digits (2 ^ (if (bitSize =? 0)%N then IntSize else bitSize) - 1) 0 s with
       | inl n => Ok n
       | inr e => Err (NumError "ParseUint" s e)
       end.

(** [strconv.Atoi(s)] *)
Definition Atoi `{WordSize} (s : string) : res Z :=
  let '(neg, digits) :=
    match s with
    | String "-"%char s' => (true, s')
    | String "+"%char s' => (false, s')
    | _ => (false, s)
    end in
  if String.eqb digits "" then Err (NumError "Atoi" s ErrSyntax)
  else match parse_digits max_uint 0 digits with
       | inr e => Err (NumError "Atoi" s e)
       | inl n =>
           if negb neg && (2 ^ (IntSize - 1) <=? n)%N then Err (NumError "Atoi" s ErrRange)
           else if neg && (2 ^ (IntSize - 1) <? n)%N then Err (NumError "Atoi" s ErrRange)
           else Ok (if neg then (- Z.of_N n)%Z else Z.of_N n)
       end.

(** ** Reference: the value of a string of digits *)

Fixpoint value_from (n : N) (s : string) : N :=
  match s with
  | "" => n
  | String c s' => value_from (n * 10 + digit_value c) s'
  end.

Definition decimal_value (s : string) : N := value_from 0 s.
Definition all_digits (s : string) : bool := all_bytes is_digit s.

Lemma value_from_le n s : (n <= value_from n s)%N.
Proof.
  revert n. induction s as [|c s IH]; intros n; cbn; [lia|]. etrans; [|apply IH]. lia.
Qed.

Lemma is_digit_value c : is_digit c = true -> (digit_value c <= 9)%N.
Proof. unfold is_digit, digit_value. intros [H1 H2]%andb_true_iff. apply N.leb_le in H1, H2. lia. Qed.

(** The parser finds an overflow exactly when there is one. *)
Lemma parse_digits_spec maxVal n s :
  (maxVal <= max_uint64)%N -> all_digits s = true -> (n <= maxVal)%N ->
  parse_digits maxVal n s =
  if (value_from n s <=? maxVal)%N then inl (value_from n s) else inr ErrRange.
Proof.
  intros Hmax. revert n. induction s as [|c s IH]; intros n; cbn [all_digits all_bytes parse_digits value_from].
  - intros _ Hn. apply N.leb_le in Hn. by rewrite Hn.
  - intros [Hc Hs]%andb_true_iff Hn. rewrite Hc. cbn [negb].
    apply is_digit_value in Hc. pose proof (value_from_le (n * 10 + digit_value c) s) as Hle.
    unfold cutoff, uint64, max_uint64 in *.
    destruct (N.leb_spec (18446744073709551615 / 10 + 1) n) as [Hcut|Hcut].
    { change (18446744073709551615 / 10 + 1)%N with 1844674407370955162%N in Hcut.
      replace (_ <=? _)%N with false by (symmetry; apply N.leb_gt; lia). done. }
    change (18446744073709551615 / 10 + 1)%N with 1844674407370955162%N in Hcut.
    rewrite (N.mod_small (n * 10)) by lia.
    destruct (N.ltb_spec 18446744073709551615 (n * 10 + digit_value c)) as [Hbig|Hfit64].
    + assert ((n * 10 + digit_value c) mod 18446744073709551616 =
              n * 10 + digit_value c - 18446744073709551616)%N as ->.
      { symmetry. apply (N.mod_unique _ _ 1); lia. }
      replace (_ <? n * 10)%N with true by (symmetry; apply N.ltb_lt; lia). cbn [orb].
      replace (_ <=? _)%N with false by (symmetry; apply N.leb_gt; lia). done.
    + rewrite (N.mod_small (n * 10 + digit_value c)) by lia.
      replace (_ <? n * 10)%N with false by (symmetry; apply N.ltb_ge; lia). cbn [orb].
      destruct (N.ltb_spec maxVal (n * 10 + digit_value c)) as [Hbig|Hfit]; [|by apply IH].
      replace (_ <=? _)%N with false by (symmetry; apply N.leb_gt; lia). done.
Qed.

Lemma parse_digits_syntax maxVal n s : all_digits s = false -> exists e, parse_digits maxVal n s = inr e.
Proof.
  revert n. induction s as [|c s IH]; intros n; cbn; [done|].
  destruct (is_digit c); cbn; [|by eexists]. intros Hs.
  destruct (_ <=? _)%N; [by eexists|]. destruct (_ || _); [by eexists|]. by apply IH.
Qed.

Lemma max_uint_64 `{WordSize} : (max_uint <= max_uint64)%N.
Proof. unfold max_uint. destruct IntSize_cases as [->| ->]; vm_compute; discriminate. Qed.

Lemma ParseUint_Ok `{WordSize} s n :
  ParseUint s 0 = Ok n <->
  s <> "" /\ all_digits s = true /\ decimal_value s = n /\ (n <= max_uint)%N.
Proof.
  unfold ParseUint, decimal_value. cbn [N.eqb]. fold max_uint. pose proof max_uint_64. destruct (String.eqb_spec s "") as [->|Hne]; [naive_solver|].
  destruct (all_digits s) eqn:Hd.
  - rewrite parse_digits_spec by (done || lia).
    destruct (N.leb_spec (value_from 0 s) max_uint); [naive_solver|].
    split; [done|]. intros (_ & _ & <- & ?). lia.
  - destruct (parse_digits_syntax max_uint 0 s Hd) as [e ->]. naive_solver.
Qed.

(** ** Printing and parsing *)

Lemma digit_char_value x : (x < 10)%N -> is_digit (pretty_N_char x) = true /\ digit_value (pretty_N_char x) = x.
Proof.
  intros H. assert (x = 0 \/ x = 1 \/ x = 2 \/ x = 3 \/ x = 4 \/ x = 5 \/ x = 6 \/ x = 7 \/ x = 8 \/ x = 9)%N
    as Hx by lia. by repeat destruct Hx as [->|Hx]; subst.
Qed.

(** The digits of [x], and then those of [s]. *)
Lemma pretty_N_go_digits x s :
  all_digits s = true ->
  all_digits (pretty_N_go x s) = true /\
  forall n, exists k, value_from n (pretty_N_go x s) = value_from (n * 10 ^ k + x) s /\ (x = 0 -> k = 0)%N.
Proof.
  revert s. induction (N.lt_wf_0 x) as [x _ IH]. intros s Hs.
  destruct (decide (x = 0)%N) as [->|Hx].
  - rewrite pretty_N_go_0. split; [done|]. intros n. exists 0%N. cbn. split; [|done].
    f_equal. rewrite N.pow_0_r. lia.
  - rewrite pretty_N_go_step by lia.
    assert (x / 10 < x)%N as Hlt by (apply N.div_lt; lia).
    pose proof (N.mod_lt x 10 ltac:(lia)) as Hm.
    destruct (digit_char_value _ Hm) as [Hd Hv].
    destruct (IH _ Hlt (String (pretty_N_char (x mod 10)) s)) as [H1 H2].
    { cbn. unfold all_digits in Hs. by rewrite Hd, Hs. }
    split; [done|]. intros n. destruct (H2 n) as (k & Hk & _). exists (N.succ k). split; [|lia].
    rewrite Hk. cbn [value_from]. rewrite Hv. f_equal. rewrite N.pow_succ_r'.
    rewrite (N.div_mod x 10) at 3 by lia. lia.
Qed.

Lemma pretty_N_go_nonempty x s : s <> "" -> pretty_N_go x s <> "".
Proof.
  revert s. induction (N.lt_wf_0 x) as [x _ IH]. intros s Hs.
  destruct (decide (x = 0)%N) as [->|Hx]; [by rewrite pretty_N_go_0|].
  rewrite pretty_N_go_step by lia. apply IH; [apply N.div_lt; lia|done].
Qed.

Lemma FormatUint_digits n : all_digits (FormatUint n) = true /\ FormatUint n <> "" /\ decimal_value (FormatUint n) = n.
Proof.
  unfold FormatUint, pretty, pretty_N. destruct (decide (n = 0)%N) as [->|Hn]; [done|].
  destruct (pretty_N_go_digits n "" eq_refl) as [H1 H2]. split; [done|]. split.
  - rewrite pretty_N_go_step by lia. by apply pretty_N_go_nonempty.
  - unfold decimal_value. destruct (H2 0%N) as (k & -> & _). cbn. lia.
Qed.

Lemma ParseUint_FormatUint `{WordSize} n : (n <= max_uint)%N -> ParseUint (FormatUint n) 0 = Ok n.
Proof.
  intros Hn. destruct (FormatUint_digits n) as (H1 & H2 & H3). by apply ParseUint_Ok.
Qed.

Lemma ParseUint_FormatUint_bound `{WordSize} n :
  ParseUint (FormatUint n) 0 =
  if (n <=? max_uint)%N then Ok n else Err (NumError "ParseUint" (FormatUint n) ErrRange).
Proof.
  destruct (FormatUint_digits n) as (H1 & H2 & H3). unfold ParseUint. cbn [N.eqb].
  fold max_uint. pose proof max_uint_64. destruct (String.eqb_spec (FormatUint n) ""); [done|].
  rewrite parse_digits_spec by (done || lia).
  unfold decimal_value in H3. rewrite H3. by destruct (n <=? max_uint)%N.
Qed.

Lemma FormatUint_inj n m : FormatUint n = FormatUint m -> n = m.
Proof. apply pretty_N_inj. Qed.

Lemma pretty_N_go_length k x s :
  (x < 10 ^ N.of_nat k)%N -> String.length (pretty_N_go x s) <= k + String.length s.
Proof.
  revert x s. induction k as [|k IH]; intros x s Hx.
  - assert (x = 0)%N as -> by (cbn in Hx; lia). by rewrite pretty_N_go_0.
  - destruct (decide (x = 0)%N) as [->|Hne]; [rewrite pretty_N_go_0; lia|].
    rewrite pretty_N_go_step by lia. etrans; [apply IH|cbn; lia].
    rewrite Nat2N.inj_succ, N.pow_succ_r' in Hx. apply N.Div0.div_lt_upper_bound. lia.
Qed.

(** A 64-bit number has at most 20 digits. *)
Lemma FormatUint_length n : (n <= max_uint64)%N -> String.length (FormatUint n) <= 20.
Proof.
  intros Hn. unfold FormatUint, pretty, pretty_N. destruct (decide (n = 0)%N); [cbn; lia|].
  etrans; [apply (pretty_N_go_length 20)|cbn; lia]. unfold max_uint64 in Hn.
  change (10 ^ N.of_nat 20)%N with 100000000000000000000%N. lia.
Qed.
