(* ===== verification/GoFiles.v ===== *)
(** The files of a machine, and what the packages [os], [io/fs] and
    [path/filepath] do to them: directories and files with their modes, the
    working directory, the random numbers that name temporary directories, and system calls
    that fail.  There are no symbolic links. *)

From stdpp Require Import gmap strings list sorting.
From S2P Require Import Prelude GoStrings GoPaths GoNumbers.
Open Scope go_scope.
Open Scope string_scope.
Open Scope list_scope.

(** ** Trees of files *)

(** The elements of a cleaned absolute path, from the root. *)
Abbreviation path := (list string).

Inductive node :=
  | Dir (mode : N)
  | File (mode : N) (content : string).

#[global] Instance node_eq_dec : EqDecision node.
Proof. solve_decision. Defined.

Abbreviation tree :=
  (@gmap (list string) (@list_eq_dec string String.eq_dec) (@list_countable string String.eq_dec String.countable) node).

Definition is_dir (n : node) : bool := match n with Dir _ => true | File _ _ => false end.

Definition mode_of (n : node) : N := match n with Dir mode | File mode _ => mode end.

(** A system call that fails: why, and how much a write wrote before. *)
Record fault := {
  fault_errno : errno;
  fault_written : nat
}.

(** The machine: its files, the working directory, whether the process is the
    super-user, the random numbers to come, and for each system call to come
    whether it fails; none does when the list is over. *)
Record machine := {
  tree_of : tree;
  cwd : path;
  super : bool;
  random : list N;
  faults : list (option fault)
}.

Definition with_tree (t : tree) (m : machine) : machine :=
  {| tree_of := t; cwd := cwd m; super := super m; random := random m; faults := faults m |}.
Definition with_random (r : list N) (m : machine) : machine :=
  {| tree_of := tree_of m; cwd := cwd m; super := super m; random := r; faults := faults m |}.
Definition with_faults (f : list (option fault)) (m : machine) : machine :=
  {| tree_of := tree_of m; cwd := cwd m; super := super m; random := random m; faults := f |}.

(** ** Calls *)

Definition F (A : Type) : Type := machine -> res A * machine.

#[global] Instance F_ret : MRet F := fun A a m => (Ok a, m).
#[global] Instance F_bind : MBind F := fun A B f c m =>
  match c m with
  | (Ok a, m') => f a m'
  | (Err e, m') => (Err e, m')
  | (Panic p, m') => (Panic p, m')
  | (OutOfFuel, m') => (OutOfFuel, m')
  end.

Definition F_lift {A} (r : res A) : F A := fun m => (r, m).
(** What the state of the machine answers. *)
Definition F_read {A} (f : machine -> res A) : F A := fun m => (f m, m).
Definition F_wrap {A} (pre : string) (c : F A) : F A := fun m =>
  let '(r, m') := c m in (wrap_err pre r, m').

(** [v, err := f()], with an error that is inspected. *)
Definition F_try {A} (c : F A) : F (A + error) := fun m =>
  match c m with
  | (Ok a, m') => (Ok (inl a), m')
  | (Err e, m') => (Ok (inr e), m')
  | (Panic p, m') => (Panic p, m')
  | (OutOfFuel, m') => (OutOfFuel, m')
  end.

(** [for _, x := range l { if err := f(x); err != nil { return err } }] *)
Fixpoint F_each {A} (f : A -> F unit) (l : list A) : F unit :=
  match l with
  | [] => mret tt
  | x :: l' => _ ← f x; F_each f l'
  end.

(** The same, with what [f] returns. *)
Fixpoint F_map {A B} (f : A -> F B) (l : list A) : F (list B) :=
  match l with
  | [] => mret []
  | x :: l' => y ← f x; ys ← F_map f l'; mret (y :: ys)
  end.

(** A deferred call whose error is dropped. *)
Definition F_defer {A} (c : F A) (deferred : F unit) : F A := fun m =>
  let '(r, m') := c m in (r, (deferred m').2).

(** The next system call: its effect, or its failure. *)
Definition syscall {A} (f : tree -> res (A * tree)) : F A := fun m =>
  match faults m with
  | Some flt :: fs => (Err (SysError (fault_errno flt)), with_faults fs m)
  | _ =>
      let m := with_faults (tail (faults m)) m in
      match f (tree_of m) with
      | Ok (a, t) => (Ok a, with_tree t m)
      | Err e => (Err e, m)
      | Panic p => (Panic p, m)
      | OutOfFuel => (OutOfFuel, m)
      end
  end.

(** ** Paths *)

(** The elements of a path against a directory; innermost first. *)
Definition resolve_from (dir : path) (p : string) : path :=
  reverse (foldl (clean_elem true) (if HasPrefix p "/" then [] else reverse dir) (Split p "/")).

Definition resolve (m : machine) (p : string) : path := resolve_from (cwd m) p.

(** The text of a path. *)
Definition path_string (p : path) : string := "/" +:+ Join p "/".

(** The directory of a path. *)
Definition parent (p : path) : path := removelast p.

(** [filepath.Base] of a path that is not the root. *)
Definition base (p : path) : string := List.last p "".

(** The directories that lead to a path, from the root, and the path itself. *)
Fixpoint ancestors (p : path) : list path :=
  match p with
  | [] => []
  | x :: p' => [x] :: ((fun q => x :: q) <$> ancestors p')
  end.

Fixpoint strip (dir p : path) : option path :=
  match dir, p with
  | [], _ => Some p
  | x :: dir', y :: p' => if String.eqb x y then strip dir' p' else None
  | _ :: _, [] => None
  end.

(** [p] is [dir] or is below it. *)
Definition below (dir p : path) : bool := match strip dir p with Some _ => true | None => false end.

Definition children_exist (t : tree) (dir : path) : bool :=
  existsb (fun kn => below dir kn.1 && negb (bool_decide (kn.1 = dir))) (map_to_list t).

(** What the root, which is always a directory, and the other paths are. *)
Definition look (t : tree) (p : path) : option node :=
  match p with [] => Some (Dir 493) | _ => t !! p end.

(** Why a path cannot be reached: a part of it is missing or is a file. *)
Definition unreachable (t : tree) (p : path) : option errno :=
  match look t (parent p) with
  | Some (Dir _) => None
  | Some (File _ _) => Some ENOTDIR
  | None => if existsb (fun q => match t !! q with Some (File _ _) => true | _ => false end) (ancestors p)
            then Some ENOTDIR else Some ENOENT
  end.

(** The directory of a path that [filepath.Join] made: [filepath.Dir], and but
    for a slash at the end what [filepath.Split] gives. *)
Definition Dir_of (m : machine) (p : string) : string := path_string (parent (resolve m p)).

(** ** Calls of package os *)

Definition path_error {A} (op p : string) (r : res A) : res A := wrap_err (op +:+ " " +:+ p +:+ ": ") r.

(** A call on a path, which may not be empty. *)
Definition path_call {A} (op p : string) (f : path -> tree -> res (A * tree)) : F A := fun m =>
  let '(r, m') :=
    syscall (fun t => if String.eqb p "" then Err (SysError ENOENT) else f (resolve m p) t) m in
  (path_error op p r, m').

(** [os.Stat(name)] *)
Definition Stat (name : string) : F node :=
  path_call "stat" name (fun p t =>
    match look t p with
    | Some n => Ok (n, t)
    | None => Err (SysError (default ENOENT (unreachable t p)))
    end).

(** The modes [mkdir] and [open] give are masked by the umask 022. *)
Definition umask (perm : N) : N := N.ldiff perm 18.

(** [os.Mkdir(name, perm)] *)
Definition Mkdir (name : string) (perm : N) : F unit :=
  path_call "mkdir" name (fun p t =>
    match unreachable t p with
    | Some no => Err (SysError no)
    | None => match look t p with
              | Some _ => Err (SysError EEXIST)
              | None => Ok (tt, <[p := Dir (umask perm)]> t)
              end
    end).

(** One directory of [MkdirAll]. *)
Definition mkdir_step (perm : N) (p : path) : F unit := fun m =>
  match look (tree_of m) p with
  | Some (Dir _) => (Ok tt, m)
  | Some (File _ _) => (Err (WrapError ("mkdir " +:+ path_string p +:+ ": ") (SysError ENOTDIR) ""), m)
  | None => syscall (fun t => Ok (tt, <[p := Dir (umask perm)]> t)) m
  end.

(** [os.MkdirAll(path, perm)] *)
Definition mkdir_all (p : path) (perm : N) : F unit := F_each (mkdir_step perm) (ancestors p).
Definition MkdirAll (name : string) (perm : N) : F unit := fun m =>
  if String.eqb name "" then (Err (WrapError "mkdir : " (SysError ENOENT) ""), m)
  else mkdir_all (resolve m name) perm m.

Lemma MkdirAll_named name perm m : name <> "" -> MkdirAll name perm m = mkdir_all (resolve m name) perm m.
Proof. intros Hn. unfold MkdirAll. by destruct (String.eqb_spec name ""). Qed.

(** [os.MkdirTemp(dir, pattern)], where the random part replaces the last star
    of the pattern or follows it; [dir] is not empty.  A name that is taken is
    drawn again. *)
Definition temp_name (pattern : string) (random : N) : string :=
  match cut_at "*" (String.rev pattern) with
  | Some (after, before) => String.rev before +:+ FormatUint random +:+ String.rev after
  | None => pattern +:+ FormatUint random
  end.

Definition exists_at (t : tree) (p : path) : bool :=
  match t !! p with Some _ => true | None => children_exist t p end.

Fixpoint draw (t : tree) (dir : path) (pattern : string) (names : list N) : option (string * list N) :=
  match names with
  | [] => None
  | n :: names' =>
      let name := temp_name pattern n in
      if exists_at t (dir ++ [name]) then draw t dir pattern names' else Some (name, names')
  end.

Definition MkdirTemp (dir pattern : string) : F string := fun m =>
  let d := resolve m dir in
  match draw (tree_of m) d pattern (random m) with
  | None => (Err (WrapError ("mkdirtemp " +:+ PathJoin [dir; pattern] +:+ ": ") (SysError EEXIST) ""), m)
  | Some (name, random') =>
      let '(r, m') := Mkdir (PathJoin [dir; name]) 448 (with_random random' m) in
      match r with
      | Ok _ => (Ok (PathJoin [dir; name]), m')
      | Err e => (Err e, m')
      | Panic p => (Panic p, m')
      | OutOfFuel => (OutOfFuel, m')
      end
  end.

(** The flags of [os.OpenFile] for writing. *)
Record open_flags := { O_CREATE : bool; O_EXCL : bool; O_TRUNC : bool }.

(** The owner may write the file. *)
Definition writable (super : bool) (mode : N) : bool := super || N.testbit mode 7.
Definition readable (super : bool) (mode : N) : bool := super || N.testbit mode 8.

(** [os.OpenFile(name, flags, perm)] for writing, from the start of the file. *)
Definition open_at (super : bool) (flags : open_flags) (perm : N) (p : path) (t : tree) : res (unit * tree) :=
  match unreachable t p with
  | Some no => Err (SysError no)
  | None =>
      match look t p with
      | Some (Dir _) => Err (SysError (if O_CREATE flags && O_EXCL flags then EEXIST else EISDIR))
      | Some (File mode content) =>
          if O_CREATE flags && O_EXCL flags then Err (SysError EEXIST)
          else if negb (writable super mode) then Err (SysError EACCES)
          else Ok (tt, if O_TRUNC flags then <[p := File mode ""]> t else t)
      | None =>
          if O_CREATE flags then Ok (tt, <[p := File (umask perm) ""]> t)
          else Err (SysError ENOENT)
      end
  end.

Definition OpenFile (name : string) (flags : open_flags) (perm : N) : F unit := fun m =>
  path_call "open" name (open_at (super m) flags perm) m.

(** What is after the first [n] bytes. *)
Definition drop_bytes (n : nat) (s : string) : string := slice_from s n.
Definition take_bytes (n : nat) (s : string) : string := slice s 0 n.

(** Writing at the start of a file that is open: what is after stays. *)
Definition write_over (t : tree) (p : path) (data : string) : tree :=
  match t !! p with
  | Some (File mode content) => <[p := File mode (data +:+ drop_bytes (String.length data) content)]> t
  | _ => t
  end.

(** [io.Copy] of data into a file that was opened; a failure leaves a part. *)
Definition write_at (p : path) (data : string) : F unit := fun m =>
  match faults m with
  | Some flt :: fs =>
      (Err (SysError (fault_errno flt)),
       with_tree (write_over (tree_of m) p (take_bytes (fault_written flt) data)) (with_faults fs m))
  | _ => (Ok tt, with_tree (write_over (tree_of m) p data) (with_faults (tail (faults m)) m))
  end.
Definition WriteTo (name data : string) : F unit := fun m =>
  let '(r, m') := write_at (resolve m name) data m in (path_error "write" name r, m').

(** [os.OpenFile(name, os.O_RDONLY, 0)] and reading all of it; the open and the
    read may fail. *)
Definition read_file_at (super : bool) (p : path) (t : tree) : res (string * tree) :=
  match look t p with
  | Some (File mode content) => if readable super mode then Ok (content, t) else Err (SysError EACCES)
  | Some (Dir _) => Err (SysError EISDIR)
  | None => Err (SysError (default ENOENT (unreachable t p)))
  end.
Definition ReadFile (name : string) : F string := fun m => path_call "open" name (read_file_at (super m)) m.

(** [os.OpenFile(name, os.O_RDONLY, 0)] alone, and then reading from the start. *)
Definition open_read_at (super : bool) (p : path) (t : tree) : res (unit * tree) :=
  match look t p with
  | Some n => if readable super (mode_of n) then Ok (tt, t) else Err (SysError EACCES)
  | None => Err (SysError (default ENOENT (unreachable t p)))
  end.
Definition OpenRead (name : string) : F unit := fun m => path_call "open" name (open_read_at (super m)) m.

Definition ReadFrom (name : string) : F string :=
  path_call "read" name (fun p t =>
    match look t p with
    | Some (File _ content) => Ok (content, t)
    | _ => Err (SysError EISDIR)
    end).

(** [file.Close()] of a file that was written, which may report what was not. *)
Definition close_at (p : path) : F unit :=
  F_wrap ("close " +:+ path_string p +:+ ": ") (syscall (fun t => Ok (tt, t))).
Definition Close (name : string) : F unit := path_call "close" name (fun _ t => Ok (tt, t)).

(** [os.WriteFile(name, data, perm)] *)
Definition WriteFile (name data : string) (perm : N) : F unit :=
  _ ← OpenFile name {| O_CREATE := true; O_EXCL := false; O_TRUNC := true |} perm;
  _ ← WriteTo name data;
  Close name.

(** [os.RemoveAll(name)] *)
Definition remove_all (t : tree) (dir : path) : tree := filter (fun kn => below dir kn.1 = false) t.
Definition RemoveAll (name : string) : F unit := fun m =>
  if String.eqb name "" then (Ok tt, m)
  else syscall (fun t => Ok (tt, remove_all t (resolve m name))) m.

(** [os.Chmod(name, mode)] *)
Definition Chmod (name : string) (mode : N) : F unit :=
  path_call "chmod" name (fun p t =>
    match look t p with
    | Some (Dir _) => Ok (tt, <[p := Dir mode]> t)
    | Some (File _ content) => Ok (tt, <[p := File mode content]> t)
    | None => Err (SysError (default ENOENT (unreachable t p)))
    end).

(** The nodes under a directory, by the path from it. *)
Definition subtree (t : tree) (dir : path) : tree :=
  list_to_map (list_omap _ _ (fun kn : list string * node => (fun rel => (rel, kn.2)) <$> strip dir kn.1)
                 (map_to_list t)).

(** The nodes of [sub], put under a directory. *)
Definition graft (dir : path) (sub : tree) (t : tree) : tree :=
  list_to_map ((fun kn => (dir ++ kn.1, kn.2)) <$> map_to_list sub) ∪ t.

(** [os.Rename(old, new)] of a directory to another path.  Package os refuses a
    directory that is there, also an empty one, which the system call replaces. *)
Definition rename_dir (old new : path) (t : tree) : res (unit * tree) :=
  match look t old, unreachable t new with
  | None, _ => Err (SysError ENOENT)
  | _, Some no => Err (SysError no)
  | Some (File _ _), _ => Err (SysError EINVAL)
  | Some (Dir _), None =>
      match look t new with
      | Some (Dir _) => Err (SysError EEXIST)
      | Some (File _ _) => Err (SysError ENOTDIR)
      | None =>
          if children_exist t new then Err (SysError EEXIST)
          else if below old new then Err (SysError EINVAL)
          else Ok (tt, graft new (subtree t old) (remove_all t old))
      end
  end.
Definition Rename (old new : string) : F unit := fun m =>
  let '(r, m') := syscall (rename_dir (resolve m old) (resolve m new)) m in
  (wrap_err ("rename " +:+ old +:+ " " +:+ new +:+ ": ") r, m').

(** ** Walking and copying *)

(** The order of [fs.WalkDir]: a directory, then what it holds, by name. *)
Fixpoint path_le (p q : path) : bool :=
  match p, q with
  | [], _ => true
  | _ :: _, [] => false
  | x :: p', y :: q' => if String.eqb x y then path_le p' q' else String.leb x y
  end.

Definition walk_le (a b : path * node) : Prop := path_le a.1 b.1 = true.
#[global] Instance walk_le_dec : RelDecision walk_le.
Proof. intros a b. unfold walk_le. apply _. Defined.

(** The entries of a file system ([fs.FS]) in the order of [fs.WalkDir]. *)
Definition walk (fsys : tree) : list (path * node) := merge_sort walk_le (map_to_list fsys).

(** One entry of [os.CopyFS(dir, fsys)] *)
Definition copy_entry (dir : path) (entry : path * node) : F unit := fun m =>
  let new := dir ++ entry.1 in
  match entry.2 with
  | Dir _ => mkdir_all new 511 m
  | File mode content =>
      (_ ← syscall (open_at (super m) {| O_CREATE := true; O_EXCL := true; O_TRUNC := false |}
                      (N.lor 438 (N.land mode 511)) new);
       _ ← write_at new content;
       close_at new) m
  end.

(** [os.CopyFS(dir, fsys)] *)
Definition copy_fs (dir : path) (fsys : tree) : F unit := F_each (copy_entry dir) (walk fsys).
Definition CopyFS (dir : string) (fsys : tree) : F unit := fun m => copy_fs (resolve m dir) fsys m.
