(* ===== verification/GoFilesFacts.v ===== *)
(** Reasoning about files: cleaned paths, what a computation changes, and what
    it leaves when no system call fails. *)

From stdpp Require Import gmap strings list sorting.
From S2P Require Import Prelude GoStrings GoPaths GoNumbers GoFiles.
Open Scope go_scope.
Open Scope string_scope.
Open Scope list_scope.

(** ** Paths *)

(** An element of a cleaned path. *)
Definition good_elem (x : string) : Prop :=
  x <> "" /\ x <> "." /\ x <> ".." /\ Contains x "/" = false.

(** An element that does not go up. *)
Definition no_up (x : string) : Prop := x <> "..".

Lemma clean_elem_good stack x :
  Forall good_elem stack -> Contains x "/" = false -> Forall good_elem (clean_elem true stack x).
Proof.
  intros Hs Hx. unfold clean_elem. destruct (String.eqb_spec x ""); [done|].
  destruct (String.eqb_spec x "."); [done|]. cbn [orb]. destruct (String.eqb_spec x "..").
  - destruct Hs as [|t stack Ht Hs]; [done|]. destruct (String.eqb_spec t ".."); [|done].
    exfalso. by destruct Ht as (_ & _ & ? & _).
  - by constructor.
Qed.

Lemma clean_fold_good stack l :
  Forall good_elem stack -> Forall (fun x => Contains x "/" = false) l ->
  Forall good_elem (foldl (clean_elem true) stack l).
Proof.
  revert stack. induction l as [|x l IH]; intros stack Hs Hl; [done|].
  apply Forall_cons in Hl as [Hx Hl]. cbn. apply IH; [by apply clean_elem_good|done].
Qed.

Lemma clean_push stack x : good_elem x -> clean_elem true stack x = x :: stack.
Proof.
  intros (H1 & H2 & H3 & _). unfold clean_elem.
  by destruct (String.eqb_spec x ""), (String.eqb_spec x "."), (String.eqb_spec x "..").
Qed.

Lemma clean_fold_push stack l :
  Forall good_elem l -> foldl (clean_elem true) stack l = reverse l ++ stack.
Proof.
  revert stack. induction l as [|x l IH]; intros stack Hl; [done|].
  apply Forall_cons in Hl as [Hx Hl]. cbn [foldl]. rewrite clean_push, IH by done.
  by rewrite reverse_cons, <- app_assoc.
Qed.

Lemma split_head s sep r : String.length sep = 1 ->
  Split (s +:+ sep +:+ r) sep = Split s sep ++ Split r sep.
Proof.
  intros Hsep. assert (sep <> "") as Hne by (by destruct sep). unfold Split.
  enough (split_go sep 0 (s +:+ sep +:+ r) =
    ((split_go sep 0 s).1, (split_go sep 0 s).2 ++ (split_go sep 0 r).1 :: (split_go sep 0 r).2)) as ->.
  { by destruct (split_go sep 0 s), (split_go sep 0 r). }
  induction s as [|c s IH]; [exact (split_go_app sep r Hne)|].
  rewrite string_app_cons. cbn [split_go].
  assert (HasPrefix (String c (s +:+ sep +:+ r)) sep = HasPrefix (String c s) sep) as ->.
  { destruct sep as [|a [|]]; try done. unfold HasPrefix. cbn. by destruct (Ascii.eqb a c). }
  destruct (HasPrefix (String c s) sep); rewrite ?Hsep; cbn [Nat.sub]; rewrite IH; by destruct (split_go sep 0 s).
Qed.

Lemma split_no_sep s sep : String.length sep = 1 -> Forall (fun x => Contains x sep = false) (Split s sep).
Proof.
  intros Hsep. unfold Split.
  enough (Forall (fun x => Contains x sep = false) ((split_go sep 0 s).1 :: (split_go sep 0 s).2)) as H.
  { by destruct (split_go sep 0 s). }
  assert (Contains "" sep = false) as H0.
  { unfold Contains, HasPrefix. destruct sep; [done|]. done. }
  induction s as [|c s IH]; cbn [split_go]; [by repeat constructor|].
  apply Forall_cons in IH as [H1 H2]. destruct (HasPrefix (String c s) sep) eqn:Hp.
  - rewrite Hsep. cbn [Nat.sub]. destruct (split_go sep 0 s). cbn in *. by repeat constructor.
  - destruct (split_go sep 0 s) as [p ps]. cbn [fst snd] in *. constructor; [|done].
    cbn [Contains]. rewrite H1. destruct sep as [|a [|]]; try done. unfold HasPrefix in *. cbn in *.
    by destruct (Ascii.eqb a c).
Qed.

Lemma split_join l : Forall good_elem l -> l <> [] -> Split (Join l "/") "/" = l.
Proof.
  induction l as [|x l IH]; [done|]. intros [Hx Hl]%Forall_cons _. destruct l as [|y l].
  - apply Split_no_sep. apply Hx.
  - change (Split (x +:+ "/" +:+ Join (y :: l) "/") "/" = x :: y :: l).
    rewrite split_head, IH by done. rewrite Split_no_sep by apply Hx. done.
Qed.

Lemma clean_fold_split_join stack l :
  Forall good_elem l -> foldl (clean_elem true) stack (Split (Join l "/") "/") = reverse l ++ stack.
Proof.
  intros Hl. destruct (decide (l = [])) as [->|Hne]; [done|]. rewrite split_join by done.
  by apply clean_fold_push.
Qed.

Lemma resolve_from_good dir p : Forall good_elem dir -> Forall good_elem (resolve_from dir p).
Proof.
  intros Hd. unfold resolve_from. apply Forall_reverse. apply clean_fold_good.
  - destruct (HasPrefix p "/"); [done|]. by apply Forall_reverse.
  - by apply split_no_sep.
Qed.

(** The text of a path denotes it. *)
Lemma resolve_path_string m l : Forall good_elem l -> resolve m (path_string l) = l.
Proof.
  intros Hl. unfold resolve, resolve_from, path_string. cbn [HasPrefix cut_prefix String.append].
  change (String "/" (Join l "/")) with ("" +:+ "/" +:+ Join l "/").
  replace (HasPrefix ("" +:+ "/" +:+ Join l "/") "/") with true
    by (symmetry; apply HasPrefix_spec; by exists (Join l "/")).
  rewrite split_head by done. rewrite foldl_app. change (foldl (clean_elem true) [] (Split "" "/")) with (@nil string).
  rewrite clean_fold_split_join by done. by rewrite app_nil_r, reverse_involutive.
Qed.

(** The elements of [p], from a directory. *)
Definition join_elems (dir : path) (p : string) : path :=
  reverse (foldl (clean_elem true) (reverse dir) (Split p "/")).

Lemma Clean_absolute d s :
  HasPrefix d "/" = true -> Clean (d +:+ "/" +:+ s) = path_string (join_elems (resolve_from [] d) s).
Proof.
  intros Hd. unfold Clean, clean_elems. apply HasPrefix_spec in Hd as [r ->].
  assert (HasPrefix (("/" +:+ r) +:+ "/" +:+ s) "/" = true) as Hp.
  { apply HasPrefix_spec. exists (r +:+ "/" +:+ s). by rewrite string_app_assoc. }
  rewrite Hp. unfold path_string. do 2 f_equal. unfold join_elems, resolve_from. rewrite reverse_involutive.
  assert (HasPrefix ("/" +:+ r) "/" = true) as -> by (apply HasPrefix_spec; by exists r).
  by rewrite split_head, foldl_app.
Qed.

(** [filepath.Join] of an absolute directory. *)
Lemma PathJoin_absolute d s :
  HasPrefix d "/" = true -> PathJoin [d; s] = path_string (join_elems (resolve_from [] d) s).
Proof.
  intros Hd. rewrite <- Clean_absolute by done. cbn [PathJoin].
  destruct (String.eqb_spec d "") as [->|]; [done|]. done.
Qed.

Lemma join_elems_good dir p : Forall good_elem dir -> Forall good_elem (join_elems dir p).
Proof.
  intros Hd. unfold join_elems. apply Forall_reverse, clean_fold_good; [by apply Forall_reverse|].
  by apply split_no_sep.
Qed.

Lemma resolve_absolute m d : HasPrefix d "/" = true -> resolve m d = resolve_from [] d.
Proof. intros H. unfold resolve, resolve_from. by rewrite H. Qed.

Lemma resolve_join m d s :
  HasPrefix d "/" = true -> resolve m (PathJoin [d; s]) = join_elems (resolve_from [] d) s.
Proof.
  intros Hd. rewrite PathJoin_absolute by done. apply resolve_path_string, join_elems_good.
  by apply resolve_from_good.
Qed.

Lemma path_string_absolute p : HasPrefix (path_string p) "/" = true.
Proof. apply HasPrefix_spec. by exists (Join p "/"). Qed.

Lemma PathJoin_is_absolute d s : HasPrefix d "/" = true -> HasPrefix (PathJoin [d; s]) "/" = true.
Proof. intros Hd. rewrite PathJoin_absolute by done. apply path_string_absolute. Qed.

Lemma absolute_nonempty p : HasPrefix p "/" = true -> p <> "".
Proof. by intros H ->. Qed.

(** Elements that do not go up stay below the directory. *)
Lemma join_below_gen stack l :
  Forall no_up l -> exists l', foldl (clean_elem true) stack l = l' ++ stack.
Proof.
  revert stack. induction l as [|x l IH]; intros stack Hl; [by exists []|].
  apply Forall_cons in Hl as [Hx Hl]. cbn. unfold clean_elem at 2.
  destruct (String.eqb x "" || String.eqb x "."); [by apply IH|].
  destruct (String.eqb_spec x ".."); [done|]. destruct (IH (x :: stack) Hl) as [l' ->].
  exists (l' ++ [x]). by rewrite <- app_assoc.
Qed.

Lemma join_below dir p :
  Forall no_up (Split p "/") -> exists rel, join_elems dir p = dir ++ rel.
Proof.
  intros H. unfold join_elems. destruct (join_below_gen (reverse dir) _ H) as [l ->].
  exists (reverse l). by rewrite reverse_app, reverse_involutive.
Qed.

Lemma join_good_elem dir x : good_elem x -> join_elems dir x = dir ++ [x].
Proof.
  intros Hx. unfold join_elems. rewrite Split_no_sep by apply Hx. cbn [foldl].
  rewrite clean_push by done. by rewrite reverse_cons, reverse_involutive.
Qed.

(** ** Directories and what is in them *)

Lemma strip_Some dir p rel : strip dir p = Some rel <-> p = dir ++ rel.
Proof.
  revert p. induction dir as [|x dir IH]; intros p; cbn; [naive_solver|].
  destruct p as [|y p]; [split; [done|]; by destruct dir|].
  destruct (String.eqb_spec x y) as [->|Hne]; [rewrite IH|]; naive_solver.
Qed.

Lemma strip_app dir rel : strip dir (dir ++ rel) = Some rel.
Proof. by apply strip_Some. Qed.

(** [p] is in the directory, at any depth. *)
Definition inside (dir p : path) : bool :=
  match strip dir p with Some (_ :: _) => true | _ => false end.

Lemma inside_spec dir p : inside dir p = true <-> exists x rel, p = dir ++ x :: rel.
Proof.
  unfold inside. destruct (strip dir p) as [[|x rel]|] eqn:E.
  - apply strip_Some in E. split; [done|]. intros (x & rel & ->).
    apply (f_equal length) in E. rewrite !length_app in E. cbn in E. lia.
  - apply strip_Some in E. split; [eauto|done].
  - split; [done|]. intros (x & rel & ->). by rewrite strip_app in E.
Qed.

Lemma inside_app dir x rel : inside dir (dir ++ x :: rel) = true.
Proof. apply inside_spec. eauto. Qed.

Lemma inside_nested dir x rel p : inside (dir ++ x :: rel) p = true -> inside dir p = true.
Proof.
  intros (y & q & ->)%inside_spec. rewrite <- app_assoc. apply inside_spec. eauto.
Qed.

Lemma below_spec dir p : below dir p = true <-> exists rel, p = dir ++ rel.
Proof.
  unfold below. destruct (strip dir p) eqn:E.
  - apply strip_Some in E. naive_solver.
  - split; [done|]. intros [rel ->]. by rewrite strip_app in E.
Qed.

Lemma prefixes_comparable (a b c d : path) :
  a ++ c = b ++ d -> below a b = true \/ below b a = true.
Proof.
  revert b. induction a as [|x a IH]; intros b; [by left|].
  destruct b as [|y b]; [by right|]. intros [= <- H]. destruct (IH b H) as [H'|H']; [left|right];
    unfold below in *; cbn; by rewrite String.eqb_refl.
Qed.

Lemma below_app dir p q : below (dir ++ p) (dir ++ q) = below p q.
Proof.
  unfold below. induction dir as [|x dir IH]; [done|]. cbn. by rewrite String.eqb_refl.
Qed.

Lemma below_inside dir p : below dir p = true <-> p = dir \/ inside dir p = true.
Proof.
  rewrite below_spec, inside_spec. split.
  - intros [[|x rel] ->]; [left; by rewrite app_nil_r|right; eauto].
  - intros [->|(x & rel & ->)]; [exists []; by rewrite app_nil_r|eauto].
Qed.

Lemma elem_of_ancestors q p : q ∈ ancestors p <-> q <> [] /\ exists rel, p = q ++ rel.
Proof.
  revert q. induction p as [|x p IH]; intros q; cbn.
  - rewrite elem_of_nil. split; [done|]. intros [Hq [rel Hr]]. by destruct q.
  - rewrite elem_of_cons, list_elem_of_fmap. setoid_rewrite IH. split.
    + intros [->|(q' & -> & Hq' & rel & ->)]; [split; [done|by exists p]|split; [done|by exists rel]].
    + intros [Hq [rel Hr]]. destruct q as [|y q]; [done|]. injection Hr as <- ->.
      destruct (decide (q = [])) as [->|Hne]; [by left|right]. exists q. eauto.
Qed.

Lemma ancestors_app dir rel : ancestors (dir ++ rel) = ancestors dir ++ ((fun q => dir ++ q) <$> ancestors rel).
Proof.
  induction dir as [|x dir IH]; cbn; [by rewrite list_fmap_id|].
  by rewrite IH, fmap_app, <- list_fmap_compose.
Qed.

(** The way to a directory. *)
Definition dirs_to (t : tree) (dir : path) : Prop :=
  forall q, q ∈ ancestors dir -> exists mode, t !! q = Some (Dir mode).

Lemma dirs_to_look t dir : dirs_to t dir -> exists mode, look t dir = Some (Dir mode).
Proof.
  intros H. destruct dir as [|x dir]; [by eexists|]. destruct (H (x :: dir)) as [mode Hm].
  - apply elem_of_ancestors. split; [done|]. exists []. by rewrite app_nil_r.
  - by exists mode.
Qed.

Lemma dirs_to_prefix t dir rel : dirs_to t (dir ++ rel) -> dirs_to t dir.
Proof. intros H q Hq. apply H. rewrite ancestors_app. set_solver. Qed.

Lemma dirs_to_snoc t dir x mode :
  dirs_to t dir -> t !! (dir ++ [x]) = Some (Dir mode) -> dirs_to t (dir ++ [x]).
Proof.
  intros H Hm q. rewrite ancestors_app. cbn. rewrite elem_of_app. intros [Hq|Hq]; [by apply H|].
  apply list_elem_of_singleton in Hq as ->. eauto.
Qed.

(** Only what is in the directory may differ. *)
Definition only_inside (dir : path) (t t' : tree) : Prop :=
  forall p, inside dir p = false -> t' !! p = t !! p.

#[global] Instance only_inside_preorder dir : PreOrder (only_inside dir).
Proof. split; [done|]. intros t1 t2 t3 H1 H2 p Hp. by rewrite H2, H1. Qed.

Lemma ancestor_not_inside dir q : q ∈ ancestors dir -> inside dir q = false.
Proof.
  intros [_ [rel Hr]]%elem_of_ancestors. apply not_true_is_false. intros (x & rel' & ->)%inside_spec.
  apply (f_equal length) in Hr. rewrite !length_app in Hr. cbn in Hr. lia.
Qed.

Lemma only_inside_dirs dir t t' : only_inside dir t t' -> dirs_to t dir -> dirs_to t' dir.
Proof. intros H Hd q Hq. rewrite H by (by apply ancestor_not_inside). by apply Hd. Qed.

Lemma only_inside_nested dir x rel t t' : only_inside (dir ++ x :: rel) t t' -> only_inside dir t t'.
Proof.
  intros H p Hp. apply H. apply not_true_is_false. intros Hi. apply inside_nested in Hi. congruence.
Qed.

Lemma only_inside_insert dir x rel n t : only_inside dir t (<[dir ++ x :: rel := n]> t).
Proof.
  intros p Hp. apply lookup_insert_ne. intros <-. by rewrite inside_app in Hp.
Qed.

(** ** Computations confined to a directory *)

(** Whatever fails, the computation changes nothing out of the directory; it
    does not change the process. *)
Definition same_process (m m' : machine) : Prop := cwd m' = cwd m /\ super m' = super m.

#[global] Instance same_process_preorder : PreOrder same_process.
Proof. split; [done|]. intros m1 m2 m3 [] []. split; congruence. Qed.

Definition confined {A} (dir : path) (c : F A) : Prop :=
  forall m, dirs_to (tree_of m) dir ->
  only_inside dir (tree_of m) (tree_of (c m).2) /\ same_process m (c m).2.

Lemma confined_ret {A} dir (a : A) : confined dir (mret a).
Proof. intros m _. done. Qed.

Lemma confined_bind {A B} dir (c : F A) (f : A -> F B) :
  confined dir c -> (forall a, confined dir (f a)) -> confined dir (c ≫= f).
Proof.
  intros Hc Hf m Hm. destruct (Hc m Hm) as [H1 H2]. unfold mbind, F_bind.
  destruct (c m) as [[a|e|p|] m1]; cbn in *; try done.
  destruct (Hf a m1) as [H3 H4]; [by eapply only_inside_dirs|]. split; [by etrans|by etrans].
Qed.

Lemma confined_each {A} dir (f : A -> F unit) l :
  (forall x, x ∈ l -> confined dir (f x)) -> confined dir (F_each f l).
Proof.
  intros H. induction l as [|x l IH]; [apply confined_ret|]. cbn [F_each].
  apply confined_bind; [apply H; left|]. intros _. apply IH. intros y Hy. apply H. by right.
Qed.

Lemma confined_post {A B} dir (c : F A) (g : res A -> res B) :
  confined dir c -> confined dir (fun m => let '(r, m') := c m in (g r, m')).
Proof. intros H m Hm. specialize (H m Hm). by destruct (c m). Qed.

Lemma confined_wrap {A} dir pre (c : F A) : confined dir c -> confined dir (F_wrap pre c).
Proof. apply confined_post. Qed.

Lemma confined_local {A} dir (c : machine -> F A) :
  (forall m, confined dir (c m)) -> confined dir (fun m => c m m).
Proof. intros H m. apply H. Qed.

Lemma confined_syscall {A} (dir : path) (f : tree -> res (A * tree)) :
  (forall t a t', dirs_to t dir -> f t = Ok (a, t') -> only_inside dir t t') -> confined dir (syscall f).
Proof.
  intros H m Hm. unfold syscall.
  destruct (faults m) as [|[flt|] fs]; cbn; try done;
    (destruct (f (tree_of m)) as [[a t]|e|p|] eqn:E; [|done..]; cbn; split; [by eapply H|done]).
Qed.

#[export] Hint Resolve confined_ret confined_bind confined_each confined_wrap : go.

Lemma mkdir_step_confined dir x rel perm : confined dir (mkdir_step perm (dir ++ x :: rel)).
Proof.
  intros m Hm. unfold mkdir_step. destruct (look _ _) as [[]|]; [done..|].
  apply (confined_syscall dir); [|done]. intros t [] t' _ [= <-]. apply only_inside_insert.
Qed.

(** Making directories in a directory that exists. *)
Lemma mkdir_all_confined dir rel perm : confined dir (mkdir_all (dir ++ rel) perm).
Proof.
  unfold mkdir_all. rewrite ancestors_app. intros m Hm.
  assert (forall l, (forall q, q ∈ l -> q ∈ ancestors dir) -> forall l',
    F_each (mkdir_step perm) (l ++ l') m = F_each (mkdir_step perm) l' m) as Hskip.
  { induction l as [|q l IH]; intros Hl l'; [done|]. cbn [F_each app].
    destruct (Hm q (Hl q ltac:(left))) as [mode Hq]. unfold mbind, F_bind, mkdir_step at 1.
    assert (look (tree_of m) q = Some (Dir mode)) as ->.
    { destruct q; [|done]. destruct (proj1 (elem_of_ancestors [] dir) (Hl [] ltac:(left))); done. }
    apply IH. intros q' Hq'. apply Hl. by right. }
  rewrite Hskip by done. apply confined_each; [|done].
  intros q (q' & -> & (Hne & _)%elem_of_ancestors)%list_elem_of_fmap.
  destruct q' as [|x q']; [done|]. apply mkdir_step_confined.
Qed.

Lemma open_at_confined dir x rel super flags perm :
  confined dir (syscall (open_at super flags perm (dir ++ x :: rel))).
Proof.
  apply confined_syscall. intros t [] t' _. unfold open_at.
  repeat case_match; try done; intros [= <-]; by (apply only_inside_insert || done).
Qed.

Lemma write_over_inside dir x rel data t : only_inside dir t (write_over t (dir ++ x :: rel) data).
Proof. unfold write_over. repeat case_match; by (apply only_inside_insert || done). Qed.

Lemma write_at_confined dir x rel data : confined dir (write_at (dir ++ x :: rel) data).
Proof.
  intros m _. unfold write_at. destruct (faults m) as [|[flt|] fs]; cbn;
    (split; [apply write_over_inside|done]).
Qed.

(** Closing a file changes no file. *)
Lemma close_at_confined dir p : confined dir (close_at p).
Proof. apply confined_wrap, confined_syscall. by intros t [] t' _ [= <-]. Qed.

Lemma Close_confined dir name : confined dir (Close name).
Proof.
  intros m Hm. unfold Close, path_call.
  apply (confined_wrap dir ("close " +:+ name +:+ ": ") (syscall _)); [|done]. apply confined_syscall.
  intros t [] t' _ H. destruct (String.eqb name ""); [done|]. by injection H as <-.
Qed.

Lemma copy_entry_confined dir x rel entry : confined dir (copy_entry (dir ++ x :: rel) entry).
Proof.
  intros m Hm. unfold copy_entry. rewrite <- app_assoc. cbn [app].
  destruct entry.2 as [mode|mode content]; [by apply (mkdir_all_confined dir (x :: rel ++ entry.1))|].
  apply (confined_bind dir); [apply open_at_confined| |done]. intros _.
  apply (confined_bind dir); [apply write_at_confined|intros _; apply close_at_confined].
Qed.

Lemma copy_fs_confined dir x rel fsys : confined dir (copy_fs (dir ++ x :: rel) fsys).
Proof. apply confined_each. intros e _. apply copy_entry_confined. Qed.

(** ** The order of a walk *)

Lemma leb_cons a s b t :
  String.leb (String a s) (String b t) =
  ((byte_of a <? byte_of b) || (byte_of a =? byte_of b) && String.leb s t)%N.
Proof.
  unfold String.leb. cbn [String.compare]. unfold Ascii.compare, byte_of.
  destruct (N.compare_spec (N_of_ascii a) (N_of_ascii b)) as [->|H|H].
  - by rewrite N.ltb_irrefl, N.eqb_refl.
  - by apply N.ltb_lt in H as ->.
  - destruct (N.ltb_spec (N_of_ascii a) (N_of_ascii b)); [lia|].
    destruct (N.eqb_spec (N_of_ascii a) (N_of_ascii b)); [lia|]. done.
Qed.

Lemma leb_trans x y z : String.leb x y = true -> String.leb y z = true -> String.leb x z = true.
Proof.
  revert y z. induction x as [|a x IH]; intros [|b y] [|c z]; try done.
  rewrite !leb_cons, !orb_true_iff, !andb_true_iff, !N.ltb_lt, !N.eqb_eq.
  intros [H1|[H1 H1']] [H2|[H2 H2']]; try (left; lia). right. split; [lia|by eapply IH].
Qed.

Lemma path_le_total p q : path_le p q = true \/ path_le q p = true.
Proof.
  revert q. induction p as [|x p IH]; intros [|y q]; cbn; auto.
  destruct (String.eqb_spec x y) as [->|Hne]; [rewrite String.eqb_refl; apply IH|].
  destruct (String.eqb_spec y x) as [->|_]; [done|]. apply String.leb_total.
Qed.

Lemma path_le_trans p q r : path_le p q = true -> path_le q r = true -> path_le p r = true.
Proof.
  revert q r. induction p as [|x p IH]; intros [|y q] [|z r]; cbn; try done.
  destruct (String.eqb_spec x y) as [->|Hxy].
  - destruct (String.eqb_spec y z) as [->|Hyz]; [apply IH|done].
  - destruct (String.eqb_spec y z) as [->|Hyz].
    + destruct (String.eqb_spec x z); [done|]. done.
    + intros H1 H2. destruct (String.eqb_spec x z) as [->|]; [|by eapply leb_trans].
      exfalso. by apply Hxy, String.leb_antisym.
Qed.

#[global] Instance walk_le_total : Total walk_le.
Proof. intros a b. apply path_le_total. Qed.
#[global] Instance walk_le_trans : Transitive walk_le.
Proof. intros a b c. apply path_le_trans. Qed.

Lemma path_le_up p x rel : path_le (p ++ x :: rel) p = false.
Proof. induction p as [|y p IH]; cbn; [done|]. by rewrite String.eqb_refl. Qed.

Lemma elem_of_walk fsys p n : (p, n) ∈ walk fsys <-> fsys !! p = Some n.
Proof. unfold walk. rewrite merge_sort_Permutation. apply elem_of_map_to_list. Qed.

Lemma walk_NoDup fsys : NoDup (walk fsys).*1.
Proof. unfold walk. rewrite merge_sort_Permutation. apply NoDup_fst_map_to_list. Qed.

Lemma list_to_map_walk fsys : list_to_map (walk fsys) = fsys.
Proof.
  rewrite <- (list_to_map_to_list fsys) at 2. apply list_to_map_proper; [apply walk_NoDup|].
  apply merge_sort_Permutation.
Qed.

(** What is above an entry comes before it. *)
Lemma walk_above fsys pre p x rel n post n' :
  walk fsys = pre ++ (p ++ x :: rel, n) :: post -> fsys !! p = Some n' -> (p, n') ∈ pre.
Proof.
  intros E Hp. apply elem_of_walk in Hp. rewrite E in Hp.
  apply elem_of_app in Hp as [Hp|[Hp|Hp]%elem_of_cons]; [done| |]; exfalso.
  - injection Hp as Hp _. apply (f_equal length) in Hp. rewrite length_app in Hp. cbn in Hp. lia.
  - pose proof (StronglySorted_merge_sort walk_le (map_to_list fsys)) as Hs. fold (walk fsys) in Hs.
    rewrite E in Hs. apply StronglySorted_app in Hs as (_ & _ & Hs).
    apply StronglySorted_inv in Hs as [_ Hs]. rewrite Forall_forall in Hs. specialize (Hs _ Hp).
    unfold walk_le in Hs. cbn in Hs. by rewrite path_le_up in Hs.
Qed.

(** ** Computations that succeed unless a system call fails *)

Definition faulty (m : machine) : Prop := exists flt, Some flt ∈ faults m.

(** The computation returns a value and files that satisfy [Q], unless a system
    call to come fails. *)
Definition wp {A} (c : F A) (m : machine) (Q : A -> tree -> Prop) : Prop :=
  match c m with
  | (Ok a, m') => (faulty m' -> faulty m) /\ same_process m m' /\ Q a (tree_of m')
  | (Err _, _) => faulty m
  | _ => False
  end.

Lemma wp_Ok {A} (c : F A) (m : machine) Q a m' : wp c m Q -> c m = (Ok a, m') -> Q a (tree_of m').
Proof. unfold wp. intros H E. rewrite E in H. tauto. Qed.

Lemma wp_no_fault {A} (c : F A) (m : machine) Q :
  wp c m Q -> faults m = [] ->
  exists a m', c m = (Ok a, m') /\ Q a (tree_of m') /\ same_process m m' /\ ~ faulty m'.
Proof.
  assert (faults m = [] -> ~ faulty m) as Hno.
  { intros E [flt H]. rewrite E in H. by apply elem_of_nil in H. }
  unfold wp. destruct (c m) as [[a|e|p|] m'] eqn:E; try done; intros H Hf.
  - exists a, m'. destruct H as (H1 & H2 & H3). repeat split; try apply H2; try done.
    intros H. apply H1 in H. by apply Hno.
  - by apply Hno in H.
Qed.

Lemma wp_mono {A} (c : F A) (m : machine) (Q Q' : A -> tree -> Prop) :
  wp c m Q -> (forall a t, Q a t -> Q' a t) -> wp c m Q'.
Proof. unfold wp. intros H HQ. destruct (c m) as [[]]; try done. naive_solver. Qed.

Lemma wp_ret {A} (a : A) (m : machine) (Q : A -> tree -> Prop) : Q a (tree_of m) -> wp (mret a) m Q.
Proof. done. Qed.

Lemma wp_bind {A B} (c : F A) (f : A -> F B) (m : machine) (Q : B -> tree -> Prop) :
  wp c m (fun a t => forall m', same_process m m' -> tree_of m' = t -> wp (f a) m' Q) ->
  wp (c ≫= f) m Q.
Proof.
  unfold wp, mbind, F_bind. destruct (c m) as [[a|e|p|] m1]; try done.
  intros (H1 & H2 & H). specialize (H m1 H2 eq_refl).
  destruct (f a m1) as [[b|e|p|] m2]; try done; [|by auto].
  destruct H as (H3 & H4 & H). split; [auto|]. split; [by etrans|done].
Qed.

Lemma wp_wrap {A} pre (c : F A) (m : machine) Q : wp c m Q -> wp (F_wrap pre c) m Q.
Proof. unfold wp, F_wrap. destruct (c m) as [[a|e|p|] m1]; done. Qed.

Lemma wp_syscall {A} (f : tree -> res (A * tree)) (m : machine) (Q : A -> tree -> Prop) a t' :
  f (tree_of m) = Ok (a, t') -> Q a t' -> wp (syscall f) m Q.
Proof.
  intros E HQ. unfold wp, syscall. destruct (faults m) as [|[flt|] fs] eqn:Ef; cbn.
  - rewrite E. cbn. split; [|done]. unfold faulty. rewrite Ef. done.
  - exists flt. rewrite Ef. left.
  - rewrite E. cbn. split; [|done]. unfold faulty. cbn. rewrite Ef. intros [flt H]. exists flt. by right.
Qed.

Lemma wp_path_call {A} (op p : string) (f : path -> tree -> res (A * tree)) (m : machine) (Q : A -> tree -> Prop) a t' :
  p <> "" -> f (resolve m p) (tree_of m) = Ok (a, t') -> Q a t' -> wp (path_call op p f) m Q.
Proof.
  intros Hp E HQ. unfold path_call, path_error. apply (wp_wrap (op +:+ " " +:+ p +:+ ": ")).
  eapply wp_syscall; [|exact HQ]. destruct (String.eqb_spec p ""); done.
Qed.

Lemma wp_write_at (p : path) (data : string) (m : machine) (Q : unit -> tree -> Prop) :
  Q tt (write_over (tree_of m) p data) -> wp (write_at p data) m Q.
Proof.
  intros HQ. unfold wp, write_at. destruct (faults m) as [|[flt|] fs] eqn:Ef; cbn.
  - split; [|done]. unfold faulty. rewrite Ef. done.
  - exists flt. rewrite Ef. left.
  - split; [|done]. unfold faulty. cbn. rewrite Ef. intros [flt H]. exists flt. by right.
Qed.

(** An invariant of what has been processed. *)
Lemma wp_each {A} (I : list A -> tree -> Prop) (f : A -> F unit) l (m : machine) :
  I [] (tree_of m) ->
  (forall pre x post m', l = pre ++ x :: post -> same_process m m' -> I pre (tree_of m') ->
     wp (f x) m' (fun _ t => I (pre ++ [x]) t)) ->
  wp (F_each f l) m (fun _ t => I l t).
Proof.
  intros H0 Hf.
  enough (forall post pre m', l = pre ++ post -> same_process m m' -> I pre (tree_of m') ->
            wp (F_each f post) m' (fun _ t => I l t)) as H by by apply (H l []).
  induction post as [|x post IH]; intros pre m' -> Hs HI; cbn [F_each].
  - rewrite app_nil_r. by apply wp_ret.
  - apply wp_bind. eapply wp_mono; [by eapply Hf|]. cbn. intros _ t Ht m2 Hs2 <-.
    apply IH with (pre := pre ++ [x]); [by rewrite <- app_assoc|by etrans|done].
Qed.

(** ** Making directories *)

(** Nothing on the way to a path is a file. *)
Definition no_file_to (t : tree) (p : path) : Prop :=
  forall q, q ∈ ancestors p -> match t !! q with Some (File _ _) => False | _ => True end.

(** The files after the directories on the way to [p] are made. *)
Definition with_dirs (t : tree) (p : path) (perm : N) (q : path) : option node :=
  if decide (q ∈ ancestors p /\ t !! q = None) then Some (Dir (umask perm)) else t !! q.

Lemma look_ancestor t p q : q ∈ ancestors p -> look t q = t !! q.
Proof. intros [Hq _]%elem_of_ancestors. by destruct q. Qed.

Lemma wp_mkdir_all (p : path) perm (m : machine) :
  no_file_to (tree_of m) p ->
  wp (mkdir_all p perm) m (fun _ t => forall q, t !! q = with_dirs (tree_of m) p perm q).
Proof.
  intros Hno. unfold mkdir_all.
  set (I := fun (pre : list path) (t : tree) => forall q,
    t !! q = if decide (q ∈ pre /\ tree_of m !! q = None) then Some (Dir (umask perm)) else tree_of m !! q).
  apply (wp_each I).
  - intros q. rewrite decide_False; [done|]. intros [H _]. by apply elem_of_nil in H.
  - intros pre p' post m' E Hs HI. assert (p' ∈ ancestors p) as Hp' by (rewrite E; set_solver).
    unfold mkdir_step. pose proof (HI p') as Hm. unfold wp.
    rewrite (look_ancestor _ p) by done. specialize (Hno p' Hp').
    assert (forall q, (q ∈ pre ++ [p'] /\ tree_of m !! q = None) <->
                      (q ∈ pre /\ tree_of m !! q = None) \/ (q = p' /\ tree_of m !! q = None)) as Hq by set_solver.
    destruct (tree_of m' !! p') as [[mode|mode c]|] eqn:Et.
    + split; [done|]. split; [done|]. intros q. rewrite HI. apply decide_ext. rewrite Hq.
      split; [by left|]. intros [?|[-> Hn]]; [done|].
      case_decide as Hd; [done|]. congruence.
    + exfalso. case_decide as Hd; [done|]. by rewrite <- Hm in Hno.
    + assert (tree_of m !! p' = None) as Hn by (case_decide; congruence).
      refine (wp_syscall (fun t => Ok (tt, <[p' := Dir (umask perm)]> t)) m' (fun _ t => I (pre ++ [p']) t) tt _ eq_refl _).
      intros q. destruct (decide (q = p')) as [->|Hne].
      * rewrite lookup_insert_eq, decide_True; [done|]. apply Hq. by right.
      * rewrite lookup_insert_ne by done. rewrite HI. apply decide_ext. rewrite Hq. naive_solver.
Qed.

(** One more directory. *)
Lemma wp_mkdir_all_snoc (p : path) x perm (m : machine) :
  dirs_to (tree_of m) p -> tree_of m !! (p ++ [x]) = None ->
  wp (mkdir_all (p ++ [x]) perm) m (fun _ t => t = <[p ++ [x] := Dir (umask perm)]> (tree_of m)).
Proof.
  intros Hd Hn. eapply wp_mono; [apply wp_mkdir_all|].
  - intros q. rewrite ancestors_app. intros [Hq|Hq]%elem_of_app.
    + by destruct (Hd q Hq) as [mode ->].
    + apply list_elem_of_singleton in Hq as ->. by rewrite Hn.
  - intros [] t Ht. apply map_eq. intros q. rewrite Ht. unfold with_dirs.
    destruct (decide (q = p ++ [x])) as [->|Hne].
    + rewrite lookup_insert_eq, decide_True; [done|]. split; [|done]. rewrite ancestors_app. cbn. set_solver.
    + rewrite lookup_insert_ne by done. apply decide_False. rewrite ancestors_app.
      intros [[Hq|Hq]%elem_of_app Hnq]; [|by apply list_elem_of_singleton in Hq].
      destruct (Hd q Hq) as [mode Hm]. congruence.
Qed.

(** ** Copying *)

(** A file system that is closed upwards. *)
Definition fs_closed (fsys : tree) : Prop :=
  (exists mode, fsys !! [] = Some (Dir mode)) /\
  forall p x rel, is_Some (fsys !! (p ++ x :: rel)) -> exists mode, fsys !! p = Some (Dir mode).

(** What [os.CopyFS] makes of a node. *)
Definition copied (n : node) : node :=
  match n with
  | Dir _ => Dir (umask 511)
  | File mode content => File (umask (N.lor 438 (N.land mode 511))) content
  end.

(** The files after a copy of [fsys] to a directory that did not exist. *)
Definition after_copy (t : tree) (dir : path) (fsys : tree) (p : path) : option node :=
  match strip dir p with
  | Some rel => copied <$> fsys !! rel
  | None => with_dirs t dir 511 p
  end.

Lemma write_over_new t p mode data :
  write_over (<[p := File mode ""]> t) p data = <[p := File mode data]> t.
Proof.
  unfold write_over. rewrite lookup_insert_eq, insert_insert_eq. unfold drop_bytes, slice_from, slice.
  cbn [String.length]. rewrite Nat.sub_0_l. f_equal. f_equal.
  assert (String.substring (String.length data) 0 "" = "") as -> by by destruct data.
  apply string_app_nil_r.
Qed.

Lemma parent_snoc p x : parent (p ++ [x]) = p.
Proof. unfold parent. apply removelast_last. Qed.

Lemma look_snoc t p x : look t (p ++ [x]) = t !! (p ++ [x]).
Proof. by destruct p. Qed.

Lemma reachable t p x : dirs_to t p -> unreachable t (p ++ [x]) = None.
Proof.
  intros H. unfold unreachable. rewrite parent_snoc. destruct (dirs_to_look _ _ H) as [mode ->]. done.
Qed.

Lemma wp_create (p : path) x super perm data (m : machine) :
  dirs_to (tree_of m) p -> tree_of m !! (p ++ [x]) = None ->
  forall flags, O_CREATE flags = true ->
  wp (_ ← syscall (open_at super flags perm (p ++ [x])); write_at (p ++ [x]) data) m
     (fun _ t => t = <[p ++ [x] := File (umask perm) data]> (tree_of m)).
Proof.
  intros Hd Hn flags Hf. apply wp_bind.
  apply (wp_syscall _ _ _ tt (<[p ++ [x] := File (umask perm) ""]> (tree_of m))).
  - unfold open_at. by rewrite reachable, look_snoc, Hn, Hf by done.
  - intros m' _ E. apply wp_write_at. rewrite E. by apply write_over_new.
Qed.

Lemma wp_close_at (p : path) (m : machine) (Q : unit -> tree -> Prop) :
  Q tt (tree_of m) -> wp (close_at p) m Q.
Proof. intros HQ. apply wp_wrap. by eapply wp_syscall. Qed.

Lemma wp_Close name (m : machine) : name <> "" -> wp (Close name) m (fun _ t => t = tree_of m).
Proof. intros Hn. by eapply wp_path_call. Qed.

(** The same, closed. *)
Lemma wp_create_close (p : path) x super perm data (m : machine) :
  dirs_to (tree_of m) p -> tree_of m !! (p ++ [x]) = None ->
  forall flags, O_CREATE flags = true ->
  wp (_ ← syscall (open_at super flags perm (p ++ [x])); _ ← write_at (p ++ [x]) data; close_at (p ++ [x])) m
     (fun _ t => t = <[p ++ [x] := File (umask perm) data]> (tree_of m)).
Proof.
  intros Hd Hn flags Hf. apply wp_bind.
  apply (wp_syscall _ _ _ tt (<[p ++ [x] := File (umask perm) ""]> (tree_of m))).
  - unfold open_at. by rewrite reachable, look_snoc, Hn, Hf by done.
  - intros m' _ E. apply wp_bind, wp_write_at. rewrite E. intros m2 _ E2. apply wp_close_at.
    rewrite E2. by apply write_over_new.
Qed.

(** *** Unpacking entries into an empty directory *)

(** The entries of a file system but its root. *)
Definition entries (fsys : tree) : list (path * node) := tail (walk fsys).

Lemma walk_root fsys : fs_closed fsys -> exists mode, walk fsys = ([], Dir mode) :: entries fsys.
Proof.
  intros [[mode Hroot] _]. exists mode. unfold entries. pose proof Hroot as Hin. apply elem_of_walk in Hin.
  destruct (walk fsys) as [|[q n] l] eqn:E; [by apply elem_of_nil in Hin|]. cbn [tail].
  assert (fsys !! q = Some n) as Hq by (apply elem_of_walk; rewrite E; left).
  destruct q as [|x q]; [congruence|].
  pose proof (walk_above fsys [] [] x q n l (Dir mode) E Hroot) as H. by apply elem_of_nil in H.
Qed.

Lemma entries_spec fsys p n : fs_closed fsys -> (p, n) ∈ entries fsys <-> p <> [] /\ fsys !! p = Some n.
Proof.
  intros Hc. destruct (walk_root fsys Hc) as [mode E]. rewrite <- elem_of_walk, E, elem_of_cons.
  pose proof (walk_NoDup fsys) as Hnd. rewrite E in Hnd. apply NoDup_cons in Hnd as [Hn _]. split.
  - intros H. split; [|by right]. intros ->. apply Hn. apply list_elem_of_fmap. by exists ([], n).
  - intros [Hp [H|H]]; [|done]. congruence.
Qed.

Lemma entries_NoDup fsys : fs_closed fsys -> NoDup (entries fsys).*1.
Proof.
  intros Hc. destruct (walk_root fsys Hc) as [mode E]. pose proof (walk_NoDup fsys) as H.
  rewrite E, fmap_cons in H. by apply NoDup_cons in H as [_ H].
Qed.

Lemma entries_above fsys pre p x rel n post n' :
  fs_closed fsys -> entries fsys = pre ++ (p ++ x :: rel, n) :: post -> p <> [] -> fsys !! p = Some n' -> (p, n') ∈ pre.
Proof.
  intros Hc E Hp Hn. destruct (walk_root fsys Hc) as [mode Ew]. rewrite E in Ew.
  pose proof (walk_above fsys (([], Dir mode) :: pre) p x rel n post n' Ew Hn) as H.
  apply elem_of_cons in H as [H|H]; [congruence|done].
Qed.

(** The files when the entries [l] have been put in [dir], each as [img] of it. *)
Definition unpacked (img : node -> node) (t0 : tree) (dir : path) (l : list (path * node)) (t : tree) : Prop :=
  forall p, t !! p =
    match strip dir p with
    | Some (x :: rel) => img <$> (list_to_map l : tree) !! (x :: rel)
    | _ => t0 !! p
    end.

Lemma strip_ancestor (dir p : path) : p ∈ ancestors dir -> strip dir p = None \/ strip dir p = Some [].
Proof.
  intros Ha%ancestor_not_inside. unfold inside in Ha. destruct (strip dir p) as [[|x rel]|]; [by right|done|by left].
Qed.

Lemma unpacked_dirs (img : node -> node) (t0 : tree) (dir : path) (l : list (path * node)) (t : tree) (q : path) :
  (forall mode, is_dir (img (Dir mode)) = true) -> dirs_to t0 dir -> NoDup l.*1 -> unpacked img t0 dir l t ->
  (forall r rel, q = r ++ rel -> r <> [] -> exists mode, (r, Dir mode) ∈ l) -> dirs_to t (dir ++ q).
Proof.
  intros Himg Hd Hnd HI Hq r. rewrite ancestors_app. intros [Hr|Hr]%elem_of_app.
  - destruct (Hd r Hr) as [mode Hm]. exists mode. rewrite HI. by destruct (strip_ancestor _ _ Hr) as [-> | ->].
  - apply list_elem_of_fmap in Hr as (r' & -> & (Hne & rel & ->)%elem_of_ancestors).
    destruct (Hq r' rel eq_refl Hne) as [mode Hm]. apply elem_of_list_to_map in Hm; [|done].
    rewrite HI, strip_app. destruct r' as [|x r']; [done|]. rewrite Hm. cbn. specialize (Himg mode).
    destruct (img (Dir mode)); [by eexists|done].
Qed.

Lemma unpacked_snoc (img : node -> node) (t0 : tree) (dir : path) (l : list (path * node)) (t : tree) x rel n :
  unpacked img t0 dir l t -> (list_to_map l : tree) !! (x :: rel) = None ->
  unpacked img t0 dir (l ++ [(x :: rel, n)]) (<[dir ++ x :: rel := img n]> t).
Proof.
  intros HI Hl p. rewrite list_to_map_app. destruct (decide (p = dir ++ x :: rel)) as [->|Hp].
  - rewrite lookup_insert_eq, strip_app, lookup_union, Hl. cbn. by rewrite lookup_insert_eq.
  - rewrite lookup_insert_ne, HI by done. destruct (strip dir p) as [[|y r]|] eqn:Es; try done.
    apply strip_Some in Es as ->. rewrite lookup_union. cbn.
    rewrite (lookup_insert_ne _ (x :: rel) (y :: r)) by naive_solver. rewrite lookup_empty.
    by destruct (list_to_map l !! (y :: r)).
Qed.

(** Unpacking, by a step that puts one entry in a directory that is there. *)
Lemma wp_unpack (img : node -> node) (step : path * node -> F unit) (dir : path) (fsys : tree) (m : machine) :
  (forall mode, is_dir (img (Dir mode)) = true) -> fs_closed fsys -> dirs_to (tree_of m) dir ->
  (forall p, inside dir p = true -> tree_of m !! p = None) ->
  (forall q x n m', same_process m m' -> only_inside dir (tree_of m) (tree_of m') -> fsys !! (q ++ [x]) = Some n ->
     dirs_to (tree_of m') (dir ++ q) -> tree_of m' !! (dir ++ q ++ [x]) = None ->
     wp (step (q ++ [x], n)) m' (fun _ t => t = <[dir ++ q ++ [x] := img n]> (tree_of m'))) ->
  wp (F_each step (entries fsys)) m (fun _ t => unpacked img (tree_of m) dir (entries fsys) t).
Proof.
  intros Himg Hclosed Hd Habs Hstep. apply wp_each.
  - intros p. destruct (strip dir p) as [[|x rel]|] eqn:Es; try done. cbn. rewrite lookup_empty. cbn.
    apply strip_Some in Es as ->. apply Habs, inside_app.
  - intros pre [rel n] post m' E Hs HI.
    assert (rel <> [] /\ fsys !! rel = Some n) as [Hne Hn] by (apply entries_spec; [done|rewrite E; set_solver]).
    assert (NoDup pre.*1 /\ rel ∉ pre.*1) as [Hnd Hrel].
    { pose proof (entries_NoDup fsys Hclosed) as Hnd. rewrite E, fmap_app, fmap_cons in Hnd.
      apply NoDup_app in Hnd as (? & H & _). split; [done|]. intros Hin. apply (H _ Hin). left. }
    apply not_elem_of_list_to_map_1 in Hrel. destruct (exists_last Hne) as (q & x & ->).
    assert (exists y r, q ++ [x] = y :: r) as (y & r & Hy) by (destruct q; eauto).
    eapply wp_mono; [apply Hstep; try done|].
    + intros p Hp. rewrite HI. unfold inside in Hp. by destruct (strip dir p) as [[|z r']|].
    + eapply unpacked_dirs; [done..|]. intros a rel -> Ha.
      assert (fsys !! (a ++ default "" (head (rel ++ [x])) :: tail (rel ++ [x])) = Some n) as Hn'.
      { rewrite <- Hn, <- app_assoc. do 2 f_equal. by destruct rel. }
      destruct (proj2 Hclosed a _ _ ltac:(eauto)) as [mode Hm]. exists mode.
      eapply (entries_above fsys pre a (default "" (head (rel ++ [x]))) (tail (rel ++ [x])) n post); [done| |done..].
      rewrite E, <- app_assoc. do 3 f_equal. by destruct rel.
    + rewrite HI, strip_app, Hy. by rewrite Hy in Hrel; rewrite Hrel.
    + intros [] t ->. rewrite Hy in *. by apply unpacked_snoc.
Qed.

Lemma unpacked_entries (img : node -> node) (t0 : tree) (dir : path) (fsys t : tree) :
  fs_closed fsys -> unpacked img t0 dir (entries fsys) t ->
  forall p, t !! p = match strip dir p with Some (x :: rel) => img <$> fsys !! (x :: rel) | _ => t0 !! p end.
Proof.
  intros Hc HI p. rewrite HI. destruct (strip dir p) as [[|x rel]|]; try done. f_equal.
  apply option_eq. intros n. rewrite <- elem_of_list_to_map by by apply entries_NoDup. rewrite entries_spec by done. naive_solver.
Qed.

(** *** Copying to a directory that does not exist *)

(** The first entry is the root of the file system. *)
Lemma wp_copy_root (dir : path) mode (m : machine) :
  no_file_to (tree_of m) dir ->
  wp (copy_entry dir ([], Dir mode)) m (fun _ t => forall q, t !! q = with_dirs (tree_of m) dir 511 q).
Proof.
  intros Hno. pose proof (wp_mkdir_all dir 511 m Hno) as H. unfold copy_entry, wp in *. cbn [fst snd].
  rewrite app_nil_r. by destruct (mkdir_all dir 511 m) as [[u|e|w|] m2].
Qed.

(** Any other entry, below its directories. *)
Lemma wp_copy_next (dir q : path) x n (m : machine) :
  dirs_to (tree_of m) (dir ++ q) -> tree_of m !! (dir ++ q ++ [x]) = None ->
  wp (copy_entry dir (q ++ [x], n)) m (fun _ t => t = <[dir ++ q ++ [x] := copied n]> (tree_of m)).
Proof.
  rewrite (app_assoc dir q [x]). intros Hd Hnew. unfold copy_entry. cbn [fst snd]. unfold wp.
  rewrite (app_assoc dir q [x]). destruct n as [mode|mode content].
  - exact (wp_mkdir_all_snoc _ _ 511 _ Hd Hnew).
  - change (wp (_ ← syscall (open_at (super m) {| O_CREATE := true; O_EXCL := true; O_TRUNC := false |}
                              (N.lor 438 (N.land mode 511)) ((dir ++ q) ++ [x]));
                _ ← write_at ((dir ++ q) ++ [x]) content; close_at ((dir ++ q) ++ [x])) m
              (fun _ t => t = <[(dir ++ q) ++ [x] := copied (File mode content)]> (tree_of m))).
    by apply wp_create_close.
Qed.

Lemma with_dirs_to (t : tree) (dir : path) (perm : N) (t' : tree) :
  no_file_to t dir -> (forall q, t' !! q = with_dirs t dir perm q) -> dirs_to t' dir.
Proof.
  intros Hno Ht q Hq. rewrite Ht. unfold with_dirs. specialize (Hno q Hq). case_decide as Hd; [by eexists|].
  destruct (t !! q) as [[mode|]|]; [by eexists|done|]. exfalso. by apply Hd.
Qed.

(** Copying a file system to a directory where nothing is, after a check of each
    entry that changes nothing. *)
Lemma wp_copy_into (check : path * node -> F unit) (dir : path) fsys (m : machine) :
  dir <> [] -> fs_closed fsys -> no_file_to (tree_of m) dir ->
  (forall p, inside dir p = true -> tree_of m !! p = None) ->
  (forall kn m', kn ∈ walk fsys -> same_process m m' ->
     (forall p, inside dir p = false -> tree_of m' !! p = with_dirs (tree_of m) dir 511 p \/ tree_of m' = tree_of m) ->
     wp (check kn) m' (fun _ t => t = tree_of m')) ->
  wp (F_each (fun kn => _ ← check kn; copy_entry dir kn) (walk fsys)) m (fun _ t => forall p, t !! p =
    match strip dir p with Some (x :: rel) => copied <$> fsys !! (x :: rel) | _ => with_dirs (tree_of m) dir 511 p end).
Proof.
  intros Hdir Hclosed Hno Habs Hcheck. destruct (walk_root fsys Hclosed) as [mode Ew]. rewrite Ew in *.
  cbn [F_each]. apply wp_bind. eapply (wp_mono _ _ (fun _ t => forall q, t !! q = with_dirs (tree_of m) dir 511 q)).
  { apply wp_bind. eapply wp_mono; [apply Hcheck; [left|done|by right]|]. cbn. intros [] t -> m1 Hs1 E1.
    rewrite <- E1 in *. by apply wp_copy_root. }
  intros [] t Ht m1 Hs1 <-. cbn in Ht. pose proof (with_dirs_to _ _ _ _ Hno Ht) as Hd1. eapply wp_mono.
  - apply (wp_unpack copied); [done|done|done| |].
    + intros p Hp. rewrite Ht. unfold with_dirs. rewrite decide_False; [by apply Habs|].
      intros [Ha _]. apply ancestor_not_inside in Ha. congruence.
    + intros q x n m' Hs Hin Hn Hq Hnone. apply wp_bind. eapply wp_mono; [apply Hcheck|].
      * right. apply entries_spec; [done|]. split; [by destruct q|done].
      * by etrans.
      * intros p Hp. left. by rewrite Hin, Ht.
      * cbn. intros [] t' -> m2 Hs2 E2. rewrite <- E2 in *. by apply wp_copy_next.
  - intros [] t' HI p. rewrite (unpacked_entries _ _ _ _ _ Hclosed HI).
    destruct (strip dir p) as [[|x rel]|]; [apply Ht|done|apply Ht].
Qed.

(** Copying a file system to a directory that does not exist. *)
Lemma wp_copy_fs (dir : path) fsys (m : machine) :
  dir <> [] -> fs_closed fsys -> no_file_to (tree_of m) dir ->
  (forall p, below dir p = true -> tree_of m !! p = None) ->
  wp (copy_fs dir fsys) m (fun _ t => forall p, t !! p = after_copy (tree_of m) dir fsys p).
Proof.
  intros Hdir Hclosed Hno Habs. unfold copy_fs.
  assert (wp (F_each (fun kn => _ ← mret tt; copy_entry dir kn) (walk fsys)) m
    (fun _ t => forall p, t !! p = after_copy (tree_of m) dir fsys p)) as H; [|exact H].
  eapply wp_mono; [apply wp_copy_into; try done|].
  - intros p Hp. apply Habs, below_inside. by right.
  - intros [] t Ht p. rewrite Ht. unfold after_copy. destruct (strip dir p) as [[|x rel]|] eqn:Es; try done.
    apply strip_Some in Es as ->. rewrite app_nil_r. destruct Hclosed as [[mode Hroot] _]. rewrite Hroot.
    unfold with_dirs. rewrite decide_True; [done|]. split.
    + apply elem_of_ancestors. split; [done|]. exists []. by rewrite app_nil_r.
    + apply Habs, below_spec. exists []. by rewrite app_nil_r.
Qed.

(** ** Temporary directories *)

Lemma children_exist_false (t : tree) (dir : path) x rel :
  children_exist t dir = false -> t !! (dir ++ x :: rel) = None.
Proof.
  intros H. destruct (t !! (dir ++ x :: rel)) as [n|] eqn:E; [|done]. exfalso.
  apply not_true_iff_false in H. apply H. apply existsb_exists. exists (dir ++ x :: rel, n).
  split; [by apply list_elem_of_In, elem_of_map_to_list|]. cbn.
  rewrite (proj2 (below_spec dir (dir ++ x :: rel))) by eauto. cbn.
  rewrite bool_decide_false; [done|]. intros H'. apply (f_equal length) in H'.
  rewrite length_app in H'. cbn in H'. lia.
Qed.

Lemma draw_spec t dir pattern names name names' :
  draw t dir pattern names = Some (name, names') ->
  exists_at t (dir ++ [name]) = false /\ exists n, n ∈ names /\ name = temp_name pattern n.
Proof.
  induction names as [|n names IH]; cbn; [done|]. destruct (exists_at t (dir ++ [temp_name pattern n])) eqn:E.
  - intros H. destruct (IH H) as (H1 & n' & H2 & ->). split; [done|]. exists n'. split; [by right|done].
  - intros [= <- <-]. split; [done|]. exists n. split; [left|done].
Qed.

Lemma draw_free t dir pattern names name names' :
  draw t dir pattern names = Some (name, names') ->
  forall p, below (dir ++ [name]) p = true -> t !! p = None.
Proof.
  intros [H _]%draw_spec p [rel ->]%below_spec. unfold exists_at in H.
  destruct (t !! (dir ++ [name])) as [n|] eqn:E; [done|]. destruct rel as [|x rel]; [by rewrite app_nil_r|].
  by apply children_exist_false.
Qed.

Lemma digits_no_char c d : all_digits d = true -> is_digit c = false -> Contains d (String c "") = false.
Proof.
  intros Hd Hc. apply not_true_is_false. intros (a & b & ->)%Contains_spec. unfold all_digits in Hd.
  rewrite !all_bytes_app in Hd. cbn in Hd. by rewrite Hc, andb_false_r in Hd.
Qed.

Lemma Contains_app_char a b c :
  Contains (a +:+ b) (String c "") = Contains a (String c "") || Contains b (String c "").
Proof.
  induction a as [|x a IH]; [by destruct b|]. rewrite string_app_cons. cbn [Contains].
  rewrite IH. unfold HasPrefix. cbn. destruct (Ascii.eqb c x); [done|]. by destruct (Contains a (String c "")).
Qed.

(** A number between texts without a slash names an entry. *)
Lemma good_numbered a n b :
  Contains a "/" = false -> Contains b "/" = false -> good_elem (a +:+ FormatUint n +:+ b).
Proof.
  intros Ha Hb. destruct (FormatUint_digits n) as (Hd & Hne & _).
  assert (forall s, all_bytes (fun c => negb (is_digit c)) s = true -> a +:+ FormatUint n +:+ b <> s) as Hs.
  { intros s Hs <-. rewrite !all_bytes_app in Hs. apply andb_true_iff in Hs as [_ [Hs _]%andb_true_iff].
    destruct (FormatUint n) as [|c d]; [done|]. cbn in Hd, Hs. apply andb_true_iff in Hd as [Hd _].
    by rewrite Hd in Hs. }
  repeat split; try by apply Hs.
  rewrite !Contains_app_char, Ha, Hb. by rewrite digits_no_char.
Qed.

Lemma Contains_rev s c : Contains (String.rev s) (String c "") = Contains s (String c "").
Proof.
  induction s as [|x s IH]; [done|]. rewrite rev_cons, Contains_app_char, IH.
  cbn [Contains]. unfold HasPrefix. cbn. destruct (Ascii.eqb c x); [by rewrite orb_true_r|]. by rewrite orb_false_r.
Qed.

Lemma good_temp_name pattern n : Contains pattern "/" = false -> good_elem (temp_name pattern n).
Proof.
  intros H. unfold temp_name. destruct (cut_at "*" (String.rev pattern)) as [[b a]|] eqn:E.
  - apply cut_at_Some in E. rewrite <- Contains_rev, E, !Contains_app_char, !orb_false_iff in H.
    destruct H as (H1 & _ & H2). apply good_numbered; by rewrite Contains_rev.
  - rewrite <- (string_app_nil_r (FormatUint n)). by apply good_numbered.
Qed.

Lemma syscall_tree {A} (f : tree -> res (A * tree)) (m : machine) r m' :
  syscall f m = (r, m') ->
  (exists a t, r = Ok a /\ f (tree_of m) = Ok (a, t) /\ tree_of m' = t) \/
  (is_ok r = false /\ tree_of m' = tree_of m).
Proof.
  unfold syscall. destruct (faults m) as [|[flt|] fs]; [|by intros [= <- <-]; right|];
    cbn; destruct (f (tree_of m)) as [[a t]|e|p|] eqn:E; intros [= <- <-]; try (by right); left; by exists a, t.
Qed.

Lemma syscall_process {A} (f : tree -> res (A * tree)) (m : machine) : same_process m (syscall f m).2.
Proof.
  unfold syscall. destruct (faults m) as [|[flt|] fs]; [|done|]; cbn; by destruct (f (tree_of m)) as [[a t]|e|p|].
Qed.

(** What making a temporary directory changes, whatever fails. *)
Lemma MkdirTemp_change dir pattern (m : machine) r m' :
  HasPrefix dir "/" = true -> Contains pattern "/" = false -> MkdirTemp dir pattern m = (r, m') ->
  (is_ok r = false /\ tree_of m' = tree_of m) \/
  exists name, good_elem name /\ r = Ok (PathJoin [dir; name]) /\
    (forall p, below (resolve_from [] dir ++ [name]) p = true -> tree_of m !! p = None) /\
    tree_of m' = <[resolve_from [] dir ++ [name] := Dir 448]> (tree_of m).
Proof.
  intros Hdir H1. unfold MkdirTemp. rewrite resolve_absolute by done. set (T := resolve_from [] dir).
  destruct (draw _ T pattern _) as [[name names']|] eqn:Hd; [|by intros [= <- <-]; left].
  assert (good_elem name) as Hname.
  { destruct (draw_spec _ _ _ _ _ _ Hd) as (_ & n & _ & ->). by apply good_temp_name. }
  unfold Mkdir, path_call, path_error. set (f := fun t => _).
  destruct (syscall f (with_random names' m)) as [r1 m1] eqn:E.
  apply syscall_tree in E as [(a & t & -> & E & Et)|[Hr Et]].
  - intros [= <- <-]. right. exists name. split; [done|]. split; [done|]. split; [by eapply draw_free|].
    rewrite Et. unfold f in E. rewrite resolve_join, join_good_elem in E by done. fold T in E.
    destruct (String.eqb _ ""); [done|]. destruct (unreachable _ _); [done|].
    destruct (look _ _); [done|]. by injection E as _ <-.
  - destruct r1; [done|..]; intros [= <- <-]; by left.
Qed.

(** A new directory, with a name that was free. *)
Lemma wp_MkdirTemp dir pattern name names' (m : machine) :
  HasPrefix dir "/" = true -> dirs_to (tree_of m) (resolve_from [] dir) ->
  draw (tree_of m) (resolve_from [] dir) pattern (random m) = Some (name, names') -> good_elem name ->
  wp (MkdirTemp dir pattern) m (fun r t =>
    r = PathJoin [dir; name] /\ t = <[resolve_from [] dir ++ [name] := Dir 448]> (tree_of m)).
Proof.
  intros Hdir Hd Hdraw Hname. set (T := resolve_from [] dir) in *.
  assert (wp (Mkdir (PathJoin [dir; name]) 448) (with_random names' m) (fun _ t =>
            t = <[T ++ [name] := Dir 448]> (tree_of m))) as H.
  { eapply wp_path_call; [|cbv beta|reflexivity].
    - rewrite PathJoin_absolute by done. done.
    - rewrite resolve_join, join_good_elem by done. fold T. rewrite reachable, look_snoc by done.
      cbn [tree_of with_random]. rewrite (draw_free _ _ _ _ _ _ Hdraw); [done|].
      apply below_spec. exists []. by rewrite app_nil_r. }
  unfold wp, MkdirTemp in *. rewrite resolve_absolute by done. fold T. rewrite Hdraw.
  destruct (Mkdir _ _ _) as [[u|e|w|] m']; try exact H.
  destruct H as (H1 & H2 & H3). split; [exact H1|]. split; [exact H2|done].
Qed.

(** ** Deciding the conditions on concrete files *)

Fixpoint strict_prefixes (p : path) : list path :=
  match p with [] => [] | x :: p' => [] :: ((fun q => x :: q) <$> strict_prefixes p') end.

Lemma strict_prefixes_app p x rel : p ∈ strict_prefixes (p ++ x :: rel).
Proof.
  induction p as [|y p IH]; cbn; [left|]. right. apply list_elem_of_fmap. by exists p.
Qed.

Definition fs_closedb (fsys : tree) : bool :=
  match fsys !! [] with Some (Dir _) => true | _ => false end &&
  forallb (fun kn => forallb (fun q => match fsys !! q with Some (Dir _) => true | _ => false end)
                             (strict_prefixes kn.1)) (map_to_list fsys).

Lemma fs_closedb_true fsys : fs_closedb fsys = true -> fs_closed fsys.
Proof.
  unfold fs_closedb. rewrite andb_true_iff, forallb_forall. intros [H1 H2]. split.
  - destruct (fsys !! []) as [[mode|]|]; [by exists mode|done..].
  - intros p x rel [n Hn]. specialize (H2 (p ++ x :: rel, n)). rewrite <- list_elem_of_In in H2.
    apply elem_of_map_to_list, H2 in Hn. rewrite forallb_forall in Hn. cbn in Hn.
    specialize (Hn p). rewrite <- list_elem_of_In in Hn. specialize (Hn (strict_prefixes_app p x rel)).
    destruct (fsys !! p) as [[mode|]|]; [by exists mode|done..].
Qed.

Definition good_elemb (x : string) : bool :=
  negb (String.eqb x "" || String.eqb x "." || String.eqb x ".." || Contains x "/").

Lemma good_elemb_true x : good_elemb x = true -> good_elem x.
Proof.
  unfold good_elemb, good_elem. rewrite negb_true_iff, !orb_false_iff.
  destruct (String.eqb_spec x ""), (String.eqb_spec x "."), (String.eqb_spec x ".."); naive_solver.
Qed.

Lemma good_elemb_of x : good_elem x -> good_elemb x = true.
Proof.
  unfold good_elemb, good_elem. rewrite negb_true_iff, !orb_false_iff.
  destruct (String.eqb_spec x ""), (String.eqb_spec x "."), (String.eqb_spec x ".."); naive_solver.
Qed.

(** Names are elements of cleaned paths. *)
Definition good_names (t : tree) : Prop := forall p, is_Some (t !! p) -> Forall good_elem p.

Definition good_namesb (t : tree) : bool := forallb (fun kn => forallb good_elemb kn.1) (map_to_list t).

Lemma good_namesb_true t : good_namesb t = true -> good_names t.
Proof.
  unfold good_namesb. rewrite forallb_forall. intros H p [n Hn]. specialize (H (p, n)).
  rewrite <- list_elem_of_In in H. apply elem_of_map_to_list, H in Hn. rewrite forallb_forall in Hn. cbn in Hn.
  apply Forall_forall. intros x Hx. apply good_elemb_true, Hn. by apply list_elem_of_In.
Qed.

Definition dirs_tob (t : tree) (dir : path) : bool :=
  forallb (fun q => match t !! q with Some (Dir _) => true | _ => false end) (ancestors dir).

Lemma dirs_tob_true t dir : dirs_tob t dir = true -> dirs_to t dir.
Proof.
  unfold dirs_tob. rewrite forallb_forall. intros H q Hq. specialize (H q).
  rewrite <- list_elem_of_In in H. specialize (H Hq). destruct (t !! q) as [[mode|]|]; [by exists mode|done..].
Qed.

Definition nothing_belowb (t : tree) (dir : path) : bool :=
  forallb (fun kn => negb (below dir kn.1)) (map_to_list t).

Lemma nothing_belowb_true t dir :
  nothing_belowb t dir = true -> forall p, below dir p = true -> t !! p = None.
Proof.
  unfold nothing_belowb. rewrite forallb_forall. intros H p Hp. destruct (t !! p) as [n|] eqn:E; [|done].
  apply elem_of_map_to_list in E. specialize (H (p, n)). rewrite <- list_elem_of_In in H.
  apply H in E. cbn in E. by rewrite Hp in E.
Qed.

Definition faultyb (m : machine) : bool := existsb (fun f => if f is Some _ then true else false) (faults m).

Lemma faultyb_false m : faultyb m = false -> ~ faulty m.
Proof.
  unfold faultyb. intros H [flt Hin]. assert (existsb (fun f : option fault => if f is Some _ then true else false)
    (faults m) = true) as E; [|congruence].
  apply existsb_exists. exists (Some flt). split; [by apply list_elem_of_In|done].
Qed.

(** ** What calls change, whatever fails *)

(** The files below [dir] are the same. *)
Definition same_below (dir : path) (t t' : tree) : Prop := forall rel, t' !! (dir ++ rel) = t !! (dir ++ rel).

#[global] Instance same_below_equivalence dir : Equivalence (same_below dir).
Proof. split; [done|by intros t1 t2 H rel|]. intros t1 t2 t3 H1 H2 rel. by rewrite H2, H1. Qed.

(** Only the directory and what is in it may differ. *)
Definition only_below (dir : path) (t t' : tree) : Prop := forall p, below dir p = false -> t' !! p = t !! p.

#[global] Instance only_below_preorder dir : PreOrder (only_below dir).
Proof. split; [done|]. intros t1 t2 t3 H1 H2 p Hp. by rewrite H2, H1. Qed.

Lemma only_below_same dir S t t' :
  only_below dir t t' -> (forall rel, below dir (S ++ rel) = false) -> same_below S t t'.
Proof. intros H HS rel. by apply H. Qed.

Lemma only_below_dirs dir t t' p :
  only_below dir t t' -> below p dir = true -> p <> dir -> dirs_to t p -> dirs_to t' p.
Proof.
  intros H [rel ->]%below_spec Hne Hd q Hq. rewrite H; [by apply Hd|].
  apply not_true_is_false. intros [r ->]%below_spec. apply elem_of_ancestors in Hq as [_ [r' Hr]].
  apply Hne. destruct rel as [|x rel]; [by rewrite app_nil_r|].
  apply (f_equal length) in Hr. rewrite !length_app in Hr. cbn in Hr. lia.
Qed.

Lemma only_inside_same_below dir S t t' :
  only_inside dir t t' -> (forall rel, inside dir (S ++ rel) = false) -> same_below S t t'.
Proof. intros H HS rel. by apply H. Qed.

Lemma mkdir_step_change perm p (m : machine) r m' :
  p <> [] -> mkdir_step perm p m = (r, m') ->
  same_process m m' /\
  ((tree_of m' = tree_of m /\ (r = Ok tt -> exists mode, tree_of m !! p = Some (Dir mode))) \/
   (tree_of m !! p = None /\ tree_of m' = <[p := Dir (umask perm)]> (tree_of m))).
Proof.
  intros Hp. unfold mkdir_step. assert (look (tree_of m) p = tree_of m !! p) as -> by by destruct p.
  destruct (tree_of m !! p) as [[mode|mode c]|] eqn:E.
  - intros [= <- <-]. split; [done|]. left. eauto.
  - intros [= <- <-]. split; [done|]. left. done.
  - intros H. split; [pose proof (syscall_process (fun t => Ok (tt, <[p := Dir (umask perm)]> t)) m) as Hs; by rewrite H in Hs|].
    apply syscall_tree in H as [(a & t & -> & [= _ <-] & ->)|[Hr ->]]; [by right|left].
    split; [done|]. by intros ->.
Qed.

(** Making directories only adds some of those on the way. *)
Lemma mkdir_all_change p perm (m : machine) r m' :
  mkdir_all p perm m = (r, m') ->
  same_process m m' /\
  (forall q, tree_of m' !! q = tree_of m !! q \/
     (q ∈ ancestors p /\ tree_of m !! q = None /\ tree_of m' !! q = Some (Dir (umask perm)))) /\
  (r = Ok tt -> dirs_to (tree_of m') p).
Proof.
  unfold mkdir_all, dirs_to. assert (forall q, q ∈ ancestors p -> q <> []) as Hne.
  { intros q [H _]%elem_of_ancestors. done. }
  revert m r m'. induction (ancestors p) as [|a l IH]; intros m r m'; cbn [F_each].
  - intros [= <- <-]. split; [done|]. split; [by left|]. intros _ q Hq. by apply elem_of_nil in Hq.
  - unfold mbind, F_bind. destruct (mkdir_step perm a m) as [r1 m1] eqn:E.
    apply mkdir_step_change in E as [Hs1 H1]; [|apply Hne; left].
    assert (forall q, tree_of m1 !! q = tree_of m !! q \/
              (q = a /\ tree_of m !! q = None /\ tree_of m1 !! q = Some (Dir (umask perm)))) as Hq1.
    { intros q. destruct H1 as [[-> _]|[Hn ->]]; [by left|]. destruct (decide (q = a)) as [->|].
      - right. by rewrite lookup_insert_eq.
      - left. by rewrite lookup_insert_ne. }
    destruct r1 as [[]|e|w|].
    2-4: intros [= <- <-]; split; [done|]; split; [|done]; intros q; destruct (Hq1 q) as [?|(-> & ? & ?)];
      [by left|right]; split; [left|done].
    intros H. apply IH in H as (Hs & Hq & Hok); [|intros q Hq; apply Hne; by right].
    split; [by etrans|]. split.
    + intros q. destruct (Hq q) as [->|(Hin & Hn & ->)].
      * destruct (Hq1 q) as [?|(-> & ? & ?)]; [by left|right]. split; [left|done].
      * right. split; [by right|]. split; [|done]. destruct (Hq1 q) as [<-|(_ & ? & ?)]; done.
    + intros Hr q [->|Hin]%elem_of_cons; [|by apply Hok].
      assert (exists mode, tree_of m1 !! a = Some (Dir mode)) as [mode Hm].
      { destruct H1 as [[-> H1]|[_ ->]]; [by apply H1|]. rewrite lookup_insert_eq. eauto. }
      exists mode. destruct (Hq a) as [->|(_ & ? & _)]; [done|congruence].
Qed.

Lemma mkdir_all_same_below S p perm (m : machine) :
  (forall rel, S ++ rel ∉ ancestors p) -> same_below S (tree_of m) (tree_of (mkdir_all p perm m).2).
Proof.
  intros HS rel. destruct (mkdir_all p perm m) as [r m'] eqn:E. apply mkdir_all_change in E as (_ & Hq & _).
  destruct (Hq (S ++ rel)) as [?|[H _]]; [done|]. by apply HS in H.
Qed.

(** ** Renaming and removing *)

Lemma graft_lookup (dir : path) (sub t : tree) (p : path) :
  graft dir sub t !! p =
  match strip dir p with
  | Some rel => match sub !! rel with Some n => Some n | None => t !! p end
  | None => t !! p
  end.
Proof.
  unfold graft. rewrite lookup_union. set (l := (fun kn : path * node => (dir ++ kn.1, kn.2)) <$> map_to_list sub).
  assert (NoDup l.*1) as Hnd.
  { unfold l. rewrite <- list_fmap_compose.
    change (((fst ∘ (fun kn : path * node => (dir ++ kn.1, kn.2))) <$> map_to_list sub) : list path)
      with ((fun kn : path * node => dir ++ kn.1) <$> map_to_list sub).
    change (fun kn : path * node => dir ++ kn.1) with ((fun q : path => dir ++ q) ∘ (fst : path * node -> path)).
    rewrite list_fmap_compose. apply NoDup_fmap_2; [|apply NoDup_fst_map_to_list].
    intros a b H. by apply app_inv_head in H. }
  assert (forall q n, (list_to_map l : tree) !! q = Some n <-> exists rel, q = dir ++ rel /\ sub !! rel = Some n) as Hl.
  { intros q n. rewrite <- elem_of_list_to_map by done. unfold l. rewrite list_elem_of_fmap. split.
    - intros ([rel n'] & [= -> ->] & H%elem_of_map_to_list). by exists rel.
    - intros (rel & -> & H). exists (rel, n). split; [done|]. by apply elem_of_map_to_list. }
  destruct (strip dir p) as [rel|] eqn:Es.
  - apply strip_Some in Es as ->. destruct (sub !! rel) as [n|] eqn:Hn.
    + rewrite (proj2 (Hl (dir ++ rel) n)) by eauto. by destruct (t !! (dir ++ rel)).
    + destruct ((list_to_map l : tree) !! (dir ++ rel)) as [n|] eqn:E; [|by destruct (t !! (dir ++ rel))].
      apply Hl in E as (rel' & E%app_inv_head & H). congruence.
  - destruct ((list_to_map l : tree) !! p) as [n|] eqn:E; [|by destruct (t !! p)].
    apply Hl in E as (rel & -> & _). by rewrite strip_app in Es.
Qed.

Lemma remove_all_lookup (t : tree) (dir p : path) : remove_all t dir !! p = if below dir p then None else t !! p.
Proof.
  unfold remove_all. destruct (below dir p) eqn:Hb.
  - apply map_lookup_filter_None. right. intros n _. cbn. by rewrite Hb.
  - destruct (t !! p) as [n|] eqn:E; [by apply map_lookup_filter_Some|].
    apply map_lookup_filter_None. by left.
Qed.


Lemma subtree_lookup (t : tree) (dir rel : path) : subtree t dir !! rel = t !! (dir ++ rel).
Proof.
  apply option_eq. intros n. unfold subtree. set (f := fun kn : path * node => _).
  assert (forall k v, (k, v) ∈ list_omap _ _ f (map_to_list t) <-> t !! (dir ++ k) = Some v) as Hl.
  { intros k v. rewrite (list_elem_of_omap f). split.
    - intros ([p n'] & Hin%elem_of_map_to_list & Hf). unfold f in Hf. cbn in Hf.
      destruct (strip dir p) as [r|] eqn:Es; [|done]. injection Hf as -> ->.
      by apply strip_Some in Es as ->.
    - intros H. exists (dir ++ k, v). split; [by apply elem_of_map_to_list|]. unfold f. cbn.
      by rewrite strip_app. }
  rewrite <- Hl. split.
  - apply elem_of_list_to_map_2.
  - intros H. apply elem_of_list_to_map_1'; [|done]. intros v' H'. apply Hl in H, H'. congruence.
Qed.

(** ** Paths of several elements *)

Lemma join_elems_app dir a b : join_elems dir (a +:+ "/" +:+ b) = join_elems (join_elems dir a) b.
Proof. unfold join_elems. rewrite split_head, foldl_app by done. by rewrite reverse_involutive. Qed.

Lemma PathJoin_join3 d a b :
  HasPrefix d "/" = true -> PathJoin [d; a; b] = PathJoin [d; a +:+ "/" +:+ b].
Proof. intros Hd. cbn [PathJoin]. destruct (String.eqb_spec d "") as [->|]; done. Qed.

Lemma PathJoin3_is_absolute d a b : HasPrefix d "/" = true -> HasPrefix (PathJoin [d; a; b]) "/" = true.
Proof. intros Hd. rewrite PathJoin_join3 by done. by apply PathJoin_is_absolute. Qed.

Lemma resolve_join3 (m : machine) d a b :
  HasPrefix d "/" = true -> resolve m (PathJoin [d; a; b]) = join_elems (join_elems (resolve_from [] d) a) b.
Proof. intros Hd. by rewrite PathJoin_join3, resolve_join, join_elems_app. Qed.

Lemma join_elems_good_list dir p :
  Forall good_elem (Split p "/") -> join_elems dir p = dir ++ Split p "/".
Proof.
  intros H. unfold join_elems. rewrite clean_fold_push by done. by rewrite reverse_app, !reverse_involutive.
Qed.

(** The elements of a name. *)
Definition name_elems (name : string) : path := join_elems [] name.

Lemma fold_no_up stack l :
  Forall no_up l -> foldl (clean_elem true) stack l = foldl (clean_elem true) [] l ++ stack.
Proof.
  revert stack. induction l as [|x l IH]; intros stack Hl; [done|].
  apply Forall_cons in Hl as [Hx Hl]. cbn [foldl]. rewrite (IH _ Hl), (IH (clean_elem true [] x) Hl).
  unfold clean_elem. destruct (String.eqb x "" || String.eqb x "."); [by rewrite app_nil_r|].
  destruct (String.eqb_spec x ".."); [done|]. by rewrite <- app_assoc.
Qed.

Lemma join_name dir step : Forall no_up (Split step "/") -> join_elems dir step = dir ++ name_elems step.
Proof.
  intros H. unfold join_elems, name_elems, join_elems. rewrite (fold_no_up (reverse dir)) by done.
  rewrite reverse_app, reverse_involutive. by rewrite (fold_no_up (reverse [])), app_nil_r.
Qed.

Lemma F_bind_Ok {A B} (c : F A) (f : A -> F B) (m : machine) b m' :
  (c ≫= f) m = (Ok b, m') <-> exists a m1, c m = (Ok a, m1) /\ f a m1 = (Ok b, m').
Proof. unfold mbind, F_bind. destruct (c m) as [[]]; naive_solver. Qed.

Lemma F_wrap_Ok {A} pre (c : F A) (m : machine) a m' : F_wrap pre c m = (Ok a, m') <-> c m = (Ok a, m').
Proof. unfold F_wrap. destruct (c m) as [[]]; naive_solver. Qed.

(** ** Files by name *)

Lemma wp_Stat_missing (name : string) (m : machine) (Q : node + error -> tree -> Prop) :
  look (tree_of m) (resolve m name) = None -> (forall e, Q (inr e) (tree_of m)) -> wp (F_try (Stat name)) m Q.
Proof.
  intros Hn HQ. unfold wp, F_try, Stat, path_call, syscall.
  destruct (faults m) as [|[flt|] fs] eqn:Ef; cbn.
  - destruct (String.eqb name ""); [|rewrite Hn]; cbn; (split; [|done]); unfold faulty; cbn; by rewrite Ef.
  - split; [|done]. unfold faulty. cbn. rewrite Ef. intros [f H]. exists f. by right.
  - destruct (String.eqb name ""); [|rewrite Hn]; cbn; (split; [|done]); unfold faulty; cbn; rewrite Ef;
      intros [f H]; exists f; by right.
Qed.

Lemma Stat_found name n (m : machine) :
  name <> "" -> ~ faulty m -> look (tree_of m) (resolve m name) = Some n ->
  exists m', F_try (Stat name) m = (Ok (inl n), m') /\ tree_of m' = tree_of m /\ same_process m m' /\ ~ faulty m'.
Proof.
  intros Hne Hf Hn.
  assert (wp (Stat name) m (fun a t => a = n /\ t = tree_of m)) as H.
  { eapply wp_path_call; [done|cbn; by rewrite Hn|done]. }
  unfold wp in H. unfold F_try.
  destruct (Stat name m) as [[n'|e|w|] m']; try done. destruct H as (H1 & H2 & -> & H3).
  exists m'. naive_solver.
Qed.

Lemma dirs_to_insert_new (t : tree) dir x mode :
  dirs_to t dir -> t !! (dir ++ [x]) = None -> dirs_to (<[dir ++ [x] := Dir mode]> t) (dir ++ [x]).
Proof.
  intros Hd Hn. apply (dirs_to_snoc _ _ _ mode); [|apply lookup_insert_eq]. intros q Hq.
  destruct (Hd q Hq) as [md Hm]. exists md. rewrite lookup_insert_ne; [done|]. intros <-. congruence.
Qed.

(** A directory is not opened for writing. *)
Lemma OpenFile_confined (dir rel : path) name flags perm (m : machine) :
  dir <> [] -> resolve m name = dir ++ rel -> dirs_to (tree_of m) dir ->
  only_inside dir (tree_of m) (tree_of (OpenFile name flags perm m).2) /\
  same_process m (OpenFile name flags perm m).2.
Proof.
  intros Hne Hres. unfold OpenFile, path_call. rewrite Hres. unfold path_error.
  apply (confined_wrap dir ("open" +:+ " " +:+ name +:+ ": ") (syscall _)), confined_syscall.
  intros t a t' Ht H. destruct (String.eqb name ""); [done|]. revert H. unfold open_at.
  destruct (unreachable t (dir ++ rel)); [done|]. destruct rel as [|x rel].
  - rewrite app_nil_r. destruct (dirs_to_look _ _ Ht) as [mode ->]. done.
  - repeat case_match; try done; intros [= _ <-]; by (apply only_inside_insert || done).
Qed.

Lemma WriteTo_confined (dir rel : path) name data (m : machine) :
  dir <> [] -> resolve m name = dir ++ rel -> dirs_to (tree_of m) dir ->
  only_inside dir (tree_of m) (tree_of (WriteTo name data m).2) /\ same_process m (WriteTo name data m).2.
Proof.
  intros Hne Hres Hd. unfold WriteTo. rewrite Hres. destruct rel as [|x rel].
  - rewrite app_nil_r. destruct (dirs_to_look _ _ Hd) as [mode Hl].
    assert (tree_of m !! dir = Some (Dir mode)) as Hm by by destruct dir.
    assert (forall d, write_over (tree_of m) dir d = tree_of m) as Hw by (intros d; unfold write_over; by rewrite Hm).
    unfold write_at. destruct (faults m) as [|[flt|] fs]; cbn; by rewrite Hw.
  - exact (confined_wrap dir ("write " +:+ name +:+ ": ") _ (write_at_confined dir x rel data) m Hd).
Qed.

(** ** Calls by name *)

Lemma look_path (t : tree) (p : path) : p <> [] -> look t p = t !! p.
Proof. by destruct p. Qed.

Lemma wp_OpenRead (name : string) (p : path) n (m : machine) :
  name <> "" -> resolve m name = p -> p <> [] -> tree_of m !! p = Some n -> readable (super m) (mode_of n) = true ->
  wp (OpenRead name) m (fun _ t => t = tree_of m).
Proof.
  intros Hne Hp Hp' Hn Hr. unfold wp, OpenRead.
  apply (wp_path_call "open" name (open_read_at (super m)) m (fun _ t => t = tree_of m) tt (tree_of m)); [done| |done].
  unfold open_read_at. by rewrite Hp, look_path, Hn, Hr.
Qed.

Lemma wp_ReadFrom (name : string) (p : path) mode c (m : machine) :
  name <> "" -> resolve m name = p -> p <> [] -> tree_of m !! p = Some (File mode c) ->
  wp (ReadFrom name) m (fun r t => r = c /\ t = tree_of m).
Proof.
  intros Hne Hp Hp' Hn. eapply wp_path_call; [done| |done]. cbv beta. by rewrite Hp, look_path, Hn.
Qed.

Lemma wp_ReadFile (name : string) (p : path) mode c (m : machine) :
  name <> "" -> resolve m name = p -> p <> [] -> tree_of m !! p = Some (File mode c) -> readable (super m) mode = true ->
  wp (ReadFile name) m (fun r t => r = c /\ t = tree_of m).
Proof.
  intros Hne Hp Hp' Hn Hr. unfold wp, ReadFile.
  apply (wp_path_call "open" name (read_file_at (super m)) m (fun r t => r = c /\ t = tree_of m) c (tree_of m));
    [done| |done].
  unfold read_file_at. by rewrite Hp, look_path, Hn, Hr.
Qed.

Lemma wp_OpenFile_new (name : string) (p : path) x flags perm (m : machine) :
  name <> "" -> resolve m name = p ++ [x] -> dirs_to (tree_of m) p -> tree_of m !! (p ++ [x]) = None ->
  O_CREATE flags = true ->
  wp (OpenFile name flags perm) m (fun _ t => t = <[p ++ [x] := File (umask perm) ""]> (tree_of m)).
Proof.
  intros Hne Hp Hd Hn Hf. unfold wp, OpenFile.
  apply (wp_path_call "open" name (open_at (super m) flags perm) m
           (fun _ t => t = <[p ++ [x] := File (umask perm) ""]> (tree_of m)) tt
           (<[p ++ [x] := File (umask perm) ""]> (tree_of m))); [done| |done].
  unfold open_at. by rewrite Hp, reachable, look_snoc, Hn, Hf.
Qed.

Lemma wp_WriteTo (name : string) (p : path) mode old data (m : machine) :
  resolve m name = p -> tree_of m !! p = Some (File mode old) -> (String.length old <= String.length data)%nat ->
  wp (WriteTo name data) m (fun _ t => t = <[p := File mode data]> (tree_of m)).
Proof.
  intros Hp Hn Hl. unfold wp, WriteTo, path_error. rewrite Hp.
  apply (wp_wrap ("write " +:+ name +:+ ": ") (write_at p data) m (fun _ t => t = <[p := File mode data]> (tree_of m))).
  apply wp_write_at. unfold write_over. rewrite Hn.
  f_equal. f_equal. unfold drop_bytes, slice_from, slice.
  replace (String.length old - String.length data)%nat with 0%nat by lia.
  enough (forall k, String.substring k 0 old = "") as -> by apply string_app_nil_r.
  clear. induction old as [|a old IH]; intros [|k]; cbn; [done..|apply IH].
Qed.

(** Opening a file to replace what it holds. *)
Lemma wp_OpenFile_truncate (name : string) (p : path) x perm (m : machine) :
  name <> "" -> resolve m name = p ++ [x] -> dirs_to (tree_of m) p ->
  match tree_of m !! (p ++ [x]) with
  | Some (File mode _) => writable (super m) mode = true
  | Some (Dir _) => False
  | None => True
  end ->
  wp (OpenFile name {| O_CREATE := true; O_EXCL := false; O_TRUNC := true |} perm) m
     (fun _ t => exists mode, t = <[p ++ [x] := File mode ""]> (tree_of m)).
Proof.
  intros Hne Hp Hd Hw. unfold wp, OpenFile.
  set (mode := match tree_of m !! (p ++ [x]) with Some (File mode _) => mode | _ => umask perm end).
  apply (wp_path_call "open" name (open_at (super m) _ perm) m
           (fun _ t => exists mode, t = <[p ++ [x] := File mode ""]> (tree_of m)) tt
           (<[p ++ [x] := File mode ""]> (tree_of m))); [done| |by eexists].
  unfold open_at. rewrite Hp, reachable, look_snoc by done. subst mode.
  destruct (tree_of m !! (p ++ [x])) as [[]|]; [done| |done]. by rewrite Hw.
Qed.

Lemma wp_Chmod_file (name : string) (p : path) perm mode c (m : machine) :
  name <> "" -> resolve m name = p -> p <> [] -> tree_of m !! p = Some (File mode c) ->
  wp (Chmod name perm) m (fun _ t => t = <[p := File perm c]> (tree_of m)).
Proof.
  intros Hne Hp Hp' Hn. eapply wp_path_call; [done| |done]. cbv beta. by rewrite Hp, look_path, Hn.
Qed.

(** ** Calls return *)

(** A call that returns or panics in every machine. *)
Definition returns {A} (c : F A) : Prop := forall m, decided (c m).1 = true.

Create HintDb returns.

Section returns.
  Context {A B : Type}.

Lemma returns_ret (a : A) : returns (mret a).
Proof. done. Qed.

Lemma returns_lift (r : res A) : decided r = true -> returns (F_lift r).
Proof. by intros H m. Qed.

Lemma returns_read (f : machine -> res A) : (forall m, decided (f m) = true) -> returns (F_read f).
Proof. intros H m. apply H. Qed.

Lemma returns_bind (c : F A) (f : A -> F B) : returns c -> (forall a, returns (f a)) -> returns (c ≫= f).
Proof.
  intros Hc Hf m. specialize (Hc m). unfold mbind, F_bind. destruct (c m) as [[a|e|w|] m1]; cbn in *; try done.
  apply Hf.
Qed.

Lemma returns_wrap pre (c : F A) : returns c -> returns (F_wrap pre c).
Proof. intros H m. specialize (H m). unfold F_wrap. by destruct (c m) as [[]]. Qed.

Lemma returns_try (c : F A) : returns c -> returns (F_try c).
Proof. intros H m. specialize (H m). unfold F_try. by destruct (c m) as [[]]. Qed.

Lemma returns_defer (c : F A) d : returns c -> returns (F_defer c d).
Proof. intros H m. specialize (H m). unfold F_defer. by destruct (c m). Qed.

Lemma returns_each (f : A -> F unit) l : (forall a, a ∈ l -> returns (f a)) -> returns (F_each f l).
Proof.
  induction l as [|a l IH]; intros Hf m; [done|]. pose proof (Hf a ltac:(left) m) as Ha.
  cbn. unfold mbind, F_bind. destruct (f a m) as [[u|e|w|] m1]; cbn in *; try done.
  apply IH. intros a' Ha'. apply Hf. by right.
Qed.

Lemma returns_syscall (f : tree -> res (A * tree)) : (forall t, decided (f t) = true) -> returns (syscall f).
Proof.
  intros Hf m. unfold syscall. destruct (faults m) as [|[flt|] fs]; cbn; try done;
    (match goal with |- context [f ?t] => specialize (Hf t); by destruct (f t) as [[]| | |] end).
Qed.

Lemma returns_path_call op p (f : path -> tree -> res (A * tree)) :
  (forall q t, decided (f q t) = true) -> returns (path_call op p f).
Proof.
  intros Hf m. unfold path_call.
  pose proof (returns_syscall (fun t => if String.eqb p "" then Err (SysError ENOENT) else f (resolve m p) t)) as H.
  specialize (H ltac:(intros t; by destruct (String.eqb p ""))  m).
  destruct (syscall _ m) as [r m1]. unfold path_error. cbn in *. by rewrite wrap_err_decided.
Qed.
End returns.

#[export] Hint Resolve returns_ret returns_lift returns_read returns_bind returns_wrap returns_try returns_defer
  returns_each returns_syscall returns_path_call : returns.

Lemma returns_Stat name : returns (Stat name).
Proof. apply returns_path_call. intros q t. by destruct (look t q). Qed.

Lemma returns_Mkdir name perm : returns (Mkdir name perm).
Proof. apply returns_path_call. intros q t. by destruct (unreachable t q), (look t q). Qed.

Lemma returns_mkdir_all p perm : returns (mkdir_all p perm).
Proof.
  apply returns_each. intros q _ m. unfold mkdir_step. destruct (look (tree_of m) q) as [[]|]; [done..|].
  by apply returns_syscall.
Qed.

Lemma returns_MkdirAll name perm : returns (MkdirAll name perm).
Proof. intros m. unfold MkdirAll. destruct (String.eqb name ""); [done|apply returns_mkdir_all]. Qed.

Lemma returns_MkdirTemp dir pattern : returns (MkdirTemp dir pattern).
Proof.
  intros m. unfold MkdirTemp. destruct (draw _ _ _ _) as [[name names]|]; [|done].
  pose proof (returns_Mkdir (PathJoin [dir; name]) 448 (with_random names m)) as H.
  by destruct (Mkdir _ _ _) as [[]].
Qed.

Lemma open_at_decided super flags perm p t : decided (open_at super flags perm p t) = true.
Proof.
  unfold open_at. destruct (unreachable t p); [done|]. destruct (look t p) as [[]|]; [done| |].
  - by destruct (O_CREATE flags && O_EXCL flags), (negb (writable super mode)).
  - by destruct (O_CREATE flags).
Qed.

Lemma returns_OpenFile name flags perm : returns (OpenFile name flags perm).
Proof. intros m. apply returns_path_call. intros q t. apply open_at_decided. Qed.

Lemma returns_write_at p data : returns (write_at p data).
Proof. intros m. unfold write_at. by destruct (faults m) as [|[]]. Qed.

Lemma returns_WriteTo name data : returns (WriteTo name data).
Proof.
  intros m. unfold WriteTo. pose proof (returns_write_at (resolve m name) data m) as H.
  destruct (write_at _ _ m). unfold path_error. cbn in *. by rewrite wrap_err_decided.
Qed.

Lemma returns_Chmod name mode : returns (Chmod name mode).
Proof. apply returns_path_call. intros q t. by destruct (look t q) as [[]|]. Qed.

Lemma returns_close_at p : returns (close_at p).
Proof. apply returns_wrap, returns_syscall. done. Qed.

Lemma returns_Close name : returns (Close name).
Proof. by apply returns_path_call. Qed.

Lemma returns_Rename old new : returns (Rename old new).
Proof.
  intros m. unfold Rename. pose proof (returns_syscall (rename_dir (resolve m old) (resolve m new))) as H.
  specialize (H ltac:(intros t; unfold rename_dir; destruct (look t (resolve m old)) as [[]|], (unreachable t (resolve m new)); try done;
    destruct (look t (resolve m new)) as [[]|], (children_exist t (resolve m new)); try done;
    by destruct (below (resolve m old) (resolve m new))) m).
  destruct (syscall _ m). cbn in *. by rewrite wrap_err_decided.
Qed.

Lemma returns_CopyFS dir fsys : returns (CopyFS dir fsys).
Proof.
  intros m. apply returns_each. intros [p [mode|mode content]] _ m'; [apply returns_mkdir_all|].
  apply (returns_bind (syscall _)); [apply returns_syscall; intros t; apply open_at_decided|].
  intros []. apply (returns_bind (write_at _ _)); [apply returns_write_at|]. intros []. apply returns_close_at.
Qed.

#[export] Hint Resolve returns_Stat returns_Mkdir returns_MkdirAll returns_MkdirTemp returns_OpenFile
  returns_WriteTo returns_Chmod returns_Rename returns_CopyFS returns_close_at returns_Close : returns.
