(* ===== verification/DistCache.v ===== *)
(** The distributed steps (src/dist/step_finder.go) and the directory they are
    copied to (src/pkg/cache/dist/fetcher.go). *)

From stdpp Require Import gmap strings list.
From S2P Require Import Prelude GoStrings GoPaths GoFiles GoFilesFacts.
Open Scope go_scope.
Open Scope string_scope.
Open Scope list_scope.

(** ** step_finder.go *)

(** [fs.ValidPath(name)] *)
Definition ValidPath (name : string) : bool :=
  String.eqb name "." ||
  forallb (fun x => negb (String.eqb x "" || String.eqb x "." || String.eqb x "..")) (Split name "/").

(** The path of a valid name in a file system. *)
Definition fs_path (name : string) : path := if String.eqb name "." then [] else Split name "/".

(** [fs.Stat(fsys, name)] of embedded files, which do not have invalid names. *)
Definition fs_Stat (fsys : tree) (name : string) : res node :=
  match (if ValidPath name then fsys !! fs_path name else None) with
  | Some n => Ok n
  | None => Err (WrapError ("open " +:+ name +:+ ": ") (SysError ENOENT) "")
  end.

(** [fs.Sub(fsys, dir)] *)
Definition fs_Sub (fsys : tree) (dir : string) : res tree :=
  if ValidPath dir then Ok (subtree fsys (fs_path dir))
  else Err (WrapError ("sub " +:+ dir +:+ ": ") (SysError EINVAL) "").

(** [FindDistributedStep(step)], in the files the options give. *)
Definition FindDistributedStep (findIn : tree) (step : string) : res tree :=
  let stepSubDir := PathJoin ["bin"; Clean step] in
  let not_found := NewError ("distributed step " +:+ quote step +:+ " not found") in
  if String.eqb stepSubDir "bin" || String.eqb stepSubDir "." then Err not_found
  else
    match fs_Stat findIn stepSubDir with
    | Err err =>
        if is_ErrNotExist err then Err not_found
        else Err (WrapError ("loading distributed step " +:+ quote step +:+ ": ") err "")
    | _ => fs_Sub findIn stepSubDir or_wrap ("loading distributed step " +:+ quote step +:+ ": ")
    end.

Section fetcher.
  Context `{MR : MapRange}.
  Context (TempDir : string) (stepsFinder : string -> res tree).

(** ** fetcher.go *)

(** [type Fetcher struct]; the mutex serializes its calls. *)
Record Fetcher := { workDir : string }.

(** [NewFetcher(stepsFinder)] *)
Definition NewFetcher : Fetcher := {| workDir := "" |}.

(** [f.createWorkDir()] *)
Definition createWorkDir (f : Fetcher) : F string :=
  if String.eqb (workDir f) "" then F_wrap "creating work dir: " (MkdirTemp TempDir "")
  else mret (workDir f).

(** The mode of an entry of a step. *)
Definition permission (p : path) (n : node) : N :=
  if is_dir n then 493
  else if String.eqb (base p) "run" || HasSuffix (path_string p) ".exe" || HasSuffix (path_string p) ".sh" then 365
  else 292.

(** The entries of a directory that [filepath.WalkDir] visits. *)
Definition walk_dir (stepDir : path) : F (list (path * node)) :=
  syscall (fun t =>
    match look t stepDir with
    | None => Err (WrapError ("lstat " +:+ path_string stepDir +:+ ": ") (SysError ENOENT) "")
    | Some _ => Ok ((fun kn => (stepDir ++ kn.1, kn.2)) <$> walk (subtree t stepDir), t)
    end).

Definition permissions (entries : list (path * node)) : gmap string N :=
  list_to_map ((fun kn => (path_string kn.1, permission kn.1 kn.2)) <$> entries).

(** [f.chmodFiles(stepDir)] *)
Definition chmodFiles (stepDir : string) : F unit := fun m =>
  (entries ← F_wrap "determine file permissions: " (walk_dir (resolve m stepDir));
   F_each (fun pm => Chmod pm.1 pm.2) (map_range (permissions entries))) m.

(** What [Fetch] does in the working directory. *)
Definition fetch_in (workDir step : string) : F string :=
  stepDirFS ← F_lift (stepsFinder step or_wrap "fetch: ");
  let downloadDir := PathJoin [workDir; step] in
  exists_ ← F_try (Stat downloadDir);
  match exists_ with
  | inl _ => mret workDir
  | inr _ =>
      _ ← F_wrap ("fetch dist step " +:+ step +:+ ": copy: ") (CopyFS downloadDir stepDirFS);
      _ ← F_wrap ("fetch dist step " +:+ step +:+ ": ") (chmodFiles downloadDir);
      mret workDir
  end.

(** [f.Fetch(step)] *)
Definition Fetch (f : Fetcher) (step : string) (m : machine) : res string * Fetcher * machine :=
  match F_wrap ("fetch dist step " +:+ step +:+ ": ") (createWorkDir f) m with
  | (Ok dir, m) => let '(r, m) := fetch_in dir step m in (r, {| workDir := dir |}, m)
  | (Err e, m) => (Err e, f, m)
  | (Panic p, m) => (Panic p, f, m)
  | (OutOfFuel, m) => (OutOfFuel, f, m)
  end.

(** [f.CleanUp()] *)
Definition CleanUp (f : Fetcher) (m : machine) : Fetcher * machine :=
  ({| workDir := "" |}, (RemoveAll (workDir f) m).2).
End fetcher.
