(* ===== verification/DistCacheFacts.v ===== *)
(** The cache of distributed steps holds each step that was fetched, whole and
    with its modes, whatever the order of the requests. *)

From stdpp Require Import gmap strings list sorting.
From S2P Require Import Prelude GoStrings GoPaths GoFiles GoFilesFacts DistCache.
Open Scope go_scope.
Open Scope string_scope.
Open Scope list_scope.

#[global] Arguments look : simpl never.
#[global] Arguments resolve : simpl never.

(** ** Changing modes *)

Definition set_mode (mode : N) (n : node) : node :=
  match n with Dir _ => Dir mode | File _ content => File mode content end.

Lemma path_string_nonempty p : path_string p <> "".
Proof. done. Qed.

Lemma path_string_inj p q : Forall good_elem p -> Forall good_elem q -> path_string p = path_string q -> p = q.
Proof.
  intros Hp Hq E. set (m := {| tree_of := ∅; cwd := []; super := false; random := []; faults := [] |}).
  rewrite <- (resolve_path_string m p Hp), <- (resolve_path_string m q Hq). by rewrite E.
Qed.

Lemma wp_Chmod (p : path) mode n (m : machine) :
  Forall good_elem p -> p <> [] -> tree_of m !! p = Some n ->
  wp (Chmod (path_string p) mode) m (fun _ t => t = <[p := set_mode mode n]> (tree_of m)).
Proof.
  intros Hg Hne Hn. unfold Chmod. eapply wp_path_call; [apply path_string_nonempty| |reflexivity].
  rewrite resolve_path_string by done.
  assert (look (tree_of m) p = Some n) as -> by by destruct p. by destruct n.
Qed.

(** *** chmodFiles *)

Section chmod.
  Context `{MR : MapRange}.

Lemma walk_dir_entries (t : tree) dir p n :
  (p, n) ∈ ((fun kn : path * node => (dir ++ kn.1, kn.2)) <$> walk (subtree t dir)) <->
  below dir p = true /\ t !! p = Some n.
Proof.
  rewrite list_elem_of_fmap. split.
  - intros ([rel n'] & [= -> ->] & H%elem_of_walk). rewrite subtree_lookup in H. cbn.
    split; [apply below_spec; eauto|done].
  - intros [[rel ->]%below_spec H]. exists (rel, n). split; [done|]. apply elem_of_walk. by rewrite subtree_lookup.
Qed.

(** The files after [chmodFiles]. *)
Definition after_chmod (t : tree) (dir p : path) : option node :=
  if below dir p then (fun n => set_mode (permission p n) n) <$> t !! p else t !! p.

Lemma permission_set p mode n : permission p (set_mode mode n) = permission p n.
Proof. by destruct n. Qed.

Lemma permissions_spec (t : tree) dir s mode :
  good_names t ->
  permissions ((fun kn : path * node => (dir ++ kn.1, kn.2)) <$> walk (subtree t dir)) !! s = Some mode <->
  exists p n, s = path_string p /\ below dir p = true /\ t !! p = Some n /\ mode = permission p n.
Proof.
  intros Hg. unfold permissions. set (l := (fun kn : path * node => (path_string kn.1, permission kn.1 kn.2)) <$> _).
  assert (forall s' mode', (s', mode') ∈ l <->
    exists p n, s' = path_string p /\ below dir p = true /\ t !! p = Some n /\ mode' = permission p n) as Hl.
  { intros s' mode'. unfold l. rewrite list_elem_of_fmap. split.
    - intros ([p n] & [= -> ->] & [H1 H2]%walk_dir_entries). by exists p, n.
    - intros (p & n & -> & H1 & H2 & ->). exists (p, n). split; [done|]. by apply walk_dir_entries. }
  rewrite <- Hl. split; [apply elem_of_list_to_map_2|].
  intros H. apply elem_of_list_to_map_1'; [|done]. intros mode' H'.
  apply Hl in H as (p & n & -> & _ & H2 & ->), H' as (p' & n' & E & _ & H2' & ->).
  apply path_string_inj in E as <-; [congruence|by apply Hg..].
Qed.

Lemma wp_chmodFiles stepDir dir (m : machine) :
  resolve m stepDir = dir -> dir <> [] -> good_names (tree_of m) -> is_Some (tree_of m !! dir) ->
  wp (chmodFiles stepDir) m (fun _ t => forall p, t !! p = after_chmod (tree_of m) dir p).
Proof.
  intros Hres Hdir Hg [n0 Hn0]. unfold chmodFiles, wp. rewrite Hres.
  set (entries := (fun kn : path * node => (dir ++ kn.1, kn.2)) <$> walk (subtree (tree_of m) dir)).
  change (wp (entries ← F_wrap "determine file permissions: " (walk_dir dir);
              F_each (fun pm => Chmod pm.1 pm.2) (map_range (permissions entries))) m
             (fun _ t => forall p, t !! p = after_chmod (tree_of m) dir p)).
  apply wp_bind, wp_wrap. apply (wp_syscall _ _ _ entries (tree_of m)).
  { assert (look (tree_of m) dir = Some n0) as -> by by destruct dir. done. }
  intros m1 Hs1 Et. set (t0 := tree_of m) in *.
  set (I := fun (pre : list (string * N)) (t : tree) => forall p, t !! p =
    if decide (path_string p ∈ pre.*1) then after_chmod (t0) dir p else t0 !! p).
  pose proof (fun s mode => permissions_spec (t0) dir s mode Hg) as Hperm.
  fold entries in Hperm.
  eapply wp_mono; [apply (wp_each I)|].
  - intros p. rewrite Et, decide_False; [done|]. apply not_elem_of_nil.
  - intros pre [s mode] post m2 E Hs2 HI.
    assert ((s, mode) ∈ map_range (permissions entries)) as Hin by (rewrite E; set_solver).
    apply elem_of_map_range, Hperm in Hin as (q & n & -> & Hb & Hq & ->).
    pose proof (map_range_NoDup (permissions entries)) as Hnd. rewrite E, fmap_app, fmap_cons in Hnd.
    apply NoDup_app in Hnd as (_ & Hnd & _).
    assert (path_string q ∉ pre.*1) as Hnq by (intros H; apply (Hnd _ H); left).
    assert (Forall good_elem q) as Hgq by (apply Hg; eauto).
    eapply wp_mono; [apply (wp_Chmod q _ n); [done| |]|].
    + intros ->. by destruct dir.
    + by rewrite HI, decide_False.
    + intros [] t -> p.
      assert (path_string p ∈ (pre ++ [(path_string q, permission q n)]).*1 <->
              path_string p ∈ pre.*1 \/ path_string p = path_string q) as Hp'
        by (rewrite fmap_app, elem_of_app; cbn; by rewrite list_elem_of_singleton).
      destruct (decide (p = q)) as [->|Hne].
      * rewrite lookup_insert_eq, decide_True by (apply Hp'; by right). unfold after_chmod. by rewrite Hb, Hq.
      * rewrite lookup_insert_ne, HI by done. unfold after_chmod. destruct (t0 !! p) as [n'|] eqn:Hp.
        -- apply decide_ext. rewrite Hp'. split; [by left|]. intros [H|H]; [done|].
           apply path_string_inj in H; [done|apply Hg; eauto|done].
        -- cbn. by destruct (below dir p), (decide _), (decide _).
  - intros [] t HI p. rewrite HI. unfold after_chmod. destruct (below dir p) eqn:Hb; [|by case_decide].
    destruct (t0 !! p) as [n|] eqn:Hp; [|by case_decide]. rewrite decide_True; [done|].
    apply list_elem_of_fmap. exists (path_string p, permission p n). split; [done|].
    apply elem_of_map_range, Hperm. by exists p, n.
Qed.
End chmod.

(** ** Fetching one step *)

(** What the cache makes of a node of a step. *)
Definition cached_node (p : path) (n : node) : node :=
  match n with
  | Dir _ => Dir 493
  | File _ content => File (permission p n) content
  end.

(** The step is in the directory, whole. *)
Definition installed (t : tree) (dir : path) (fsys : tree) : Prop :=
  forall rel, t !! (dir ++ rel) = cached_node (dir ++ rel) <$> fsys !! rel.

Lemma cached_copied p n : set_mode (permission p (copied n)) (copied n) = cached_node p n.
Proof. by destruct n. Qed.

Lemma copied_names t dir fsys p :
  good_names t -> good_names fsys -> Forall good_elem dir ->
  is_Some (after_copy t dir fsys p) -> Forall good_elem p.
Proof.
  intros Ht Hf Hd. unfold after_copy. destruct (strip dir p) as [rel|] eqn:E.
  - apply strip_Some in E as ->. rewrite fmap_is_Some. intros H. apply Forall_app. split; [done|by apply Hf].
  - unfold with_dirs. case_decide as Hq; [|apply Ht]. intros _.
    destruct Hq as [(_ & r & ->)%elem_of_ancestors _]. by apply Forall_app in Hd as [? _].
Qed.

Section fetch.
  Context `{MR : MapRange}.
  Context (TempDir : string) (stepsFinder : string -> res tree).

(** The working directory, and where a step goes in it. *)
Variable wd : string.
Hypothesis Hwd : HasPrefix wd "/" = true.
Let W : path := resolve_from [] wd.

Lemma W_good : Forall good_elem W.
Proof. by apply resolve_from_good. Qed.

Lemma wp_fetch_in step fsys x rel (m : machine) :
  let D := W ++ x :: rel in
  join_elems W step = D -> stepsFinder step = Ok fsys ->
  fs_closed fsys -> good_names fsys -> good_names (tree_of m) ->
  no_file_to (tree_of m) D -> (forall p, below D p = true -> tree_of m !! p = None) ->
  wp (fetch_in stepsFinder wd step) m (fun r t =>
    r = wd /\ good_names t /\ installed t D fsys /\
    forall p, below D p = false -> t !! p = with_dirs (tree_of m) D 511 p).
Proof.
  intros D HD Hfind Hclosed Hgf Hgt Hno Habs.
  assert (D <> []) as HDne by (unfold D; by destruct W).
  assert (Forall good_elem D) as HDg by (rewrite <- HD; apply join_elems_good, W_good).
  assert (forall m' : machine, resolve m' (PathJoin [wd; step]) = D) as Hres.
  { intros m'. rewrite resolve_join by done. exact HD. }
  assert (look (tree_of m) D = None) as Hlook.
  { rewrite <- (Habs D); [by destruct D|]. apply below_spec. exists []. by rewrite app_nil_r. }
  unfold fetch_in. apply wp_bind. rewrite Hfind. split; [done|]. split; [done|]. intros m1 Hs1 E1.
  apply wp_bind, wp_Stat_missing; [by rewrite Hres, E1|]. intros e m2 Hs2 E2.
  rewrite <- E2 in E1. rewrite <- E1 in *. clear m m1 Hs1 Hs2 E1 E2. rename m2 into m.
  apply wp_bind, wp_wrap. eapply wp_mono.
  { unfold CopyFS, wp. rewrite Hres. apply (wp_copy_fs D fsys m); done. }
  intros [] t Ht m4 _ <-. cbn in Ht.
  apply wp_bind, wp_wrap. eapply wp_mono.
  { apply (wp_chmodFiles _ D); [by rewrite Hres|done| |].
    - intros p. rewrite Ht. by apply copied_names.
    - rewrite Ht. unfold after_copy. rewrite <- (app_nil_r D) at 2. rewrite strip_app.
      destruct Hclosed as [[mode ->] _]. by eexists. }
  intros [] t Ht' m5 _ <-. cbn in Ht'. apply wp_ret.
  assert (forall p, below D p = false -> tree_of m5 !! p = with_dirs (tree_of m) D 511 p) as Hout.
  { intros p Hb. rewrite Ht'. unfold after_chmod. rewrite Hb, Ht. unfold after_copy.
    unfold below in Hb. by destruct (strip D p). }
  assert (installed (tree_of m5) D fsys) as Hin.
  { intros r. rewrite Ht'. unfold after_chmod. rewrite (proj2 (below_spec _ _)) by eauto.
    rewrite Ht. unfold after_copy. rewrite strip_app. destruct (fsys !! r); [|done]. cbn.
    by rewrite cached_copied. }
  split; [done|]. split; [|done]. intros p. destruct (below D p) eqn:Hb.
  - apply below_spec in Hb as [r ->]. rewrite Hin, fmap_is_Some. intros H. apply Forall_app. split; [done|by apply Hgf].
  - rewrite Hout by done. intros H. apply (copied_names (tree_of m) D fsys); [done..|].
    unfold after_copy. unfold below in Hb. by destruct (strip D p).
Qed.
End fetch.

(** ** Any sequence of requests *)

Section requests.
  Context `{MR : MapRange}.
  Context (TempDir : string) (stepsFinder : string -> res tree).

(** The requests of a fetcher, one after the other. *)
Fixpoint fetch_all (f : Fetcher) (reqs : list string) (m : machine) : list (res string) * Fetcher * machine :=
  match reqs with
  | [] => ([], f, m)
  | step :: reqs =>
      let '(r, f, m) := Fetch TempDir stepsFinder f step m in
      let '(rs, f, m) := fetch_all f reqs m in (r :: rs, f, m)
  end.

(** A step that can be fetched: found, with the files of a file system, under a
    name that does not go up. *)
Record fetchable (step : string) (fsys : tree) : Prop := {
  fetchable_found : stepsFinder step = Ok fsys;
  fetchable_closed : fs_closed fsys;
  fetchable_names : good_names fsys;
  fetchable_down : Forall no_up (Split step "/");
  fetchable_named : name_elems step <> []
}.

(** No step is in the directory of another. *)
Definition separate (steps : list string) : Prop :=
  forall s s', s ∈ steps -> s' ∈ steps -> s <> s' -> below (name_elems s) (name_elems s') = false.

(** The cache when the steps [done] have been fetched. *)
Record cache_inv (wd : string) (fetched : list string) (t : tree) : Prop := {
  cache_dir : dirs_to t (resolve_from [] wd);
  cache_names : good_names t;
  cache_steps s : s ∈ fetched -> exists fsys, fetchable s fsys /\
    installed t (resolve_from [] wd ++ name_elems s) fsys;
  cache_only p n : inside (resolve_from [] wd) p = true -> t !! p = Some n -> exists s, s ∈ fetched /\
    (below (resolve_from [] wd ++ name_elems s) p = true \/
     is_dir n = true /\ p ∈ ancestors (resolve_from [] wd ++ name_elems s))
}.

(** A step that has not been fetched is not in the way of anything. *)
Lemma unfetched_room (wd : string) (fetched : list string) (t : tree) (s : string) :
  cache_inv wd fetched t -> separate (s :: fetched) -> s ∉ fetched -> name_elems s <> [] ->
  no_file_to t (resolve_from [] wd ++ name_elems s) /\
  forall p, below (resolve_from [] wd ++ name_elems s) p = true -> t !! p = None.
Proof.
  intros HI Hsep Hs Hne. set (W := resolve_from [] wd) in *.
  assert (forall s', s' ∈ fetched -> below (name_elems s) (name_elems s') = false /\
                                      below (name_elems s') (name_elems s) = false) as Hsep'.
  { intros s' Hs'. split; apply Hsep; try (left; done); try (by right); by intros ->. }
  assert (forall s' r r', s' ∈ fetched -> name_elems s ++ r = name_elems s' ++ r' -> False) as Hcmp.
  { intros s' r r' Hs' [H|H]%prefixes_comparable; destruct (Hsep' s' Hs'); congruence. }
  assert (forall q, q <> [] -> inside W (W ++ q) = true) as Hins.
  { intros [|y q] H; [done|]. apply inside_app. }
  split.
  - intros q Hq. rewrite ancestors_app in Hq. apply elem_of_app in Hq as [Hq|Hq].
    + by destruct (cache_dir _ _ _ HI q Hq) as [mode ->].
    + apply list_elem_of_fmap in Hq as (q' & -> & (Hq' & r & Hr)%elem_of_ancestors).
      destruct (t !! (W ++ q')) as [[mode|mode c]|] eqn:Ht; [done| |done].
      destruct (cache_only _ _ _ HI _ _ (Hins q' Hq') Ht) as (s' & Hs' & [Hb|[Hd _]]); [|done].
      rewrite below_app in Hb. apply below_spec in Hb as [r' ->]. apply (Hcmp s' [] (r' ++ r) Hs').
      by rewrite app_nil_r, app_assoc.
  - intros p [r ->]%below_spec. rewrite <- app_assoc. destruct (t !! _) as [n|] eqn:Ht; [exfalso|done].
    assert (name_elems s ++ r <> []) as Hn by (by destruct (name_elems s)).
    destruct (cache_only _ _ _ HI _ _ (Hins _ Hn) Ht) as (s' & Hs' & [Hb|[_ Ha]]).
    + rewrite below_app in Hb. apply below_spec in Hb as [r' Hr']. by eapply Hcmp.
    + apply elem_of_ancestors in Ha as [_ [r' Hr']]. rewrite <- app_assoc in Hr'. apply app_inv_head in Hr'.
      rewrite <- app_assoc in Hr'. apply (Hcmp s' (r ++ r') [] Hs'). by rewrite app_nil_r.
Qed.
End requests.

Section sequences.
  Context `{MR : MapRange}.
  Context (TempDir : string) (stepsFinder : string -> res tree).

Abbreviation fetchable := (fetchable stepsFinder).
Abbreviation cache_inv := (cache_inv stepsFinder).
Abbreviation fetch_all := (fetch_all TempDir stepsFinder).

Lemma with_dirs_dir (t : tree) (D : path) perm (W q : path) mode :
  dirs_to t W -> q ∈ ancestors W -> t !! q = Some (Dir mode) -> with_dirs t D perm q = Some (Dir mode).
Proof. intros _ _ Hq. unfold with_dirs. rewrite Hq, decide_False; [done|]. by intros [_ ?]. Qed.

(** One more step. *)
Lemma cache_inv_step (wd : string) (fetched : list string) (t t' : tree) (s : string) (fsys : tree) :
  HasPrefix wd "/" = true -> cache_inv wd fetched t -> fetchable s fsys -> separate (s :: fetched) ->
  s ∉ fetched -> good_names t' -> installed t' (resolve_from [] wd ++ name_elems s) fsys ->
  (forall p, below (resolve_from [] wd ++ name_elems s) p = false ->
     t' !! p = with_dirs t (resolve_from [] wd ++ name_elems s) 511 p) ->
  cache_inv wd (s :: fetched) t'.
Proof.
  intros Hwd HI Hs Hsep Hnew Hg Hin Hout. set (W := resolve_from [] wd) in *.
  assert (name_elems s <> []) as Hne by apply Hs.
  split; fold W.
  - intros q Hq. destruct (cache_dir _ _ _ _ HI q Hq) as [mode Hm]. exists mode. rewrite Hout.
    + by eapply with_dirs_dir; [apply HI|exact Hq|].
    + apply not_true_is_false. intros [r ->]%below_spec. apply elem_of_ancestors in Hq as [_ [r' Hr]].
      apply (f_equal length) in Hr. rewrite !length_app in Hr. destruct (name_elems s); [done|cbn in Hr; lia].
  - done.
  - intros s' [->|Hs']%elem_of_cons; [by exists fsys|].
    destruct (cache_steps _ _ _ _ HI s' Hs') as (fsys' & Hf & Hi). exists fsys'. split; [done|].
    assert (below (name_elems s) (name_elems s') = false /\ below (name_elems s') (name_elems s) = false) as [H1 H2].
    { split; apply Hsep; try (left; done); try (by right); by intros ->. }
    intros r. rewrite <- Hi. fold W. rewrite Hout.
    + unfold with_dirs. rewrite decide_False; [done|]. intros [[_ [r' Hr]]%elem_of_ancestors _].
      rewrite <- !app_assoc in Hr. apply app_inv_head in Hr.
      rewrite (proj2 (below_spec (name_elems s') (name_elems s))) in H2; [done|]. by eexists.
    + apply not_true_is_false. rewrite <- app_assoc, below_app. intros [r' Hr]%below_spec.
      destruct (prefixes_comparable (name_elems s) (name_elems s') r' r ltac:(done)); congruence.
  - intros p n Hp Ht. destruct (below (W ++ name_elems s) p) eqn:Hb.
    + exists s. split; [left|by left].
    + rewrite Hout in Ht by done. unfold with_dirs in Ht. case_decide as Hd.
      * exists s. split; [left|]. right. injection Ht as <-. split; [done|apply Hd].
      * destruct (cache_only _ _ _ _ HI p n Hp Ht) as (s' & Hs' & H). exists s'. split; [by right|done].
Qed.

Lemma fetch_in_keeps (wd : string) (fetched : list string) (s : string) (fsys : tree) (m : machine) :
  HasPrefix wd "/" = true -> cache_inv wd fetched (tree_of m) -> ~ faulty m -> fetchable s fsys ->
  separate (s :: fetched) ->
  exists m', fetch_in stepsFinder wd s m = (Ok wd, m') /\ ~ faulty m' /\ cache_inv wd (s :: fetched) (tree_of m').
Proof.
  intros Hwd HI Hf Hs Hsep. set (W := resolve_from [] wd) in *.
  assert (join_elems W s = W ++ name_elems s) as Hj by (apply join_name, Hs).
  destruct (decide (s ∈ fetched)) as [Hin|Hnew].
  - destruct (cache_steps _ _ _ _ HI s Hin) as (fsys' & Hs' & Hi). fold W in Hi.
    destruct (fetchable_closed _ _ _ Hs') as [[mode Hroot] _].
    assert (look (tree_of m) (resolve m (PathJoin [wd; s])) = Some (Dir 493)) as Hl.
    { rewrite resolve_join by done. fold W. rewrite Hj.
      assert (W ++ name_elems s <> []) as Hne by (pose proof (fetchable_named _ _ _ Hs); by destruct W).
      specialize (Hi []). rewrite app_nil_r, Hroot in Hi. by destruct (W ++ name_elems s). }
    destruct (Stat_found (PathJoin [wd; s]) _ m ltac:(by rewrite PathJoin_absolute) Hf Hl)
      as (m' & HS & Et & _ & Hf'). exists m'. split.
    + unfold fetch_in, F_lift, mbind, F_bind. rewrite (fetchable_found _ _ _ Hs). cbn [wrap_err]. cbv beta iota zeta. by rewrite HS.
    + split; [done|]. rewrite Et. destruct HI as [H1 H2 H3 H4]. split; [done..| |].
      * intros s' [->|?]%elem_of_cons; auto.
      * intros p n Hp Ht. destruct (H4 p n Hp Ht) as (s' & ? & ?). exists s'. split; [by right|done].
  - destruct (unfetched_room _ _ _ _ _ HI Hsep Hnew (fetchable_named _ _ _ Hs)) as [Hno Habs]. fold W in Hno, Habs.
    pose proof (fetchable_named _ _ _ Hs) as Hne. destruct (name_elems s) as [|x rel] eqn:He; [done|].
    pose proof (wp_fetch_in stepsFinder wd Hwd s fsys x rel m Hj (fetchable_found _ _ _ Hs)
      (fetchable_closed _ _ _ Hs) (fetchable_names _ _ _ Hs) (cache_names _ _ _ _ HI) Hno Habs) as H.
    unfold wp in H. destruct (fetch_in stepsFinder wd s m) as [[r|e|w|] m'] eqn:E; try done.
    destruct H as (H1 & _ & -> & H2 & H3 & H4). exists m'. split; [done|]. split; [auto|].
    eapply cache_inv_step; rewrite ?He; done.
Qed.

Lemma fetch_all_keeps (wd : string) (fetched reqs : list string) (m : machine) :
  HasPrefix wd "/" = true -> cache_inv wd fetched (tree_of m) -> ~ faulty m ->
  (forall s, s ∈ reqs -> exists fsys, fetchable s fsys) -> separate (reqs ++ fetched) ->
  exists m' fetched', fetch_all {| workDir := wd |} reqs m = ((fun _ => Ok wd) <$> reqs, {| workDir := wd |}, m') /\
    ~ faulty m' /\ cache_inv wd fetched' (tree_of m') /\ forall s, s ∈ reqs ++ fetched -> s ∈ fetched'.
Proof.
  intros Hwd. revert fetched m. induction reqs as [|s reqs IH]; intros fetched m HI Hf Hreqs Hsep.
  - exists m, fetched. done.
  - destruct (Hreqs s ltac:(left)) as [fsys Hs].
    destruct (fetch_in_keeps wd fetched s fsys m Hwd HI Hf Hs) as (m1 & E1 & Hf1 & HI1).
    { intros a b Ha Hb. apply Hsep; set_solver. }
    destruct (IH (s :: fetched) m1 HI1 Hf1) as (m2 & fetched' & E2 & Hf2 & HI2 & Hin).
    { intros s' Hs'. apply Hreqs. by right. }
    { intros a b Ha Hb. apply Hsep; set_solver. }
    exists m2, fetched'. split; [|split; [done|]; split; [done|]; set_solver].
    cbn [fetch_all]. unfold Fetch, F_wrap, createWorkDir. cbn [workDir].
    assert (String.eqb wd "" = false) as -> by by destruct wd.
    cbn. rewrite E1. cbn in E2. rewrite E2. done.
Qed.

Lemma Fetch_new s dir (m m1 : machine) :
  MkdirTemp TempDir "" m = (Ok dir, m1) -> dir <> "" ->
  Fetch TempDir stepsFinder NewFetcher s m = Fetch TempDir stepsFinder {| workDir := dir |} s m1.
Proof.
  intros E Hne. unfold Fetch, F_wrap, createWorkDir. cbn [workDir NewFetcher].
  destruct (String.eqb_spec dir ""); [done|]. rewrite String.eqb_refl. cbv beta iota. unfold F_wrap at 1. by rewrite E.
Qed.

(** The working directory, when it is made. *)
Lemma cache_inv_start (m : machine) (name : string) (names' : list N) :
  HasPrefix TempDir "/" = true -> dirs_to (tree_of m) (resolve_from [] TempDir) -> good_names (tree_of m) ->
  draw (tree_of m) (resolve_from [] TempDir) "" (random m) = Some (name, names') -> ~ faulty m ->
  let dir := PathJoin [TempDir; name] in
  HasPrefix dir "/" = true /\
  exists m1, MkdirTemp TempDir "" m = (Ok dir, m1) /\ ~ faulty m1 /\ cache_inv dir [] (tree_of m1).
Proof.
  intros HT Hd Hg Hdraw Hf dir.
  assert (good_elem name) as Hname.
  { destruct (draw_spec _ _ _ _ _ _ Hdraw) as (_ & n & _ & ->). by apply good_temp_name. }
  pose proof (draw_free _ _ _ _ _ _ Hdraw) as Habs.
  assert (HasPrefix dir "/" = true) as Hdir by by apply PathJoin_is_absolute.
  assert (resolve_from [] dir = resolve_from [] TempDir ++ [name]) as HW.
  { unfold dir. rewrite <- (resolve_absolute m) by done. by rewrite resolve_join, join_good_elem. }
  pose proof (wp_MkdirTemp TempDir "" name names' m HT Hd Hdraw Hname) as H.
  unfold wp in H. destruct (MkdirTemp TempDir "" m) as [[r|e|w|] m1] eqn:E; try done.
  destruct H as (H1 & _ & -> & Et). split; [done|]. exists m1. split; [done|]. split; [auto|].
  rewrite Et. split; rewrite ?HW.
  - eapply dirs_to_snoc; [|by rewrite lookup_insert_eq]. intros q Hq.
    rewrite lookup_insert_ne; [by apply Hd|]. intros <-. apply elem_of_ancestors in Hq as [_ [r Hr]].
    apply (f_equal length) in Hr. rewrite !length_app in Hr. cbn in Hr. lia.
  - intros p Hp. destruct (decide (p = resolve_from [] TempDir ++ [name])) as [->|Hne].
    + apply Forall_app. split; [by apply resolve_from_good|by constructor].
    + rewrite lookup_insert_ne in Hp by done. by apply Hg.
  - intros s' Hs'. by apply elem_of_nil in Hs'.
  - intros p n Hp. rewrite lookup_insert_ne.
    + rewrite Habs; [done|]. apply below_inside. by right.
    + intros <-. rewrite inside_spec in Hp. destruct Hp as (x & r & Hr).
      apply (f_equal length) in Hr. rewrite !length_app in Hr. cbn in Hr. lia.
Qed.

(** Whatever steps are requested, in whatever order and however often, when no
    system call fails every request returns the one working directory, and at
    the end each requested step is there whole, under its name, its files with
    their contents, executable for [run], [.exe] and [.sh] and read-only
    otherwise. *)
Theorem fetched_steps_installed (reqs : list string) (m : machine) (name : string) (names' : list N) :
  HasPrefix TempDir "/" = true -> dirs_to (tree_of m) (resolve_from [] TempDir) -> good_names (tree_of m) ->
  draw (tree_of m) (resolve_from [] TempDir) "" (random m) = Some (name, names') ->
  ~ faulty m -> (forall s, s ∈ reqs -> exists fsys, fetchable s fsys) -> separate reqs ->
  let dir := PathJoin [TempDir; name] in
  exists f m', fetch_all NewFetcher reqs m = ((fun _ => Ok dir) <$> reqs, f, m') /\
    forall s fsys, s ∈ reqs -> fetchable s fsys -> installed (tree_of m') (resolve m' (PathJoin [dir; s])) fsys.
Proof.
  intros HT Hd Hg Hdraw Hf Hreqs Hsep dir.
  destruct reqs as [|s reqs].
  { exists NewFetcher, m. split; [done|]. intros s fsys Hs. by apply elem_of_nil in Hs. }
  destruct (cache_inv_start m name names' HT Hd Hg Hdraw Hf) as (Hdir & m1 & E & Hf1 & HI). fold dir in Hdir, E, HI.
  destruct (fetch_all_keeps dir [] (s :: reqs) m1 Hdir HI Hf1 Hreqs) as (m2 & fetched & E2 & _ & HI2 & Hin).
  { by rewrite app_nil_r. }
  exists {| workDir := dir |}, m2. split.
  - cbn [fetch_all] in E2 |- *. rewrite (Fetch_new s dir m m1 E); [exact E2|]. by intros H; rewrite H in Hdir.
  - intros s' fsys Hs' Hfs. rewrite resolve_join, (join_name _ s') by (done || apply Hfs).
    destruct (cache_steps _ _ _ _ HI2 s') as (fsys' & Hfs' & Hi); [apply Hin; by rewrite app_nil_r|].
    pose proof (fetchable_found _ _ _ Hfs) as F1. rewrite (fetchable_found _ _ _ Hfs') in F1. by injection F1 as ->.
Qed.
End sequences.

(** ** Requests return *)

Section returns.
  Context `{MR : MapRange}.
  Context (TempDir : string) (stepsFinder : string -> res tree).
  Hypothesis finder_decided : forall step, decided (stepsFinder step) = true.

Lemma returns_chmodFiles stepDir : returns (chmodFiles stepDir).
Proof.
  intros m. unfold chmodFiles. apply (returns_bind (F_wrap _ _)); [|eauto with returns].
  apply returns_wrap, returns_syscall. intros t. by destruct (look t (resolve m stepDir)).
Qed.

Lemma returns_fetch_in wd step : returns (fetch_in stepsFinder wd step).
Proof.
  unfold fetch_in. apply returns_bind; [apply returns_lift; by rewrite wrap_err_decided|]. intros fsys.
  apply returns_bind; [eauto with returns|]. intros [n|e]; [eauto with returns|].
  apply returns_bind; [eauto with returns|]. intros [].
  apply returns_bind; [apply returns_wrap, returns_chmodFiles|eauto with returns].
Qed.

(** A request of a step returns, whatever fails. *)
Lemma Fetch_returns f step (m : machine) : decided (Fetch TempDir stepsFinder f step m).1.1 = true.
Proof.
  unfold Fetch, createWorkDir.
  assert (returns (F_wrap ("fetch dist step " +:+ step +:+ ": ")
    (if String.eqb (workDir f) "" then F_wrap "creating work dir: " (MkdirTemp TempDir "") else mret (workDir f)))) as H.
  { apply returns_wrap. destruct (String.eqb _ _); eauto with returns. }
  specialize (H m). destruct (F_wrap _ _ m) as [[dir|e|w|] m1]; cbn in *; try done.
  pose proof (returns_fetch_in dir step m1) as H1. by destruct (fetch_in stepsFinder dir step m1).
Qed.
End returns.
