(* ===== verification/GitCache.v ===== *)
(** The cache of Git repositories and their versions
    (src/pkg/cache/git/git.go and reference.go). *)

From stdpp Require Import gmap strings list.
From S2P Require Import Prelude GoStrings GoPaths GoFiles.
Open Scope go_scope.
Open Scope string_scope.
Open Scope list_scope.

(** A file of a commit's tree: its name from the root, its mode ([ToOSFileMode])
    and its content, or why they cannot be read. *)
Record object_File := {
  f_Name : string;
  f_Mode : res N;
  f_Reader : res string
}.

(** The library go-git, whose references are a name and a hash, over the files of the machine, the parsing of a Git URL,
    and the escaping of golang.org/x/mod/module.  A handle reads the repository
    in its directory, so what it answers depends on the files; cloning and
    fetching change what is in that directory only.  Escaped paths have plain
    elements and an escaped version is one. *)
Class GitLib := {
  hash : Type;
  hash_String : hash -> string;
  Repository : Type;
  object_Tag : Type;
  object_Commit : Type;
  NewEndpoint : string -> res (string * string);
  EscapePath : string -> res string;
  EscapeVersion : string -> res string;
  PlainOpen : string -> F Repository;
  PlainClone : string -> string -> Z -> F Repository;
  FetchContext : Repository -> Z -> F unit;
  NoErrAlreadyUpToDate : error -> bool;
  repo_Tag : Repository -> string -> machine -> res (string * hash);
  TagObject : Repository -> hash -> machine -> res object_Tag;
  ErrObjectNotFound : error -> bool;
  tag_Hash : object_Tag -> hash;
  tag_Commit : object_Tag -> machine -> res object_Commit;
  repo_Reference : Repository -> string -> machine -> res (string * hash);
  CommitObjects : Repository -> machine -> res (list (res object_Commit));
  commit_Hash : object_Commit -> hash;
  CommitObject : Repository -> hash -> machine -> res object_Commit;
  commit_Tree : object_Commit -> machine -> res (list object_File);
  git_dir : Repository -> path
}.

Section git.
  Context `{GL : GitLib}.

(** ** reference.go *)

(** [type Reference struct]: one of the two is not nil. *)
Inductive Reference :=
  | NewReference (ref : string * hash)
  | NewReferenceToAnnotatedTag (tag : object_Tag).

(** [r.Commit(repo)] *)
Definition Reference_Commit (r : Reference) (repo : Repository) (m : machine) : res object_Commit :=
  match r with
  | NewReferenceToAnnotatedTag tag => tag_Commit tag m
  | NewReference ref => CommitObject repo (ref.2) m
  end.

(** [r.EscapeHash()] *)
Definition EscapeHash (r : Reference) : res string :=
  match r with
  | NewReferenceToAnnotatedTag tag => EscapeVersion (hash_String (tag_Hash tag))
  | NewReference ref => EscapeVersion (hash_String ref.2)
  end.

(** ** git.go *)

(** [type GitFetcher struct]; the mutex serializes its calls. *)
Record GitFetcher := {
  cacheDir : string;
  Depth : Z
}.

(** [plumbing.NewBranchReferenceName(name)] *)
Definition NewBranchReferenceName (name : string) : string := "refs/heads/" +:+ name.

(** The function [find] gives to [commits.ForEach]. *)
Definition commit_matches (version h : string) : bool :=
  String.eqb h version || ((7 <? String.length version)%nat && HasPrefix h version).

(** The iteration: it stops at the first commit that matches, and at an error. *)
Fixpoint search_commits (version : string) (commits : list (res object_Commit)) : res (option (string * hash)) :=
  match commits with
  | [] => Ok None
  | Ok c :: commits' =>
      let h := hash_String (commit_Hash c) in
      if commit_matches version h then Ok (Some (h, commit_Hash c))
      else search_commits version commits'
  | Err err :: _ => Err err
  | Panic why :: _ => Panic why
  | OutOfFuel :: _ => OutOfFuel
  end.

(** [gf.find(repo, version)] *)
Definition find (repo : Repository) (version : string) (m : machine) : res (option Reference) :=
  match repo_Tag repo version m with
  | Ok tag =>
      match TagObject repo (tag.2) m with
      | Ok annotatedTag => Ok (Some (NewReferenceToAnnotatedTag annotatedTag))
      | Err err =>
          if ErrObjectNotFound err then Ok (Some (NewReference tag))
          else Err (WrapError "getting annotated tag: " err "")
      | Panic why => Panic why
      | OutOfFuel => OutOfFuel
      end
  | _ =>
      match repo_Reference repo (NewBranchReferenceName version) m with
      | Ok branch => Ok (Some (NewReference branch))
      | _ =>
          match repo_Reference repo (NewBranchReferenceName ("refs/heads/" +:+ version)) m with
          | Ok partial => Ok (Some (NewReference partial))
          | _ =>
              commits ← CommitObjects repo m or_wrap "getting commit objects: ";
              found ← search_commits version commits or_wrap "searching commits: ";
              Ok (option_map NewReference found)
          end
      end
  end.

(** Finding, with the text an error of it gets. *)
Definition find_version (repo : Repository) (version : string) : F (option Reference) :=
  F_read (fun m => find repo version m or_wrap ("finding version " +:+ quote version +:+ ": ")).

(** [repo.FetchContext(ctx, opts)], where there may be nothing to fetch. *)
Definition fetch_repo (gf : GitFetcher) (repo : Repository) : F unit :=
  fetched ← F_try (FetchContext repo (Depth gf));
  match fetched with
  | inl _ => mret tt
  | inr err => if NoErrAlreadyUpToDate err then mret tt else F_lift (Err (WrapError "fetching: " err ""))
  end.

(** [gf.findFetchAndFindAgain(ctx, repo, version)] *)
Definition findFetchAndFindAgain (gf : GitFetcher) (repo : Repository) (version : string) :
    F (option Reference) :=
  ref ← find_version repo version;
  match ref with
  | Some ref => mret (Some ref)
  | None => _ ← fetch_repo gf repo; find_version repo version
  end.

(** A file of the tree, written to [dest] in the directory [dir]. *)
Definition write_file (dest dir : string) (f : object_File) : F unit :=
  _ ← MkdirAll dir 493;
  src ← F_lift (f_Reader f);
  mode ← F_lift (f_Mode f);
  _ ← OpenFile dest {| O_CREATE := true; O_EXCL := false; O_TRUNC := true |} mode;
  WriteTo dest src.

(** The function [clone] gives to [tree.Files().ForEach]. *)
Definition checkout_file (worktreeDir : string) (f : object_File) : F unit := fun m =>
  write_file (PathJoin [worktreeDir; f_Name f]) (Dir_of m (PathJoin [worktreeDir; f_Name f])) f m.

(** From the worktree to the directory of the version: what [clone] does once
    the commit is found. *)
Definition install_version (gf : GitFetcher) (repoDir ver worktreeDir : string) (files : list object_File) :
    F string :=
  _ ← F_wrap "copying tree: " (F_each (checkout_file worktreeDir) files);
  let stepDir := PathJoin [cacheDir gf; repoDir; ver] in
  renamed ← F_try (Rename worktreeDir stepDir);
  match renamed with
  | inl _ => mret stepDir
  | inr err =>
      if is_ErrExist err then mret stepDir
      else F_lift (Err (WrapError "renaming dir: " err ""))
  end.

(** The repository in [gitDir], opened or cloned. *)
Definition open_or_clone (gf : GitFetcher) (gitDir url : string) : F Repository :=
  exists_ ← F_try (Stat gitDir);
  match exists_ with
  | inl _ => F_wrap "opening git repository: " (PlainOpen gitDir)
  | inr _ => F_wrap "checking out repository: " (PlainClone gitDir url (Depth gf))
  end.

(** [gf.clone(ctx, repoDir, url, version)] *)
Definition clone (gf : GitFetcher) (repoDir url version : string) : F string :=
  if String.eqb version ".git" then F_lift (Err (NewError ".git version not allowed"))
  else
    _ ← F_wrap "creating repository directory: " (MkdirAll (PathJoin [cacheDir gf; repoDir]) 511);
    repo ← open_or_clone gf (PathJoin [cacheDir gf; repoDir; ".git"]) url;
    ref ← findFetchAndFindAgain gf repo version;
    match ref with
    | None => F_lift (Err (NewError ("cannot find version " +:+ quote version)))
    | Some ref =>
        ver ← F_lift (EscapeHash ref or_wrap "escaping version: ");
        commit ← F_read (fun m => Reference_Commit ref repo m or_wrap "fetching commit object: ");
        files ← F_read (fun m => commit_Tree commit m or_wrap "fetching tree: ");
        worktreeDir ← F_wrap "creating temporary worktree dir: " (MkdirTemp (cacheDir gf) "");
        F_defer (install_version gf repoDir ver worktreeDir files) (RemoveAll worktreeDir)
    end.

(** [gf.Get(ctx, url, version)] *)
Definition Get (gf : GitFetcher) (url version : string) : F string :=
  '(host, p) ← F_lift (NewEndpoint url or_wrap "parsing git endpoint: ");
  repoDir ← F_lift (EscapePath (PathJoin [host; p]) or_wrap "escaping path: ");
  clone gf repoDir url version.
End git.
