(* ===== verification/GitCacheFacts.v ===== *)
(** The cache of Git versions: what a version names, what a request of a version asks
    for, and that the directory of a version is whole or absent, whatever fails. *)

From stdpp Require Import gmap strings list.
From S2P Require Import Prelude GoStrings GoPaths GoNumbers GoFiles GoFilesFacts GitCache.
Open Scope go_scope.
Open Scope string_scope.
Open Scope list_scope.

#[global] Arguments look : simpl never.
#[global] Arguments resolve : simpl never.

Section git.
  Context `{GL : GitLib}.

(** What go-git and module promise: opening, cloning and fetching change only
    what is below the directory of the repository, and not the process; escaped
    paths have plain elements, an escaped version is a plain element, and a hash
    is hexadecimal, so it is not escaped to [.git]. *)
Class GitLaws := {
  PlainOpen_below gitDir m : only_below (resolve m gitDir) (tree_of m) (tree_of (PlainOpen gitDir m).2);
  PlainOpen_dir gitDir m repo m' : PlainOpen gitDir m = (Ok repo, m') -> git_dir repo = resolve m gitDir;
  PlainClone_below gitDir url depth m :
    only_below (resolve m gitDir) (tree_of m) (tree_of (PlainClone gitDir url depth m).2);
  PlainClone_dir gitDir url depth m repo m' :
    PlainClone gitDir url depth m = (Ok repo, m') -> git_dir repo = resolve m gitDir;
  FetchContext_below repo depth m :
    only_below (git_dir repo) (tree_of m) (tree_of (FetchContext repo depth m).2);
  EscapePath_good p p' : EscapePath p = Ok p' -> Forall good_elem (Split p' "/");
  EscapeVersion_good v v' : EscapeVersion v = Ok v' -> good_elem v';
  EscapeVersion_hash h v : EscapeVersion (hash_String h) = Ok v -> v <> ".git"
}.

Context `{LAWS : !GitLaws}.

(** ** Computations that touch one directory *)

Definition touches {A} (G : path) (m : machine) (c : F A) : Prop := only_below G (tree_of m) (tree_of (c m).2).

Lemma touches_bind {A B} G (m : machine) (c : F A) (f : A -> F B) :
  touches G m c -> (forall a m', c m = (Ok a, m') -> touches G m' (f a)) -> touches G m (c ≫= f).
Proof.
  unfold touches, mbind, F_bind. intros Hc Hf. destruct (c m) as [[a|e|w|] m1] eqn:E; try done.
  etrans; [exact Hc|]. by eapply Hf.
Qed.

Lemma touches_wrap {A} G (m : machine) pre (c : F A) : touches G m c -> touches G m (F_wrap pre c).
Proof. unfold touches, F_wrap. by destruct (c m). Qed.

Lemma touches_try {A} G (m : machine) (c : F A) : touches G m c -> touches G m (F_try c).
Proof. unfold touches, F_try. by destruct (c m) as [[]]. Qed.

Lemma touches_Stat G (m : machine) name : touches G m (Stat name).
Proof.
  unfold touches, Stat, path_call. destruct (syscall _ m) as [r m'] eqn:E. cbn [snd].
  apply syscall_tree in E as [(a & t & -> & E & ->)|[_ ->]]; [|done].
  destruct (String.eqb name ""); [done|]. destruct (look _ _); [by injection E as _ <-|done].
Qed.

Lemma Stat_process name (m m' : machine) s : F_try (Stat name) m = (Ok s, m') -> same_process m m'.
Proof.
  unfold F_try, Stat, path_call. set (f := fun t => _). pose proof (syscall_process f m) as Hp.
  destruct (syscall f m) as [[]]; cbn in *; intros [= <- <-]; done.
Qed.

(** *** The repository *)

Lemma open_or_clone_touches gf gitDir url (m : machine) :
  HasPrefix gitDir "/" = true ->
  touches (resolve_from [] gitDir) m (open_or_clone gf gitDir url) /\
  forall repo m', open_or_clone gf gitDir url m = (Ok repo, m') -> git_dir repo = resolve_from [] gitDir.
Proof.
  intros Hgit. unfold open_or_clone. split.
  - apply touches_bind; [apply touches_try, touches_Stat|]. intros s m' _. rewrite <- (resolve_absolute m') by done.
    destruct s; apply touches_wrap; [apply PlainOpen_below|apply PlainClone_below].
  - intros repo m' (s & m1 & _ & H)%F_bind_Ok. rewrite <- (resolve_absolute m1) by done.
    destruct s; apply F_wrap_Ok in H; [by eapply PlainOpen_dir|by eapply PlainClone_dir].
Qed.

Lemma find_touches gf repo version (m : machine) :
  touches (git_dir repo) m (findFetchAndFindAgain gf repo version).
Proof.
  unfold findFetchAndFindAgain. apply touches_bind; [done|]. intros [ref|] m1 _; [done|].
  apply touches_bind; [|done]. unfold fetch_repo. apply touches_bind.
  - apply touches_try, FetchContext_below.
  - intros [?|e] m2 _; [done|]. by destruct (NoErrAlreadyUpToDate e).
Qed.

(** The repository of a URL, in [gitDir]: the one that is seen there, or else a clone
    of the URL. *)
Definition opened (gf : GitFetcher) (gitDir url : string) (m : machine) (repo : Repository) (m' : machine) : Prop :=
  match Stat gitDir m with
  | (Ok _, m1) => PlainOpen gitDir m1 = (Ok repo, m')
  | (_, m1) => PlainClone gitDir url (Depth gf) m1 = (Ok repo, m')
  end.

Lemma open_or_clone_opened gf gitDir url (m m' : machine) repo :
  open_or_clone gf gitDir url m = (Ok repo, m') -> opened gf gitDir url m repo m'.
Proof.
  intros (s & m1 & Hs & H)%F_bind_Ok. unfold F_try in Hs. unfold opened. destruct (Stat gitDir m) as [r m2].
  destruct r; try done; injection Hs as <- <-; by apply F_wrap_Ok in H.
Qed.

(** The reference a version names in the repository, which is fetched when it has
    none of that name. *)
Definition found (gf : GitFetcher) (repo : Repository) (version : string) (m : machine) (ref : Reference)
    (m' : machine) : Prop :=
  find repo version m = Ok (Some ref) /\ m' = m \/
  find repo version m = Ok None /\ find repo version m' = Ok (Some ref) /\
    exists r, FetchContext repo (Depth gf) m = (r, m') /\
      (r = Ok tt \/ exists e, r = Err e /\ NoErrAlreadyUpToDate e = true).

Lemma findFetchAndFindAgain_found gf repo version (m m' : machine) ref :
  findFetchAndFindAgain gf repo version m = (Ok (Some ref), m') -> found gf repo version m ref m'.
Proof.
  unfold findFetchAndFindAgain. intros (r & m1 & Hr & H)%F_bind_Ok. injection Hr as Hr%wrap_err_Ok <-.
  destruct r as [r|]; [injection H as <- <-; by left|]. right.
  apply F_bind_Ok in H as ([] & m2 & Hf & H). injection H as H%wrap_err_Ok <-. split; [done|]. split; [done|].
  apply F_bind_Ok in Hf as (fetched & m3 & Ht & Hf). unfold F_try in Ht.
  destruct (FetchContext repo (Depth gf) m) as [[[]|e|w|] m4]; try done; injection Ht as <- <-.
  - injection Hf as <-. eauto.
  - destruct (NoErrAlreadyUpToDate e) eqn:Ee; [|done]. injection Hf as <-. eauto 6.
Qed.

(** What a request of a version of a URL asks for: in the repository of the URL, the
    reference that the version names, its commit, and the files of the commit. *)
Definition requested (gf : GitFetcher) (repoDir url version : string) (m : machine)
    (repo : Repository) (ref : Reference) (files : list object_File) : Prop :=
  exists m1 m2 m3 commit, MkdirAll (PathJoin [cacheDir gf; repoDir]) 511 m = (Ok tt, m1) /\
    opened gf (PathJoin [cacheDir gf; repoDir; ".git"]) url m1 repo m2 /\
    found gf repo version m2 ref m3 /\
    Reference_Commit ref repo m3 = Ok commit /\ commit_Tree commit m3 = Ok files.

(** *** The worktree *)

(** A file that is named below the root, and what is written of it. *)
Definition well_named (f : object_File) : Prop :=
  Forall no_up (Split (f_Name f) "/") /\ name_elems (f_Name f) <> [].

Definition written (t : tree) (dir : path) (f : object_File) : Prop :=
  exists mode content, f_Mode f = Ok mode /\ f_Reader f = Ok content /\
    t !! (dir ++ name_elems (f_Name f)) = Some (File (umask mode) content).

(** The directory holds exactly the files of the tree. *)
Definition whole (dir : path) (files : list object_File) (t : tree) : Prop :=
  (forall f, f ∈ files -> written t dir f) /\
  (forall x rel mode content, t !! (dir ++ x :: rel) = Some (File mode content) ->
     exists f, f ∈ files /\ x :: rel = name_elems (f_Name f)).

Section worktree.
  Context (worktreeDir : string) (D : path).
  Hypothesis (HD : HasPrefix worktreeDir "/" = true) (HDr : resolve_from [] worktreeDir = D).

Lemma dest_elems (m : machine) f :
  well_named f -> resolve m (PathJoin [worktreeDir; f_Name f]) = D ++ name_elems (f_Name f).
Proof. intros [Hf _]. rewrite resolve_join, HDr by done. by apply join_name. Qed.

Lemma dest_dir_elems (m m' : machine) f :
  well_named f ->
  resolve m (Dir_of m' (PathJoin [worktreeDir; f_Name f])) = parent (D ++ name_elems (f_Name f)).
Proof.
  intros Hf. unfold Dir_of. rewrite dest_elems by done. apply resolve_path_string. unfold parent.
  assert (Forall good_elem (D ++ name_elems (f_Name f))) as Hg.
  { rewrite <- (dest_elems m) by done. rewrite resolve_join by done. by apply join_elems_good, resolve_from_good. }
  destruct (exists_last (l := D ++ name_elems (f_Name f))) as (q & x & E).
  { destruct Hf as [_ Hf]. by destruct D. }
  rewrite E in *. rewrite removelast_last. by apply Forall_app in Hg as [? _].
Qed.

Lemma checkout_confined f : well_named f -> confined D (checkout_file worktreeDir f).
Proof.
  intros Hf m Hm. unfold checkout_file, write_file.
  assert (exists x rel, name_elems (f_Name f) = x :: rel) as (x & rel & Hx).
  { destruct Hf as [_ Hf]. destruct (name_elems (f_Name f)); eauto. done. }
  assert (exists q, parent (D ++ name_elems (f_Name f)) = D ++ q) as [q Hq].
  { rewrite Hx. destruct (exists_last (l := x :: rel)) as (q & y & ->); [done|]. exists q.
    by rewrite app_assoc, parent_snoc. }
  apply (confined_bind D); [|intros _|done].
  { intros m1 Hm1. rewrite MkdirAll_named, (dest_dir_elems m1 m), Hq by (done || by apply absolute_nonempty, path_string_absolute). by apply mkdir_all_confined. }
  apply confined_bind; [by intros m1 _|]. intros src.
  apply confined_bind; [by intros m1 _|]. intros mode.
  apply confined_bind; [|intros _]; intros m1 Hm1.
  - unfold OpenFile, path_call. rewrite dest_elems, Hx by done. unfold path_error.
    apply (confined_wrap D _ (syscall _)); [|done]. apply confined_syscall. intros t a t' Ht H.
    destruct (String.eqb _ ""); [done|]. revert H. unfold open_at.
    repeat case_match; try done; intros [= _ <-]; by (apply only_inside_insert || done).
  - unfold WriteTo. rewrite dest_elems, Hx by done.
    exact (confined_wrap D _ _ (write_at_confined D x rel src) m1 Hm1).
Qed.

(** A file that is written adds itself and directories. *)
Lemma checkout_file_Ok f (m m' : machine) :
  well_named f -> checkout_file worktreeDir f m = (Ok tt, m') ->
  (forall mode content, tree_of m !! (D ++ name_elems (f_Name f)) <> Some (File mode content)) ->
  written (tree_of m') D f /\
  forall q, q <> D ++ name_elems (f_Name f) -> tree_of m' !! q = tree_of m !! q \/
    (tree_of m !! q = None /\ exists mode, tree_of m' !! q = Some (Dir mode)).
Proof.
  intros Hf H Hnew. set (p := D ++ name_elems (f_Name f)) in *. unfold checkout_file, write_file in H.
  apply F_bind_Ok in H as ([] & m1 & E1 & H). apply F_bind_Ok in H as (src & m1' & [= Hsrc <-] & H).
  apply F_bind_Ok in H as (mode & m1' & [= Hmode <-] & H). apply F_bind_Ok in H as ([] & m2 & E2 & H).
  rewrite MkdirAll_named in E1 by by apply absolute_nonempty, path_string_absolute. rewrite (dest_dir_elems m m) in E1 by done. fold p in E1.
  apply mkdir_all_change in E1 as (_ & Hq & _).
  assert (forall mode content, tree_of m1 !! p <> Some (File mode content)) as Hn.
  { intros md c Hc. destruct (Hq p) as [E|(_ & _ & E)]; rewrite E in Hc; [by eapply Hnew|done]. }
  assert (p <> []) as Hp by (unfold p; destruct Hf as [_ Hf]; by destruct D).
  assert (tree_of m2 = <[p := File (umask mode) ""]> (tree_of m1)) as Et2.
  { unfold OpenFile, path_call, path_error in E2. rewrite dest_elems in E2 by done. fold p in E2.
    set (fo := fun t => _) in E2. destruct (syscall fo m1) as [r m2'] eqn:E.
    apply syscall_tree in E as [(a & t & -> & E & Et)|[Hr _]]; [|by destruct r].
    injection E2 as _ <-. rewrite Et. unfold fo in E. destruct (String.eqb _ ""); [done|]. revert E.
    unfold open_at. destruct (unreachable _ _); [done|].
    assert (look (tree_of m1) p = tree_of m1 !! p) as -> by by destruct p.
    destruct (tree_of m1 !! p) as [[md|md c]|]; [done|by edestruct Hn|]. by intros [= _ <-]. }
  assert (tree_of m' = <[p := File (umask mode) src]> (tree_of m1)) as Et'.
  { unfold WriteTo, write_at, path_error in H. rewrite dest_elems in H by done. fold p in H.
    rewrite <- (write_over_new (tree_of m1) p (umask mode) src), <- Et2.
    destruct (faults m2) as [|[flt|] fs]; [|discriminate H|]; injection H as H; by rewrite <- H. }
  split.
  - exists mode, src. split; [done|]. split; [done|]. rewrite Et'. apply lookup_insert_eq.
  - intros q Hne. rewrite Et', lookup_insert_ne by done. destruct (Hq q) as [?|(_ & ? & ?)]; [by left|right; eauto].
Qed.

Lemma checkout_all files pre (m m' : machine) :
  Forall well_named files -> NoDup (name_elems ∘ f_Name <$> pre ++ files) ->
  whole D pre (tree_of m) ->
  F_each (checkout_file worktreeDir) files m = (Ok tt, m') -> whole D (pre ++ files) (tree_of m').
Proof.
  revert pre m. induction files as [|f files IH]; intros pre m Hw Hnd HI.
  - intros [= <-]. by rewrite app_nil_r.
  - apply Forall_cons in Hw as [Hf Hw]. cbn [F_each]. intros ([] & m1 & E & H)%F_bind_Ok.
    replace (pre ++ f :: files) with ((pre ++ [f]) ++ files) in * by (by rewrite <- app_assoc).
    eapply IH; [done|done| |exact H]. clear H IH.
    assert (forall f', f' ∈ pre -> name_elems (f_Name f') <> name_elems (f_Name f)) as Hdist.
    { intros f' Hf' Heq. rewrite <- app_assoc, fmap_app in Hnd. apply NoDup_app in Hnd as (_ & Hnd & _).
      apply (Hnd (name_elems (f_Name f))); [|left].
      apply list_elem_of_fmap. exists f'. by split. }
    assert (exists x rel, name_elems (f_Name f) = x :: rel) as (x & rel & Hx).
    { destruct Hf as [_ Hf]. destruct (name_elems (f_Name f)); eauto. done. }
    apply checkout_file_Ok in E as [Hwr Hq]; [|done|].
    2: { intros mode content Hc. rewrite Hx in Hc. destruct HI as [_ HI].
         destruct (HI _ _ _ _ Hc) as (f' & Hf' & Heq). apply (Hdist f' Hf'). by rewrite Hx, Heq. }
    split.
    + intros f' [Hf'|Hf']%elem_of_app; [|apply list_elem_of_singleton in Hf' as ->; done].
      destruct HI as [HI _]. destruct (HI f' Hf') as (mode & content & H1 & H2 & H3).
      exists mode, content. split; [done|]. split; [done|]. destruct (Hq (D ++ name_elems (f_Name f'))) as [->|[? _]].
      * intros Heq. apply app_inv_head in Heq. by apply (Hdist f').
      * done.
      * congruence.
    + intros y r mode content Hc. destruct (decide (y :: r = name_elems (f_Name f))) as [->|Hne].
      * exists f. split; [set_solver|done].
      * destruct (Hq (D ++ y :: r)) as [E|[_ [md E]]]; [by intros Heq; apply app_inv_head in Heq| |congruence].
        rewrite E in Hc. destruct HI as [_ HI]. destruct (HI _ _ _ _ Hc) as (f' & Hf' & ->).
        exists f'. split; [set_solver|done].
Qed.
End worktree.
(** *** Installing a version *)

#[export] Instance whole_proper S files : Proper (same_below S ==> iff) (whole S files).
Proof.
  intros t t' H. unfold whole, written. split; intros [H1 H2]; (split; [intros f Hf|intros x rel mode content]).
  - destruct (H1 f Hf) as (mode & content & ? & ? & ?). exists mode, content. by rewrite H.
  - rewrite H. apply H2.
  - destruct (H1 f Hf) as (mode & content & ? & ? & ?). exists mode, content. by rewrite <- H.
  - rewrite <- H. apply H2.
Qed.

(** A renamed directory has the files it had. *)
Lemma rename_whole (t t' : tree) (D S : path) files a :
  rename_dir D S t = Ok (a, t') -> (forall rel, below D (S ++ rel) = false) ->
  Forall well_named files -> whole D files t -> whole S files t'.
Proof.
  intros H HS Hw [H1 H2].
  assert (t' = graft S (subtree t D) (remove_all t D) /\ children_exist t S = false) as [-> Hc].
  { revert H. unfold rename_dir. destruct (look t D) as [[]|], (unreachable t S); try done.
    destruct (look t S) as [[]|]; try done; destruct (children_exist t S), (below D S); try done; by intros [= _ <-]. }
  assert (forall rel, graft S (subtree t D) (remove_all t D) !! (S ++ rel) =
            match t !! (D ++ rel) with Some n => Some n | None => t !! (S ++ rel) end) as Hg.
  { intros rel. by rewrite graft_lookup, strip_app, subtree_lookup, remove_all_lookup, HS. }
  split.
  - intros f Hf. destruct (H1 f Hf) as (mode & content & ? & ? & Ht). exists mode, content. by rewrite Hg, Ht.
  - intros x rel mode content. rewrite Hg. destruct (t !! (D ++ x :: rel)) as [n|] eqn:E.
    + intros [= ->]. by apply (H2 _ _ _ _ E).
    + by rewrite children_exist_false.
Qed.

Lemma rename_elsewhere (t t' : tree) (D S S' : path) a :
  rename_dir D S t = Ok (a, t') -> (forall rel, below D (S' ++ rel) = false) ->
  (forall rel, below S (S' ++ rel) = false) -> same_below S' t t'.
Proof.
  intros H HD HS. assert (t' = graft S (subtree t D) (remove_all t D)) as ->.
  { revert H. unfold rename_dir. destruct (look t D) as [[]|], (unreachable t S); try done.
    destruct (look t S) as [[]|]; try done; destruct (children_exist t S), (below D S); try done; by intros [= _ <-]. }
  intros rel. rewrite graft_lookup, remove_all_lookup, HD. specialize (HS rel). unfold below in HS.
  by destruct (strip S (S' ++ rel)).
Qed.

Section versions.
  Context (gf : GitFetcher) (repoDir : string).
  Hypothesis (Hcache : HasPrefix (cacheDir gf) "/" = true).
  Hypothesis (Hrepo : Forall good_elem (Split repoDir "/")).

(** The cache, the path of the repository in it, and of its versions. *)
Let C : path := resolve_from [] (cacheDir gf).
Let R : path := Split repoDir "/".
Definition version_dir (v : string) : path :=
  (resolve_from [] (cacheDir gf) ++ Split repoDir "/") ++ [v].

Lemma R_nonempty : exists x R', R = x :: R'.
Proof. unfold R. destruct (Split repoDir "/") eqn:E; [|eauto]. unfold Split in E. by destruct (split_go _ _ _). Qed.

Lemma version_dir_elems (m : machine) v :
  good_elem v -> resolve m (PathJoin [cacheDir gf; repoDir; v]) = version_dir v.
Proof.
  intros Hv. rewrite resolve_join3, (join_elems_good_list _ repoDir) by done. by rewrite join_good_elem.
Qed.

Lemma other_version v v' rel : v <> v' -> below (version_dir v) (version_dir v' ++ rel) = false.
Proof.
  intros Hne. unfold version_dir. rewrite <- (app_assoc _ [v'] rel), below_app. unfold below. cbn [strip app].
  by destruct (String.eqb_spec v v').
Qed.

(** A temporary directory of the cache is not the repository's. *)
Lemma outside_worktree tmp v rel :
  (forall R', R <> tmp :: R') -> below (C ++ [tmp]) (version_dir v ++ rel) = false.
Proof.
  intros Hne. unfold version_dir. fold C R. rewrite <- !app_assoc, below_app. unfold below.
  destruct R_nonempty as (x & R' & E). rewrite E. cbn [strip app]. destruct (String.eqb_spec tmp x); [|done].
  subst. by destruct (Hne R').
Qed.

Lemma install_version_spec (m : machine) ver tmp worktreeDir files v :
  good_elem ver -> (forall R', R <> tmp :: R') -> HasPrefix worktreeDir "/" = true ->
  resolve_from [] worktreeDir = C ++ [tmp] -> dirs_to (tree_of m) (C ++ [tmp]) ->
  (forall p, inside (C ++ [tmp]) p = true -> tree_of m !! p = None) ->
  Forall well_named files -> NoDup (name_elems ∘ f_Name <$> files) ->
  let m' := (F_defer (install_version gf repoDir ver worktreeDir files) (RemoveAll worktreeDir) m).2 in
  same_below (version_dir v) (tree_of m) (tree_of m') \/ (v = ver /\ whole (version_dir v) files (tree_of m')).
Proof.
  intros Hver Htmp Habs HD Hd Hempty Hw Hnd. set (D := C ++ [tmp]) in *.
  assert (forall rel, below D (version_dir v ++ rel) = false) as Hout.
  { intros rel. by apply outside_worktree. }
  assert (forall m1 : machine, same_below (version_dir v) (tree_of m1) (tree_of (RemoveAll worktreeDir m1).2)) as Hrm.
  { intros m1. unfold RemoveAll. destruct (String.eqb worktreeDir ""); [done|].
    destruct (syscall _ m1) as [r m2] eqn:E. cbn [snd].
    apply syscall_tree in E as [(a & t & _ & [= _ <-] & ->)|[_ ->]]; [|done].
    intros rel. rewrite remove_all_lookup, resolve_absolute, HD by done. fold D. by rewrite Hout. }
  assert (forall m1, same_below (version_dir v) (tree_of m) (tree_of m1) \/
            (v = ver /\ whole (version_dir v) files (tree_of m1)) ->
          forall m2, m2 = (RemoveAll worktreeDir m1).2 ->
          same_below (version_dir v) (tree_of m) (tree_of m2) \/
            (v = ver /\ whole (version_dir v) files (tree_of m2))) as Hdefer.
  { intros m1 [H|[H1 H2]] m2 ->; [left; etrans; [exact H|apply Hrm]|right]. split; [done|]. by rewrite <- (Hrm m1). }
  unfold F_defer. destruct (install_version gf repoDir ver worktreeDir files m) as [r m1] eqn:E. cbn zeta. cbn [snd].
  apply (Hdefer m1); [|done]. clear Hdefer Hrm. revert E. unfold install_version.
  assert (confined D (F_each (checkout_file worktreeDir) files)) as Hconf.
  { apply confined_each. intros f Hf. rewrite Forall_forall in Hw. by apply (checkout_confined worktreeDir D Habs HD), Hw. }
  specialize (Hconf m Hd) as [Hin _]. destruct (F_each (checkout_file worktreeDir) files m) as [r1 m2] eqn:Ec.
  cbn [snd] in Hin.
  assert (same_below (version_dir v) (tree_of m) (tree_of m2)) as H2.
  { eapply only_inside_same_below; [exact Hin|]. intros rel.
    apply not_true_iff_false. intros Hi. specialize (Hout rel). apply not_true_iff_false in Hout.
    apply Hout, below_inside. by right. }
  unfold mbind, F_bind, F_wrap. rewrite Ec. destruct r1 as [[]|e|w|]; cbn [wrap_err].
  2-4: intros [= <- <-]; by left.
  apply (checkout_all worktreeDir D Habs HD files []) in Ec; [|done..|].
  2: { split; [intros f Hf; by apply elem_of_nil in Hf|]. intros x rel mode content Hc.
       rewrite Hempty in Hc; [done|]. apply inside_app. }
  cbn [app] in Ec. unfold F_try, Rename.
  destruct (syscall _ m2) as [r2 m3] eqn:Es. rewrite version_dir_elems, resolve_absolute, HD in Es by done. fold D in Es.
  assert (same_below (version_dir v) (tree_of m) (tree_of m3) \/
          (v = ver /\ whole (version_dir v) files (tree_of m3))) as H3.
  { apply syscall_tree in Es as [(a & t & _ & Es & ->)|[_ ->]]; [|by left].
    destruct (decide (v = ver)) as [->|Hne].
    - right. split; [done|]. by eapply rename_whole.
    - left. etrans; [exact H2|]. eapply rename_elsewhere; [exact Es|exact Hout|].
      intros rel. apply other_version. by intros ->. }
  destruct r2 as [[]|e|w|]; cbn [wrap_err]; [by intros [= <- <-]| |by intros [= <- <-]..].
  destruct (is_ErrExist _); by intros [= <- <-].
Qed.
(** *** Cloning *)

(** The trees a run may check out, which name each file once and below the root. *)
Context (asked : Reference -> list object_File -> Prop).
Hypothesis asked_files : forall ref files, asked ref files ->
  Forall well_named files /\ NoDup (name_elems ∘ f_Name <$> files).

(** What a run did to the directory of a version: nothing, or it is now the whole
    tree that was asked for, of the reference whose hash is the version. *)
Definition atomic {A} (v : string) (m : machine) (c : F A) : Prop :=
  same_below (version_dir v) (tree_of m) (tree_of (c m).2) \/
  exists ref files, asked ref files /\ EscapeHash ref = Ok v /\ whole (version_dir v) files (tree_of (c m).2).

Lemma atomic_bind {A B} v (m : machine) (c : F A) (f : A -> F B) :
  same_below (version_dir v) (tree_of m) (tree_of (c m).2) ->
  (forall a m1, c m = (Ok a, m1) -> atomic v m1 (f a)) -> atomic v m (c ≫= f).
Proof.
  unfold atomic, mbind, F_bind. intros Hc Hf.
  destruct (c m) as [[a|e|w|] m1] eqn:E; cbn [snd] in *; [|by left..].
  destruct (Hf a m1 eq_refl) as [H|H]; [left; by etrans|by right].
Qed.

Lemma atomic_wrapped {A} v (m : machine) pre (c : F A) :
  same_below (version_dir v) (tree_of m) (tree_of (c m).2) ->
  same_below (version_dir v) (tree_of m) (tree_of (F_wrap pre c m).2).
Proof. unfold F_wrap. by destruct (c m). Qed.

Let G : path := resolve_from [] (PathJoin [cacheDir gf; repoDir; ".git"]).

Lemma git_elems : G = (C ++ R) ++ [".git"].
Proof.
  unfold G. rewrite <- (resolve_absolute {| tree_of := ∅; cwd := []; super := false; random := []; faults := [] |}).
  - apply version_dir_elems. by repeat split.
  - by apply PathJoin3_is_absolute.
Qed.

Lemma version_not_git v rel : v <> ".git" -> below G (version_dir v ++ rel) = false.
Proof. intros Hv. rewrite git_elems. change ((C ++ R) ++ [".git"]) with (version_dir ".git"). apply other_version. by intros <-. Qed.

Lemma version_not_above v rel : version_dir v ++ rel ∉ ancestors (C ++ R).
Proof.
  intros [_ [r Hr]]%elem_of_ancestors. apply (f_equal length) in Hr. unfold version_dir in Hr.
  fold C R in Hr. rewrite !length_app in Hr. cbn in Hr. lia.
Qed.

(** A new worktree is checked out and becomes the version. *)
Lemma worktree_atomic ref files ver v (m3 : machine) :
  v <> ".git" -> dirs_to (tree_of m3) (C ++ R) -> EscapeHash ref = Ok ver -> asked ref files ->
  atomic v m3 (worktreeDir ← F_wrap "creating temporary worktree dir: " (MkdirTemp (cacheDir gf) "");
               F_defer (install_version gf repoDir ver worktreeDir files) (RemoveAll worktreeDir)).
Proof.
  intros Hv Hd1 Hver Hasked. destruct (asked_files _ _ Hasked) as [Hw Hnd].
  assert (forall r m4, MkdirTemp (cacheDir gf) "" m3 = (r, m4) ->
    (is_ok r = false /\ tree_of m4 = tree_of m3) \/
    exists tmp, good_elem tmp /\ (forall R', R <> tmp :: R') /\ r = Ok (PathJoin [cacheDir gf; tmp]) /\
      (forall p, below (C ++ [tmp]) p = true -> tree_of m3 !! p = None) /\
      tree_of m4 = <[C ++ [tmp] := Dir 448]> (tree_of m3)) as Htmp.
  { intros r m4 [?|(tmp & H1 & H2 & H3 & H4)]%MkdirTemp_change; [by left| |done..]. right. exists tmp.
    split; [done|]. split; [|done]. intros R' HR. destruct (Hd1 (C ++ [tmp])) as [mode Hm].
    - rewrite HR. apply elem_of_ancestors. split; [by destruct C|]. exists R'. by rewrite <- app_assoc.
    - assert (tree_of m3 !! (C ++ [tmp]) = None) as Hn; [|congruence]. apply H3, below_spec. exists [].
      by rewrite app_nil_r. }
  apply atomic_bind.
  { apply atomic_wrapped. destruct (MkdirTemp (cacheDir gf) "" m3) as [r m4] eqn:E4.
    destruct (Htmp _ _ eq_refl) as [[_ Et]|(tmp & _ & Hne & _ & _ & Et)]; cbn [snd]; rewrite Et; [done|].
    intros rel. apply lookup_insert_ne. intros H. pose proof (outside_worktree tmp v rel Hne) as Hb.
    rewrite <- H in Hb. apply not_true_iff_false in Hb. apply Hb, below_spec. exists []. by rewrite app_nil_r. }
  intros worktreeDir m4 E4. apply F_wrap_Ok in E4.
  destruct (Htmp _ _ E4) as [[? _]|(tmp & Hgt & Hne & [= ->] & Hfree & Et)]; [done|]. clear Htmp.
  assert (resolve_from [] (PathJoin [cacheDir gf; tmp]) = C ++ [tmp]) as Hwt.
  { rewrite <- (resolve_absolute m4) by by apply PathJoin_is_absolute. by rewrite resolve_join, join_good_elem. }
  assert (good_elem ver) as Hgv.
  { unfold EscapeHash in Hver. destruct ref; by eapply EscapeVersion_good. }
  destruct (install_version_spec m4 ver tmp (PathJoin [cacheDir gf; tmp]) files v) as [H|[-> H]]; try done.
  - by apply PathJoin_is_absolute.
  - rewrite Et. apply (dirs_to_snoc _ _ _ 448).
    + intros q Hq. destruct (dirs_to_prefix _ _ _ Hd1 q Hq) as [mode Hm]. exists mode.
      rewrite lookup_insert_ne; [done|]. intros <-. rewrite Hfree in Hm; [done|]. apply below_spec.
      exists []. by rewrite app_nil_r.
    + apply lookup_insert_eq.
  - intros p Hp. rewrite Et, lookup_insert_ne.
    + apply Hfree, below_inside. by right.
    + intros <-. apply inside_spec in Hp as (x & rel & Hp). apply (f_equal length) in Hp.
      rewrite !length_app in Hp. cbn in Hp. lia.
  - by left.
  - right. by exists ref, files.
Qed.

Lemma clone_atomic url version v (m : machine) :
  v <> ".git" -> (forall repo ref files, requested gf repoDir url version m repo ref files -> asked ref files) ->
  atomic v m (clone gf repoDir url version).
Proof.
  intros Hv Hreq. unfold clone. destruct (String.eqb version ".git"); [by left|].
  set (dir := PathJoin [cacheDir gf; repoDir]).
  assert (forall m1 : machine, resolve m1 dir = C ++ R) as Hdir.
  { intros m1. unfold dir. by rewrite resolve_join, join_elems_good_list by done. }
  apply atomic_bind.
  { apply atomic_wrapped. intros m1. rewrite MkdirAll_named, Hdir by by apply absolute_nonempty, PathJoin_is_absolute. apply mkdir_all_same_below. intros rel. apply version_not_above. }
  intros [] m1 E1. apply F_wrap_Ok in E1. pose proof E1 as Q1. rewrite MkdirAll_named, Hdir in E1 by by apply absolute_nonempty, PathJoin_is_absolute.
  apply mkdir_all_change in E1 as (_ & _ & Hd1). specialize (Hd1 eq_refl).
  assert (forall t t', only_below G t t' -> dirs_to t (C ++ R) -> dirs_to t' (C ++ R)) as Hkeep.
  { intros t t' H. eapply only_below_dirs; [exact H| |]; rewrite git_elems.
    - apply below_spec. eauto.
    - intros H'. apply (f_equal length) in H'. rewrite !length_app in H'. cbn in H'. lia. }
  assert (forall t t', only_below G t t' -> same_below (version_dir v) t t') as Hsame.
  { intros t t' H. eapply only_below_same; [exact H|]. intros rel. by apply version_not_git. }
  assert (HasPrefix (PathJoin [cacheDir gf; repoDir; ".git"]) "/" = true) as Hgit.
  { by apply PathJoin3_is_absolute. }
  destruct (open_or_clone_touches gf _ url m1 Hgit) as [H1 Hgd]. fold G in H1, Hgd.
  apply atomic_bind; [by apply Hsame|]. intros repo m2 E2. pose proof (Hgd repo m2 E2) as Hrepo'.
  pose proof (open_or_clone_opened _ _ _ _ _ _ E2) as Q2.
  unfold touches in H1. rewrite E2 in H1. cbn [snd] in H1. apply (Hkeep _ _ H1) in Hd1. clear H1 Hgd E2.
  pose proof (find_touches gf repo version m2) as H2. rewrite Hrepo' in H2.
  apply atomic_bind; [by apply Hsame|]. intros [ref|] m3 E3; [|by left].
  unfold touches in H2. rewrite E3 in H2. cbn [snd] in H2. apply (Hkeep _ _ H2) in Hd1.
  apply findFetchAndFindAgain_found in E3 as Q3.
  apply atomic_bind; [done|]. intros ver m4 [= Hver%wrap_err_Ok <-].
  apply atomic_bind; [done|]. intros commit m4 [= Hcommit%wrap_err_Ok <-].
  apply atomic_bind; [done|]. intros files m4 [= Hfiles%wrap_err_Ok <-].
  apply (worktree_atomic ref); [done..|]. apply (Hreq repo). by exists m1, m2, m3, commit.
Qed.
End versions.

(** C13: getting a version of a repository, whatever system calls fail, leaves the
    directory of each version as it was or makes it hold exactly the files of what was
    asked for, when its hash is that version: the tree of the commit of the reference
    that the version names in the repository of the URL.  There is never a part of
    a version in the cache.  The tree that is asked for must name its files below
    its root and each once, which Git can store otherwise: a file of such a tree is
    written out of the cache. *)
Theorem versions_are_whole gf url version host p repoDir v (m : machine) :
  HasPrefix (cacheDir gf) "/" = true ->
  NewEndpoint url = Ok (host, p) -> EscapePath (PathJoin [host; p]) = Ok repoDir ->
  (forall repo ref files, requested gf repoDir url version m repo ref files ->
     Forall well_named files /\ NoDup (name_elems ∘ f_Name <$> files)) ->
  v <> ".git" ->
  let m' := (Get gf url version m).2 in
  same_below (version_dir gf repoDir v) (tree_of m) (tree_of m') \/
  exists repo ref files, requested gf repoDir url version m repo ref files /\ EscapeHash ref = Ok v /\
    whole (version_dir gf repoDir v) files (tree_of m').
Proof.
  intros Hc Hurl Hesc Hfiles Hv. cbn zeta. unfold Get, mbind, F_bind, F_lift. rewrite Hurl. cbn [wrap_err].
  rewrite Hesc. cbn [wrap_err].
  set (asked := fun ref files => exists repo, requested gf repoDir url version m repo ref files).
  assert (forall ref files, asked ref files -> Forall well_named files /\ NoDup (name_elems ∘ f_Name <$> files))
    as Hasked by (intros ref files [repo H]; by eapply Hfiles).
  destruct (clone_atomic gf repoDir Hc (EscapePath_good _ _ Hesc) asked Hasked url version v m Hv)
    as [H|(ref & files & [repo H1] & H2 & H3)]; [intros repo ref files; by exists repo|by left|].
  right. by exists repo, ref, files.
Qed.
(** *** Finding a version *)

(** A version that the cached repository has is not fetched again. *)
Lemma local_version_not_fetched gf repo version (m : machine) ref :
  find repo version m = Ok (Some ref) -> findFetchAndFindAgain gf repo version m = (Ok (Some ref), m).
Proof.
  intros H. unfold findFetchAndFindAgain, find_version, F_read, mbind, F_bind. by rewrite H.
Qed.

Lemma search_commits_spec version commits r :
  search_commits version commits = Ok r <->
  match r with
  | Some (name, h) => exists pre c post, commits = pre ++ Ok c :: post /\
      (forall x, x ∈ pre -> exists c', x = Ok c' /\ commit_matches version (hash_String (commit_Hash c')) = false) /\
      commit_matches version (hash_String (commit_Hash c)) = true /\ h = commit_Hash c /\ name = hash_String h
  | None => forall x, x ∈ commits -> exists c', x = Ok c' /\ commit_matches version (hash_String (commit_Hash c')) = false
  end.
Proof.
  revert r. induction commits as [|x commits IH]; intros r; cbn.
  - split.
    + intros [= <-] x Hx. by apply elem_of_nil in Hx.
    + destruct r as [[name h]|]; [|done]. intros (pre & c & post & E & _). by destruct pre.
  - destruct x as [c|e|w|]; cycle 1.
    1-3: split; [done|]; destruct r as [[name h]|];
      [intros (pre & c & post & E & Hpre & _); destruct pre as [|y pre]; [discriminate E|injection E as <- _];
         destruct (Hpre _ ltac:(left)) as (? & ? & _); done
      |intros H; destruct (H _ ltac:(left)) as (? & ? & _); done].
    destruct (commit_matches version (hash_String (commit_Hash c))) eqn:Em.
    + split.
      * intros [= <-]. exists [], c, commits. repeat split; try done. intros x Hx. by apply elem_of_nil in Hx.
      * destruct r as [[name h]|].
        -- intros (pre & c' & post & E & Hpre & Hm & -> & ->). destruct pre as [|y pre]; injection E as <- _; [by subst|].
           destruct (Hpre _ ltac:(left)) as (c2 & [= <-] & Hf). congruence.
        -- intros H. destruct (H _ ltac:(left)) as (c2 & [= <-] & Hf). congruence.
    + rewrite IH. destruct r as [[name h]|]; split.
      * intros (pre & c' & post & -> & Hpre & Hr). exists (Ok c :: pre), c', post. split; [done|]. split; [|done].
        intros x [->|Hx]%elem_of_cons; [by exists c|by apply Hpre].
      * intros (pre & c' & post & E & Hpre & Hm & Hr). destruct pre as [|y pre]; injection E as <- ->.
        -- congruence.
        -- exists pre, c', post. split; [done|]. split; [|done]. intros x Hx. apply Hpre. by right.
      * intros H x [->|Hx]%elem_of_cons; [by exists c|by apply H].
      * intros H x Hx. apply H. by right.
Qed.

(** What a version names in a repository: a tag, then a branch, then the first
    commit whose hash it is or, from eight characters on, abbreviates. *)
Inductive names_version (repo : Repository) (m : machine) (version : string) : Reference -> Prop :=
  | names_annotated tag obj :
      repo_Tag repo version m = Ok tag -> TagObject repo tag.2 m = Ok obj ->
      names_version repo m version (NewReferenceToAnnotatedTag obj)
  | names_lightweight tag e :
      repo_Tag repo version m = Ok tag -> TagObject repo tag.2 m = Err e -> ErrObjectNotFound e = true ->
      names_version repo m version (NewReference tag)
  | names_branch branch :
      is_ok (repo_Tag repo version m) = false ->
      repo_Reference repo ("refs/heads/" +:+ version) m = Ok branch ->
      names_version repo m version (NewReference branch)
  | names_commit commits pre c post :
      is_ok (repo_Tag repo version m) = false ->
      is_ok (repo_Reference repo ("refs/heads/" +:+ version) m) = false ->
      CommitObjects repo m = Ok commits -> commits = pre ++ Ok c :: post ->
      (forall x, x ∈ pre -> exists c', x = Ok c' /\ commit_matches version (hash_String (commit_Hash c')) = false) ->
      commit_matches version (hash_String (commit_Hash c)) = true ->
      names_version repo m version (NewReference (hash_String (commit_Hash c), commit_Hash c)).

(** Without a tag and a branch of the name, the commits are searched. *)
Lemma find_branch repo version (m : machine) branch :
  is_ok (repo_Tag repo version m) = false -> repo_Reference repo ("refs/heads/" +:+ version) m = Ok branch ->
  find repo version m = Ok (Some (NewReference branch)).
Proof.
  unfold find, NewBranchReferenceName. intros Ht Hb. rewrite Hb. by destruct (repo_Tag repo version m).
Qed.

Lemma find_commit repo version (m : machine) :
  is_ok (repo_Tag repo version m) = false ->
  is_ok (repo_Reference repo ("refs/heads/" +:+ version) m) = false ->
  is_ok (repo_Reference repo ("refs/heads/refs/heads/" +:+ version) m) = false ->
  find repo version m =
  (commits ← CommitObjects repo m or_wrap "getting commit objects: ";
   found ← search_commits version commits or_wrap "searching commits: ";
   Ok (option_map NewReference found)).
Proof.
  unfold find. change (NewBranchReferenceName ("refs/heads/" +:+ version)) with ("refs/heads/refs/heads/" +:+ version).
  unfold NewBranchReferenceName. intros H1 H2 H3.
  destruct (repo_Tag repo version m); [done|..];
    (destruct (repo_Reference repo ("refs/heads/" +:+ version) m); [done|..]);
    by destruct (repo_Reference repo ("refs/heads/refs/heads/" +:+ version) m).
Qed.

(** A version of a repository that has no branch under [refs/heads/refs/heads]
    is the reference it names, tags before branches before commits: [find] finds
    that reference and no other. *)
Theorem find_names repo version (m : machine) ref :
  is_ok (repo_Reference repo ("refs/heads/refs/heads/" +:+ version) m) = false ->
  find repo version m = Ok (Some ref) <-> names_version repo m version ref.
Proof.
  intros Hno. split.
  - destruct (is_ok (repo_Tag repo version m)) eqn:Ht.
    + unfold find. destruct (repo_Tag repo version m) as [tag|e0|w0|] eqn:Et; try done.
      destruct (TagObject repo tag.2 m) as [obj|e| |] eqn:Eo; try done.
      * intros [= <-]. by eapply names_annotated.
      * destruct (ErrObjectNotFound e) eqn:Ee; [|done]. intros [= <-]. by eapply names_lightweight.
    + destruct (repo_Reference repo ("refs/heads/" +:+ version) m) as [b|e1|w1|] eqn:Eb.
      { rewrite (find_branch _ _ _ b) by done. intros [= <-]. by apply names_branch. }
      all: rewrite find_commit by (rewrite ?Eb; done); intros H;
        apply bind_Ok in H as (commits & Hc%wrap_err_Ok & H);
        apply bind_Ok in H as (found & Hf%wrap_err_Ok & [= H]);
        destruct found as [[name h]|]; [|discriminate H]; injection H as <-;
        apply search_commits_spec in Hf as (pre & c & post & E & Hpre & Hm & -> & ->);
        eapply names_commit; rewrite ?Eb; done.
  - destruct 1 as [tag obj H1 H2|tag e H1 H2 H3|b H1 H2|commits pre c post H1 H2 H3 H4 H5 H6].
    + unfold find. by rewrite H1, H2.
    + unfold find. by rewrite H1, H2, H3.
    + by apply find_branch.
    + assert (search_commits version commits = Ok (Some (hash_String (commit_Hash c), commit_Hash c))) as Hs
        by (apply search_commits_spec; eauto 10).
      rewrite find_commit, H3 by done. cbn. by rewrite Hs.
Qed.
End git.

(** ** Requests return *)

(** The calls of the libraries return. *)
Class GitReturns `{GL : GitLib} := {
  NewEndpoint_decided url : decided (NewEndpoint url) = true;
  EscapePath_decided p : decided (EscapePath p) = true;
  EscapeVersion_decided v : decided (EscapeVersion v) = true;
  PlainOpen_returns gitDir : returns (PlainOpen gitDir);
  PlainClone_returns gitDir url depth : returns (PlainClone gitDir url depth);
  FetchContext_returns repo depth : returns (FetchContext repo depth);
  TagObject_decided repo h m : decided (TagObject repo h m) = true;
  tag_Commit_decided tag m : decided (tag_Commit tag m) = true;
  CommitObjects_decided repo m : decided (CommitObjects repo m) = true;
  CommitObjects_each repo m commits c : CommitObjects repo m = Ok commits -> c ∈ commits -> decided c = true;
  CommitObject_decided repo h m : decided (CommitObject repo h m) = true;
  commit_Tree_decided commit m : decided (commit_Tree commit m) = true;
  tree_files_decided commit m files f :
    commit_Tree commit m = Ok files -> f ∈ files -> decided (f_Reader f) = true /\ decided (f_Mode f) = true
}.

Section returns.
  Context `{GR : GitReturns}.

Lemma search_commits_decided version commits :
  (forall c, c ∈ commits -> decided c = true) -> decided (search_commits version commits) = true.
Proof.
  induction commits as [|[c|e|w|] commits IH]; intros H; cbn; try done.
  - destruct (commit_matches _ _); [done|]. apply IH. intros c' Hc'. apply H. by right.
  - by specialize (H OutOfFuel ltac:(left)).
Qed.

Lemma find_decided repo version m : decided (find repo version m) = true.
Proof.
  unfold find. assert (decided (commits ← CommitObjects repo m or_wrap "getting commit objects: ";
    found ← search_commits version commits or_wrap "searching commits: ";
    Ok (option_map NewReference found)) = true) as Hc.
  { apply bind_decided; [rewrite wrap_err_decided; apply CommitObjects_decided|].
    intros commits Hc%wrap_err_Ok. apply bind_decided; [|done]. rewrite wrap_err_decided.
    apply search_commits_decided. intros c. by apply (CommitObjects_each repo m). }
  destruct (repo_Tag repo version m) as [tag|e|w|].
  { pose proof (TagObject_decided repo tag.2 m) as H. destruct (TagObject repo tag.2 m); try done.
    by destruct (ErrObjectNotFound _). }
  all: destruct (repo_Reference repo (NewBranchReferenceName version) m); [done|..];
    by destruct (repo_Reference repo (NewBranchReferenceName ("refs/heads/" +:+ version)) m).
Qed.

Lemma returns_findFetchAndFindAgain gf repo version : returns (findFetchAndFindAgain gf repo version).
Proof.
  unfold findFetchAndFindAgain. assert (returns (find_version repo version)) as Hf.
  { apply returns_read. intros m. rewrite wrap_err_decided. apply find_decided. }
  apply returns_bind; [done|]. intros [ref|]; [done|]. apply returns_bind; [|done].
  unfold fetch_repo. apply returns_bind; [apply returns_try, FetchContext_returns|].
  intros [u|e]; [done|]. by destruct (NoErrAlreadyUpToDate e).
Qed.

Lemma returns_checkout_file worktreeDir f :
  decided (f_Reader f) = true -> decided (f_Mode f) = true -> returns (checkout_file worktreeDir f).
Proof.
  intros Hr Hm m. unfold checkout_file, write_file.
  apply (returns_bind (MkdirAll _ _)); [eauto with returns|]. intros []. apply returns_bind; [by apply returns_lift|].
  intros src. apply returns_bind; [by apply returns_lift|]. eauto with returns.
Qed.

Lemma returns_install_version gf repoDir ver worktreeDir files :
  (forall f, f ∈ files -> decided (f_Reader f) = true /\ decided (f_Mode f) = true) ->
  returns (install_version gf repoDir ver worktreeDir files).
Proof.
  intros Hf. unfold install_version. apply returns_bind.
  { apply returns_wrap, returns_each. intros f [H1 H2]%Hf. by apply returns_checkout_file. }
  intros []. apply returns_bind; [eauto with returns|]. intros [u|e]; [done|]. by destruct (is_ErrExist e).
Qed.

(** A request of a version returns, whatever fails. *)
Lemma Get_returns gf url version : returns (Get gf url version).
Proof.
  unfold Get. apply returns_bind; [apply returns_lift; rewrite wrap_err_decided; apply NewEndpoint_decided|].
  intros [host p]. apply returns_bind; [apply returns_lift; rewrite wrap_err_decided; apply EscapePath_decided|].
  intros repoDir. unfold clone. destruct (String.eqb version ".git"); [done|].
  apply returns_bind; [eauto with returns|]. intros []. apply returns_bind.
  { unfold open_or_clone. apply returns_bind; [eauto with returns|].
    intros []; apply returns_wrap; [apply PlainOpen_returns|apply PlainClone_returns]. }
  intros repo. apply returns_bind; [apply returns_findFetchAndFindAgain|]. intros [ref|]; [|done].
  apply returns_bind.
  { apply returns_lift. rewrite wrap_err_decided. unfold EscapeHash. destruct ref; apply EscapeVersion_decided. }
  intros ver. apply returns_bind.
  { apply returns_read. intros m. rewrite wrap_err_decided. unfold Reference_Commit.
    destruct ref; [apply CommitObject_decided|apply tag_Commit_decided]. }
  intros commit m. unfold mbind, F_bind, F_read.
  pose proof (commit_Tree_decided commit m) as Ht. destruct (commit_Tree commit m) as [files|e|w|] eqn:E; try done.
  cbn [wrap_err]. apply (returns_bind (F_wrap _ _)); [eauto with returns|]. intros worktreeDir.
  apply returns_defer, returns_install_version. intros f. by apply (tree_files_decided commit m).
Qed.
End returns.
