(* ===== verification/GoFlags.v ===== *)
(** Command lines and log levels: what [flag.FlagSet] with string flags and
    [slog.Level] make of text. *)

From stdpp Require Import gmap strings list.
From S2P Require Import Prelude GoStrings GoNumbers.
Open Scope go_scope.
Open Scope string_scope.
Open Scope list_scope.

(** ** flag.FlagSet *)

(** The part of an argument after one or two minus signs. *)
Definition flag_name (s : string) : string :=
  match s with
  | String "-"%char (String "-"%char name) => name
  | String "-"%char name => name
  | _ => s
  end.

(** The first byte of a name may not be a minus or an equals sign. *)
Definition bad_flag_name (name : string) : bool :=
  match name with
  | "" => true
  | String c _ => Ascii.eqb c "-" || Ascii.eqb c "="
  end.

(** Where the flags end: a word that is not one, or the terminator. *)
Inductive flag_word := NotFlag | Terminator | FlagWord (name : string).
Definition classify_word (s : string) : flag_word :=
  match s with
  | String "-"%char "" => NotFlag
  | "--" => Terminator
  | String "-"%char _ => FlagWord (flag_name s)
  | _ => NotFlag
  end.

(** [flags.Parse(args)] of string flags, over the values so far: the values and
    the arguments that are left. *)
Fixpoint flag_parse (names : list string) (args : list string) (vals : gmap string string) :
    res (gmap string string * list string) :=
  match args with
  | [] => Ok (vals, [])
  | s :: rest =>
      match classify_word s with
      | NotFlag => Ok (vals, args)
      | Terminator => Ok (vals, rest)
      | FlagWord name =>
          if bad_flag_name name then Err (NewError ("bad flag syntax: " +:+ s))
          else
            let '(name, value, has_value) := Cut name "=" in
            if negb (existsb (String.eqb name) names) then
              if String.eqb name "help" || String.eqb name "h" then
                Err (NewError "flag: help requested")
              else Err (NewError ("flag provided but not defined: -" +:+ name))
            else if has_value then flag_parse names rest (<[name := value]> vals)
            else
              match rest with
              | [] => Err (NewError ("flag needs an argument: -" +:+ name))
              | value :: rest => flag_parse names rest (<[name := value]> vals)
              end
      end
  end.

(** The variable of a flag, which is empty by default. *)
Definition flag_value (vals : gmap string string) (name : string) : string :=
  default "" (vals !! name).

(** ** slog.Level *)

Definition LevelDebug : Z := -4.
Definition LevelInfo : Z := 0.
Definition LevelWarn : Z := 4.
Definition LevelError : Z := 8.

(** [strings.IndexAny(s, "+-")], as the parts before it and from it on. *)
Fixpoint split_sign (s : string) : string * string :=
  match s with
  | "" => ("", "")
  | String c s' =>
      if Ascii.eqb c "+" || Ascii.eqb c "-" then ("", s)
      else let '(a, b) := split_sign s' in (String c a, b)
  end.

(** [strings.ToUpper(s)], as far as comparing with a word in A-Z goes: the ASCII
    letters, and the only other rune whose upper case is one of the letters of
    the names, the dotless i. *)
Fixpoint upper_letters (s : string) : string :=
  match s with
  | "" => ""
  | String "196"%char (String "177"%char s') => String "I"%char (upper_letters s')
  | String c s' =>
      let n := byte_of c in
      String (if ((97 <=? n) && (n <=? 122))%N then Ascii.ascii_of_N (n - 32) else c)
             (upper_letters s')
  end.

(** [level.UnmarshalText(data)]: a name in any case, and an offset. *)
Definition parseLogLevel `{WordSize} (level : string) : res Z :=
  let '(name, offset) := split_sign level in
  let pre := "slog: level string " +:+ quote level +:+ ": " in
  offset ← (if String.eqb offset "" then Ok 0%Z else Atoi offset) or_wrap pre;
  let name := upper_letters name in
  if String.eqb name "DEBUG" then Ok (go_int (LevelDebug + offset))
  else if String.eqb name "INFO" then Ok (go_int (LevelInfo + offset))
  else if String.eqb name "WARN" then Ok (go_int (LevelWarn + offset))
  else if String.eqb name "ERROR" then Ok (go_int (LevelError + offset))
  else Err (WrapError pre (NewError "unknown name") "").

Example flags_two_forms :
  flag_parse ["a"; "b"] ["-a"; "1"; "--b=2=3"; "x"; "-a"] ∅ =
  Ok (<["b" := "2=3"]> (<["a" := "1"]> ∅), ["x"; "-a"]).
Proof. reflexivity. Qed.
Example flags_unknown : is_ok (flag_parse ["a"] ["-c"] ∅) = false.
Proof. reflexivity. Qed.
Example level_offset : parseLogLevel (H := word64) "Debug+2" = Ok (-2)%Z.
Proof. reflexivity. Qed.
Example level_empty `{WordSize} : is_ok (parseLogLevel "") = false.
Proof. reflexivity. Qed.
Example level_wraps : parseLogLevel (H := word32) "warn+2147483647" = Ok (-2147483645)%Z.
Proof. vm_compute. reflexivity. Qed.
Example level_range : is_ok (parseLogLevel (H := word32) "info+2147483648") = false.
Proof. vm_compute. reflexivity. Qed.

(** Given flags are set, each to the last value it was given. *)
Lemma flag_parse_pairs names (kvs : list (string * string)) vals :
  Forall (fun kv => kv.1 ∈ names /\ bad_flag_name kv.1 = false /\ Contains kv.1 "=" = false) kvs ->
  flag_parse names (mjoin ((fun kv => ["--" +:+ kv.1; kv.2]) <$> kvs)) vals =
  Ok (foldl (fun m kv => <[kv.1 := kv.2]> m) vals kvs, []).
Proof.
  intros H. revert vals. induction H as [|[k x] kvs (Hk & Hb & Hc) _ IH]; intros vals; [done|].
  cbn [fmap list_fmap mjoin list_join app flag_parse fst snd] in *.
  assert (classify_word ("--" +:+ k) = FlagWord k) as ->.
  { cbn. by destruct k. }
  rewrite Hb. unfold Cut. apply cut_at_None in Hc. rewrite Hc.
  assert (existsb (String.eqb k) names = true) as ->.
  { apply existsb_exists. exists k. split; [by apply list_elem_of_In|apply String.eqb_refl]. }
  cbn. apply IH.
Qed.
