(* ===== verification/ReleaseSteps.v ===== *)
(** The two steps the project releases itself with: [changelog]
    (src/.gitlab/steps/changelog), which reads the latest version of a change log,
    and [create_gitlab_release] (src/.gitlab/steps/create_gitlab_release), which asks
    GitLab for a release.  The file ends with the reading of what a well-formed
    change log says. *)

From stdpp Require Import gmap strings list.
From S2P Require Import Prelude GoStrings GoNumbers GoFiles.
Open Scope go_scope.
Open Scope string_scope.
Open Scope list_scope.

(** ** Versions (version.go) *)

(** [type Version struct] *)
Record Version := {
  major : string;
  minor : string;
  patch : string;
  changes : list string
}.

(** [NewVersion(major, minor, patch, changes)] *)
Definition NewVersion (major minor patch : string) (changes : list string) : Version :=
  {| major := major; minor := minor; patch := patch; changes := changes |}.

(** [v.MajorMinor()], [v.MajorMinorPatch()] and [v.Tag()] *)
Definition MajorMinor (v : Version) : string := major v +:+ "." +:+ minor v.
Definition MajorMinorPatch (v : Version) : string := major v +:+ "." +:+ minor v +:+ "." +:+ patch v.
Definition Tag (v : Version) : string := "v" +:+ MajorMinorPatch v.

(** ** Change logs (changelog.go) *)

Definition expectedFormat : string := "## vMAJOR.MINOR.PATCH".

(** The digits a text begins with, and the rest. *)
Fixpoint leading_digits (s : string) : string * string :=
  match s with
  | String c s' =>
      if is_digit c then let '(ds, rest) := leading_digits s' in (String c ds, rest) else ("", s)
  | "" => ("", "")
  end.

(** The group [([0-9]+)]. *)
Definition match_number (s : string) : option (string * string) :=
  match leading_digits s with
  | ("", _) => None
  | r => Some r
  end.

(** A match of [expectedFormatRe] at the start of a text: its three groups. *)
Definition match_version (s : string) : option (string * string * string) :=
  s ← cut_prefix "## v" s;
  '(major, s) ← match_number s;
  s ← cut_prefix "." s;
  '(minor, s) ← match_number s;
  s ← cut_prefix "." s;
  '(patch, _) ← match_number s;
  Some (major, minor, patch).

(** [expectedFormatRe.FindStringSubmatch(s)]: the leftmost match, wherever it is. *)
Fixpoint FindStringSubmatch (s : string) : option (string * string * string) :=
  match match_version s with
  | Some parts => Some parts
  | None => match s with
            | String _ s' => FindStringSubmatch s'
            | "" => None
            end
  end.

(** [if current != nil { versions = append(versions, ...) }] *)
Definition flush (current : option (string * string * string)) (changes : list string)
    (versions : list Version) : list Version :=
  match current with
  | Some (major, minor, patch) => versions ++ [NewVersion major minor patch changes]
  | None => versions
  end.

(** The loop of [c.read()]: line [i] and those after it. *)
Fixpoint read_versions (i : nat) (lines : list string) (current : option (string * string * string))
    (changes : list string) (versions : list Version) : res (list Version) :=
  match lines with
  | [] => Ok (flush current changes versions)
  | line :: lines' =>
      if (i <? 4)%nat then read_versions (S i) lines' current changes versions
      else
        match FindStringSubmatch line, current with
        | None, None =>
            Err (NewError ("must start with version, line '" +:+ line +:+
                           "' does not conform to expected format '" +:+ expectedFormat +:+ "'"))
        | None, Some _ =>
            if HasPrefix line "## " then
              Err (NewError ("header line '" +:+ line +:+ "' does not conform to expected format '" +:+
                             expectedFormat +:+ "'"))
            else read_versions (S i) lines' current (changes ++ [line]) versions
        | Some parts, _ => read_versions (S i) lines' (Some parts) [] (flush current changes versions)
        end
  end.

(** [c.read()].  The error of the scanner is asked for after each line it gave,
    when there is none. *)
Definition Changelog_read (contents : string) : res (list Version) :=
  read_versions 0 (scan_lines contents).1 None [] [].

(** [c.LatestVersion()] *)
Definition LatestVersion (contents : string) : res Version :=
  versions ← Changelog_read contents;
  match versions with
  | [] => Err (NewError "failed to find any versions in changelog")
  | v :: _ => Ok v
  end.

(** ** The step (main.go) *)

(** [strings.Trim(s, cutset)] for a cutset of ASCII characters. *)
Fixpoint trim_left_set (cutset : string) (s : string) : string :=
  match s with
  | String c s' =>
      if existsb (Ascii.eqb c) (String.list_ascii_of_string cutset) then trim_left_set cutset s' else s
  | "" => ""
  end.
Definition Trim (s cutset : string) : string :=
  String.rev (trim_left_set cutset (String.rev (trim_left_set cutset s))).

(** The literal of a backslash and the letter n. *)
Definition escaped_newline : string := "\n".

(** A line [{name, value}] of the template. *)
Definition output_line (name value : string) : string :=
  "{" +:+ dquote +:+ "name" +:+ dquote +:+ ":" +:+ dquote +:+ name +:+ dquote +:+ ", " +:+
  dquote +:+ "value" +:+ dquote +:+ ":" +:+ dquote +:+ value +:+ dquote +:+ "}".

(** [outputs(version)] *)
Definition changelog_outputs (version : Version) : string :=
  let changes := Trim (Join (changes version) escaped_newline) escaped_newline in
  newline +:+ log_text
    [output_line "version" (Tag version); output_line "major" (major version);
     output_line "major_minor" (MajorMinor version);
     output_line "major_minor_patch" (MajorMinorPatch version); output_line "changes" changes].

(** [log.Fatalf("pre%s", err.Error())]: the program exits. *)
Definition fatal {A} (pre : string) (c : F A) : F A := fun m =>
  match c m with
  | (Err e, m') => (Err (NewError (pre +:+ Error e)), m')
  | r => r
  end.

(** [main()] with the values of its flags; what it logs is left out. *)
Definition changelog_main (changelogPath outputFilePath : string) : F unit :=
  if String.eqb changelogPath "" then F_lift (Err (NewError "changelog is required, aborting"))
  else if String.eqb outputFilePath "" then F_lift (Err (NewError "output_file is required, aborting"))
  else
    contents ← fatal ("failed to read changelog " +:+ changelogPath +:+ ": ") (ReadFile changelogPath);
    version ← fatal "failed to determine version: " (F_lift (LatestVersion contents));
    fatal ("failed to write outputs to output_file " +:+ outputFilePath +:+ ": ")
      (WriteFile outputFilePath (changelog_outputs version) 432).

(** ** Releases (project.go) *)

(** [type Project struct] *)
Record Project := { projectID : string; jobToken : string }.

Definition NewProject (projectID jobToken : string) : Project :=
  {| projectID := projectID; jobToken := jobToken |}.

(** An HTTP request, and what the server answers. *)
Record Request := {
  Method : string;
  URL : string;
  Header : list (string * string);
  Body : string
}.

Section release.
  Context {Net : Type} (Do : Request -> Net -> (Z * string + error) * Net).
  Context (MarshalObject : list (string * string) -> string + error).

(** [r.projectURL(urlTemplate)] *)
Definition projectURL (r : Project) (urlTemplate : string) : string :=
  "https://gitlab.com/api/v4/projects/" +:+ projectID r +:+ urlTemplate.

(** [r.sendRequest(ctx, method, url, body)] *)
Definition sendRequest (r : Project) (method url body : string) (net : Net) :
    (Z * string + error) * Net :=
  let '(response, net) :=
    Do {| Method := method; URL := url;
          Header := [("JOB-TOKEN", jobToken r); ("Content-Type", "application/json")];
          Body := body |} net in
  match response with
  | inr err => (inr (WrapError "executing request: " err ""), net)
  | _ => (response, net)
  end.

(** [r.Release(ctx, commit, tagName, description)].  The keys of a map are
    marshalled in their order. *)
Definition Project_Release (r : Project) (commit tagName description : string) (net : Net) :
    res unit * Net :=
  match MarshalObject [("description", description); ("name", tagName); ("ref", commit);
                       ("tag_name", tagName)] with
  | inr err => (Err (WrapError "creating payload: " err ""), net)
  | inl data =>
      match sendRequest r "POST" (projectURL r "/releases") data net with
      | (inr err, net) => (Err (WrapError "releasing: " err ""), net)
      | (inl (status, body), net) =>
          if (status =? 201)%Z then (Ok tt, net)
          else (Err (NewError ("request to release returned status code: " +:+ itoa status +:+
                               ", body: " +:+ body)), net)
      end
  end.

(** The flags of the step. *)
Record ReleaseConfig := {
  conf_projectID : string;
  conf_jobToken : string;
  conf_commit : string;
  conf_description : string;
  conf_tag : string;
  conf_timeoutSecs : Z
}.

(** [validateConfig()] *)
Definition validateConfig (c : ReleaseConfig) : option error :=
  if String.eqb (conf_projectID c) "" then Some (NewError "projectID is required")
  else if String.eqb (conf_jobToken c) "" then Some (NewError "jobToken is required")
  else if String.eqb (conf_commit c) "" then Some (NewError "commit is required")
  else if String.eqb (conf_tag c) "" then Some (NewError "tag is required")
  else if (conf_timeoutSecs c <=? 0)%Z then Some (NewError "timeoutInSeconds must be a positive integer")
  else None.

(** [release()] and [main()], but for the deadline of the request. *)
Definition release (c : ReleaseConfig) : Net -> res unit * Net :=
  Project_Release (NewProject (conf_projectID c) (conf_jobToken c)) (conf_commit c) (conf_tag c)
    (conf_description c).

Definition release_main (c : ReleaseConfig) (net : Net) : res unit * Net :=
  match validateConfig c with
  | Some err => (Err err, net)
  | None => release c net
  end.
End release.

(** ** Reading a change log *)

(** The lines of a version: its header and its changes. *)
Definition version_lines (v : Version) : list string := ("## " +:+ Tag v) :: changes v.

(** A number, a line that is no header, and a version of the expected format. *)
Definition is_number (s : string) : Prop := s <> "" /\ all_digits s = true.
Definition change_line (l : string) : Prop := FindStringSubmatch l = None /\ HasPrefix l "## " = false.
Definition wf_version (v : Version) : Prop :=
  is_number (major v) /\ is_number (minor v) /\ is_number (patch v) /\ Forall change_line (changes v).

Definition starts_with_digit (s : string) : bool :=
  match s with String c _ => is_digit c | "" => false end.

Lemma leading_digits_app ds rest :
  all_digits ds = true -> starts_with_digit rest = false -> leading_digits (ds +:+ rest) = (ds, rest).
Proof.
  unfold all_digits. induction ds as [|c ds IH]; cbn [all_bytes String.app].
  - intros _ Hr. destruct rest as [|c rest]; [done|]. cbn in *. by rewrite Hr.
  - intros [Hc Hds]%andb_true_iff Hr. cbn [leading_digits String.append]. by rewrite Hc, IH.
Qed.

Lemma match_number_app ds rest :
  is_number ds -> starts_with_digit rest = false -> match_number (ds +:+ rest) = Some (ds, rest).
Proof.
  intros [Hne Hd] Hr. unfold match_number. rewrite leading_digits_app by done. by destruct ds.
Qed.

Lemma match_version_header a b c :
  is_number a -> is_number b -> is_number c ->
  match_version ("## v" +:+ a +:+ "." +:+ b +:+ "." +:+ c) = Some (a, b, c).
Proof.
  intros Ha Hb Hc. unfold match_version. rewrite cut_prefix_app. cbn [mbind option_bind].
  rewrite match_number_app by done. cbn [mbind option_bind]. rewrite cut_prefix_app. cbn [mbind option_bind].
  rewrite match_number_app by done. cbn [mbind option_bind]. rewrite cut_prefix_app. cbn [mbind option_bind].
  rewrite <-(string_app_nil_r c) at 1. by rewrite match_number_app.
Qed.

Lemma FindStringSubmatch_start s parts : match_version s = Some parts -> FindStringSubmatch s = Some parts.
Proof. intros Hm. destruct s; cbn [FindStringSubmatch]; by rewrite Hm. Qed.

Lemma FindStringSubmatch_header v :
  is_number (major v) -> is_number (minor v) -> is_number (patch v) ->
  FindStringSubmatch ("## " +:+ Tag v) = Some (major v, minor v, patch v).
Proof.
  intros Ha Hb Hc. apply FindStringSubmatch_start. exact (match_version_header _ _ _ Ha Hb Hc).
Qed.

(** The lines of changes are collected. *)
Lemma read_versions_changes i ls lines current cs vs :
  4 <= i -> Forall change_line ls ->
  read_versions i (ls ++ lines) (Some current) cs vs =
  read_versions (i + length ls) lines (Some current) (cs ++ ls) vs.
Proof.
  intros Hi Hls. revert i cs Hi. induction Hls as [|l ls [Hf Hp] _ IH]; intros i cs Hi.
  - cbn. by rewrite app_nil_r, Nat.add_0_r.
  - cbn [app read_versions]. replace (i <? 4)%nat with false by (symmetry; apply Nat.ltb_ge; lia).
    rewrite Hf, Hp. rewrite IH by lia. cbn [length]. rewrite <-app_assoc. cbn [app].
    by rewrite Nat.add_succ_r.
Qed.

(** The versions are collected, with the one before them. *)
Lemma read_versions_wf i vs current cs out :
  4 <= i -> Forall wf_version vs ->
  read_versions i (concat (version_lines <$> vs)) current cs out = Ok (flush current cs out ++ vs).
Proof.
  intros Hi Hvs. revert i current cs out Hi.
  induction Hvs as [|v vs (Ha & Hb & Hc & Hch) _ IH]; intros i current cs out Hi.
  - cbn. by rewrite app_nil_r.
  - rewrite fmap_cons. unfold version_lines at 1. cbn [concat app read_versions]. replace (i <? 4)%nat with false by (symmetry; apply Nat.ltb_ge; lia).
    rewrite FindStringSubmatch_header by done.
    rewrite read_versions_changes by (done || lia). rewrite IH by lia. cbn [flush app].
    rewrite <-app_assoc. by destruct v.
Qed.

(** C33: reading a change log.  After the four lines of its head, a change log that
    lists well-formed versions, each with its changes, is read as those versions,
    and the latest is the first; there is an error when there is none. *)
Theorem changelog_roundtrip header vs :
  length header = 4 -> Forall text_line (header ++ concat (version_lines <$> vs)) ->
  Forall wf_version vs ->
  let contents := log_text (header ++ concat (version_lines <$> vs)) in
  Changelog_read contents = Ok vs /\
  LatestVersion contents = match vs with
                           | v :: _ => Ok v
                           | [] => Err (NewError "failed to find any versions in changelog")
                           end.
Proof.
  intros Hl Ht Hvs contents.
  assert (Changelog_read contents = Ok vs) as Hr.
  { unfold Changelog_read, contents. rewrite scan_text by done. cbn [fst].
    destruct header as [|a [|b [|c [|d [|]]]]]; try done.
    change (read_versions 4 (concat (version_lines <$> vs)) None [] [] = Ok vs).
    by rewrite read_versions_wf by (done || lia). }
  split; [exact Hr|]. unfold LatestVersion. rewrite Hr. cbn. by destruct vs.
Qed.
