(* ===== verification/Bootstrap.v ===== *)
(** The commands that prepare a container: [step-runner bootstrap]
    (src/cmd/bootstrap/bootstrap.go), which installs the program in a directory, and
    the socket that [step-runner serve] listens on (src/cmd/serve/serve.go,
    src/pkg/api/api.go). *)

From stdpp Require Import gmap strings list.
From S2P Require Import Prelude GoStrings GoPaths GoNumbers GoFiles GoFilesFacts.
Open Scope go_scope.
Open Scope string_scope.
Open Scope list_scope.

(** ** bootstrap.go *)

(** [run(source, destination)] of package [bootstrap].  The source is open when the
    destination is created, and is read after it. *)
Definition bootstrap_run (source destination : string) : F unit :=
  _ ← MkdirAll destination 493;
  let destination := PathJoin [destination; "step-runner"] in
  _ ← F_wrap ("failed to open source file " +:+ quote source +:+ ": ") (OpenRead source);
  _ ← F_wrap "failed to create destination file: "
        (OpenFile destination {| O_CREATE := true; O_EXCL := false; O_TRUNC := true |} 438);
  _ ← F_wrap "failed to copy file contents: " (data ← ReadFrom source; WriteTo destination data);
  _ ← F_wrap "failed to close file: " (Close destination);
  Chmod destination 493.

(** ** serve.go *)

Section serve.
  Context (TempDir : string).

(** [api.DefaultSocketPath()]; [api.SocketAddr(path)] is the address of that name. *)
Definition DefaultSocketPath : string := PathJoin [TempDir; "step-runner.sock"].

(** [GetSocketAddr(args)]: the name of the address. *)
Definition GetSocketAddr (args : list string) : F string :=
  match args with
  | [] => mret DefaultSocketPath
  | arg :: _ =>
      let socketDir := TrimSpace arg in
      if String.eqb socketDir "" then F_lift (Err (NewError "invalid empty socket dir"))
      else
        fi ← F_try (Stat socketDir);
        match fi with
        | inl n =>
            if is_dir n then mret (PathJoin [socketDir; "step-runner.sock"])
            else F_lift (Err (NewError ("invalid socket dir " +:+ socketDir)))
        | inr _ => F_lift (Err (NewError ("invalid socket dir " +:+ socketDir)))
        end
  end.
End serve.

(** ** Installing the program *)

(** C32: bootstrap installs the program.  For an absolute destination that no file is
    in the way of, it fails only when a system call does; then the destination
    holds the program, executable and with the content of the source, whatever
    was there before; directories on the way to it are made, and no other file is
    touched. *)
Theorem bootstrap_installs source destination mode content (m : machine) :
  HasPrefix destination "/" = true -> source <> "" ->
  let D := resolve_from [] destination in
  let target := D ++ ["step-runner"] in
  no_file_to (tree_of m) D ->
  tree_of m !! resolve m source = Some (File mode content) -> readable (super m) mode = true ->
  resolve m source <> target -> resolve m source <> [] ->
  match tree_of m !! target with
  | Some (File old _) => writable (super m) old = true
  | Some (Dir _) => False
  | None => True
  end ->
  wp (bootstrap_run source destination) m (fun _ t =>
    t !! target = Some (File 493 content) /\
    forall q, q <> target -> t !! q = with_dirs (tree_of m) D 493 q).
Proof.
  intros Hd Hs D target Hno Hsrc Hr Hne Hroot Hold. unfold bootstrap_run.
  set (dst := PathJoin [destination; "step-runner"]).
  assert (dst <> "") as Hdst by by apply absolute_nonempty, PathJoin_is_absolute.
  assert (forall m', resolve m' dst = target) as Hres.
  { intros m'. unfold dst. rewrite resolve_join by done. by apply join_good_elem. }
  assert (forall m', same_process m m' -> resolve m' source = resolve m source) as Hres'.
  { intros m' [Hc _]. unfold resolve. by rewrite Hc. }
  assert (forall q, with_dirs (tree_of m) D 493 q = tree_of m !! q \/ tree_of m !! q = None) as Hw.
  { intros q. unfold with_dirs. case_decide as Hq; [right; apply Hq|by left]. }
  apply wp_bind. eapply wp_mono.
  { unfold wp. rewrite MkdirAll_named, resolve_absolute by (done || by apply absolute_nonempty).
    by apply (wp_mkdir_all D 493 m). }
  cbn beta. intros [] t1 Ht1 m1 Hs1 <-. pose proof (with_dirs_to _ _ _ _ Hno Ht1) as Hdirs.
  assert (tree_of m1 !! resolve m source = Some (File mode content)) as Hsrc1.
  { rewrite Ht1. destruct (Hw (resolve m source)) as [->|Hn]; [done|congruence]. }
  apply wp_bind, wp_wrap. eapply wp_mono.
  { eapply wp_OpenRead; [done|by apply Hres'|done|exact Hsrc1|]. destruct Hs1 as [_ ->]. exact Hr. }
  cbn beta. intros [] t2 -> m2 Hs2 E2. assert (same_process m m2) as Hs02 by by etrans.
  apply wp_bind, wp_wrap. eapply wp_mono.
  { apply (wp_OpenFile_truncate dst D "step-runner" 438 m2); [done|apply Hres|by rewrite E2|]. fold target.
    rewrite E2, Ht1. destruct Hs02 as [_ ->]. unfold with_dirs.
    case_decide as Hq; [|done]. destruct Hq as [Hq _]. apply elem_of_ancestors in Hq as [_ [rel Hq]].
    apply (f_equal length) in Hq. unfold target in Hq. rewrite !length_app in Hq. cbn in Hq. lia. }
  cbn beta. intros [] t3 [md Ht3] m3 Hs3 E3. fold target in Ht3. assert (same_process m m3) as Hs03 by by etrans.
  rewrite E2 in Ht3. subst t3. apply wp_bind, wp_wrap, wp_bind. eapply wp_mono.
  { apply (wp_ReadFrom source (resolve m source) mode content m3); [done|by apply Hres'|done|].
    by rewrite E3, lookup_insert_ne by done. }
  cbn beta. intros c t4 [-> ->] m4 Hs4 E4. eapply wp_mono.
  { apply (wp_WriteTo dst target md "" content m4); [apply Hres|by rewrite E4, E3, lookup_insert_eq|cbn; lia]. }
  cbn beta. intros [] t5 -> m5 Hs5 E5. rewrite E4, E3, insert_insert_eq in E5.
  apply wp_bind, wp_wrap. eapply wp_mono; [by apply wp_Close|]. cbn beta. intros [] t6 -> m6 Hs6 E6.
  eapply wp_mono.
  { apply (wp_Chmod_file dst target 493 md content m6); [done|apply Hres| |by rewrite E6, E5, lookup_insert_eq].
    unfold target. by destruct D. }
  cbn beta. intros [] t7 ->. rewrite E6, E5, insert_insert_eq. split; [apply lookup_insert_eq|].
  intros q Hq. by rewrite lookup_insert_ne, Ht1 by done.
Qed.
