(* ===== verification/Promote.v ===== *)
(** Promoting an image (src/dist/steps/step/oci/promote): semantic versions
    (internal/version.go), references to images (internal/remote_image_ref.go),
    the inputs of the step (internal/inputs.go) and the copies it makes
    (main.go, internal/remote). *)

From stdpp Require Import gmap strings list.
From S2P Require Import Prelude GoStrings GoPaths GoNumbers GoFlags.
Open Scope go_scope.
Open Scope string_scope.
Open Scope list_scope.

(** ** version.go *)

(** The longest prefix of digits, [\d*]. *)
Fixpoint take_digits (s : string) : string * string :=
  match s with
  | "" => ("", "")
  | String c s' =>
      if is_digit c then let '(d, r) := take_digits s' in (String c d, r) else ("", s)
  end.

(** [\d+], and what follows it. *)
Definition number_prefix (s : string) : option (string * string) :=
  let '(d, r) := take_digits s in
  if String.eqb d "" then None else Some (d, r).

(** [^(\d+)\.(\d+)\.(\d+)], its groups, and what follows it. *)
Definition semver_prefix (s : string) : option (string * string * string * string) :=
  '(major, r) ← number_prefix s;
  r ← cut_prefix "." r;
  '(minor, r) ← number_prefix r;
  r ← cut_prefix "." r;
  '(patch, r) ← number_prefix r;
  Some (major, minor, patch, r).

(** [majorMinorPatchRe.FindStringSubmatch(tag)] *)
Definition majorMinorPatchRe (tag : string) : option (string * string * string) :=
  match semver_prefix tag with
  | Some (major, minor, patch, "") => Some (major, minor, patch)
  | _ => None
  end.

(** [type Version struct] *)
Record Version := {
  major : N;
  minor : N;
  patch : N;
  release : string
}.

Definition NewVersion (major minor patch : N) (release : string) : Version :=
  {| major := major; minor := minor; patch := patch; release := release |}.

#[global] Instance Version_eq_dec : EqDecision Version.
Proof. solve_decision. Defined.

Definition does_not_conform (tag : string) : error :=
  NewError ("parse tag " +:+ tag +:+ ": does not conform to semver major.minor.patch").

(** A result whose error is replaced. *)
Definition or_error {A} (r : res A) (e : error) : res A :=
  match r with Err _ => Err e | _ => r end.

(** [ParseSemanticVersion(tag)] *)
Definition ParseSemanticVersion `{WordSize} (tag : string) : res Version :=
  match majorMinorPatchRe tag with
  | None => Err (does_not_conform tag)
  | Some (p1, p2, p3) =>
      major ← or_error (ParseUint p1 0) (does_not_conform tag);
      minor ← or_error (ParseUint p2 0) (does_not_conform tag);
      patch ← or_error (ParseUint p3 0) (does_not_conform tag);
      Ok (NewVersion major minor patch "")
  end.

(** [ParseSemanticVersions(tags)]: the tags that are not versions are ignored. *)
Fixpoint ParseSemanticVersions `{WordSize} (tags : list string) : list Version :=
  match tags with
  | [] => []
  | tag :: tags' =>
      match ParseSemanticVersion tag with
      | Ok version => version :: ParseSemanticVersions tags'
      | _ => ParseSemanticVersions tags'
      end
  end.

Definition IsReleaseCandidate (v : Version) : bool := negb (String.eqb (release v) "").

(** The three loops over the existing versions. *)
Fixpoint isMostRecentPatchForMajorMinor (v : Version) (existing : list Version) : bool :=
  match existing with
  | [] => true
  | e :: existing' =>
      if negb (major e =? major v)%N || negb (minor e =? minor v)%N then
        isMostRecentPatchForMajorMinor v existing'
      else if (patch v <? patch e)%N then false
      else isMostRecentPatchForMajorMinor v existing'
  end.

Fixpoint isMostRecentMinorForMajor (v : Version) (existing : list Version) : bool :=
  match existing with
  | [] => true
  | e :: existing' =>
      if negb (major e =? major v)%N then isMostRecentMinorForMajor v existing'
      else if (minor v <? minor e)%N then false
      else isMostRecentMinorForMajor v existing'
  end.

Fixpoint isMostRecentMajor (v : Version) (existing : list Version) : bool :=
  match existing with
  | [] => true
  | e :: existing' => if (major v <? major e)%N then false else isMostRecentMajor v existing'
  end.

(** The tags [Sprintf] makes. *)
Definition patch_tag (v : Version) : string :=
  FormatUint (major v) +:+ "." +:+ FormatUint (minor v) +:+ "." +:+ FormatUint (patch v).
Definition minor_tag (v : Version) : string := FormatUint (major v) +:+ "." +:+ FormatUint (minor v).
Definition major_tag (v : Version) : string := FormatUint (major v).

(** [v.TagsToUpdate(existing)] *)
Definition TagsToUpdate (v : Version) (existing : list Version) : list string :=
  let newTags := [patch_tag v] in
  if isMostRecentPatchForMajorMinor v existing then
    let newTags := newTags ++ [minor_tag v] in
    if isMostRecentMinorForMajor v existing then
      let newTags := newTags ++ [major_tag v] in
      if isMostRecentMajor v existing then newTags ++ ["latest"] else newTags
    else newTags
  else newTags.

(** ** remote_image_ref.go *)

(** The package [name] of go-containerregistry: parsing a reference to an image,
    and the parts of a reference.  A reference reads
    [registry:port/repository:tag], a [name.Tag], or
    [registry:port/repository:tag@algorithm:hex], a [name.Digest] whose tag may be
    absent and is dropped.  What follows a colon is a port, a tag or an hexadecimal
    digest, so digits and a dot can only begin a tag, which is the identifier of a
    [name.Tag]; and the repository of a reference, followed by a tag of 1 to 128 of
    the documented characters, is a [name.Tag]. *)
Definition tag_char (c : Ascii.ascii) : bool :=
  let n := byte_of c in
  ((48 <=? n) && (n <=? 57) || (65 <=? n) && (n <=? 90) || (97 <=? n) && (n <=? 122) ||
   (n =? 95) || (n =? 45) || (n =? 46))%N.

Definition valid_tag (t : string) : bool :=
  negb (String.eqb t "") && (String.length t <=? 128)%nat && all_bytes tag_char t.

Class ImageName := {
  Reference : Type;
  ParseReference : string -> res Reference;
  ref_Context : Reference -> string;
  ref_Identifier : Reference -> string;
  ref_Name : Reference -> string;
  ref_String : Reference -> string;
  ref_RegistryStr : Reference -> string;
  ref_RepositoryStr : Reference -> string;
  is_Digest : Reference -> bool;
  ParseReference_returns s :
    (exists r, ParseReference s = Ok r) \/ (exists e, ParseReference s = Err e);
  ParseReference_number s d t r :
    all_digits d = true -> d <> "" -> ParseReference (s +:+ ":" +:+ d +:+ "." +:+ t) = Ok r ->
    is_Digest r = false -> ref_Identifier r = d +:+ "." +:+ t;
  ParseReference_tag s r tag :
    ParseReference s = Ok r -> valid_tag tag = true ->
    exists r', ParseReference (ref_Context r +:+ ":" +:+ tag) = Ok r' /\
      ref_Context r' = ref_Context r /\ ref_Identifier r' = tag /\ is_Digest r' = false
}.

Section promote.
  Context `{WS : WordSize} `{IN : ImageName}.

(** [type RemoteImageRef struct] *)
Record RemoteImageRef := {
  ri_ref : Reference;
  ri_version : Version
}.

Definition NewRemoteImageRef (ref : Reference) (version : Version) : RemoteImageRef :=
  {| ri_ref := ref; ri_version := version |}.

(** [semVerRe.FindStringSubmatch(version)]: three numbers and perhaps a minus sign
    with anything but newlines after it. *)
Definition semVerRe (version : string) : option (string * string * string * string) :=
  match semver_prefix version with
  | Some (p1, p2, p3, "") => Some (p1, p2, p3, "")
  | Some (p1, p2, p3, String "-"%char r) =>
      if Contains r newline then None else Some (p1, p2, p3, String "-"%char r)
  | _ => None
  end.

(** [ParseRemoteImageRef(registry, repository, version)] *)
Definition ParseRemoteImageRef (registry repository version : string) : res RemoteImageRef :=
  let registry := TrimSpace registry in
  let repository := TrimSpace repository in
  let version := TrimSpace version in
  if String.eqb registry "" then Err (NewError "registry is required")
  else if String.eqb repository "" then Err (NewError "repository is required")
  else if String.eqb version "" then Err (NewError "version is required")
  else
    match semVerRe version with
    | None => Err (NewError ("version does not conform to semantic versioning major.minor.patch[-release]: "
                             +:+ version))
    | Some (p1, p2, p3, release) =>
        major ← ParseUint p1 0 or_wrap ("major version " +:+ p1 +:+ ": ");
        minor ← ParseUint p2 0 or_wrap ("minor version: " +:+ p2 +:+ ": ");
        patch ← ParseUint p3 0 or_wrap ("patch version: " +:+ p3 +:+ ": ");
        let v := NewVersion major minor patch release in
        ref ← ParseReference (PathJoin [registry; repository] +:+ ":" +:+ patch_tag v +:+ release)
                or_wrap "parsing image reference: ";
        Ok (NewRemoteImageRef ref v)
    end.

Definition MajorMinorPatch (ri : RemoteImageRef) : Reference := ri_ref ri.
Definition RemoteImageRef_String (ri : RemoteImageRef) : string := ref_String (ri_ref ri).
Definition Repository (ri : RemoteImageRef) : string := ref_Context (ri_ref ri).

(** [ri.buildRefForTag(tag)] *)
Definition buildRefForTag (ri : RemoteImageRef) (tag : string) : res Reference :=
  ParseReference (ref_Context (ri_ref ri) +:+ ":" +:+ tag)
    or_wrap ("creating ref for tag " +:+ tag +:+ ": ").

(** [ri.SemVerRefs(existingTags)] *)
Definition SemVerRefs (ri : RemoteImageRef) (existingTags : list string) : res (list Reference) :=
  if IsReleaseCandidate (ri_version ri) then Ok [ri_ref ri]
  else
    slice_map (fun tag => buildRefForTag ri tag or_wrap "finding tags to publish: ")
      (TagsToUpdate (ri_version ri) (ParseSemanticVersions existingTags)).

(** ** inputs.go *)

Record Inputs := {
  FromImageRef : Reference;
  ToImageRef : RemoteImageRef;
  LogLevel : Z
}.

(** [parseFromImageRef(image)] *)
Definition parseFromImageRef (image : string) : res Reference :=
  let image := TrimSpace image in
  if String.eqb image "" then Err (NewError "from image is required")
  else
    imageRef ← ParseReference image;
    if String.eqb (ref_Identifier imageRef) "latest" && negb (Contains image "latest") then
      Err (NewError "must specify tag or digest")
    else Ok imageRef.

(** [ParseInputs(args, getenv)] *)
Definition ParseInputs (args : list string) (getenv : string -> string) : res Inputs :=
  '(vals, _) ← flag_parse ["from-image"; "to-registry"; "to-repository"; "to-version"] args ∅;
  fromImageRef ← parseFromImageRef (flag_value vals "from-image") or_wrap "from image: ";
  toImageRef ← ParseRemoteImageRef (flag_value vals "to-registry") (flag_value vals "to-repository")
                 (flag_value vals "to-version") or_wrap "to image: ";
  logLevel ← parseLogLevel (getenv "CI_STEPS_LOG_LEVEL") or_wrap "log level: ";
  Ok {| FromImageRef := fromImageRef; ToImageRef := toImageRef; LogLevel := logLevel |}.

(** ** remote/list_tags.go, remote/copy.go and main.go *)

(** The registries: what go-containerregistry's package [remote] answers in a
    state of the registries, what a write changes, or its error, and which errors
    are a [transport.Error], with the codes of their diagnostics. *)
Class Registry (R : Type) := {
  index : Type;
  image : Type;
  remote_List : R -> string -> res (list string);
  transport_Error : error -> option (list string);
  remote_Index : R -> Reference -> index + error;
  remote_Image : R -> Reference -> image + error;
  remote_WriteIndex : R -> Reference -> index -> option error * R;
  remote_Write : R -> Reference -> image -> option error * R
}.

Context {R : Type} `{RG : !Registry R}.

(** [errors.As(err, &transportErr)] *)
Fixpoint errors_As (err : error) : option (list string) :=
  match transport_Error err with
  | Some codes => Some codes
  | None => match err with WrapError _ cause _ => errors_As cause | _ => None end
  end.

(** [isErrorNameUnknown(err)] *)
Fixpoint isErrorNameUnknown (err : error) : bool :=
  match errors_As err with
  | Some codes => existsb (String.eqb "NAME_UNKNOWN") codes
  | None => false
  end || match err with WrapError _ cause _ => isErrorNameUnknown cause | _ => false end.

(** [ListTags(ctx, repository)]: a repository that is not known has no tags. *)
Definition ListTags (reg : R) (repository : string) : res (list string) :=
  match remote_List reg repository with
  | Err err => if isErrorNameUnknown err then Ok [] else Err (WrapError "listing tags: " err "")
  | r => r
  end.

(** [copyImageIndex(ctx, imgIndex, from, to)] *)
Definition copyImageIndex (imgIndex : index) (to : Reference) (reg : R) : option error * R :=
  match remote_WriteIndex reg to imgIndex with
  | (Some err, reg) => (Some (WrapError ("write image index to " +:+ quote (ref_String to) +:+ ": ") err ""), reg)
  | (None, reg) => (None, reg)
  end.

(** [copyImage(ctx, from, to)] *)
Definition copyImage (from to : Reference) (reg : R) : option error * R :=
  match remote_Image reg from with
  | inr err => (Some (WrapError ("fetch image metadata " +:+ quote (ref_String from) +:+ ": ") err ""), reg)
  | inl img =>
      match remote_Write reg to img with
      | (Some err, reg) => (Some (WrapError ("write image to " +:+ quote (ref_String to) +:+ ": ") err ""), reg)
      | (None, reg) => (None, reg)
      end
  end.

(** [Copy(ctx, from, to)]: an index is copied as one, whatever else as an image. *)
Definition Copy (from to : Reference) (reg : R) : option error * R :=
  match remote_Index reg from with
  | inl imgIndex => copyImageIndex imgIndex to reg
  | inr _ => copyImage from to reg
  end.

(** [CopyAll(ctx, from, toRefs...)] *)
Fixpoint CopyAll (from : Reference) (toRefs : list Reference) (reg : R) : option error * R :=
  match toRefs with
  | [] => (None, reg)
  | to :: toRefs' =>
      match Copy from to reg with
      | (Some err, reg) => (Some err, reg)
      | (None, reg) => CopyAll from toRefs' reg
      end
  end.

(** What [run] does before it copies: the image, and where it goes. *)
Definition promotion (args : list string) (getenv : string -> string) (reg : R) :
    res (Reference * list Reference) :=
  inputs ← ParseInputs args getenv;
  tags ← ListTags reg (Repository (ToImageRef inputs));
  toRefs ← SemVerRefs (ToImageRef inputs) tags;
  Ok (FromImageRef inputs, toRefs).

(** [run(args, getEnv)] *)
Definition promote_run (args : list string) (getenv : string -> string) (reg : R) :
    res unit * R :=
  match promotion args getenv reg with
  | Ok (from, toRefs) =>
      match CopyAll from toRefs reg with
      | (Some err, reg) => (Err err, reg)
      | (None, reg) => (Ok tt, reg)
      end
  | Err err => (Err err, reg)
  | Panic why => (Panic why, reg)
  | OutOfFuel => (OutOfFuel, reg)
  end.
End promote.
