(* ===== verification/PromoteFacts.v ===== *)
(** Promotion keeps the floating tags of a repository, [major.minor], [major]
    and [latest], on its greatest versions. *)

From stdpp Require Import gmap strings list pretty.
From S2P Require Import Prelude GoStrings GoPaths GoNumbers GoFlags Promote.
Open Scope go_scope.
Open Scope string_scope.
Open Scope list_scope.

(** ** Versions as text *)

Definition starts_with_digit (s : string) : bool :=
  match s with String c _ => is_digit c | "" => false end.

Lemma take_digits_app d r :
  all_digits d = true -> starts_with_digit r = false -> take_digits (d +:+ r) = (d, r).
Proof.
  intros Hd Hr. induction d as [|c d IH].
  - destruct r as [|c r]; [done|]. cbn in *. by rewrite Hr.
  - rewrite string_app_cons. cbn in Hd |- *. apply andb_true_iff in Hd as [Hc Hd].
    rewrite Hc. fold (all_digits d) in Hd. rewrite (IH Hd). done.
Qed.

Lemma take_digits_spec s d r :
  take_digits s = (d, r) -> s = d +:+ r /\ all_digits d = true /\ starts_with_digit r = false.
Proof.
  revert d r. induction s as [|c s IH]; cbn; intros d r.
  - by intros [= <- <-].
  - destruct (is_digit c) eqn:Hc.
    + destruct (take_digits s) as [d' r'] eqn:E. intros [= <- <-].
      destruct (IH _ _ eq_refl) as (-> & Hd & Hr). cbn. by rewrite Hc.
    + intros [= <- <-]. cbn. by rewrite Hc.
Qed.

Lemma number_prefix_app n r :
  starts_with_digit r = false -> number_prefix (FormatUint n +:+ r) = Some (FormatUint n, r).
Proof.
  intros Hr. destruct (FormatUint_digits n) as (Hd & Hne & _). unfold number_prefix.
  rewrite take_digits_app by done. destruct (String.eqb_spec (FormatUint n) ""); done.
Qed.

Lemma semver_prefix_app v r :
  starts_with_digit r = false ->
  semver_prefix (patch_tag v +:+ r) =
  Some (FormatUint (major v), FormatUint (minor v), FormatUint (patch v), r).
Proof.
  intros Hr. unfold semver_prefix, patch_tag. rewrite !string_app_assoc.
  rewrite number_prefix_app by done. cbn [mbind option_bind].
  rewrite cut_prefix_app. cbn [mbind option_bind].
  rewrite number_prefix_app by done. cbn [mbind option_bind].
  rewrite cut_prefix_app. cbn [mbind option_bind].
  by rewrite number_prefix_app by done.
Qed.

Lemma semver_prefix_patch_tag v :
  semver_prefix (patch_tag v) =
  Some (FormatUint (major v), FormatUint (minor v), FormatUint (patch v), "").
Proof. rewrite <- (string_app_nil_r (patch_tag v)). by apply semver_prefix_app. Qed.

(** The numbers of a version are those of a [uint]. *)
Definition fits `{WS : WordSize} (v : Version) : Prop :=
  (major v <= max_uint /\ minor v <= max_uint /\ patch v <= max_uint)%N.

#[global] Instance fits_dec `{WS : WordSize} v : Decision (fits v).
Proof. unfold fits. apply _. Defined.

(** A version that is not a candidate. *)
Definition published_version `{WS : WordSize} (v : Version) : Prop := fits v /\ release v = "".

Lemma patch_tag_inj v w :
  release v = release w -> patch_tag v = patch_tag w -> v = w.
Proof.
  intros Hr H. apply (f_equal semver_prefix) in H. rewrite !semver_prefix_patch_tag in H.
  injection H as H1%FormatUint_inj H2%FormatUint_inj H3%FormatUint_inj.
  destruct v, w; cbn in *; by subst.
Qed.

Lemma Parse_patch_tag `{WS : WordSize} v : published_version v -> ParseSemanticVersion (patch_tag v) = Ok v.
Proof.
  intros ((H1 & H2 & H3) & Hr). unfold ParseSemanticVersion, majorMinorPatchRe.
  rewrite semver_prefix_patch_tag. cbn. rewrite !ParseUint_FormatUint by done. cbn.
  destruct v; cbn in *; by subst.
Qed.

Lemma or_error_Ok {A} (r : res A) e a : or_error r e = Ok a -> r = Ok a.
Proof. by destruct r. Qed.

Lemma Parse_published `{WS : WordSize} tag v : ParseSemanticVersion tag = Ok v -> published_version v.
Proof.
  unfold ParseSemanticVersion. destruct (majorMinorPatchRe tag) as [[[p1 p2] p3]|]; [|done].
  intros H. inv_ok.
  repeat match goal with H : or_error _ _ = Ok _ |- _ => apply or_error_Ok, ParseUint_Ok in H as (_ & _ & _ & H) end.
  done.
Qed.

Lemma elem_of_ParseSemanticVersions `{WS : WordSize} v tags :
  v ∈ ParseSemanticVersions tags <-> Exists (fun tag => ParseSemanticVersion tag = Ok v) tags.
Proof.
  induction tags as [|tag tags IH]; cbn.
  - rewrite Exists_nil. apply elem_of_nil.
  - rewrite Exists_cons, <- IH.
    destruct (ParseSemanticVersion tag) as [w| | |]; rewrite ?elem_of_cons;
      split; try tauto; intros [H|H]; try discriminate H; first [by right|left; congruence|done].
Qed.

(** ** Lines of versions *)

(** Version order: by major, then minor, then patch number. *)
Definition vle (v w : Version) : bool :=
  ((major v <? major w) ||
   (major v =? major w) && ((minor v <? minor w) ||
                            (minor v =? minor w) && (patch v <=? patch w)))%N.

(** A floating tag follows a line of versions. *)
Inductive line := LMinor (major minor : N) | LMajor (major : N) | LAll.

Definition line_tag (l : line) : string :=
  match l with
  | LMinor M m => FormatUint M +:+ "." +:+ FormatUint m
  | LMajor M => FormatUint M
  | LAll => "latest"
  end.

Definition on_line (l : line) (v : Version) : bool :=
  match l with
  | LMinor M m => (major v =? M) && (minor v =? m)
  | LMajor M => major v =? M
  | LAll => true
  end%N.

Definition lines (v : Version) : list line := [LMinor (major v) (minor v); LMajor (major v); LAll].

(** [v] is the greatest of its line. *)
Definition greatest_on (existing : list Version) (v : Version) (l : line) : bool :=
  forallb (fun e => negb (on_line l e) || vle e v) existing.

Lemma on_lines l v : on_line l v = true <-> l ∈ lines v.
Proof.
  unfold lines. rewrite !elem_of_cons, elem_of_nil. destruct l as [M m|M|]; cbn.
  - rewrite andb_true_iff, !N.eqb_eq. naive_solver.
  - rewrite N.eqb_eq. naive_solver.
  - naive_solver.
Qed.

Lemma vle_antisym v w : release v = release w -> vle v w = true -> vle w v = true -> v = w.
Proof.
  destruct v as [a b c r], w as [a' b' c' r']. unfold vle. cbn. intros <-.
  rewrite !orb_true_iff, !andb_true_iff, !orb_true_iff, !andb_true_iff.
  rewrite !N.ltb_lt, !N.eqb_eq, !N.leb_le. intros.
  assert (a = a') as <- by lia. assert (b = b') as <- by lia. assert (c = c') as <- by lia. done.
Qed.

Lemma line_tag_not_version l : semver_prefix (line_tag l) = None.
Proof.
  unfold semver_prefix. destruct l as [M m|M|]; cbn [line_tag]; [| |done].
  - rewrite number_prefix_app by done. cbn [mbind option_bind].
    rewrite cut_prefix_app. cbn [mbind option_bind].
    rewrite <- (string_app_nil_r (FormatUint m)), number_prefix_app by done. done.
  - rewrite <- (string_app_nil_r (FormatUint M)), number_prefix_app by done. done.
Qed.

Lemma line_tag_inj l l' : line_tag l = line_tag l' -> l = l'.
Proof.
  intros H. pose proof (f_equal number_prefix H) as H'.
  assert (forall n, number_prefix (FormatUint n) = Some (FormatUint n, "")) as Hn.
  { intros n. rewrite <- (string_app_nil_r (FormatUint n)) at 1. by apply number_prefix_app. }
  destruct l as [M m|M|], l' as [M' m'|M'|]; cbn [line_tag] in *;
    repeat (rewrite number_prefix_app in H' by done); rewrite ?Hn in H'; try discriminate H'; try done.
  - injection H' as H1%FormatUint_inj H2%FormatUint_inj. by subst.
  - injection H' as H1%FormatUint_inj. by subst.
Qed.

Lemma Parse_line_tag `{WS : WordSize} l : is_ok (ParseSemanticVersion (line_tag l)) = false.
Proof. unfold ParseSemanticVersion, majorMinorPatchRe. by rewrite line_tag_not_version. Qed.

(** ** TagsToUpdate *)

Lemma most_recent_patch v existing :
  isMostRecentPatchForMajorMinor v existing = greatest_on existing v (LMinor (major v) (minor v)).
Proof.
  unfold greatest_on, vle. induction existing as [|e ex IH]; [done|]. cbn.
  destruct (N.eqb_spec (major e) (major v)) as [->|]; cbn; [|done].
  destruct (N.eqb_spec (minor e) (minor v)) as [->|]; cbn; [|done].
  rewrite !N.ltb_irrefl. cbn. rewrite N.leb_antisym. destruct (patch v <? patch e)%N; [done|apply IH].
Qed.

Lemma most_recent_minor v existing :
  greatest_on existing v (LMinor (major v) (minor v)) = true ->
  isMostRecentMinorForMajor v existing = greatest_on existing v (LMajor (major v)).
Proof.
  unfold greatest_on, vle. induction existing as [|e ex IH]; [done|]. cbn.
  intros [H1 H2]%andb_true_iff. rewrite (IH H2). clear IH H2.
  destruct (N.eqb_spec (major e) (major v)) as [->|]; cbn; [|done].
  rewrite ?N.ltb_irrefl, ?N.eqb_refl in *. cbn in *.
  destruct (N.ltb_spec (minor v) (minor e)), (N.ltb_spec (minor e) (minor v));
    destruct (N.eqb_spec (minor e) (minor v)); cbn in *; rewrite ?H1; done || lia.
Qed.

Lemma most_recent_major v existing :
  greatest_on existing v (LMajor (major v)) = true ->
  isMostRecentMajor v existing = greatest_on existing v LAll.
Proof.
  unfold greatest_on, vle. induction existing as [|e ex IH]; [done|]. cbn.
  intros [H1 H2]%andb_true_iff. rewrite (IH H2). clear IH H2.
  destruct (N.ltb_spec (major v) (major e)), (N.ltb_spec (major e) (major v));
    destruct (N.eqb_spec (major e) (major v)); cbn in *; rewrite ?H1; done || lia.
Qed.

Lemma greatest_mono existing v :
  (greatest_on existing v LAll = true -> greatest_on existing v (LMajor (major v)) = true) /\
  (greatest_on existing v (LMajor (major v)) = true ->
   greatest_on existing v (LMinor (major v) (minor v)) = true).
Proof.
  unfold greatest_on. rewrite !forallb_forall. cbn.
  split; intros H e He; specialize (H e He); destruct (major e =? major v)%N; cbn in *; try done.
  by rewrite H, orb_true_r.
Qed.

(** The three loops test one condition on each line of the version. *)
Lemma TagsToUpdate_lines v existing :
  TagsToUpdate v existing =
  patch_tag v :: (line_tag <$> filter (fun l => greatest_on existing v l = true) (lines v)).
Proof.
  unfold TagsToUpdate, lines. destruct (greatest_mono existing v) as [H1 H2].
  rewrite most_recent_patch, !filter_cons.
  destruct (greatest_on existing v (LMinor _ _)) eqn:E1.
  - rewrite (most_recent_minor _ _ E1), decide_True by done.
    destruct (greatest_on existing v (LMajor _)) eqn:E2.
    + rewrite (most_recent_major _ _ E2), decide_True by done.
      destruct (greatest_on existing v LAll) eqn:E3; [by rewrite decide_True|by rewrite decide_False].
    + rewrite decide_False by done. rewrite decide_False by (intros H; by apply H1 in H). done.
  - rewrite decide_False by done. rewrite decide_False by (intros H; by apply H2 in H).
    rewrite decide_False by (intros H; apply H1, H2 in H; done). done.
Qed.

Lemma elem_of_TagsToUpdate v existing tag :
  tag ∈ TagsToUpdate v existing <->
  tag = patch_tag v \/ exists l, tag = line_tag l /\ on_line l v = true /\ greatest_on existing v l = true.
Proof.
  rewrite TagsToUpdate_lines, elem_of_cons, list_elem_of_fmap.
  setoid_rewrite list_elem_of_filter. setoid_rewrite on_lines. naive_solver.
Qed.

(** *** Tags are valid *)

Lemma all_digits_tag_chars d : all_digits d = true -> all_bytes tag_char d = true.
Proof.
  apply all_bytes_impl. intros c. unfold is_digit, tag_char. intros H. cbv zeta. by rewrite H.
Qed.

Lemma valid_tag_intro t :
  t <> "" -> String.length t <= 128 -> all_bytes tag_char t = true -> valid_tag t = true.
Proof.
  intros H1 H2 H3. unfold valid_tag. rewrite H3, andb_true_r. apply andb_true_iff. split.
  - by destruct (String.eqb_spec t "").
  - by apply Nat.leb_le.
Qed.

Lemma FormatUint_tag n :
  FormatUint n <> "" /\ all_bytes tag_char (FormatUint n) = true.
Proof.
  destruct (FormatUint_digits n) as (Hd & Hne & _). split; [done|]. by apply all_digits_tag_chars.
Qed.

Lemma app_nonempty a b : a <> "" -> a +:+ b <> "".
Proof. by destruct a. Qed.

Lemma TagsToUpdate_valid `{WS : WordSize} v existing :
  fits v -> Forall (fun tag => valid_tag tag = true) (TagsToUpdate v existing).
Proof.
  pose proof max_uint_64. intros (H1 & H2 & H3). apply Forall_forall.
  assert (forall n, (n <= max_uint)%N -> (String.length (FormatUint n) <= 20)%nat) as HL.
  { intros n Hn. apply FormatUint_length. lia. }
  apply HL in H1, H2, H3.
  pose proof (FormatUint_tag (major v)) as [N1 C1]. pose proof (FormatUint_tag (minor v)) as [_ C2].
  pose proof (FormatUint_tag (patch v)) as [_ C3].
  intros tag [->|(l & -> & Hl & _)]%elem_of_TagsToUpdate.
  - unfold patch_tag. apply valid_tag_intro; [by apply app_nonempty|rewrite !string_length_app; cbn; lia|].
    by rewrite !all_bytes_app, C1, C2, C3.
  - apply on_lines in Hl. unfold lines in Hl. rewrite !elem_of_cons in Hl.
    destruct Hl as [->|[->|[->|[]%elem_of_nil]]]; [| |done]; cbn [line_tag].
    + apply valid_tag_intro; [by apply app_nonempty|rewrite !string_length_app; cbn; lia|].
      by rewrite !all_bytes_app, C1, C2.
    + apply valid_tag_intro; [done|lia|done].
Qed.

(** ** The tags of a repository *)

Section registry.
  Context `{WS : WordSize} `{IN : ImageName} {R : Type} `{RG : !Registry R}.

(** What a tag names: an index or an image. *)
Definition content : Type := index + image.

(** What [Copy] copies. *)
Definition fetch (reg : R) (from : Reference) : option content :=
  match remote_Index reg from with
  | inl i => Some (inl i)
  | inr _ => match remote_Image reg from with inl m => Some (inr m) | inr _ => None end
  end.

(** A write of what [fetch] found. *)
Definition write (reg : R) (to : Reference) (c : content) : option error * R :=
  match c with inl i => remote_WriteIndex reg to i | inr m => remote_Write reg to m end.

(** What the registries promise: the tags of each repository are a map, which
    [List] shows and a write updates at the tag it names, when it names one: what is
    written to a digest gets no tag; and writing the content of a reference anywhere
    leaves the reference with that content. *)
Class RegistryLaws := {
  tags : R -> string -> gmap string content;
  List_returns reg C :
    (exists ts, remote_List reg C = Ok ts) \/ (exists e, remote_List reg C = Err e);
  List_tags reg C ts : remote_List reg C = Ok ts -> forall t, t ∈ ts <-> is_Some (tags reg C !! t);
  List_unknown reg C e : remote_List reg C = Err e -> isErrorNameUnknown e = true -> tags reg C = ∅;
  write_tags reg to c reg' :
    write reg to c = (None, reg') -> forall C,
    tags reg' C = if String.eqb C (ref_Context to) && negb (is_Digest to) then <[ref_Identifier to := c]> (tags reg C)
                  else tags reg C;
  write_fetch reg from to c reg' :
    fetch reg from = Some c -> write reg to c = (None, reg') -> fetch reg' from = Some c
}.

Context `{RL : !RegistryLaws}.

(** A version is published when its tag exists. *)
Definition published (t : gmap string content) (v : Version) : Prop :=
  published_version v /\ is_Some (t !! patch_tag v).

(** Each floating tag is the image of the greatest version of its line, and is
    there when the line has a version; versions are tagged the canonical way. *)
Record floating (t : gmap string content) : Prop := {
  floating_canonical tag v :
    is_Some (t !! tag) -> ParseSemanticVersion tag = Ok v -> tag = patch_tag v;
  floating_greatest l v :
    published t v -> on_line l v = true ->
    (forall e, published t e -> on_line l e = true -> vle e v = true) ->
    t !! line_tag l = t !! patch_tag v;
  floating_line l :
    is_Some (t !! line_tag l) -> exists v, published t v /\ on_line l v = true
}.

(** Writing one content to many tags. *)
Fixpoint retag (names : list string) (c : content) (t : gmap string content) : gmap string content :=
  match names with [] => t | tag :: names => retag names c (<[tag := c]> t) end.

Lemma retag_lookup names c t tag :
  retag names c t !! tag = if decide (tag ∈ names) then Some c else t !! tag.
Proof.
  revert t. induction names as [|n names IH]; intros t; [done|]. cbn.
  rewrite IH. destruct (decide (tag ∈ names)) as [Hin|Hin].
  - rewrite decide_True by set_solver. done.
  - destruct (decide (tag = n)) as [->|Hne].
    + rewrite lookup_insert_eq, decide_True by set_solver. done.
    + rewrite lookup_insert_ne, decide_False by set_solver. done.
Qed.

(** *** The references of a promotion *)

Lemma semVerRe_release version p1 p2 p3 rel :
  semVerRe version = Some (p1, p2, p3, rel) -> rel = "" \/ exists r, rel = String "-" r.
Proof.
  unfold semVerRe. destruct (semver_prefix version) as [[[[q1 q2] q3] [|c r]]|]; [| |done].
  - intros [= _ _ _ <-]. by left.
  - intros H. right. destruct (ascii_dec c "-") as [->|Hne].
    + destruct (Contains r newline); [done|]. injection H as _ _ _ <-. by exists r.
    + exfalso. destruct c as [[] [] [] [] [] [] [] []]; try discriminate H. by apply Hne.
Qed.

Lemma ParseRemoteImageRef_spec registry repository version ri :
  ParseRemoteImageRef registry repository version = Ok ri ->
  fits (ri_version ri) /\
  (release (ri_version ri) = "" \/ exists r, release (ri_version ri) = String "-" r) /\
  exists s, ParseReference (s +:+ ":" +:+ patch_tag (ri_version ri) +:+ release (ri_version ri)) =
            Ok (ri_ref ri).
Proof.
  unfold ParseRemoteImageRef. repeat case_match; try discriminate. intros H'. inv_ok.
  repeat match goal with H : ParseUint _ 0 = Ok _ |- _ => apply ParseUint_Ok in H as (_ & _ & _ & H) end.
  cbn. split; [done|]. split; [by eapply semVerRe_release|]. eexists. eassumption.
Qed.

Lemma SemVerRefs_candidate registry repository version ri existing refs :
  ParseRemoteImageRef registry repository version = Ok ri ->
  IsReleaseCandidate (ri_version ri) = true -> SemVerRefs ri existing = Ok refs ->
  refs = [ri_ref ri] /\
  (is_Digest (ri_ref ri) = false ->
   exists r, ref_Identifier (ri_ref ri) = patch_tag (ri_version ri) +:+ String "-" r).
Proof.
  intros (_ & Hr & s & Hs)%ParseRemoteImageRef_spec Hrc. unfold SemVerRefs. rewrite Hrc.
  intros [= <-]. split; [done|]. unfold IsReleaseCandidate in Hrc.
  destruct Hr as [Hr|[r Hr]]; rewrite Hr in *; [done|]. intros Hdig. exists r. revert Hs. unfold patch_tag.
  rewrite !string_app_assoc. destruct (FormatUint_digits (major (ri_version ri))) as (Hd & Hne & _).
  intros Hs. by eapply ParseReference_number.
Qed.

(** The tags that writes to these references make. *)
Definition written_tags (refs : list Reference) : list string :=
  ref_Identifier <$> filter (fun r => is_Digest r = false) refs.

Lemma SemVerRefs_version ri existing :
  fits (ri_version ri) -> (exists s, ParseReference s = Ok (ri_ref ri)) ->
  IsReleaseCandidate (ri_version ri) = false ->
  exists refs, SemVerRefs ri existing = Ok refs /\
    Forall (fun r => ref_Context r = ref_Context (ri_ref ri)) refs /\
    written_tags refs = TagsToUpdate (ri_version ri) (ParseSemanticVersions existing).
Proof.
  intros Hf [s Hs] Hrc. unfold SemVerRefs. rewrite Hrc.
  pose proof (TagsToUpdate_valid _ (ParseSemanticVersions existing) Hf) as Hv.
  induction Hv as [|tag names Htag _ (refs & H1 & H2 & H3)]; [by exists []|].
  destruct (ParseReference_tag _ _ _ Hs Htag) as (r' & Hr' & Hc & Hi & Hdig).
  exists (r' :: refs). cbn [slice_map].
  assert (buildRefForTag ri tag = Ok r') as -> by (unfold buildRefForTag; by rewrite Hr').
  cbn [wrap_err mbind res_bind]. rewrite H1. cbn [mbind res_bind mret]. split; [done|]. split; [by constructor|].
  unfold written_tags in *. rewrite filter_cons, decide_True by done. cbn. by rewrite Hi, H3.
Qed.

(** *** One copy, and all of them *)

Lemma Copy_spec reg from to reg' :
  Copy from to reg = (None, reg') ->
  exists c, fetch reg from = Some c /\ write reg to c = (None, reg').
Proof.
  unfold Copy, copyImageIndex, copyImage, fetch. destruct (remote_Index reg from) as [i|e].
  - destruct (remote_WriteIndex reg to i) as [[e|] reg1] eqn:E; [done|]. intros [= <-]. by exists (inl i).
  - destruct (remote_Image reg from) as [m|e']; [|done].
    destruct (remote_Write reg to m) as [[e''|] reg1] eqn:E; [done|]. intros [= <-]. by exists (inr m).
Qed.

Lemma CopyAll_spec from C toRefs reg reg' :
  Forall (fun r => ref_Context r = C) toRefs ->
  toRefs <> [] -> CopyAll from toRefs reg = (None, reg') ->
  exists c, fetch reg from = Some c /\
    tags reg' C = retag (written_tags toRefs) c (tags reg C) /\
    forall C', C' <> C -> tags reg' C' = tags reg C'.
Proof.
  intros HC. revert reg. induction HC as [|to toRefs Hto HC IH]; intros reg; [done|]. intros _.
  cbn [CopyAll]. destruct (Copy from to reg) as [[e|] reg1] eqn:E; [done|].
  apply Copy_spec in E as (c & Hc & Hw). intros H. exists c. split; [done|].
  pose proof (write_tags _ _ _ _ Hw) as Ht. pose proof (write_fetch _ _ _ _ _ Hc Hw) as Hc1.
  assert (tags reg1 C = retag (written_tags [to]) c (tags reg C) /\
          forall C', C' <> C -> tags reg1 C' = tags reg C') as [H1 H2].
  { rewrite Ht, Hto, String.eqb_refl. unfold written_tags. rewrite filter_cons. split; [by destruct (is_Digest to)|].
    intros C' Hne. rewrite Ht, Hto. by destruct (String.eqb_spec C' C). }
  destruct (decide (toRefs = [])) as [->|Hne].
  - cbn in H. injection H as <-. done.
  - destruct (IH reg1 Hne H) as (c' & Hc' & H3 & H4). rewrite Hc1 in Hc'. injection Hc' as <-.
    rewrite H3, H1. split; [|intros C' HC'; rewrite H4, H2; done].
    unfold written_tags. rewrite !filter_cons. by destruct (is_Digest to).
Qed.
(** *** The invariant *)

Lemma published_retag v names c t w :
  published_version v ->
  (forall tag, tag ∈ names -> tag = patch_tag v \/ exists l, tag = line_tag l) -> patch_tag v ∈ names ->
  published (retag names c t) w <-> published t w \/ w = v.
Proof.
  intros Hv Hn Hin. unfold published. rewrite retag_lookup.
  destruct (decide (patch_tag w ∈ names)) as [Hw|Hw].
  - split; [|intros [H| ->]; [split; [apply H|done]|done]]. intros [Hpv _]. right.
    destruct (Hn _ Hw) as [H|[l H]].
    + apply patch_tag_inj; [|done]. destruct Hv, Hpv. congruence.
    + exfalso. apply (f_equal semver_prefix) in H.
      by rewrite semver_prefix_patch_tag, line_tag_not_version in H.
  - split; [tauto|]. intros [H| ->]; [done|]. done.
Qed.

Lemma published_canonical t existing :
  floating t -> (forall tag, tag ∈ existing <-> is_Some (t !! tag)) ->
  forall e, e ∈ ParseSemanticVersions existing <-> published t e.
Proof.
  intros HF He e. rewrite elem_of_ParseSemanticVersions, Exists_exists. split.
  - intros (tag & Hin & Hp). pose proof (Parse_published _ _ Hp) as Hpv. split; [done|].
    apply He in Hin. by rewrite <- (floating_canonical _ HF _ _ Hin Hp).
  - intros [Hpv Ht]. exists (patch_tag e). rewrite He. split; [done|by apply Parse_patch_tag].
Qed.

Lemma greatest_on_true existing v l :
  greatest_on existing v l = true <-> forall e, e ∈ existing -> on_line l e = true -> vle e v = true.
Proof.
  unfold greatest_on. rewrite forallb_forall. setoid_rewrite <- list_elem_of_In.
  split; intros H e He; specialize (H e He); destruct (on_line l e); cbn in *; by auto.
Qed.

Lemma vle_refl v : vle v v = true.
Proof. unfold vle. by rewrite !N.eqb_refl, N.leb_refl, !orb_true_r. Qed.

Lemma floating_version t existing v c :
  floating t -> published_version v -> (forall e, e ∈ existing <-> published t e) ->
  floating (retag (TagsToUpdate v existing) c t).
Proof.
  intros HF Hv He. set (names := TagsToUpdate v existing).
  assert (forall tag, tag ∈ names -> tag = patch_tag v \/ exists l, tag = line_tag l) as Hn.
  { intros tag [->|(l & -> & _)]%elem_of_TagsToUpdate; [by left|right; by exists l]. }
  assert (patch_tag v ∈ names) as Hin by (apply elem_of_TagsToUpdate; by left).
  assert (forall l, line_tag l ∈ names <-> on_line l v = true /\ greatest_on existing v l = true) as Hl.
  { intros l. unfold names. rewrite elem_of_TagsToUpdate. split.
    - intros [H|(l' & H & ? & ?)]; [|by apply line_tag_inj in H as ->].
      apply (f_equal semver_prefix) in H. by rewrite semver_prefix_patch_tag, line_tag_not_version in H.
    - intros [H1 H2]. right. by exists l. }
  pose proof (fun w => published_retag v names c t w Hv Hn Hin) as Hp. split.
  - intros tag w Htag Hw. rewrite retag_lookup in Htag.
    destruct (decide (tag ∈ names)) as [[->|[l ->]]%Hn|_].
    + rewrite Parse_patch_tag in Hw by done. by injection Hw as ->.
    + pose proof (Parse_line_tag l) as Hno. by rewrite Hw in Hno.
    + by apply (floating_canonical _ HF).
  - intros l w Hw Hlw Hmax. rewrite Hp in Hw. rewrite !retag_lookup.
    assert (on_line l v = true -> vle v w = true) as Hvw by (intros; apply Hmax; [apply Hp; by right|done]).
    destruct (decide (line_tag l ∈ names)) as [Hln|Hln].
    + apply Hl in Hln as [Hlv Hg]. rewrite greatest_on_true in Hg. assert (w = v) as ->.
      { destruct Hw as [Hw|Hw]; [|done]. apply vle_antisym; [|apply Hg; [by apply He|done]|by apply Hvw].
        destruct Hw as [[_ ->] _], Hv as [_ ->]. done. }
      by rewrite decide_True.
    + assert (w <> v) as Hne.
      { intros ->. apply Hln, Hl. split; [done|]. apply greatest_on_true. intros e Hin' Hle.
        apply Hmax; [apply Hp; left; by apply He|done]. }
      destruct Hw as [Hw|Hw]; [|done]. rewrite decide_False.
      * apply (floating_greatest _ HF); [done|done|]. intros e Hpe Hle. apply Hmax; [apply Hp; by left|done].
      * intros [H|[l' H]]%Hn.
        -- apply Hne, patch_tag_inj; [|done]. destruct Hw as [[_ ->] _], Hv as [_ ->]. done.
        -- apply (f_equal semver_prefix) in H. by rewrite semver_prefix_patch_tag, line_tag_not_version in H.
  - intros l Hs. rewrite retag_lookup in Hs. destruct (decide (line_tag l ∈ names)) as [Hln|Hln].
    + apply Hl in Hln as [Hlv _]. exists v. split; [apply Hp; by right|done].
    + apply (floating_line _ HF) in Hs as (w & Hw & Hlw). exists w. split; [apply Hp; by left|done].
Qed.

(** The tag of a candidate is neither a version nor a floating tag. *)
Lemma floating_candidate t v r c :
  floating t -> floating (<[patch_tag v +:+ String "-" r := c]> t).
Proof.
  intros HF. assert (forall w, patch_tag v +:+ String "-" r <> patch_tag w) as H1.
  { intros w H%(f_equal semver_prefix). by rewrite semver_prefix_app, semver_prefix_patch_tag in H. }
  assert (forall l, patch_tag v +:+ String "-" r <> line_tag l) as H2.
  { intros l H%(f_equal semver_prefix). by rewrite semver_prefix_app, line_tag_not_version in H. }
  assert (forall w, published (<[patch_tag v +:+ String "-" r := c]> t) w <-> published t w) as Hp.
  { intros w. unfold published. by rewrite lookup_insert_ne. }
  split.
  - intros tag w Htag Hw. destruct (decide (tag = patch_tag v +:+ String "-" r)) as [->|Hne].
    + exfalso. unfold ParseSemanticVersion, majorMinorPatchRe in Hw. by rewrite semver_prefix_app in Hw.
    + rewrite lookup_insert_ne in Htag by done. by apply (floating_canonical _ HF).
  - intros l w Hw Hlw Hmax. rewrite !lookup_insert_ne by done. setoid_rewrite Hp in Hmax.
    apply (floating_greatest _ HF); [by apply Hp|done|done].
  - intros l. rewrite lookup_insert_ne by done. setoid_rewrite Hp. apply (floating_line _ HF).
Qed.
(** *** Runs of the step *)

Lemma ListTags_spec reg C ts :
  ListTags reg C = Ok ts -> forall tag, tag ∈ ts <-> is_Some (tags reg C !! tag).
Proof.
  unfold ListTags. destruct (List_returns reg C) as [[ts' H]|[e H]]; rewrite H.
  - intros [= <-]. by apply List_tags.
  - destruct (isErrorNameUnknown e) eqn:E; [|done]. intros [= <-] tag.
    rewrite (List_unknown _ _ _ H E), lookup_empty, elem_of_nil. split; [done|]. by intros [].
Qed.

(** What the step is about to do: copy the image to its own tag when it is a
    candidate, and to the tags of [TagsToUpdate] otherwise. *)
Lemma promotion_spec args getenv reg from refs :
  promotion args getenv reg = Ok (from, refs) ->
  exists ri ts, ListTags reg (Repository ri) = Ok ts /\ fits (ri_version ri) /\
    if IsReleaseCandidate (ri_version ri) then
      refs = [ri_ref ri] /\
      (is_Digest (ri_ref ri) = false ->
       exists r, ref_Identifier (ri_ref ri) = patch_tag (ri_version ri) +:+ String "-" r)
    else
      Forall (fun r => ref_Context r = Repository ri) refs /\
      written_tags refs = TagsToUpdate (ri_version ri) (ParseSemanticVersions ts).
Proof.
  unfold promotion, ParseInputs. intros H. apply bind_Ok in H as (inputs & Hi & H).
  apply bind_Ok in H as (ts & Hts & H). apply bind_Ok in H as (refs' & Hrefs & H).
  injection H as _ ->. apply bind_Ok in Hi as ([vals rest] & _ & Hi).
  apply bind_Ok in Hi as (f & _ & Hi). apply bind_Ok in Hi as (ri & Hri%wrap_err_Ok & Hi).
  apply bind_Ok in Hi as (l & _ & [= <-]). cbn in *. exists ri, ts. split; [done|].
  destruct (ParseRemoteImageRef_spec _ _ _ _ Hri) as (Hf & _ & s & Hs). split; [done|].
  destruct (IsReleaseCandidate (ri_version ri)) eqn:Hrc.
  - by eapply SemVerRefs_candidate.
  - destruct (SemVerRefs_version ri ts Hf ltac:(by eexists) Hrc) as (refs2 & H2 & H3 & H4).
    rewrite H2 in Hrefs. injection Hrefs as <-. done.
Qed.

Lemma promote_run_keeps args getenv reg reg' :
  promote_run args getenv reg = (Ok tt, reg') ->
  forall C, floating (tags reg C) -> floating (tags reg' C).
Proof. unfold promote_run. destruct (promotion args getenv reg) as [[from refs]| | |] eqn:Hp; try done.
  destruct (CopyAll from refs reg) as [[e|] reg1] eqn:Hcopy; [done|]. intros [= <-] C HF.
  apply promotion_spec in Hp as (ri & ts & Hts & Hf & Hrefs).
  assert (Forall (fun r => ref_Context r = Repository ri) refs /\ refs <> []) as [Hctx Hne].
  { destruct (IsReleaseCandidate (ri_version ri)).
    - destruct Hrefs as [-> _]. split; [by repeat constructor|done].
    - destruct Hrefs as [H1 H2]. split; [done|]. intros ->.
      rewrite TagsToUpdate_lines in H2. done. }
  destruct (CopyAll_spec _ _ _ _ _ Hctx Hne Hcopy) as (c & _ & Ht & Hother).
  destruct (decide (C = Repository ri)) as [->|HC]; [|by rewrite Hother].
  rewrite Ht. destruct (IsReleaseCandidate (ri_version ri)) eqn:Hrc.
  - destruct Hrefs as (-> & Hr). unfold written_tags. rewrite filter_cons. case_decide as Hdig; [|done].
    destruct (Hr Hdig) as [r Hid]. cbn. rewrite Hid. by apply floating_candidate.
  - destruct Hrefs as [_ ->]. apply floating_version; [done| |].
    + split; [done|]. unfold IsReleaseCandidate in Hrc.
      by destruct (String.eqb_spec (release (ri_version ri)) "").
    + apply published_canonical; [done|]. by apply ListTags_spec.
Qed.

Lemma floating_empty : floating ∅.
Proof.
  split.
  - intros tag v [x H]. by rewrite lookup_empty in H.
  - intros l v [_ [x H]]. by rewrite lookup_empty in H.
  - intros l [x H]. by rewrite lookup_empty in H.
Qed.

(** A run that is complete: it copied everything, or failed before it copied. *)
Definition complete (reg : R) (run : list string * (string -> string)) (reg' : R) : Prop :=
  exists r, promote_run run.1 run.2 reg = (r, reg') /\
    (r = Ok tt \/ is_ok (promotion run.1 run.2 reg) = false).

(** C12: in a repository that had no tags, after any sequence of complete
    promotions to any repositories, each of the tags [major.minor], [major] and
    [latest] is the image of the greatest published version of its line, in the
    order of the three numbers, and exists exactly when there is such a version;
    release candidates and other repositories never affect them. *)
Theorem floating_tags_are_greatest reg runs reg' C :
  tags reg C = ∅ -> steps complete reg runs reg' -> floating (tags reg' C).
Proof.
  intros H0 Hs.
  refine (steps_invariant complete (fun reg => floating (tags reg C)) _ _ _ _ _ Hs).
  - intros s [args getenv] s' HI (r & Hr & [->|Hno]); [by eapply promote_run_keeps|].
    cbn [fst snd] in *. unfold promote_run in Hr.
    destruct (promotion args getenv s); try discriminate Hno; by injection Hr as _ <-.
  - rewrite H0. apply floating_empty.
Qed.

(** C37: a tag that a promotion leaves is read back as the version it was made
    from, exactly when its numbers are those of a [uint], below 2^32 where the program
    is built for a machine of 32 bits and below 2^64 where it is built for 64; a tag
    with a greater number is no version, it does not wrap around. *)
Theorem version_roundtrip v :
  release v = "" ->
  ParseSemanticVersion (patch_tag v) =
  (if decide (fits v) then Ok v else Err (does_not_conform (patch_tag v))).
Proof.
  intros Hr. case_decide as Hf; [by apply Parse_patch_tag|].
  unfold ParseSemanticVersion, majorMinorPatchRe. rewrite semver_prefix_patch_tag.
  rewrite !ParseUint_FormatUint_bound. unfold fits in Hf.
  destruct (N.leb_spec (major v) max_uint), (N.leb_spec (minor v) max_uint),
    (N.leb_spec (patch v) max_uint); cbn; done || tauto.
Qed.
End registry.
