(* ===== verification/OCIFetch.v ===== *)
(** Fetching a step from an image (src/dist/steps/step/oci/fetch): the inputs and
    outputs of the step, the choice of a platform's image, the credentials of a
    registry, and the layers written to disk. *)

From stdpp Require Import gmap strings list.
From S2P Require Import Prelude GoStrings GoPaths GoNumbers GoFlags GoFiles Promote.
Open Scope go_scope.
Open Scope string_scope.
Open Scope list_scope.

(** ** platform.go *)

(** [platforms.Platform] of containerd. *)
Record Platform := {
  Architecture : string;
  OS : string;
  OSVersion : string;
  OSFeatures : list string;
  Variant : string
}.

#[global] Instance Platform_eq_dec : EqDecision Platform.
Proof. solve_decision. Defined.

(** [v1.Platform] of go-containerregistry. *)
Record v1_Platform := {
  v1_Architecture : string;
  v1_OS : string;
  v1_OSVersion : string;
  v1_OSFeatures : list string;
  v1_Variant : string;
  v1_Features : list string
}.

#[global] Instance v1_Platform_eq_dec : EqDecision v1_Platform.
Proof. solve_decision. Defined.

(** [v1.Descriptor]: what an index says of an image; its platform may be nil. *)
Record Descriptor := {
  Digest : string;
  d_Platform : option v1_Platform
}.

(** [ConvertPlatformV1ToCtrd(v1Platform)] *)
Definition ConvertPlatformV1ToCtrd (v1Platform : option v1_Platform) : res Platform :=
  match v1Platform with
  | None => Panic "invalid memory address or nil pointer dereference"
  | Some p => Ok {|
      Architecture := v1_Architecture p;
      OS := v1_OS p;
      OSVersion := v1_OSVersion p;
      OSFeatures := v1_OSFeatures p;
      Variant := v1_Variant p |}
  end.

(** The matcher [platforms.Only(findFor)]: which platforms run on [findFor], and
    which of two is better. *)
Class Matcher := {
  Match : Platform -> Platform -> bool;
  Less : Platform -> Platform -> Platform -> bool
}.

Section platforms.
  Context `{MT : Matcher}.

(** The loop of [FindManifestForPlatform], with the best manifest so far. *)
Fixpoint find_manifest (findFor : Platform) (manifests : list Descriptor)
    (matched : option (Descriptor * Platform)) : res (option (Descriptor * Platform)) :=
  match manifests with
  | [] => Ok matched
  | manifest :: manifests' =>
      platform ← ConvertPlatformV1ToCtrd (d_Platform manifest);
      if negb (Match findFor platform) then find_manifest findFor manifests' matched
      else
        match matched with
        | None => find_manifest findFor manifests' (Some (manifest, platform))
        | Some (_, matchedPlatform) =>
            if Less findFor platform matchedPlatform then
              find_manifest findFor manifests' (Some (manifest, platform))
            else find_manifest findFor manifests' matched
        end
  end.

(** [FindManifestForPlatform(findFor, manifests)] *)
Definition FindManifestForPlatform (findFor : Platform) (manifests : list Descriptor) :
    res (option Descriptor) :=
  option_map fst <$> find_manifest findFor manifests None.

(** [FindManifestForPlatforms(findFor, manifests)] *)
Fixpoint FindManifestForPlatforms (findFor : list Platform) (manifests : list Descriptor) :
    res (option Descriptor) :=
  match findFor with
  | [] => Ok None
  | platform :: findFor' =>
      matched ← FindManifestForPlatform platform manifests;
      match matched with
      | Some d => Ok (Some d)
      | None => FindManifestForPlatforms findFor' manifests
      end
  end.
End platforms.

(** [DescribePlatform(platform)] *)
Definition DescribePlatform (platform : Platform) : string :=
  OS platform +:+
  (if String.eqb (Architecture platform) "" then "" else "/" +:+ Architecture platform) +:+
  (if String.eqb (Variant platform) "" then "" else "/" +:+ Variant platform).

(** [DescribePlatforms(plats...)] *)
Definition DescribePlatforms (plats : list Platform) : string := Join (DescribePlatform <$> plats) " or ".

(** ** auth_lookup_keychain.go *)

Record AuthConfig := {
  Username : string;
  Password : string;
  Auth : string;
  IdentityToken : string;
  RegistryToken : string
}.

#[global] Instance AuthConfig_eq_dec : EqDecision AuthConfig.
Proof. solve_decision. Defined.

(** [types.AuthConfig] of a Docker configuration has more fields. *)
Record DockerAuth := {
  da_config : AuthConfig;
  Email : string;
  ServerAddress : string
}.

#[global] Instance DockerAuth_eq_dec : EqDecision DockerAuth.
Proof. solve_decision. Defined.

Definition empty_auth : DockerAuth := {|
  da_config := {| Username := ""; Password := ""; Auth := ""; IdentityToken := ""; RegistryToken := "" |};
  Email := "";
  ServerAddress := "" |}.

Inductive Authenticator := Anonymous | FromConfig (cfg : AuthConfig).

(** The Docker configuration: [config.LoadFromReader] and [GetAuthConfig]. *)
Class DockerConfig := {
  ConfigFile : Type;
  LoadFromReader : string -> res ConfigFile;
  GetAuthConfig : ConfigFile -> string -> res DockerAuth
}.

Section keychain.
  Context `{DC : DockerConfig}.

Definition dockerEnvConfigVar : string := "DOCKER_AUTH_CONFIG".

(** The loop of [ak.authConfig(target, configFile)] over the keys. *)
Fixpoint authConfig (keys : list string) (configFile : ConfigFile) : res (option AuthConfig) :=
  match keys with
  | [] => Ok None
  | key :: keys' =>
      cfg ← GetAuthConfig configFile key or_wrap ("getting auth config for " +:+ key +:+ ": ");
      if negb (bool_decide (cfg = empty_auth)) then Ok (Some (da_config cfg))
      else authConfig keys' configFile
  end.

(** [ak.Resolve(target)] of a target with a text and a registry. *)
Definition Resolve (lookup : string -> option string) (target_String target_RegistryStr : string) :
    res Authenticator :=
  match lookup dockerEnvConfigVar with
  | None => Ok Anonymous
  | Some config =>
      if String.eqb config "" then Ok Anonymous
      else
        configFile ← LoadFromReader config or_wrap "resolving OCI registry authentication: ";
        authCfg ← authConfig [target_String; target_RegistryStr] configFile
                    or_wrap "resolving OCI registry authentication: ";
        match authCfg with
        | None => Ok Anonymous
        | Some authCfg => Ok (FromConfig authCfg)
        end
  end.
End keychain.

(** ** disk_layer_writer.go *)

(** The type flags of tar entries that the writer tells apart. *)
Inductive typeflag := TypeDir | TypeReg | TypeOther.

(** An entry of an archive: its name, what it is and its content, or an error
    after a part of the content. *)
Record tar_entry := {
  hdr_Name : string;
  hdr_Typeflag : typeflag;
  hdr_Content : string;
  hdr_Error : option error
}.

(** The archive of a layer: the reader, whose entries end in io.EOF or in an
    error, the layer's digest for messages, and the sanitizer of names of
    google/safearchive, which leaves no element that goes up. *)
Class Layers := {
  Layer : Type;
  layer_Digest : Layer -> string;
  layer_Uncompressed : Layer -> res (list tar_entry * option error);
  SanitizePath : string -> string
}.

Section layers.
  Context `{LY : Layers}.

(** [w.writeDir(dir)] *)
Definition writeDir (dir : string) : F unit :=
  F_wrap ("creating directory " +:+ quote dir +:+ ": ") (MkdirAll dir 448).

(** [w.writeFile(path, content)] *)
Definition writeFile (path : string) (entry : tar_entry) : F unit :=
  _ ← F_wrap ("creating file " +:+ quote path +:+ ": ")
        (OpenFile path {| O_CREATE := true; O_EXCL := false; O_TRUNC := false |} 256);
  _ ← F_wrap ("writing to file " +:+ quote path +:+ ": ")
        (_ ← WriteTo path (hdr_Content entry);
         match hdr_Error entry with Some err => F_lift (Err err) | None => mret tt end);
  F_wrap ("closing file " +:+ quote path +:+ ": ") (Close path).

(** One entry of an archive. *)
Definition write_entry (dir : string) (entry : tar_entry) : F unit :=
  let filePath := PathJoin [dir; SanitizePath (hdr_Name entry)] in
  match hdr_Typeflag entry with
  | TypeDir => writeDir filePath
  | TypeReg => writeFile filePath entry
  | TypeOther => mret tt
  end.

(** [w.writeLayerToDisk(layer, dir)] *)
Definition writeLayerToDisk (layer : Layer) (dir : string) : F unit :=
  '(entries, ending) ← F_lift (layer_Uncompressed layer or_wrap "opening uncompressed reader: ");
  _ ← F_each (write_entry dir) entries;
  match ending with
  | None => mret tt
  | Some err => F_lift (Err (WrapError "advancing to next tar entry: " err ""))
  end.

(** [w.Write(layers, outputDir)] *)
Definition DiskLayerWriter_Write (layers : list Layer) (outputDir : string) : F unit :=
  F_each (fun layer => F_wrap ("layer " +:+ quote (layer_Digest layer) +:+ ": ")
                         (writeLayerToDisk layer outputDir)) layers.
End layers.

(** ** client.go *)

(** What the client asks of a registry, in a given state of the registries. *)
Class ImageClient `{IN : ImageName} `{LY : Layers} := {
  Image : Type;
  fetch_Index : Reference -> res (list Descriptor * (string -> res Image));
  IndexManifest : list Descriptor -> res (list Descriptor);
  image_Layers : Image -> res (list Layer);
  DefaultSpec : Platform
}.

Section client.
  Context `{WS : WordSize} `{IN : ImageName} `{LY : Layers} `{MT : Matcher} {IC : ImageClient}.

(** [c.fetchImage(ctx, ref, findForPlatform)] *)
Definition fetchImage (ref : Reference) (findForPlatform : list Platform) : res Image :=
  '(idx, idx_Image) ← fetch_Index ref or_wrap "fetching index: ";
  manifests ← IndexManifest idx or_wrap "getting index manifest: ";
  manifest ← FindManifestForPlatforms findForPlatform manifests;
  match manifest with
  | None => Err (NewError ("didn't find an image matching platform " +:+ DescribePlatforms findForPlatform))
  | Some manifest =>
      match idx_Image (Digest manifest) with
      | Err err => Err (NewError ("fetching image for manifest " +:+ Digest manifest +:+ ": " +:+ Error err))
      | r => r
      end
  end.

(** The platforms of [Pull]: those of [WithPlatforms], or this machine's and then
    the generic one. *)
Definition generic_platform : Platform :=
  {| Architecture := ""; OS := "generic"; OSVersion := ""; OSFeatures := []; Variant := "" |}.

(** [WithPlatforms(v1Platforms...)] *)
Definition WithPlatforms (v1Platforms : list (option v1_Platform)) : res (list Platform) :=
  slice_map ConvertPlatformV1ToCtrd v1Platforms.

Definition pull_platforms (opts : option (list (option v1_Platform))) : res (list Platform) :=
  match opts with
  | None => Ok [DefaultSpec; generic_platform]
  | Some v1Platforms => WithPlatforms v1Platforms
  end.

(** [c.Pull(ctx, ref, opts...)] *)
Definition Pull (cacheDir : string) (ref : Reference) (opts : option (list (option v1_Platform))) : F string :=
  platforms ← F_lift (pull_platforms opts);
  image ← F_lift (fetchImage ref platforms or_wrap ("fetching OCI image " +:+ quote (ref_Name ref) +:+ ": "));
  layers ← F_lift (image_Layers image or_wrap ("getting layers for OCI image " +:+ quote (ref_Name ref) +:+ ": "));
  stepDir ← F_wrap ("creating download directory for OCI image " +:+ quote (ref_Name ref) +:+ ": ")
              (MkdirTemp cacheDir "oci-image-*");
  _ ← F_wrap ("writing layers for OCI image " +:+ quote (ref_Name ref) +:+ ": ")
        (DiskLayerWriter_Write layers stepDir);
  mret stepDir.

(** ** inputs.go *)

Record FetchInputs := {
  RemoteImageRef_ : Reference;
  StepPath : string;
  FetchLogLevel : Z;
  OutputFile : string
}.

(** [parseNamedReference(registry, repository, tag)]: a tag or a digest. *)
Definition parseNamedReference (registry repository tag : string) : res Reference :=
  let repository := PathJoin [registry; repository] in
  match ParseReference (repository +:+ ":" +:+ tag) with
  | Err tagErr =>
      match ParseReference (repository +:+ "@" +:+ tag) with
      | Err _ => Err tagErr
      | r => r
      end
  | r => r
  end.

(** [ParseInputs(args, getenv)] *)
Definition fetch_ParseInputs (args : list string) (getenv : string -> string) : F FetchInputs :=
  '(vals, _) ← F_lift (flag_parse ["registry"; "repository"; "step_path"; "tag"; "output_file"] args ∅);
  let registry := TrimSpace (flag_value vals "registry") in
  let repository := TrimSpace (flag_value vals "repository") in
  let tag := TrimSpace (flag_value vals "tag") in
  if String.eqb registry "" then F_lift (Err (NewError "registry is required"))
  else if String.eqb repository "" then F_lift (Err (NewError "repository is required"))
  else if String.eqb tag "" then F_lift (Err (NewError "tag is required"))
  else
    remoteImgRef ← F_lift (parseNamedReference registry repository tag or_wrap "parsing image reference: ");
    logLevel ← F_lift (parseLogLevel (getenv "CI_STEPS_LOG_LEVEL") or_wrap "log level: ");
    _ ← F_wrap "output file is required: " (Stat (flag_value vals "output_file"));
    mret {| RemoteImageRef_ := remoteImgRef;
            StepPath := TrimSpace (Clean (flag_value vals "step_path"));
            FetchLogLevel := logLevel;
            OutputFile := flag_value vals "output_file" |}.

(** ** outputs.go *)

(** [json.Marshal] of an output: its name and its value. *)
Context (json_output : string -> string -> res string).

(** [o.writeValue(outputValue, writer)], after what is written: what is written
    then. *)
Definition fetch_writeValue (outputFile written name value : string) : F string :=
  bytes ← F_lift (json_output name value or_wrap "marshal json: ");
  _ ← F_wrap "write json to file: " (WriteTo outputFile (written +:+ bytes));
  _ ← F_wrap "write new line to file: " (WriteTo outputFile (written +:+ bytes +:+ newline));
  mret (written +:+ bytes +:+ newline).

(** [o.Write(downloadDir, imgRef, stepPath)] *)
Definition fetch_Outputs_Write (outputFile downloadDir : string) (imgRef : Reference) (stepPath : string) : F unit :=
  _ ← F_wrap "opening output file: "
        (OpenFile outputFile {| O_CREATE := true; O_EXCL := false; O_TRUNC := true |} 438);
  written ← F_wrap "value fetched_step_path: "
              (fetch_writeValue outputFile "" "fetched_step_path" (PathJoin [downloadDir; stepPath]));
  _ ← F_wrap "value ref: " (fetch_writeValue outputFile written "ref" (ref_String imgRef));
  F_wrap "close output file: " (Close outputFile).

(** ** main.go *)

(** [run(args, getEnv)], with the directory of temporary files. *)
Definition fetch_run (TempDir : string) (args : list string) (getenv : string -> string) : F unit :=
  inputs ← fetch_ParseInputs args getenv;
  let cacheDir := PathJoin [TempDir; "step-runner-cache"] in
  _ ← F_wrap "making download dir: " (MkdirAll cacheDir 488);
  downloadDir ← Pull cacheDir (RemoteImageRef_ inputs) None;
  fetch_Outputs_Write (OutputFile inputs) downloadDir (RemoteImageRef_ inputs) (StepPath inputs).
End client.
