(* ===== verification/OCIFetchFacts.v ===== *)
(** Fetching an image: the image that is chosen is the best one, and what is
    fetched stays in a new directory. *)

From stdpp Require Import gmap strings list.
From S2P Require Import Prelude GoStrings GoPaths GoNumbers GoFiles GoFilesFacts Promote OCIFetch.
Open Scope go_scope.
Open Scope string_scope.
Open Scope list_scope.

#[global] Arguments look : simpl never.
#[global] Arguments resolve : simpl never.

(** ** Platforms *)

Section platforms.
  Context `{MT : Matcher}.

(** A matcher compares platforms by a rank. *)
Class MatcherLaws := {
  Less_asym f a b : Less f a b = true -> Less f b a = false;
  Less_rank f a b c : Less f a b = false -> Less f b c = false -> Less f a c = false
}.

Context `{ML : !MatcherLaws}.

(** The platform of a manifest that has one. *)
Definition runs_on (f : Platform) (d : Descriptor) : bool :=
  match ConvertPlatformV1ToCtrd (d_Platform d) with Ok p => Match f p | _ => false end.

Definition better (f : Platform) (d d' : Descriptor) : bool :=
  match ConvertPlatformV1ToCtrd (d_Platform d), ConvertPlatformV1ToCtrd (d_Platform d') with
  | Ok p, Ok p' => Less f p p'
  | _, _ => false
  end.

Definition has_platform (d : Descriptor) : Prop := is_Some (d_Platform d).

(** The first of the best of the manifests that run on a platform. *)
Definition best_manifest (f : Platform) (manifests : list Descriptor) (d : Descriptor) : Prop :=
  exists l1 l2, manifests = l1 ++ d :: l2 /\ runs_on f d = true /\
    (forall x, x ∈ l1 -> runs_on f x = true -> better f d x = true) /\
    (forall x, x ∈ l2 -> runs_on f x = true -> better f x d = false).

Lemma convert_some d : has_platform d -> exists p, ConvertPlatformV1ToCtrd (d_Platform d) = Ok p.
Proof. intros [p ->]. by eexists. Qed.

Lemma better_trans f a b c : better f a b = true -> better f b c = true -> better f a c = true.
Proof.
  unfold better. destruct (ConvertPlatformV1ToCtrd (d_Platform a)) as [pa| | |],
    (ConvertPlatformV1ToCtrd (d_Platform b)) as [pb| | |],
    (ConvertPlatformV1ToCtrd (d_Platform c)) as [pc| | |]; try done. intros H1 H2.
  destruct (Less f pa pc) eqn:H3; [done|]. apply Less_asym in H2.
  pose proof (Less_rank f _ _ _ H3 H2). congruence.
Qed.

(** The loop keeps the best manifest so far. *)
Lemma find_manifest_spec f done_ todo matched :
  Forall has_platform todo ->
  match matched with
  | Some (d, p) => best_manifest f done_ d /\ ConvertPlatformV1ToCtrd (d_Platform d) = Ok p
  | None => forall x, x ∈ done_ -> runs_on f x = false
  end ->
  exists r, find_manifest f todo matched = Ok r /\
  match r with
  | Some (d, p) => best_manifest f (done_ ++ todo) d
  | None => forall x, x ∈ done_ ++ todo -> runs_on f x = false
  end.
Proof.
  revert done_ matched. induction todo as [|x todo IH]; intros done_ matched Hp HI.
  - exists matched. split; [done|]. rewrite app_nil_r. destruct matched as [[d p]|]; [apply HI|done].
  - apply Forall_cons in Hp as [Hx Hp]. destruct (convert_some x Hx) as [p Hpx]. cbn [find_manifest].
    rewrite Hpx. cbn [mbind res_bind]. rewrite (cons_middle x done_ todo), app_assoc.
    assert (runs_on f x = Match f p) as Hr by (unfold runs_on; by rewrite Hpx).
    destruct (Match f p) eqn:Hm; cbn [negb].
    + destruct matched as [[d pd]|].
      * destruct HI as [(l1 & l2 & -> & Hd & H1 & H2) Hpd].
        assert (better f x d = Less f p pd) as Hb by (unfold better; by rewrite Hpx, Hpd).
        destruct (Less f p pd) eqn:Hl; apply IH; try done.
        -- split; [|done]. exists (l1 ++ d :: l2), []. split; [done|]. split; [done|]. split.
           ++ intros y Hy Hry. apply elem_of_app in Hy as [Hy|[->|Hy]%elem_of_cons]; [|done|].
              ** eapply better_trans; [exact Hb|]. by apply H1.
              ** specialize (H2 y Hy Hry). unfold better in *. rewrite Hpx, Hpd in *. unfold runs_on in Hry.
                 destruct (ConvertPlatformV1ToCtrd (d_Platform y)) as [py| | |]; try done.
                 destruct (Less f p py) eqn:E; [done|]. pose proof (Less_rank f _ _ _ E H2). congruence.
           ++ intros y Hy. by apply elem_of_nil in Hy.
        -- split; [|done]. exists l1, (l2 ++ [x]). split; [by rewrite <- app_assoc|]. split; [done|]. split; [done|].
           intros y Hy Hry. apply elem_of_app in Hy as [Hy|Hy]; [by apply H2|].
           apply list_elem_of_singleton in Hy as ->. done.
      * apply IH; [done|]. split; [|done]. exists done_, []. split; [done|]. split; [done|]. split.
        -- intros y Hy Hry. by rewrite HI in Hry.
        -- intros y Hy. by apply elem_of_nil in Hy.
    + apply IH; [done|]. destruct matched as [[d pd]|].
      * destruct HI as [(l1 & l2 & -> & Hd & H1 & H2) Hpd]. split; [|done].
        exists l1, (l2 ++ [x]). split; [by rewrite <- app_assoc|]. split; [done|]. split; [done|].
        intros y Hy Hry. apply elem_of_app in Hy as [Hy|Hy]; [by apply H2|].
        apply list_elem_of_singleton in Hy as ->. congruence.
      * intros y [Hy|Hy]%elem_of_app; [by apply HI|]. apply list_elem_of_singleton in Hy as ->. congruence.
Qed.

(** C19: of the manifests of an index that all name a platform, the one for the
    first platform that any of them runs on is chosen, and of those the first of
    the best; there is none only if no manifest runs on any of the platforms. *)
Theorem chosen_manifest_is_best findFor manifests :
  Forall has_platform manifests ->
  exists r, FindManifestForPlatforms findFor manifests = Ok r /\
  match r with
  | Some d => exists pre f post, findFor = pre ++ f :: post /\ best_manifest f manifests d /\
      (forall f' x, f' ∈ pre -> x ∈ manifests -> runs_on f' x = false)
  | None => forall f' x, f' ∈ findFor -> x ∈ manifests -> runs_on f' x = false
  end.
Proof.
  intros Hp. induction findFor as [|f findFor IH]; cbn [FindManifestForPlatforms].
  - exists None. split; [done|]. intros f' x Hf. by apply elem_of_nil in Hf.
  - destruct (find_manifest_spec f [] manifests None Hp) as (r & Hr & Hspec).
    { intros x Hx. by apply elem_of_nil in Hx. }
    unfold FindManifestForPlatform. rewrite Hr. cbn [fmap res_fmap mbind res_bind app] in *.
    destruct r as [[d p]|]; cbn [option_map fst].
    + exists (Some d). split; [done|]. exists [], f, findFor. split; [done|]. split; [done|].
      intros f' x Hf. by apply elem_of_nil in Hf.
    + destruct IH as (r & Hr' & IH). exists r. split; [done|]. destruct r as [d|].
      * destruct IH as (pre & g & post & -> & Hb & Hpre). exists (f :: pre), g, post. split; [done|]. split; [done|].
        intros f' x [->|Hf]%elem_of_cons Hx; [by apply Hspec|by apply Hpre].
      * intros f' x [->|Hf]%elem_of_cons Hx; [by apply Hspec|by apply IH].
Qed.
End platforms.

(** ** Layers on disk *)

Section layers.
  Context `{LY : Layers}.

(** Sanitized names do not go up. *)
Class LayerLaws := { SanitizePath_down s : Forall no_up (Split (SanitizePath s) "/") }.

Context `{LL : !LayerLaws}.

Section directory.
  Context (dir : string) (D : path).
  Hypothesis (Hdir : HasPrefix dir "/" = true) (HD : resolve_from [] dir = D) (HDne : D <> []).

Lemma entry_elems (m : machine) name :
  exists rel, resolve m (PathJoin [dir; SanitizePath name]) = D ++ rel.
Proof. rewrite resolve_join, HD by done. apply join_below, SanitizePath_down. Qed.

Lemma write_entry_confined entry : confined D (write_entry dir entry).
Proof.
  unfold write_entry. set (p := PathJoin [dir; SanitizePath (hdr_Name entry)]).
  assert (forall m1 m2 : machine, resolve m1 p = resolve m2 p) as Hres by (intros; unfold p; by rewrite !resolve_join).
  destruct (hdr_Typeflag entry); [| |apply confined_ret].
  - unfold writeDir. apply confined_wrap. intros m Hm. rewrite MkdirAll_named by by apply absolute_nonempty, PathJoin_is_absolute.
    destruct (entry_elems m (hdr_Name entry)) as [rel Hrel]. fold p in Hrel. rewrite Hrel. by apply mkdir_all_confined.
  - unfold writeFile. apply confined_bind; [apply confined_wrap|intros _; apply confined_bind;
      [apply confined_wrap, confined_bind|intros _; apply confined_wrap, Close_confined]].
    + intros m Hm. destruct (entry_elems m (hdr_Name entry)) as [rel Hrel]. fold p in Hrel.
      by apply (OpenFile_confined D rel).
    + intros m Hm. destruct (entry_elems m (hdr_Name entry)) as [rel Hrel]. fold p in Hrel.
      by apply (WriteTo_confined D rel).
    + intros _. by destruct (hdr_Error entry); intros m _.
Qed.

Lemma layers_confined layers : confined D (DiskLayerWriter_Write layers dir).
Proof.
  apply confined_each. intros layer _. apply confined_wrap. unfold writeLayerToDisk.
  apply confined_bind; [by intros m _|]. intros [entries ending].
  apply confined_bind; [apply confined_each; intros; apply write_entry_confined|].
  intros _. by destruct ending; intros m _.
Qed.
End directory.
End layers.

(** ** Pulling an image *)

Section pull.
  Context `{IN : ImageName} `{LY : Layers} `{MT : Matcher} {IC : ImageClient} `{LL : !LayerLaws}.

(** C18: pulling an image, whatever its layers hold and whatever system calls fail,
    changes nothing but a new directory of the cache, with a name that was free,
    and the directory it returns is that one. *)
Theorem pull_stays_in_new_directory cacheDir ref opts (m : machine) r m' :
  HasPrefix cacheDir "/" = true -> dirs_to (tree_of m) (resolve_from [] cacheDir) ->
  Pull cacheDir ref opts m = (r, m') ->
  (tree_of m' = tree_of m /\ is_ok r = false) \/
  exists name, let D := resolve_from [] cacheDir ++ [name] in
    (forall p, below D p = true -> tree_of m !! p = None) /\
    only_below D (tree_of m) (tree_of m') /\
    (forall dir, r = Ok dir -> resolve m' dir = D).
Proof.
  intros Hc Hd. unfold Pull, mbind, F_bind, F_lift.
  destruct (pull_platforms opts) as [platforms|e|w|]; try (intros [= <- <-]; by left).
  destruct (fetchImage ref platforms) as [image|e|w|]; try (intros [= <- <-]; by left). cbn [wrap_err].
  destruct (image_Layers image) as [layers|e|w|]; try (intros [= <- <-]; by left). cbn [wrap_err].
  unfold F_wrap at 1. destruct (MkdirTemp cacheDir "oci-image-*" m) as [r1 m1] eqn:E.
  apply MkdirTemp_change in E as [[Hr Et]|(name & Hn & -> & Hfree & Et)]; [| |done..].
  { destruct r1; [done|..]; intros [= <- <-]; by left. }
  cbn [wrap_err]. set (D := resolve_from [] cacheDir ++ [name]) in *.
  set (dir := PathJoin [cacheDir; name]) in *.
  assert (HasPrefix dir "/" = true) as Hdir by by apply PathJoin_is_absolute.
  assert (resolve_from [] dir = D) as HD.
  { rewrite <- (resolve_absolute m) by done. unfold dir. by rewrite resolve_join, join_good_elem. }
  assert (dirs_to (tree_of m1) D) as Hd1.
  { rewrite Et. apply (dirs_to_insert_new _ _ _ 448); [done|]. apply Hfree, below_spec. exists []. by rewrite app_nil_r. }
  destruct (layers_confined dir D Hdir HD ltac:(by destruct (resolve_from [] cacheDir)) layers m1 Hd1) as [Hin _].
  assert (only_below D (tree_of m) (tree_of m1)) as Hb1.
  { intros p Hp. rewrite Et. apply lookup_insert_ne. intros <-. apply not_true_iff_false in Hp. apply Hp, below_spec.
    exists []. by rewrite app_nil_r. }
  assert (only_below D (tree_of m) (tree_of (DiskLayerWriter_Write layers dir m1).2)) as Hb2.
  { etrans; [exact Hb1|]. intros p Hp. apply Hin. apply not_true_iff_false in Hp. apply not_true_iff_false.
    intros Hi. apply Hp, below_inside. by right. }
  unfold F_wrap. destruct (DiskLayerWriter_Write layers dir m1) as [r2 m2]. cbn [snd] in Hb2.
  intros H. right. exists name. cbn zeta. fold D. split; [done|].
  destruct r2 as [[]|e|w|]; cbn [wrap_err] in H; injection H as <- <-; split; try done.
  intros dir' [= <-]. by rewrite resolve_absolute.
Qed.
End pull.
