(* ===== verification/OCIBuild.v ===== *)
(** Building and publishing a step as an image (src/dist/steps/step/oci/build):
    the artifacts and the temporary directories they are copied to, the archives
    and layers, the image of each platform and the index of them, and the inputs
    and outputs of the step. *)

From stdpp Require Import gmap strings list sorting.
From S2P Require Import Prelude GoStrings GoPaths GoNumbers GoFlags GoFiles Promote OCIFetch.
Open Scope go_scope.
Open Scope string_scope.
Open Scope list_scope.

(** ** artifacts.go and artifact.go *)

Record Artifact := {
  Src : string;
  Dst : string;
  a_Platform : v1_Platform
}.

(** [NewArtifact(platform, src, dst)] *)
Definition NewArtifact (platform : v1_Platform) (src dst : string) : Artifact :=
  {| Src := src; Dst := dst; a_Platform := platform |}.

Definition PlatformGeneric : v1_Platform := {|
  v1_Architecture := "generic"; v1_OS := "generic"; v1_OSVersion := ""; v1_OSFeatures := []; v1_Variant := "";
  v1_Features := [] |}.

(** The methods of [v1.Platform]: when two platforms are equal, and their text. *)
Class Platforms := {
  Equals : v1_Platform -> v1_Platform -> bool;
  Platform_String : v1_Platform -> string;
  Normalize : Platform -> Platform
}.

Section artifacts.
  Context `{PL : Platforms}.

(** [a.ForPlatform(platform)] *)
Definition ForPlatform (a : list Artifact) (platform : v1_Platform) : list Artifact :=
  List.filter (fun artifact => Equals (a_Platform artifact) platform) a.

(** [a.Platforms()], with the platforms seen so far. *)
Fixpoint platforms_from (unique : list v1_Platform) (a : list Artifact) : list v1_Platform :=
  match a with
  | [] => unique
  | artifact :: a' =>
      let seen := existsb (fun platform => Equals (a_Platform artifact) platform) unique in
      platforms_from (if seen then unique else unique ++ [a_Platform artifact]) a'
  end.
Definition Artifacts_Platforms (a : list Artifact) : list v1_Platform := platforms_from [] a.

(** [a.Add(artifacts)] *)
Definition Artifacts_Add (a artifacts : list Artifact) : list Artifact := a ++ artifacts.

(** [a.String()] *)
Definition Artifact_String (a : Artifact) : string :=
  Platform_String (a_Platform a) +:+ "[" +:+ Src a +:+ "->" +:+ Dst a +:+ "]".
End artifacts.

(** [a.copyFile(src, dst)] *)
Definition copyFile (src dst : string) : F unit :=
  _ ← F_wrap "open source file: " (OpenRead src);
  _ ← F_wrap "open destination file: "
        (OpenFile dst {| O_CREATE := true; O_EXCL := false; O_TRUNC := false |} 292);
  _ ← F_wrap "copy source file to destination file: " (content ← ReadFrom src; WriteTo dst content);
  F_wrap "close destination file: " (Close dst).

(** [os.CopyFS(dst, os.DirFS(src))]: what is below the directory, each file of
    which is opened before it is copied. *)
Definition open_entry (src : path) (entry : path * node) : F unit := fun m =>
  if is_dir entry.2 then (Ok tt, m)
  else F_wrap ("open " +:+ Join entry.1 "/" +:+ ": ") (syscall (open_read_at (super m) (src ++ entry.1))) m.

Definition copy_from (src dst : path) : F unit := fun m =>
  F_each (fun entry => _ ← open_entry src entry; copy_entry dst entry) (walk (subtree (tree_of m) src)) m.

(** [a.copyDir(src, dst)] *)
Definition copyDir (src dst : string) : F unit := fun m =>
  F_wrap "copy source dir to destination dir: " (copy_from (resolve m src) (resolve m dst)) m.

(** [a.removeDir(dstDir)] *)
Definition removeDir (dstDir : string) : F unit :=
  F_wrap ("remove destination directory " +:+ quote dstDir +:+ ": ") (RemoveAll dstDir).

(** What [FS] does in the temporary directory. *)
Definition fill (a : Artifact) (baseDir : string) : F unit := fun m =>
  let src := Clean (Src a) in
  let dst := PathJoin [baseDir; Clean (Dst a)] in
  (statSrc ← Stat src;
   _ ← F_wrap "create destination directories: " (MkdirAll (Dir_of m dst) 493);
   if is_dir statSrc then copyDir src dst else copyFile src dst) m.

(** [a.FS()]: the file system is that of a directory, which the caller removes;
    on an error it is removed here. *)
Definition Artifact_FS (TempDir : string) (a : Artifact) : F string :=
  baseDir ← F_wrap "create temporary directory: " (MkdirTemp TempDir "");
  filled ← F_try (fill a baseDir);
  match filled with
  | inl _ => mret baseDir
  | inr err => _ ← F_try (removeDir baseDir); F_lift (Err err)
  end.

(** ** image_factory.go *)

(** [type ImageFactory struct], but for its logger; the mutex serializes its
    archives. *)
Record ImageFactory := { if_workDir : string }.

Definition NewImageFactory : ImageFactory := {| if_workDir := "" |}.

(** What a factory computes: it may change its working directory. *)
Definition B (A : Type) : Type := ImageFactory -> machine -> res A * ImageFactory * machine.

#[global] Instance B_ret : MRet B := fun A a f m => (Ok a, f, m).
#[global] Instance B_bind : MBind B := fun A A' g c f m =>
  match c f m with
  | (Ok a, f, m) => g a f m
  | (Err e, f, m) => (Err e, f, m)
  | (Panic p, f, m) => (Panic p, f, m)
  | (OutOfFuel, f, m) => (OutOfFuel, f, m)
  end.
Definition B_lift {A} (c : F A) : B A := fun f m => let '(r, m) := c m in (r, f, m).
Definition B_wrap {A} (pre : string) (c : B A) : B A := fun f m =>
  let '(r, f, m) := c f m in (wrap_err pre r, f, m).
Definition B_defer {A} (c : B A) (deferred : F unit) : B A := fun f m =>
  let '(r, f, m) := c f m in (r, f, (deferred m).2).
Fixpoint B_map {A A'} (g : A -> B A') (l : list A) : B (list A') :=
  match l with
  | [] => mret []
  | x :: l' => y ← g x; ys ← B_map g l'; mret (y :: ys)
  end.

(** The libraries a factory uses: SHA-256 in hexadecimal, the compression of an
    archive, which may refuse its options, the bytes of an archive that is being
    written (after some entries, once the tar writer is closed, once the compression
    is), and go-containerregistry.  A layer is made of an opener, which is called to
    compute the digests of the layer, and again whenever the layer is read; images
    and indexes are values. *)
Class ImageBuilder := {
  sha256_hex : string -> string;
  zstd_NewWriter : res unit;
  archive_added : list tar_entry -> string;
  archive_tar_closed : list tar_entry -> string;
  archive_closed : list tar_entry -> string;
  LocalLayer : Type;
  LayerFromOpener : F string -> string -> F LocalLayer;
  layer_Compressed : LocalLayer -> F string;
  v1_Image : Type;
  empty_Image : v1_Image;
  Image_Annotations : v1_Image -> string -> string -> v1_Image;
  Image_MediaType : v1_Image -> string -> v1_Image;
  Image_ConfigFile : v1_Image -> res v1_Image;
  AppendLayers : v1_Image -> list LocalLayer -> res v1_Image;
  v1_ImageIndex : Type;
  empty_Index : v1_ImageIndex;
  Index_Annotations : v1_ImageIndex -> string -> string -> v1_ImageIndex;
  AppendManifests : v1_ImageIndex -> v1_Image -> string -> v1_Platform -> v1_ImageIndex;
  Index_Digest : v1_ImageIndex -> res (string * string)
}.

Section factory.
  Context `{PL : Platforms} `{IB : ImageBuilder}.
  Context (TempDir : string).

Definition StepsOCILayerZSTD : string := "application/vnd.gitlab.step.layer.v1.tar+zstd".
Definition OCIManifestSchema1 : string := "application/vnd.oci.image.manifest.v1+json".
Definition created_annotation : string := "org.opencontainers.image.created".

(** [f.createWorkDir()] *)
Definition if_createWorkDir : B string := fun f m =>
  if String.eqb (if_workDir f) "" then
    match F_wrap "creating work dir: " (MkdirTemp TempDir "") m with
    | (Ok dir, m) => (Ok dir, {| if_workDir := dir |}, m)
    | (r, m) => (r, f, m)
    end
  else (Ok (if_workDir f), f, m).

(** The entry of [tw.AddFS(fsys)] for a directory, whose name ends in a slash, or
    a regular file. *)
Definition tar_header (rel : path) (n : node) (content : string) : tar_entry :=
  match n with
  | Dir _ => {| hdr_Name := Join rel "/" +:+ "/"; hdr_Typeflag := TypeDir; hdr_Content := ""; hdr_Error := None |}
  | File _ _ => {| hdr_Name := Join rel "/"; hdr_Typeflag := TypeReg; hdr_Content := content; hdr_Error := None |}
  end.

(** What [fs.WalkDir(fsys, ".", …)] visits of a directory but the directory. *)
Definition dir_entries (dir : string) : F (list (path * node)) := fun m =>
  syscall (fun t =>
    match look t (resolve m dir) with
    | None => Err (WrapError "stat .: " (SysError ENOENT) "")
    | Some _ => Ok (tail (walk (subtree t (resolve m dir))), t)
    end) m.

(** Reading a file of [os.DirFS(dir)]. *)
Definition read_entry (dir : string) (rel : path) : F string := fun m =>
  F_wrap ("open " +:+ Join rel "/" +:+ ": ") (syscall (read_file_at (super m) (resolve m dir ++ rel))) m.

(** The loop of [tw.AddFS(fsys)], with the entries that are written. *)
Fixpoint add_entries (archiveName dir : string) (added : list tar_entry) (l : list (path * node)) :
    F (list tar_entry) :=
  match l with
  | [] => mret added
  | (rel, n) :: l' =>
      content ← (if is_dir n then mret "" else read_entry dir rel);
      let added := added ++ [tar_header rel n content] in
      _ ← WriteTo archiveName (archive_added added);
      add_entries archiveName dir added l'
  end.

(** [tw.AddFS(os.DirFS(dir))] *)
Definition AddFS (archiveName dir : string) : F (list tar_entry) :=
  l ← dir_entries dir; add_entries archiveName dir [] l.

(** [f.archive(archiveFS)] in the working directory: an archive that is there is
    used again. *)
Definition archive_in (workDir archiveFS : string) : F string :=
  let archiveName := PathJoin [workDir; sha256_hex archiveFS +:+ ".tar.zstd"] in
  exists_ ← F_try (Stat archiveName);
  match exists_ with
  | inl _ => mret archiveName
  | inr _ =>
      _ ← F_wrap ("archive " +:+ archiveName +:+ ": creating file: ")
            (OpenFile archiveName {| O_CREATE := true; O_EXCL := false; O_TRUNC := true |} 438);
      _ ← F_wrap ("archive " +:+ archiveName +:+ ": creating zstd writer: ") (F_lift zstd_NewWriter);
      added ← F_wrap ("archive: tar directory " +:+ archiveFS +:+ ": ") (AddFS archiveName archiveFS);
      _ ← F_wrap ("archive " +:+ archiveName +:+ ": closing tar writer: ")
            (WriteTo archiveName (archive_tar_closed added));
      _ ← F_wrap ("archive " +:+ archiveName +:+ ": closing zstd writer: ")
            (WriteTo archiveName (archive_closed added));
      _ ← F_wrap ("archive " +:+ archiveName +:+ ": closing file: ") (Close archiveName);
      mret archiveName
  end.

Definition archive (archiveFS : string) : B string :=
  workDir ← B_wrap ("archive " +:+ archiveFS +:+ ": ") if_createWorkDir;
  B_lift (archive_in workDir archiveFS).

(** [f.BuildLayer(archiveFS)]: the opener opens the archive by its name. *)
Definition BuildLayer (archiveFS : string) : B LocalLayer :=
  archiveName ← B_wrap "creating layer: " (archive archiveFS);
  B_lift (F_wrap "creating layer: " (LayerFromOpener (ReadFile archiveName) StepsOCILayerZSTD)).

(** [f.CleanUp()] *)
Definition if_CleanUp (f : ImageFactory) (m : machine) : ImageFactory * machine :=
  ({| if_workDir := "" |}, (RemoveAll (if_workDir f) m).2).

(** [f.BuildImage(createdAt, layers...)], of a time in the format of RFC 3339. *)
Definition BuildImage (createdAt : string) (layers : list LocalLayer) : res v1_Image :=
  let image := Image_Annotations empty_Image created_annotation createdAt in
  let image := Image_MediaType image OCIManifestSchema1 in
  image ← Image_ConfigFile image or_wrap "build image: empty config: ";
  AppendLayers image layers or_wrap "build image: appending layers: ".

(** ** platform_image.go *)

Record PlatformImage := {
  pi_Image : v1_Image;
  pi_Platform : v1_Platform
}.

(** [i.NormalizedPlatform()] *)
Definition NormalizedPlatform (i : PlatformImage) : v1_Platform :=
  let p := pi_Platform i in
  let normalized := Normalize {|
    Architecture := v1_Architecture p;
    OS := v1_OS p;
    OSVersion := v1_OSVersion p;
    OSFeatures := v1_OSFeatures p;
    Variant := v1_Variant p |} in
  {| v1_Architecture := Architecture normalized;
     v1_OS := OS normalized;
     v1_OSVersion := OSVersion normalized;
     v1_OSFeatures := OSFeatures normalized;
     v1_Variant := Variant normalized;
     v1_Features := v1_Features p |}.

(** [f.BuildImageIndex(createdAt, imagePlatforms...)] *)
Definition BuildImageIndex (createdAt : string) (imagePlatforms : list PlatformImage) : v1_ImageIndex :=
  foldl (fun index imgPlatform =>
           AppendManifests index (pi_Image imgPlatform) OCIManifestSchema1 (NormalizedPlatform imgPlatform))
    (Index_Annotations empty_Index created_annotation createdAt) imagePlatforms.

(** ** releaser.go *)

(** [r.buildImageLayer(factory, artifact)] *)
Definition buildImageLayer (artifact : Artifact) : B LocalLayer :=
  dir ← B_lift (Artifact_FS TempDir artifact);
  B_defer (BuildLayer dir) (removeDir dir).

(** [r.buildImageLayers(factory, artifacts)] *)
Definition buildImageLayers (artifacts : list Artifact) : B (list LocalLayer) :=
  B_map (fun artifact => B_wrap (Artifact_String artifact +:+ ": ") (buildImageLayer artifact)) artifacts.

(** The image of one platform. *)
Definition buildPlatformImage (createdAt : string) (common platformSpecific : list Artifact)
    (platform : v1_Platform) : B PlatformImage :=
  layers ← buildImageLayers (Artifacts_Add common (ForPlatform platformSpecific platform));
  image ← B_lift (F_lift (BuildImage createdAt layers));
  mret {| pi_Image := image; pi_Platform := platform |}.

(** [r.buildImageIndex(factory, common, platformSpecific)] at a time. *)
Definition buildImageIndex (createdAt : string) (common platformSpecific : list Artifact) : B v1_ImageIndex :=
  imagePlatforms ← B_map (buildPlatformImage createdAt common platformSpecific)
                     (Artifacts_Platforms platformSpecific);
  mret (BuildImageIndex createdAt imagePlatforms).
End factory.

(** A registry that images are published to: whether it answers a descriptor for
    a reference, and what a push, which reads the layers, changes. *)
Class Publisher `{IN : ImageName} `{IB : ImageBuilder} (R : Type) := {
  remote_Head : R -> Reference -> bool;
  push_WriteIndex : R -> Reference -> v1_ImageIndex -> machine -> (option error * R) * machine
}.

Section releaser.
  Context `{WS : WordSize} `{PL : Platforms} `{PB : Publisher}.
  Context (TempDir createdAt : string).

(** [r.alreadyPublished(ctx, imgRef)] *)
Definition alreadyPublished (reg : R) (imgRef : Reference) : bool := remote_Head reg imgRef.

(** [r.pushImageIndex(ctx, ref, imageIndex)] *)
Definition pushImageIndex (reg : R) (ref : Reference) (imageIndex : v1_ImageIndex) (m : machine) :
    res unit * R * machine :=
  match Index_Digest imageIndex or_wrap "getting digest of image index: " with
  | Ok _ =>
      match push_WriteIndex reg ref imageIndex m with
      | (Some err, reg, m) => (Err (WrapError "push index image: " err ""), reg, m)
      | (None, reg, m) => (Ok tt, reg, m)
      end
  | Err err => (Err err, reg, m)
  | Panic why => (Panic why, reg, m)
  | OutOfFuel => (OutOfFuel, reg, m)
  end.

(** [r.Release(ctx, remoteImgRef, common, platformSpecific)]: the factory is
    cleaned up at the end. *)
Definition Release (remoteImgRef : Reference) (common platformSpecific : list Artifact) (reg : R) (m : machine) :
    res v1_ImageIndex * R * machine :=
  let '(r, reg, f, m) :=
    if alreadyPublished reg remoteImgRef then
      (Err (NewError ("image already published: " +:+ ref_String remoteImgRef)), reg, NewImageFactory, m)
    else
      match buildImageIndex TempDir createdAt common platformSpecific NewImageFactory m with
      | (Ok imageIndex, f, m) =>
          match pushImageIndex reg remoteImgRef imageIndex m with
          | (Ok _, reg, m) => (Ok imageIndex, reg, f, m)
          | (Err err, reg, m) => (Err err, reg, f, m)
          | (Panic why, reg, m) => (Panic why, reg, f, m)
          | (OutOfFuel, reg, m) => (OutOfFuel, reg, f, m)
          end
      | (r, f, m) => (r, reg, f, m)
      end in
  (r, reg, (if_CleanUp f m).2).

(** ** inputs.go *)

(** The values of the platforms input. *)
Record platform_spec := {
  ps_OSVersion : string;
  ps_OSFeatures : list string;
  ps_Variant : string;
  ps_Features : list string;
  ps_Files : gmap string string
}.

(** The JSON decoder, which refuses unknown fields, at the two types of inputs. *)
Context (Decode_platforms : string -> res (gmap string platform_spec)).
Context (Decode_common : string -> res (gmap string string)).
Context (is_ErrUnexpectedEOF : error -> bool).

(** [unmarshal(jsonInput, into)] *)
Definition unmarshal {A} (Decode : string -> res A) (jsonInput : string) : res A :=
  match Decode jsonInput with
  | Err err => if is_ErrUnexpectedEOF err then Err (NewError "unexpected end of JSON input") else Err err
  | r => r
  end.

(** [trimSpaceInStrings(values)] *)
Definition trimSpaceInStrings (values : list string) : list string := TrimSpace <$> values.

(** [slices.Sorted(maps.Keys(m))] *)
Definition string_le (a b : string) : Prop := String.leb a b = true.
#[local] Instance string_le_dec : RelDecision string_le.
Proof. intros a b. unfold string_le. apply _. Defined.
Definition sorted_keys {A} (m : gmap string A) : list string := merge_sort string_le (map_to_list m).*1.

(** [buildArtifacts(platform, srcDst)] *)
Definition buildArtifacts (platform : v1_Platform) (srcDst : gmap string string) : res (list Artifact) :=
  slice_map (fun srcPath =>
    let dstPath := default "" (srcDst !! srcPath) in
    let src := TrimSpace srcPath in
    let dst := TrimSpace dstPath in
    if String.eqb src "" then
      Err (NewError ("empty source path: " +:+ quote srcPath +:+ ": " +:+ quote dstPath))
    else if String.eqb dst "" then
      Err (NewError ("empty destination path: " +:+ quote srcPath +:+ ": " +:+ quote dstPath))
    else Ok (NewArtifact platform src dst)) (sorted_keys srcDst).

(** [parseCommon(filesJSON)] *)
Definition parseCommon (filesJSON : string) : res (list Artifact) :=
  files ← unmarshal Decode_common filesJSON; buildArtifacts PlatformGeneric files.

(** The platform of a name and what the input says of it. *)
Definition named_platform (os arch : string) (spec : platform_spec) : v1_Platform := {|
  v1_OS := TrimSpace os;
  v1_Architecture := TrimSpace arch;
  v1_OSVersion := TrimSpace (ps_OSVersion spec);
  v1_OSFeatures := trimSpaceInStrings (ps_OSFeatures spec);
  v1_Variant := TrimSpace (ps_Variant spec);
  v1_Features := trimSpaceInStrings (ps_Features spec) |}.

(** The loop of [parsePlatforms] over the names, with the artifacts so far. *)
Fixpoint parse_platforms (parsed : list (string * platform_spec)) (allArtifacts : list Artifact) :
    res (list Artifact) :=
  match parsed with
  | [] => Ok allArtifacts
  | (platformName, spec) :: parsed' =>
      match Split platformName "/" with
      | [os; arch] =>
          let platform := named_platform os arch spec in
          match ForPlatform allArtifacts platform with
          | _ :: _ => Err (NewError ("platform " +:+ dquote +:+ v1_OS platform +:+ "/" +:+
                                     v1_Architecture platform +:+ dquote +:+ " defined more than once"))
          | [] =>
              artifacts ← buildArtifacts platform (ps_Files spec) or_wrap ": ";
              parse_platforms parsed' (Artifacts_Add allArtifacts artifacts)
          end
      | _ => Err (NewError ("invalid platform os/arch: " +:+ platformName))
      end
  end.

(** [parsePlatforms(platformsJSON)] *)
Definition parsePlatforms (platformsJSON : string) : res (list Artifact) :=
  parsed ← unmarshal Decode_platforms platformsJSON;
  if decide (parsed = ∅) then Err (NewError "must have at least one platform")
  else
    parse_platforms (list_omap _ _ (fun name => (fun spec => (name, spec)) <$> parsed !! name) (sorted_keys parsed)) [].

(** [parseImageRef(registry, repository, tag)] *)
Definition parseImageRef (registry repository tag : string) : res Reference :=
  let registry := TrimSpace registry in
  let repository := TrimSpace repository in
  let tag := TrimSpace tag in
  if String.eqb registry "" then Err (NewError "registry is required")
  else if String.eqb repository "" then Err (NewError "repository is required")
  else if String.eqb tag "" then Err (NewError "tag is required")
  else ParseReference (PathJoin [registry; repository] +:+ ":" +:+ tag) or_wrap "parsing image reference: ".

Record BuildInputs := {
  ImageRef : Reference;
  Common : list Artifact;
  PlatformSpecific : list Artifact;
  BuildLogLevel : Z;
  BuildOutputFile : string
}.

(** [ParseInputs(args, getenv)] *)
Definition build_ParseInputs (args : list string) (getenv : string -> string) : F BuildInputs :=
  '(vals, _) ← F_lift (flag_parse ["registry"; "repository"; "tag"; "common"; "platforms"; "output_file"] args ∅);
  imageRef ← F_lift (parseImageRef (flag_value vals "registry") (flag_value vals "repository")
                       (flag_value vals "tag") or_wrap "image ref: ");
  common ← F_lift (parseCommon (flag_value vals "common") or_wrap "common input: ");
  platform ← F_lift (parsePlatforms (flag_value vals "platforms") or_wrap "platforms input: ");
  logLevel ← F_lift (parseLogLevel (getenv "CI_STEPS_LOG_LEVEL") or_wrap "log level: ");
  _ ← F_wrap "output file is required: " (Stat (flag_value vals "output_file"));
  mret {| ImageRef := imageRef; Common := common; PlatformSpecific := platform; BuildLogLevel := logLevel;
          BuildOutputFile := flag_value vals "output_file" |}.

(** ** outputs.go *)

(** The value of an output: a text, or a structure of texts. *)
Inductive OutputValue := OutString (s : string) | OutStruct (fields : list (string * string)).

(** [json.Marshal] of an output. *)
Context (json_output : string -> OutputValue -> res string).

(** [o.Write(imgRef, image)]: the outputs it writes. *)
Definition build_outputs (imgRef : Reference) (digest : string * string) : list (string * OutputValue) := [
  ("registry", OutString (ref_RegistryStr imgRef));
  ("repository", OutString (ref_RepositoryStr imgRef));
  ("tag", OutString (ref_Identifier imgRef));
  ("ref", OutString (ref_String imgRef));
  ("digest", OutStruct [("algorithm", digest.1); ("hash", digest.2); ("value", digest.1 +:+ ":" +:+ digest.2)])].

(** [o.writeValue(outputValue, writer)] for each output, after what is written. *)
Fixpoint write_outputs (outputFile written : string) (outputs : list (string * OutputValue)) : F unit :=
  match outputs with
  | [] => mret tt
  | (name, value) :: outputs' =>
      bytes ← F_lift (json_output name value or_wrap ("value " +:+ name +:+ ": marshal json: "));
      _ ← F_wrap ("value " +:+ name +:+ ": write json to file: ") (WriteTo outputFile (written +:+ bytes));
      let written := written +:+ bytes +:+ newline in
      _ ← F_wrap ("value " +:+ name +:+ ": write new line to file: ") (WriteTo outputFile written);
      write_outputs outputFile written outputs'
  end.

Definition build_Outputs_Write (outputFile : string) (imgRef : Reference) (image : v1_ImageIndex) : F unit :=
  _ ← F_wrap "opening output file: "
        (OpenFile outputFile {| O_CREATE := true; O_EXCL := false; O_TRUNC := true |} 438);
  digest ← F_lift (Index_Digest image or_wrap "getting digest of image index: ");
  _ ← write_outputs outputFile "" (build_outputs imgRef digest);
  F_wrap "close output file: " (Close outputFile).

(** ** main.go *)

(** [run(args, getEnv)] *)
Definition build_run (args : list string) (getenv : string -> string) (reg : R) (m : machine) :
    res unit * R * machine :=
  match build_ParseInputs args getenv m with
  | (Ok inputs, m) =>
      match Release (ImageRef inputs) (Common inputs) (PlatformSpecific inputs) reg m with
      | (Ok imageIndex, reg, m) =>
          let '(r, m) := build_Outputs_Write (BuildOutputFile inputs) (ImageRef inputs) imageIndex m in (r, reg, m)
      | (Err err, reg, m) => (Err err, reg, m)
      | (Panic why, reg, m) => (Panic why, reg, m)
      | (OutOfFuel, reg, m) => (OutOfFuel, reg, m)
      end
  | (Err err, m) => (Err err, reg, m)
  | (Panic why, m) => (Panic why, reg, m)
  | (OutOfFuel, m) => (OutOfFuel, reg, m)
  end.
End releaser.
