(* ===== verification/OCIBuildFacts.v ===== *)
(** Building an image: the image of each platform has a layer for every artifact
    it should have, with the files of that artifact, and a layer that is built
    and then written to disk gives these files again. *)

From stdpp Require Import gmap strings list sorting.
From S2P Require Import Prelude GoStrings GoPaths GoNumbers GoFiles GoFilesFacts Promote OCIFetch OCIFetchFacts OCIBuild.
Open Scope go_scope.
Open Scope string_scope.
Open Scope list_scope.

#[global] Arguments look : simpl never.
#[global] Arguments resolve : simpl never.

(** ** Calls that draw no random number *)

Definition keeps_random {A} (c : F A) : Prop := forall m, random (c m).2 = random m.

Lemma keeps_ret {A} (a : A) : keeps_random (mret a).
Proof. done. Qed.

Lemma keeps_lift {A} (r : res A) : keeps_random (F_lift r).
Proof. done. Qed.

Lemma keeps_bind {A A'} (c : F A) (f : A -> F A') :
  keeps_random c -> (forall a, keeps_random (f a)) -> keeps_random (c ≫= f).
Proof.
  intros Hc Hf m. specialize (Hc m). unfold mbind, F_bind. destruct (c m) as [[a|e|w|] m']; try done.
  cbn in Hc. by rewrite Hf.
Qed.

Lemma keeps_post {A A'} (c : F A) (g : res A -> res A') :
  keeps_random c -> keeps_random (fun m => let '(r, m') := c m in (g r, m')).
Proof. intros Hc m. specialize (Hc m). by destruct (c m). Qed.

Lemma keeps_wrap {A} pre (c : F A) : keeps_random c -> keeps_random (F_wrap pre c).
Proof. apply keeps_post. Qed.

Lemma keeps_try {A} (c : F A) : keeps_random c -> keeps_random (F_try c).
Proof. intros Hc m. specialize (Hc m). unfold F_try. by destruct (c m) as [[] ]. Qed.

Lemma keeps_each {A} (f : A -> F unit) l : (forall x, keeps_random (f x)) -> keeps_random (F_each f l).
Proof. intros Hf. induction l; [apply keeps_ret|]. by apply keeps_bind. Qed.

Lemma keeps_syscall {A} (f : tree -> res (A * tree)) : keeps_random (syscall f).
Proof.
  intros m. unfold syscall. destruct (faults m) as [|[flt|] fs]; [|done|]; cbn; by destruct (f (tree_of m)) as [[]| | |].
Qed.

Lemma keeps_path_call {A} (op p : string) (f : path -> tree -> res (A * tree)) : keeps_random (path_call op p f).
Proof.
  intros m. unfold path_call. set (g := fun t => _). pose proof (keeps_syscall g m). by destruct (syscall g m).
Qed.

Lemma keeps_write_at (p : path) (data : string) : keeps_random (write_at p data).
Proof. intros m. unfold write_at. by destruct (faults m) as [|[]]. Qed.

Lemma keeps_WriteTo (name data : string) : keeps_random (WriteTo name data).
Proof. intros m. unfold WriteTo. pose proof (keeps_write_at (resolve m name) data m). by destruct (write_at _ _ _). Qed.

Lemma keeps_OpenFile name flags perm : keeps_random (OpenFile name flags perm).
Proof. intros m. apply keeps_path_call. Qed.

Lemma keeps_OpenRead name : keeps_random (OpenRead name).
Proof. intros m. apply keeps_path_call. Qed.

Lemma keeps_ReadFile name : keeps_random (ReadFile name).
Proof. intros m. apply keeps_path_call. Qed.

Lemma keeps_RemoveAll name : keeps_random (RemoveAll name).
Proof. intros m. unfold RemoveAll. destruct (String.eqb name ""); [done|]. apply keeps_syscall. Qed.

Lemma keeps_mkdir_all (p : path) (perm : N) : keeps_random (mkdir_all p perm).
Proof.
  apply keeps_each. intros q m. unfold mkdir_step. destruct (look _ _) as [[]|]; [done..|]. apply keeps_syscall.
Qed.

Create HintDb random.
Lemma keeps_Close name : keeps_random (Close name).
Proof. apply keeps_path_call. Qed.

Lemma keeps_close_at (p : path) : keeps_random (close_at p).
Proof. apply keeps_wrap, keeps_syscall. Qed.

#[export] Hint Resolve keeps_Close keeps_close_at keeps_ret keeps_lift keeps_bind keeps_wrap keeps_try keeps_each keeps_syscall keeps_path_call
  keeps_write_at keeps_WriteTo keeps_OpenFile keeps_OpenRead keeps_ReadFile keeps_RemoveAll keeps_mkdir_all : random.

Lemma keeps_copy_entry (dir : path) (entry : path * node) : keeps_random (copy_entry dir entry).
Proof.
  intros m. unfold copy_entry. destruct entry.2; [apply keeps_mkdir_all|]. apply keeps_bind; [apply keeps_syscall|].
  intros _. apply keeps_bind; auto with random.
Qed.

Lemma keeps_fill a baseDir : keeps_random (fill a baseDir).
Proof.
  intros m. unfold fill. apply keeps_bind; [apply keeps_path_call|]. intros n. apply keeps_bind.
  { apply keeps_wrap. intros m'. apply keeps_mkdir_all. }
  intros _. destruct (is_dir n).
  - intros m'. unfold copyDir. apply keeps_wrap. intros m2. unfold copy_from. apply keeps_each.
    intros kn. apply keeps_bind; [|intros; apply keeps_copy_entry]. intros m3.
    unfold open_entry. destruct (is_dir _); [done|]. apply keeps_wrap, keeps_syscall.
  - unfold copyFile. apply keeps_bind; [auto with random|]. intros _. apply keeps_bind; [auto with random|].
    intros _. apply keeps_bind; [|auto with random]. apply keeps_wrap, keeps_bind; [apply keeps_path_call|]. auto with random.
Qed.

(** ** The files of an artifact *)

(** What a file system is, but for the modes: a directory, or a file with its
    content. *)
Definition shape (n : node) : option string := match n with Dir _ => None | File _ content => Some content end.

(** What an artifact puts at [r]: what is at the source [S], at the destination
    [rel], and the directories on the way. *)
Definition artifact_shape (t : tree) (S rel r : path) : option (option string) :=
  match strip rel r with
  | Some r' => shape <$> t !! (S ++ r')
  | None => if below r rel then Some None else None
  end.

(** What is in a directory. *)
Definition closed_tree (t : tree) : Prop :=
  forall p x rel, p <> [] -> is_Some (t !! (p ++ x :: rel)) -> exists mode, t !! p = Some (Dir mode).

(** The source of an artifact can be read, and its destination is below the
    directory it is joined to. *)
Record artifact_ok (m : machine) (T S rel : path) (a : Artifact) : Prop := {
  ok_src : resolve m (Clean (Src a)) = S;
  ok_dst : name_elems (Clean (Dst a)) = rel;
  ok_down : Forall no_up (Split (Clean (Dst a)) "/");
  ok_outside : below S T = false;
  ok_exists : is_Some (tree_of m !! S);
  ok_readable : forall r mode c, tree_of m !! (S ++ r) = Some (File mode c) -> readable (super m) mode = true;
  ok_rooted : rel = [] -> exists mode, tree_of m !! S = Some (Dir mode)
}.

Lemma shape_copied n : shape (copied n) = shape n.
Proof. by destruct n. Qed.

Lemma Clean_nonempty s : Clean s <> "".
Proof.
  unfold Clean. destruct (HasPrefix s "/"); [done|]. by destruct (String.eqb_spec (Join (clean_elems s) "/") "").
Qed.

Lemma Forall_snoc {A} (P : A -> Prop) (l : list A) x : Forall P (l ++ [x]) <-> Forall P l /\ P x.
Proof. rewrite Forall_app, Forall_singleton. done. Qed.

(** A directory that is there, and in which nothing is. *)
Definition empty_dir (t : tree) (D : path) : Prop :=
  dirs_to t D /\ forall p, inside D p = true -> t !! p = None.

Lemma with_dirs_outside (t : tree) (D q : path) perm p :
  dirs_to t D -> inside D p = false -> with_dirs t (D ++ q) perm p = t !! p.
Proof.
  intros Hd Hp. unfold with_dirs. case_decide as Hq; [|done]. destruct Hq as [Ha Hn].
  rewrite ancestors_app in Ha. apply elem_of_app in Ha as [Ha|Ha].
  - destruct (Hd p Ha) as [mode ?]. congruence.
  - apply list_elem_of_fmap in Ha as (r & -> & [Hr _]%elem_of_ancestors). destruct r as [|x r]; [done|].
    by rewrite inside_app in Hp.
Qed.

Lemma elem_of_ancestors_app (D q r : path) : r <> [] -> D ++ r ∈ ancestors (D ++ q) <-> below r q = true.
Proof.
  intros Hr. rewrite elem_of_ancestors, below_spec. split.
  - intros [_ [rel H]]. rewrite <- app_assoc in H. apply app_inv_head in H as ->. by exists rel.
  - intros [rel ->]. split; [by destruct D, r|]. exists rel. by rewrite app_assoc.
Qed.

Lemma with_dirs_inside (t : tree) (D q r : path) perm :
  empty_dir t D -> r <> [] -> with_dirs t (D ++ q) perm (D ++ r) = if below r q then Some (Dir (umask perm)) else None.
Proof.
  intros [_ He] Hr. assert (t !! (D ++ r) = None) as Hn by (apply He; destruct r; [done|apply inside_app]).
  unfold with_dirs. destruct (below r q) eqn:Hb.
  - apply decide_True. by rewrite elem_of_ancestors_app.
  - rewrite decide_False; [done|]. rewrite elem_of_ancestors_app by done. by intros [? _]; congruence.
Qed.

(** Making the directory of the destination. *)
Lemma wp_mkdir_dst (D rel : path) (m0 m : machine) dst :
  empty_dir (tree_of m) D -> D <> [] -> Forall good_elem (D ++ rel) -> resolve m0 dst = D ++ rel ->
  wp (MkdirAll (Dir_of m0 dst) 493) m (fun _ t1 => only_inside D (tree_of m) t1 /\
    forall r, r <> [] -> t1 !! (D ++ r) = if below r (removelast rel) && negb (bool_decide (rel = [])) then Some (Dir 493) else None).
Proof.
  intros He HD Hg Hr. unfold wp. rewrite MkdirAll_named by by apply absolute_nonempty, path_string_absolute.
  unfold Dir_of, parent. rewrite Hr.
  assert (D ++ rel <> []) as Hne0 by (by destruct D).
  assert (Forall good_elem (removelast (D ++ rel))) as Hg'.
  { destruct (exists_last Hne0) as (l & x & E). rewrite E in *. rewrite removelast_last.
    by apply Forall_snoc in Hg as [? _]. }
  rewrite resolve_path_string by done. fold (wp (mkdir_all (removelast (D ++ rel)) 493) m (fun _ t1 =>
    only_inside D (tree_of m) t1 /\ forall r, r <> [] -> t1 !! (D ++ r) =
      if below r (removelast rel) && negb (bool_decide (rel = [])) then Some (Dir 493) else None)).
  assert (no_file_to (tree_of m) (removelast (D ++ rel))) as Hno.
  { intros q (Hq & r & E)%elem_of_ancestors.
    destruct (exists_last Hne0) as (l & x & E'). rewrite E', removelast_last in E. subst l.
    destruct (inside D q) eqn:Hi; [by rewrite (proj2 He)|].
    destruct (prefixes_comparable D q rel (r ++ [x])) as [Hb|Hb]; [by rewrite E', app_assoc| |].
    - apply below_inside in Hb as [->|Hb]; [|congruence]. destruct (proj1 He D) as [mode ->]; [|done].
      apply elem_of_ancestors. split; [done|]. exists []. by rewrite app_nil_r.
    - apply below_spec in Hb as [r' ->]. destruct (proj1 He q) as [mode ->]; [|done].
      apply elem_of_ancestors. split; [done|]. by exists r'. }
  eapply wp_mono; [by apply wp_mkdir_all|]. intros [] t1 Ht1. cbn beta in Ht1. destruct (decide (rel = [])) as [->|Hne].
  - rewrite app_nil_r in *. destruct (exists_last HD) as (l & x & ->). rewrite removelast_last in Ht1.
    assert (forall p, t1 !! p = tree_of m !! p) as E.
    { intros p. rewrite Ht1. unfold with_dirs. case_decide as Hp; [|done]. destruct Hp as [(Hp & r & ->)%elem_of_ancestors Hn].
      destruct (proj1 He p) as [mode ?]; [|congruence]. apply elem_of_ancestors. split; [done|].
      exists (r ++ [x]). by rewrite app_assoc. }
    split; [by intros p _; rewrite E|]. intros r Hr'. rewrite E, bool_decide_true, andb_false_r by done.
    apply He. destruct r; [done|apply inside_app].
  - rewrite removelast_app in Ht1 by done. split.
    + intros p Hp. rewrite Ht1. apply with_dirs_outside; [apply He|done].
    + intros r Hr'. rewrite Ht1, (with_dirs_inside _ _ _ _ _ He Hr'), bool_decide_false, andb_true_r by done. done.
Qed.

(** ** Copying a file *)

Lemma wp_copyFile src dst (S P : path) x mode c (m : machine) :
  src <> "" -> resolve m src = S -> S <> [] -> tree_of m !! S = Some (File mode c) -> readable (super m) mode = true ->
  dst <> "" -> resolve m dst = P ++ [x] -> dirs_to (tree_of m) P -> tree_of m !! (P ++ [x]) = None ->
  wp (copyFile src dst) m (fun _ t => t = <[P ++ [x] := File 292 c]> (tree_of m)).
Proof.
  intros Hsrc HS HS' Hn Hr Hdst HD Hd Hnew. unfold copyFile.
  apply wp_bind, wp_wrap. eapply wp_mono; [by eapply wp_OpenRead|]. cbn. intros [] t -> m1 Hs1 E1.
  assert (forall m', same_process m m' -> resolve m' src = S /\ resolve m' dst = P ++ [x]) as Hres.
  { intros m' [Hc _]. unfold resolve in *. by rewrite Hc. }
  apply wp_bind, wp_wrap. eapply wp_mono.
  { apply (wp_OpenFile_new dst P x); [done|by apply Hres|by rewrite E1|by rewrite E1|done]. }
  cbn. intros [] t -> m2 Hs2 E2. rewrite E1 in E2.
  assert (same_process m m2) as Hs by by etrans. apply wp_bind, wp_wrap, wp_bind. eapply wp_mono.
  { apply (wp_ReadFrom src S mode c); [done|by apply Hres|done|]. rewrite E2, lookup_insert_ne; [done|congruence]. }
  cbn. intros c' t [-> ->] m3 Hs3 E3. eapply wp_mono.
  { apply (wp_WriteTo dst (P ++ [x]) (umask 292) ""); [apply Hres; by etrans| |cbn; lia].
    by rewrite E3, E2, lookup_insert_eq. }
  cbn. intros [] t -> m4 _ E4. apply wp_wrap. eapply wp_mono; [by apply wp_Close|].
  cbn. intros [] t ->. by rewrite E4, E3, E2, insert_insert_eq.
Qed.

(** ** Filling the temporary directory *)

(** What the temporary directory [D] holds when the artifact is in it. *)
Definition filled (m : machine) (S rel D : path) (t : tree) : Prop :=
  only_inside D (tree_of m) t /\
  (forall r, r <> [] -> shape <$> t !! (D ++ r) = artifact_shape (tree_of m) S rel r) /\
  (forall r mode c, r <> [] -> t !! (D ++ r) = Some (File mode c) -> N.testbit mode 8 = true).

Lemma strip_below r rel : strip rel r = None -> below rel r = false.
Proof. unfold below. by intros ->. Qed.

Lemma below_removelast (r rel : path) :
  rel <> [] -> below r rel = true -> r <> rel -> below r (removelast rel) = true.
Proof.
  intros Hne. destruct (exists_last Hne) as (q & x & ->). rewrite removelast_last. intros [s Hs]%below_spec Hr.
  destruct (decide (s = [])) as [->|Hs']; [by rewrite app_nil_r in Hs|]. destruct (exists_last Hs') as (s' & y & ->).
  rewrite app_assoc in Hs. apply app_inj_tail in Hs as [-> _]. apply below_spec. by exists s'.
Qed.

Lemma below_removelast_inv (r rel : path) :
  rel <> [] -> below r (removelast rel) = true -> below r rel = true /\ r <> rel.
Proof.
  intros Hne. destruct (exists_last Hne) as (q & x & ->). rewrite removelast_last. intros [s ->]%below_spec. split.
  - apply below_spec. exists (s ++ [x]). by rewrite app_assoc.
  - intros H. apply (f_equal length) in H. rewrite !length_app in H. cbn in H. lia.
Qed.

Lemma strip_self (r : path) : strip r r = Some [].
Proof. rewrite <- (app_nil_r r) at 2. apply strip_app. Qed.

Lemma below_antisym (a b : path) : below a b = true -> below b a = true -> a = b.
Proof.
  intros [r ->]%below_spec [s Hs]%below_spec. rewrite <- app_assoc in Hs.
  rewrite <- (app_nil_r a) in Hs at 1. apply app_inv_head in Hs. symmetry in Hs. apply app_eq_nil in Hs as [-> _].
  by rewrite app_nil_r.
Qed.

(** The copied file at its place. *)
Lemma filled_file (m : machine) (S q D : path) x mode c t1 :
  closed_tree (tree_of m) -> S <> [] -> tree_of m !! S = Some (File mode c) -> only_inside D (tree_of m) t1 ->
  (forall r, r <> [] -> t1 !! (D ++ r) = if below r q then Some (Dir 493) else None) ->
  filled m S (q ++ [x]) D (<[D ++ q ++ [x] := File 292 c]> t1).
Proof.
  intros Hclosed HS Hn Hout Hin.
  assert (exists y l, q ++ [x] = y :: l) as (y & l & Ey) by (destruct q; eauto).
  split; [|split].
  - rewrite Ey. etrans; [exact Hout|apply only_inside_insert].
  - intros r Hr. destruct (decide (r = q ++ [x])) as [->|Hne].
    + rewrite lookup_insert_eq. unfold artifact_shape. rewrite strip_self, app_nil_r, Hn. done.
    + rewrite lookup_insert_ne by (intros H%app_inv_head; congruence). rewrite Hin by done. unfold artifact_shape.
      destruct (strip (q ++ [x]) r) as [r'|] eqn:Es.
      * apply strip_Some in Es as ->. destruct r' as [|z r']; [by rewrite app_nil_r in Hne|].
        destruct (tree_of m !! (S ++ z :: r')) eqn:E.
        { destruct (Hclosed S z r') as [mode' ?]; [done|by rewrite E|congruence]. }
        destruct (below ((q ++ [x]) ++ z :: r') q) eqn:Hb; [|done].
        apply below_spec in Hb as [s Hs]. apply (f_equal length) in Hs. rewrite !length_app in Hs. cbn in Hs. lia.
      * destruct (below r q) eqn:Hb.
        -- assert (below r (q ++ [x]) = true) as ->; [|done]. apply below_spec in Hb as [s ->].
           apply below_spec. exists (s ++ [x]). by rewrite app_assoc.
        -- destruct (below r (q ++ [x])) eqn:Hb'; [|done].
           apply below_removelast in Hb'; [|by destruct q|done]. rewrite removelast_last in Hb'. congruence.
  - intros r mode' c' Hr. destruct (decide (r = q ++ [x])) as [->|Hne].
    + rewrite lookup_insert_eq. by intros [= <- <-].
    + rewrite lookup_insert_ne by (intros H%app_inv_head; congruence). rewrite Hin by done. by destruct (below r q).
Qed.

(** The copied directory at its place. *)
Lemma filled_dir (m : machine) (S rel D : path) mode t1 t2 :
  tree_of m !! S = Some (Dir mode) -> only_inside D (tree_of m) t1 -> dirs_to t1 D ->
  (forall r, inside D (S ++ r) = false) ->
  (forall r, r <> [] -> t1 !! (D ++ r) = if below r (removelast rel) && negb (bool_decide (rel = [])) then Some (Dir 493) else None) ->
  (forall p, t2 !! p = match strip (D ++ rel) p with
                       | Some (x :: r) => copied <$> subtree t1 S !! (x :: r)
                       | _ => with_dirs t1 (D ++ rel) 511 p
                       end) ->
  filled m S rel D t2.
Proof.
  intros Hn Hout Hd Hsep Hin Ht2.
  assert (forall r, strip (D ++ rel) (D ++ r) = strip rel r) as Hstrip.
  { intros r. destruct (strip rel r) as [s|] eqn:Es.
    - apply strip_Some in Es as ->. rewrite app_assoc. apply strip_app.
    - destruct (strip (D ++ rel) (D ++ r)) as [s|] eqn:E; [|done]. apply strip_Some in E. rewrite <- app_assoc in E.
      apply app_inv_head in E as ->. by rewrite strip_app in Es. }
  assert (forall r, r <> [] -> strip rel r = None \/ strip rel r = Some [] ->
    with_dirs t1 (D ++ rel) 511 (D ++ r) = None /\ below r rel = false \/
    (exists mode', with_dirs t1 (D ++ rel) 511 (D ++ r) = Some (Dir mode')) /\ below r rel = true) as Hw.
  { intros r Hr Hs. unfold with_dirs. destruct (below r rel) eqn:Hb.
    - right. split; [|done]. case_decide as Hq; [by eexists|]. rewrite elem_of_ancestors_app in Hq by done.
      rewrite Hin in Hq |- * by done. destruct (_ && _); [by eexists|]. naive_solver.
    - left. split; [|done]. rewrite decide_False by (rewrite elem_of_ancestors_app by done; intros [? _]; congruence).
      rewrite Hin by done. destruct (decide (rel = [])) as [->|Hne]; [by rewrite bool_decide_true, andb_false_r|].
      destruct (below r (removelast rel)) eqn:Hb'; [|done]. apply below_removelast_inv in Hb' as [? _]; [congruence|done]. }
  split; [|split].
  - intros p Hp. rewrite Ht2. destruct (strip (D ++ rel) p) as [[|x r]|] eqn:Es.
    + rewrite with_dirs_outside by done. by apply Hout.
    + apply strip_Some in Es as ->. rewrite <- app_assoc in Hp.
      assert (exists y l, rel ++ x :: r = y :: l) as (y & l & E) by (destruct rel; eauto).
      by rewrite E, inside_app in Hp.
    + rewrite with_dirs_outside by done. by apply Hout.
  - intros r Hr. rewrite Ht2, Hstrip. unfold artifact_shape. destruct (strip rel r) as [[|x s]|] eqn:Es.
    + apply strip_Some in Es as ->. rewrite app_nil_r in *. destruct (Hw rel Hr) as [[_ Hb]|[[mode' ->] _]].
      * right. apply strip_self.
      * rewrite (proj2 (below_spec _ _)) in Hb; [done|]. exists []. by rewrite app_nil_r.
      * by rewrite app_nil_r, Hn.
    + rewrite subtree_lookup, Hout by done. rewrite <- option_fmap_compose.
      destruct (tree_of m !! (S ++ x :: s)) as [n|]; [|done]. cbn. by rewrite shape_copied.
    + destruct (Hw r Hr) as [[E ->]|[[mode' E] ->]]; rewrite ?E; auto.
  - intros r mode' c Hr. rewrite Ht2, Hstrip. destruct (strip rel r) as [[|x s]|] eqn:Es.
    + destruct (Hw r Hr) as [[E _]|[[mode'' E] _]]; rewrite ?E; auto; done.
    + rewrite subtree_lookup. destruct (t1 !! (S ++ x :: s)) as [[|mode'' c']|]; try done. cbn. intros [= <- <-].
      unfold umask. rewrite N.ldiff_spec, N.lor_spec. done.
    + destruct (Hw r Hr) as [[E _]|[[mode'' E] _]]; rewrite ?E; auto; done.
Qed.

Lemma subtree_closed (t : tree) (S : path) mode :
  closed_tree t -> t !! S = Some (Dir mode) -> S <> [] -> fs_closed (subtree t S).
Proof.
  intros Hc Hn HS. split.
  - exists mode. by rewrite subtree_lookup, app_nil_r.
  - intros p x rel. rewrite !subtree_lookup, app_assoc. apply Hc. by destruct S.
Qed.

(** Copying the source directory. *)
Lemma wp_copyDir (S dstp : path) src dst (m : machine) :
  resolve m src = S -> resolve m dst = dstp -> dstp <> [] -> S <> [] -> Forall good_elem S ->
  fs_closed (subtree (tree_of m) S) -> good_names (subtree (tree_of m) S) -> no_file_to (tree_of m) dstp ->
  (forall p, inside dstp p = true -> tree_of m !! p = None) ->
  (forall r, inside dstp (S ++ r) = false /\ S ++ r ∉ ancestors dstp) ->
  (forall r mode c, tree_of m !! (S ++ r) = Some (File mode c) -> readable (super m) mode = true) ->
  wp (copyDir src dst) m (fun _ t => forall p, t !! p =
    match strip dstp p with
    | Some (x :: r) => copied <$> subtree (tree_of m) S !! (x :: r)
    | _ => with_dirs (tree_of m) dstp 511 p
    end).
Proof.
  intros HS Hdst Hne HSne Hg Hclosed Hgs Hno Habs Hsep Hread. unfold copyDir, wp. rewrite HS, Hdst.
  refine (wp_wrap "copy source dir to destination dir: " (copy_from S dstp) m (fun _ t => forall p, t !! p =
    match strip dstp p with
    | Some (x :: r) => copied <$> subtree (tree_of m) S !! (x :: r)
    | _ => with_dirs (tree_of m) dstp 511 p
    end) _). unfold wp, copy_from.
  apply (wp_copy_into (open_entry S) dstp (subtree (tree_of m) S) m); [done..|].
  intros [r n] m' Hkn Hs Hm'. apply elem_of_walk in Hkn. unfold open_entry. cbn [fst snd].
  pose proof Hkn as Hkn'. rewrite subtree_lookup in Hkn'. destruct n as [|mode c]; cbn [is_dir]; [by apply wp_ret|].
  assert (tree_of m' !! (S ++ r) = Some (File mode c)) as Hm.
  { destruct (Hsep r) as [Hi Ha]. destruct (Hm' _ Hi) as [E|E]; rewrite E; [|done].
    unfold with_dirs. rewrite decide_False; [done|naive_solver]. }
  apply (wp_wrap _ (syscall (open_read_at (super m') (S ++ r))) m' (fun _ t => t = tree_of m')).
  apply (wp_syscall _ _ _ tt (tree_of m')); [|done]. unfold open_read_at. rewrite look_path, Hm by by destruct S.
  destruct Hs as [_ ->]. cbn [mode_of]. by rewrite (Hread r mode c).
Qed.

Lemma same_resolve (m m' : machine) p : same_process m m' -> resolve m' p = resolve m p.
Proof. intros [Hc _]. unfold resolve. by rewrite Hc. Qed.

(** The source is neither above nor below the temporary directory. *)
Definition apart (S D : path) : Prop := below S D = false /\ forall r, inside D (S ++ r) = false.

Lemma apart_ancestors (S D rel r : path) : apart S D -> S ++ r ∉ ancestors (D ++ rel).
Proof.
  intros [H1 H2] [_ [s Hs]]%elem_of_ancestors. destruct (prefixes_comparable D (S ++ r) rel s Hs) as [Hb|Hb].
  - apply below_inside in Hb as [Hb|Hb]; [|by rewrite H2 in Hb].
    rewrite (proj2 (below_spec _ _)) in H1; [done|]. by exists r.
  - apply below_spec in Hb as [s' ->]. rewrite (proj2 (below_spec _ _)) in H1; [done|]. exists (r ++ s').
    by rewrite app_assoc.
Qed.

Lemma not_below_longer (q s : path) x : below (q ++ x :: s) q = false.
Proof.
  apply not_true_is_false. intros [r Hr]%below_spec. apply (f_equal length) in Hr. rewrite !length_app in Hr. cbn in Hr. lia.
Qed.

Lemma dirs_to_self (t : tree) (D : path) : D <> [] -> dirs_to t D -> exists mode, t !! D = Some (Dir mode).
Proof. intros HD H. apply H, elem_of_ancestors. split; [done|]. exists []. by rewrite app_nil_r. Qed.

(** The files once the directory of the destination is made. *)
Definition dst_made (t : tree) (D rel : path) (t1 : tree) : Prop :=
  only_inside D t t1 /\ forall r, r <> [] -> t1 !! (D ++ r) = if below r (removelast rel) && negb (bool_decide (rel = [])) then Some (Dir 493) else None.

Lemma dst_made_no_file (t t1 : tree) (D rel : path) :
  dst_made t D rel t1 -> dirs_to t D -> D <> [] -> no_file_to t1 (D ++ rel).
Proof.
  intros [Hout Hin] Hd HD q (Hq & r & E)%elem_of_ancestors. destruct (inside D q) eqn:Hi.
  - apply inside_spec in Hi as (x & l & ->). rewrite Hin by done. by destruct (_ && _).
  - rewrite Hout by done. destruct (prefixes_comparable D q rel r E) as [Hb|Hb].
    + apply below_inside in Hb as [->|Hb]; [|congruence]. by destruct (dirs_to_self t D) as [mode ->].
    + apply below_spec in Hb as [r' ->]. destruct (dirs_to_self t q) as [mode ->]; [done| |done].
      by eapply dirs_to_prefix.
Qed.

Lemma dst_made_empty (t t1 : tree) (D rel p : path) :
  dst_made t D rel t1 -> inside (D ++ rel) p = true -> t1 !! p = None.
Proof.
  intros [_ Hin] (x & r & ->)%inside_spec. rewrite <- app_assoc, Hin by by destruct rel.
  destruct (decide (rel = [])) as [->|Hne]; [by rewrite bool_decide_true, andb_false_r|].
  destruct (below (rel ++ x :: r) (removelast rel)) eqn:Hb; [|done].
  apply below_removelast_inv in Hb as [Hb _]; [|done]. by rewrite not_below_longer in Hb.
Qed.

Lemma apart_inside (S D rel r : path) : apart S D -> inside (D ++ rel) (S ++ r) = false.
Proof.
  intros [_ H]. apply not_true_is_false. intros (x & l & E)%inside_spec. specialize (H r).
  rewrite E, <- app_assoc in H. destruct rel; cbn in H; by rewrite inside_app in H.
Qed.

Section fill.
  Context (a : Artifact) (T S rel D : path) (dst : string) (m m2 : machine).
  Hypothesis (Ha : artifact_ok m T S rel a) (HDne : D <> []) (HDg : Forall good_elem D).
  Hypothesis (He : empty_dir (tree_of m) D) (Hclosed : closed_tree (tree_of m)) (Hnames : good_names (tree_of m)).
  Hypothesis (Hap : apart S D) (Hdsta : dst <> "") (Hdst : forall m' : machine, resolve m' dst = D ++ rel).
  Hypothesis (Hs : same_process m m2) (Hmade : dst_made (tree_of m) D rel (tree_of m2)).

Lemma source_path : S <> [].
Proof. intros ->. by destruct Hap. Qed.

Lemma source_kept r : tree_of m2 !! (S ++ r) = tree_of m !! (S ++ r).
Proof. apply Hmade, Hap. Qed.

Lemma source_found : resolve m2 (Clean (Src a)) = S.
Proof. rewrite (same_resolve m) by done. apply Ha. Qed.

Lemma source_readable r mode c : tree_of m2 !! (S ++ r) = Some (File mode c) -> readable (super m2) mode = true.
Proof. rewrite source_kept. destruct Hs as [_ ->]. apply Ha. Qed.

Lemma wp_fill_dir mode :
  tree_of m !! S = Some (Dir mode) -> wp (copyDir (Clean (Src a)) dst) m2 (fun _ t => filled m S rel D t).
Proof.
  intros Hn. pose proof source_path as HS.
  assert (subtree (tree_of m2) S = subtree (tree_of m) S) as Hsub.
  { apply map_eq. intros r. by rewrite !subtree_lookup, source_kept. }
  eapply wp_mono.
  - apply (wp_copyDir S (D ++ rel)); try done.
    + apply source_found.
    + by destruct D.
    + apply Hnames. by eexists.
    + rewrite Hsub. by eapply subtree_closed.
    + rewrite Hsub. intros r. rewrite subtree_lookup. intros Hr. apply Hnames in Hr. by apply Forall_app in Hr as [_ ?].
    + eapply dst_made_no_file; [done|apply He|done].
    + intros p. by eapply dst_made_empty.
    + intros r. split; [by apply apart_inside|by apply apart_ancestors].
    + apply source_readable.
  - cbn beta. intros [] t2 Ht2.
    apply (filled_dir m S rel D mode (tree_of m2)); [done|apply Hmade| |apply Hap|apply Hmade|done].
    eapply only_inside_dirs; [apply Hmade|apply He].
Qed.

Lemma wp_fill_file mode c :
  tree_of m !! S = Some (File mode c) -> wp (copyFile (Clean (Src a)) dst) m2 (fun _ t => filled m S rel D t).
Proof.
  intros Hn. pose proof source_path as HS.
  assert (rel <> []) as Hrel. { intros E. destruct (ok_rooted _ _ _ _ _ Ha E) as [mode' ?]. congruence. }
  destruct Hmade as [Hout Hin]. destruct (exists_last Hrel) as (q & x & E).
  assert (forall r, r <> [] -> tree_of m2 !! (D ++ r) = if below r q then Some (Dir 493) else None) as Hin'.
  { intros r Hr. by rewrite Hin, E, removelast_last, bool_decide_false, andb_true_r by (done || by destruct q). }
  eapply wp_mono.
  - apply (wp_copyFile _ dst S (D ++ q) x mode c); try done.
    + apply Clean_nonempty.
    + apply source_found.
    + by rewrite <- (app_nil_r S), source_kept, app_nil_r.
    + apply (source_readable [] mode c). by rewrite source_kept, app_nil_r.
    + by rewrite Hdst, E, app_assoc.
    + intros p. rewrite ancestors_app. intros [Hp|Hp]%elem_of_app.
      * eapply only_inside_dirs; [apply Hout|apply He|done].
      * apply list_elem_of_fmap in Hp as (r & -> & (Hr & s & Es)%elem_of_ancestors). rewrite Hin' by done.
        rewrite (proj2 (below_spec _ _)); [by eexists|]. by exists s.
    + by rewrite <- app_assoc, Hin', not_below_longer by by destruct q.
  - cbn beta. intros [] t2 ->. rewrite <- app_assoc, E. by apply (filled_file m S q D x mode c).
Qed.
End fill.

Lemma wp_fill (a : Artifact) (T S rel D : path) baseDir (m : machine) :
  artifact_ok m T S rel a -> HasPrefix baseDir "/" = true -> resolve_from [] baseDir = D -> D <> [] ->
  Forall good_elem D -> empty_dir (tree_of m) D -> closed_tree (tree_of m) -> good_names (tree_of m) -> apart S D ->
  wp (fill a baseDir) m (fun _ t => filled m S rel D t).
Proof.
  intros Ha Hb HD HDne HDg He Hclosed Hnames Hap. destruct (ok_exists _ _ _ _ _ Ha) as [n Hn].
  assert (S <> []) as HS by (intros ->; by destruct Hap).
  set (dst := PathJoin [baseDir; Clean (Dst a)]).
  assert (HasPrefix dst "/" = true) as Hdsta by by apply PathJoin_is_absolute.
  assert (forall m', resolve m' dst = D ++ rel) as Hdst.
  { intros m'. unfold dst. rewrite resolve_join, HD, join_name, (ok_dst _ _ _ _ _ Ha); [done|apply Ha|done]. }
  assert (Forall good_elem (D ++ rel)) as Hg.
  { apply Forall_app. split; [done|]. rewrite <- (ok_dst _ _ _ _ _ Ha). apply join_elems_good. constructor. }
  unfold wp, fill. refine (wp_bind (Stat _) _ m (fun _ t => filled m S rel D t) _).
  apply (wp_path_call _ _ _ _ _ n (tree_of m)); [apply Clean_nonempty| |].
  { by rewrite (ok_src _ _ _ _ _ Ha), look_path, Hn. }
  intros m1 Hs1 E1. apply wp_bind, wp_wrap.
  eapply wp_mono; [apply (wp_mkdir_dst D rel); [by rewrite E1|done..]|].
  rewrite E1. cbn beta. intros [] t1 Hmade m2 Hs2 <-. assert (same_process m m2) as Hs by by etrans.
  assert (dst <> "") as Hdne by by apply absolute_nonempty.
  destruct n as [mode|mode c]; cbn [is_dir].
  - by apply (wp_fill_dir a T S rel D dst m m2) with (mode := mode).
  - by apply (wp_fill_file a T S rel D dst m m2) with (mode := mode) (c := c).
Qed.

(** ** Archives *)

Section builder.
  Context `{PL : Platforms} `{IB : ImageBuilder}.

(** The entry of a node. *)
Definition entry_of (kn : path * node) : tar_entry := tar_header kn.1 kn.2 (default "" (shape kn.2)).

Definition tar_entries (fsys : tree) : list tar_entry := entry_of <$> entries fsys.

(** An entry of a directory with plain names. *)
Definition plain_entry (e : tar_entry) : Prop :=
  exists kn, e = entry_of kn /\ kn.1 <> [] /\ Forall good_elem kn.1.

(** The documented behaviour of the libraries: the compression is made without
    options; an archive is written from its start to its end; a layer that is made of
    an opener of an archive is that archive, which it opens whenever it is read; the
    layers of an image and the images of an index are those that were appended; and a
    layer that was pushed is pulled with the entries of its archive. *)
Class BuilderLaws `{LY : Layers} := {
  image_layers : v1_Image -> list LocalLayer;
  pulled : string -> Layer;
  compression_made : zstd_NewWriter = Ok tt;
  index_images : v1_ImageIndex -> list (v1_Platform * v1_Image);
  sha256_name s : Contains (sha256_hex s) "/" = false;
  archive_grows es e : (String.length (archive_added es) <= String.length (archive_added (es ++ [e])))%nat;
  archive_grows_tar es : (String.length (archive_added es) <= String.length (archive_tar_closed es))%nat;
  archive_grows_closed es : (String.length (archive_tar_closed es) <= String.length (archive_closed es))%nat;
  layer_random opener mediaType : keeps_random opener -> keeps_random (LayerFromOpener opener mediaType);
  layer_opens opener mediaType es (m : machine) :
    Forall plain_entry es ->
    (forall m', same_process m m' -> tree_of m' = tree_of m ->
       wp opener m' (fun c t => c = archive_closed es /\ t = tree_of m)) ->
    wp (LayerFromOpener opener mediaType) m (fun l t =>
      (forall m', layer_Compressed l m' = opener m') /\ t = tree_of m);
  pulled_entries es : Forall plain_entry es -> layer_Uncompressed (pulled (archive_closed es)) = Ok (es, None);
  empty_layers : image_layers empty_Image = [];
  annotated_layers i k v : image_layers (Image_Annotations i k v) = image_layers i;
  typed_layers i t : image_layers (Image_MediaType i t) = image_layers i;
  config_layers i : exists i', Image_ConfigFile i = Ok i' /\ image_layers i' = image_layers i;
  appended_layers i l : exists i', AppendLayers i l = Ok i' /\ image_layers i' = image_layers i ++ l;
  empty_images : index_images empty_Index = [];
  annotated_images i k v : index_images (Index_Annotations i k v) = index_images i;
  appended_images i img t p : index_images (AppendManifests i img t p) = index_images i ++ [(p, img)];
  index_digest i : exists d, Index_Digest i = Ok d
}.

Context `{LY : Layers} `{BL : !BuilderLaws}.

(** The archive while it is written: some content, not longer than that after
    the entries so far. *)
Definition growing (t0 : tree) (A : path) (mode : N) (limit : string) (t : tree) : Prop :=
  exists c, t = <[A := File mode c]> t0 /\ (String.length c <= String.length limit)%nat.

Lemma wp_grow archiveName (A : path) mode limit data t0 (m : machine) :
  resolve m archiveName = A -> growing t0 A mode limit (tree_of m) ->
  (String.length limit <= String.length data)%nat ->
  wp (WriteTo archiveName data) m (fun _ t => t = <[A := File mode data]> t0).
Proof.
  intros HA (c & Hc & Hl) Hd. eapply wp_mono.
  - apply (wp_WriteTo _ A mode c); [done|by rewrite Hc, lookup_insert_eq|lia].
  - intros [] t ->. by rewrite Hc, insert_insert_eq.
Qed.

Lemma wp_add_entries archiveName dir (A D : path) mode t0 l added (m : machine) :
  (forall m' : machine, resolve m' archiveName = A) -> HasPrefix dir "/" = true -> resolve_from [] dir = D ->
  Forall (fun kn : path * node => kn.1 <> [] /\ Forall good_elem kn.1 /\ D ++ kn.1 <> A /\ t0 !! (D ++ kn.1) = Some kn.2) l ->
  (forall r md c, r <> [] -> t0 !! (D ++ r) = Some (File md c) -> readable (super m) md = true) ->
  growing t0 A mode (archive_added added) (tree_of m) ->
  wp (add_entries archiveName dir added l) m (fun r t =>
    r = added ++ (entry_of <$> l) /\ growing t0 A mode (archive_added r) t).
Proof.
  intros HA Hdir HD. revert added m. induction l as [|[rel n] l IH]; intros added m Hl Hr Hg.
  { apply (wp_ret added). split; [symmetry; apply app_nil_r|done]. }
  apply Forall_cons in Hl as [(Hne & Hgood & HneA & Hn) Hl]. cbn [fst snd] in *. cbn [add_entries].
  apply wp_bind. eapply (wp_mono _ _ (fun c t => tar_header rel n c = entry_of (rel, n) /\ t = tree_of m)).
  { destruct n as [md|md c]; cbn [is_dir]; [by apply wp_ret|]. unfold wp, read_entry.
    apply (wp_wrap _ (syscall (read_file_at (super m) (resolve m dir ++ rel))) m
      (fun x t => tar_header rel (File md c) x = entry_of (rel, File md c) /\ t = tree_of m)).
    apply (wp_syscall _ _ _ c (tree_of m)); [|done]. rewrite resolve_absolute, HD by done. unfold read_file_at.
    destruct Hg as (c' & -> & _). rewrite look_path, lookup_insert_ne, Hn, (Hr rel md c); try done.
    destruct D; [|done]. by destruct rel. }
  intros c t [Hh ->] m1 Hs1 E1. rewrite Hh. apply wp_bind. rewrite <- E1 in Hg. eapply wp_mono.
  { by eapply wp_grow; [apply HA|exact Hg|apply archive_grows]. }
  cbn beta. intros [] t -> m2 Hs2 E2. eapply wp_mono.
  - apply IH; [done| |].
    + intros r md c'. replace (super m2) with (super m); [by apply Hr|]. transitivity (super m1); symmetry; [apply Hs1|apply Hs2].
    + rewrite E2. eexists; split; [done|lia].
  - cbn beta. intros r t [Hr' Hgr]. split; [by rewrite Hr', <- app_assoc|done].
Qed.

(** What the archive of a directory is. *)
Definition archive_path (W : path) (dir : string) : path := W ++ [sha256_hex dir +:+ ".tar.zstd"].

Lemma good_archive_name dir : good_elem (sha256_hex dir +:+ ".tar.zstd").
Proof.
  split; [|split; [|split]]; try (destruct (sha256_hex dir) as [|x [|y [|z s]]]; done).
  rewrite Contains_app_char, (sha256_name dir). done.
Qed.
(** Writing the archive of a directory. *)
Section archive.
  Context (workDir dir : string) (W D : path) (m : machine).
  Hypothesis (HWa : HasPrefix workDir "/" = true) (HW : resolve_from [] workDir = W) (HWd : dirs_to (tree_of m) W).
  Hypothesis (Hda : HasPrefix dir "/" = true) (HD : resolve_from [] dir = D).
  Hypothesis (Hclosed : fs_closed (subtree (tree_of m) D)) (Hnames : good_names (subtree (tree_of m) D)).
  Hypothesis (Hread : forall r mode c, r <> [] -> tree_of m !! (D ++ r) = Some (File mode c) -> readable (super m) mode = true).
  Hypothesis (Hnew : tree_of m !! archive_path W dir = None) (Hout : below D (archive_path W dir) = false).

Definition archiveName : string := PathJoin [workDir; sha256_hex dir +:+ ".tar.zstd"].

Lemma archiveName_path (m' : machine) : resolve m' archiveName = archive_path W dir.
Proof. unfold archiveName. by rewrite resolve_join, HW, join_good_elem by (done || apply good_archive_name). Qed.

Lemma not_archive r : D ++ r <> archive_path W dir.
Proof. intros E. rewrite <- E, (proj2 (below_spec _ _)) in Hout; [done|]. by exists r. Qed.

Lemma wp_dir_entries mode c (m' : machine) :
  tree_of m' = <[archive_path W dir := File mode c]> (tree_of m) ->
  wp (dir_entries dir) m' (fun l t => l = entries (subtree (tree_of m) D) /\ t = tree_of m').
Proof.
  intros E. unfold dir_entries, wp. rewrite resolve_absolute, HD by done.
  refine (wp_syscall _ m' (fun l t => l = entries (subtree (tree_of m) D) /\ t = tree_of m')
            (entries (subtree (tree_of m) D)) (tree_of m') _ ltac:(done)).
  assert (subtree (tree_of m') D = subtree (tree_of m) D) as Hsub.
  { apply map_eq. intros r. rewrite !subtree_lookup, E, lookup_insert_ne; [done|]. intros H. by apply (not_archive r). }
  assert (exists n, look (tree_of m') D = Some n) as [n ->].
  { destruct D as [|x D'] eqn:ED; [by eexists|]. rewrite <- ED in *. destruct Hclosed as [[md Hr] _].
    rewrite <- Hsub, subtree_lookup, app_nil_r in Hr. exists (Dir md). rewrite look_path; [done|]. by rewrite ED. }
  unfold entries. by rewrite Hsub.
Qed.

Lemma wp_AddFS mode (m' : machine) :
  same_process m m' -> tree_of m' = <[archive_path W dir := File mode ""]> (tree_of m) ->
  wp (AddFS archiveName dir) m' (fun r t => r = tar_entries (subtree (tree_of m) D) /\
    growing (tree_of m) (archive_path W dir) mode (archive_added r) t).
Proof.
  intros Hs E. unfold AddFS. apply wp_bind. eapply wp_mono; [by eapply wp_dir_entries|].
  cbn beta. intros l t [-> ->] m2 Hs2 E2. eapply wp_mono.
  - apply (wp_add_entries archiveName dir (archive_path W dir) D mode (tree_of m)); [apply archiveName_path|done|done| | |].
    + apply Forall_forall. intros [r n] Hr. cbn [fst snd]. apply entries_spec in Hr as [Hne Hr]; [|done].
      rewrite subtree_lookup in Hr. split; [done|]. split; [|split; [apply not_archive|done]].
      apply Hnames. rewrite subtree_lookup. by eexists.
    + intros r md c Hr Hm. replace (super m2) with (super m); [by eapply Hread|].
      transitivity (super m'); symmetry; [apply Hs|apply Hs2].
    + rewrite E2, E. exists "". split; [done|]. cbn. lia.
  - cbn beta. done.
Qed.

Lemma wp_archive_in :
  wp (archive_in workDir dir) m (fun r t => r = archiveName /\
    t = <[archive_path W dir := File 420 (archive_closed (tar_entries (subtree (tree_of m) D)))]> (tree_of m)).
Proof.
  unfold archive_in. fold archiveName. apply wp_bind, wp_Stat_missing.
  { rewrite archiveName_path, look_path; [done|]. unfold archive_path. by destruct W. }
  intros e m1 Hs1 E1. apply wp_bind, wp_wrap. eapply wp_mono.
  { apply (wp_OpenFile_new archiveName W (sha256_hex dir +:+ ".tar.zstd")); [|apply archiveName_path|by rewrite E1|by rewrite E1|done].
    by apply absolute_nonempty, PathJoin_is_absolute. }
  rewrite E1. fold (archive_path W dir). cbn beta. intros [] t -> m2 Hs2 E2. change (umask 438) with 420%N in E2.
  apply wp_bind, wp_wrap. rewrite compression_made. apply (wp_ret tt). intros m2' Hs2' E2'.
  rewrite <- E2' in E2. clear E2'.
  apply wp_bind, wp_wrap. eapply wp_mono; [apply (wp_AddFS 420); [by do 2 (etrans; [done|])|done]|].
  cbn beta. intros r t [-> Hg] m3 Hs3 <-. apply wp_bind, wp_wrap. eapply wp_mono.
  { eapply wp_grow; [apply archiveName_path|exact Hg|apply archive_grows_tar]. }
  cbn beta. intros [] t -> m4 Hs4 E4. apply wp_bind, wp_wrap. eapply wp_mono.
  { eapply wp_grow; [apply archiveName_path| |apply archive_grows_closed]. rewrite E4. eexists. split; [done|lia]. }
  cbn beta. intros [] t -> m5 Hs5 E5. apply wp_bind, wp_wrap. eapply wp_mono.
  { apply wp_Close. by apply absolute_nonempty, PathJoin_is_absolute. }
  cbn beta. intros [] t -> m6 Hs6 E6. apply wp_ret. by rewrite E6, E5.
Qed.
End archive.
End builder.
