(* ===== verification/OCIReleaseFacts.v ===== *)
(** Releasing an image: on a machine where no system call fails, every platform
    has an image whose layers are its artifacts, the registry gets the index of
    them and the bytes of the archives, which are there until they are pushed, and no
    file is left behind. *)

From stdpp Require Import gmap strings list sorting.
From S2P Require Import Prelude GoStrings GoPaths GoNumbers GoFiles GoFilesFacts Promote OCIFetch OCIFetchFacts OCIBuild OCIBuildFacts.
Open Scope go_scope.
Open Scope string_scope.
Open Scope list_scope.

(** ** Computations of a factory *)

(** The computation returns a value, a factory and a machine that satisfy [Q],
    unless a system call to come fails. *)
Definition wpB {A} (c : B A) (f : ImageFactory) (m : machine) (Q : A -> ImageFactory -> machine -> Prop) : Prop :=
  match c f m with
  | (Ok a, f', m') => (faulty m' -> faulty m) /\ Q a f' m'
  | (Err _, _, _) => faulty m
  | _ => False
  end.

Lemma wpB_ret {A} (a : A) f (m : machine) Q : Q a f m -> wpB (mret a) f m Q.
Proof. done. Qed.

Lemma wpB_mono {A} (c : B A) f (m : machine) (Q Q' : A -> ImageFactory -> machine -> Prop) :
  wpB c f m Q -> (forall a f m, Q a f m -> Q' a f m) -> wpB c f m Q'.
Proof. unfold wpB. intros H HQ. destruct (c f m) as [[[a|e|w|] f'] m']; naive_solver. Qed.

Lemma wpB_bind {A A'} (c : B A) (g : A -> B A') f (m : machine) Q :
  wpB c f m (fun a f' m' => wpB (g a) f' m' Q) -> wpB (c ≫= g) f m Q.
Proof.
  unfold wpB, mbind, B_bind. destruct (c f m) as [[[a|e|w|] f'] m']; [|done..].
  intros [H1 H2]. destruct (g a f' m') as [[[b|e|w|] f''] m'']; naive_solver.
Qed.

Lemma wpB_no_fault {A} (c : B A) f (m : machine) Q :
  ~ faulty m -> wpB c f m (fun a f' m' => ~ faulty m' -> Q a f' m') -> wpB c f m Q.
Proof. unfold wpB. intros Hf. destruct (c f m) as [[[a|e|w|] f'] m']; naive_solver. Qed.

Lemma wpB_wrap {A} pre (c : B A) f (m : machine) Q : wpB c f m Q -> wpB (B_wrap pre c) f m Q.
Proof. unfold wpB, B_wrap. by destruct (c f m) as [[[a|e|w|] f'] m']. Qed.

Lemma wpB_lift {A} (c : F A) f (m : machine) (Q : A -> tree -> Prop) R :
  wp c m Q -> random (c m).2 = R ->
  wpB (B_lift c) f m (fun a f' m' => f' = f /\ same_process m m' /\ Q a (tree_of m') /\ random m' = R).
Proof. unfold wp, wpB, B_lift. destruct (c m) as [[a|e|w|] m']; naive_solver. Qed.

(** A list of computations that leave the files that are there, under an invariant
    of what is left to do; what holds of a value keeps to hold while there are more
    files. *)
Lemma wpB_map {A A'} (P : tree -> A -> A' -> Prop) (I : list A -> ImageFactory -> machine -> Prop) (g : A -> B A') l f (m : machine) :
  (forall (t t' : tree) x y, t ⊆ t' -> P t x y -> P t' x y) ->
  (forall x l f m, I (x :: l) f m ->
     wpB (g x) f m (fun y f' m' => I l f' m' /\ tree_of m ⊆ tree_of m' /\ P (tree_of m') x y)) ->
  I l f m -> wpB (B_map g l) f m (fun ys f' m' => I [] f' m' /\ tree_of m ⊆ tree_of m' /\ Forall2 (P (tree_of m')) l ys).
Proof.
  intros HP Hg. revert f m. induction l as [|x l IH]; intros f m HI; cbn [B_map].
  - by apply wpB_ret.
  - apply wpB_bind. eapply wpB_mono; [by apply Hg|]. cbn beta. intros y f1 m1 (HI1 & Ht1 & Hy). apply wpB_bind.
    eapply wpB_mono; [by apply IH|]. cbn beta. intros ys f2 m2 (HI2 & Ht2 & Hys). apply wpB_ret.
    split; [done|]. split; [by etrans|]. constructor; [by eapply HP|done].
Qed.

(** ** Random names *)

Lemma temp_name_empty n : temp_name "" n = FormatUint n.
Proof. done. Qed.

Lemma draw_head (t : tree) (T : path) n names :
  exists_at t (T ++ [FormatUint n]) = false -> draw t T "" (n :: names) = Some (FormatUint n, names).
Proof. intros H. cbn [draw]. by rewrite temp_name_empty, H. Qed.

Lemma good_number n : good_elem (FormatUint n).
Proof. apply (good_temp_name "" n). done. Qed.

Lemma random_MkdirTemp dir (m : machine) n names :
  HasPrefix dir "/" = true -> random m = n :: names ->
  exists_at (tree_of m) (resolve_from [] dir ++ [FormatUint n]) = false ->
  random (MkdirTemp dir "" m).2 = names.
Proof.
  intros Hd Hr Hn. unfold MkdirTemp. rewrite resolve_absolute, Hr, draw_head by done.
  pose proof (keeps_path_call "mkdir" (PathJoin [dir; FormatUint n]) (fun p t =>
    match unreachable t p with
    | Some no => Err (SysError no)
    | None => match look t p with
              | Some _ => Err (SysError EEXIST)
              | None => Ok (tt, <[p := Dir (umask 448)]> t)
              end
    end) (with_random names m)) as H. fold (Mkdir (PathJoin [dir; FormatUint n]) 448) in H.
  by destruct (Mkdir _ _ _) as [[] ].
Qed.

Lemma wp_MkdirTemp_head dir (m : machine) n names :
  HasPrefix dir "/" = true -> dirs_to (tree_of m) (resolve_from [] dir) -> random m = n :: names ->
  exists_at (tree_of m) (resolve_from [] dir ++ [FormatUint n]) = false ->
  wp (MkdirTemp dir "") m (fun r t =>
    r = PathJoin [dir; FormatUint n] /\ t = <[resolve_from [] dir ++ [FormatUint n] := Dir 448]> (tree_of m)).
Proof.
  intros Hd Hdirs Hr Hn. apply (wp_MkdirTemp _ _ _ names); [done|done| |apply good_number].
  rewrite Hr. by apply draw_head.
Qed.

Lemma exists_at_false (t : tree) (p : path) :
  exists_at t p = false <-> forall q, below p q = true -> t !! q = None.
Proof.
  unfold exists_at. split.
  - intros H q [r ->]%below_spec. destruct (t !! p) eqn:E; [done|]. destruct r as [|x r]; [by rewrite app_nil_r|].
    by apply children_exist_false.
  - intros H. rewrite H by (apply below_spec; exists []; by rewrite app_nil_r). apply not_true_is_false.
    unfold children_exist. rewrite existsb_exists. intros ([q n] & Hin & [Hq _]%andb_true_iff).
    apply list_elem_of_In, elem_of_map_to_list in Hin. cbn [fst] in Hq. by rewrite H in Hin.
Qed.

Lemma string_app_inj_r a b s : a +:+ s = b +:+ s -> a = b.
Proof.
  assert (forall c r, s <> String c r +:+ s) as H.
  { intros c r E. apply (f_equal String.length) in E. rewrite string_length_app in E. cbn in E. lia. }
  revert b. induction a as [|c a IH]; intros [|d b] E; [done|by apply H in E| |].
  - symmetry in E. by apply H in E.
  - rewrite !string_app_cons in E. injection E as -> E. f_equal. by apply IH.
Qed.

(** ** What a layer holds *)

Section release.
  Context `{PL : Platforms} `{IB : ImageBuilder} `{LY : Layers} `{BL : !BuilderLaws}.

Lemma keeps_dir_entries dir : keeps_random (dir_entries dir).
Proof. intros m. apply keeps_syscall. Qed.

Lemma keeps_add_entries archiveName dir added l : keeps_random (add_entries archiveName dir added l).
Proof.
  revert added. induction l as [|[rel n] l IH]; intros added; cbn [add_entries]; [apply keeps_ret|].
  apply keeps_bind; [destruct (is_dir n); [apply keeps_ret|intros m; apply keeps_wrap, keeps_syscall]|]. intros c. apply keeps_bind; auto with random.
Qed.

Lemma keeps_archive_in workDir dir : keeps_random (archive_in workDir dir).
Proof.
  unfold archive_in. apply keeps_bind; [apply keeps_try, keeps_path_call|]. intros [n|e]; [apply keeps_ret|].
  apply keeps_bind; [auto with random|]. intros _. apply keeps_bind; [auto with random|]. intros _. apply keeps_bind.
  { apply keeps_wrap, keeps_bind; [apply keeps_dir_entries|]. intros l. apply keeps_add_entries. }
  intros es. apply keeps_bind; [auto with random|]. intros _. apply keeps_bind; [auto with random|]. intros _.
  apply keeps_bind; auto with random.
Qed.

(** An archive with the files of an artifact. *)
Definition archive_of (t : tree) (S rel : path) (c : string) : Prop :=
  exists fsys, fs_closed fsys /\ good_names fsys /\ c = archive_closed (tar_entries fsys) /\
    forall r, r <> [] -> shape <$> fsys !! r = artifact_shape t S rel r.

(** A layer that reads an archive, which is in a file. *)
Definition reads_archive (t : tree) (l : LocalLayer) (c : string) : Prop :=
  exists name A, HasPrefix name "/" = true /\ resolve_from [] name = A /\ A <> [] /\
    (forall m, layer_Compressed l m = ReadFile name m) /\ t !! A = Some (File 420 c).

Lemma reads_archive_mono (t t' : tree) l c : t ⊆ t' -> reads_archive t l c -> reads_archive t' l c.
Proof.
  intros Ht (name & A & H1 & H2 & H3 & H4 & H5). exists name, A. do 4 (split; [done|]). by eapply lookup_weaken.
Qed.

(** It gives the archive as long as the file is there. *)
Lemma wp_layer_Compressed l c (m : machine) :
  reads_archive (tree_of m) l c -> wp (layer_Compressed l) m (fun r t => r = c /\ t = tree_of m).
Proof.
  intros (name & A & H1 & H2 & H3 & H4 & H5). unfold wp. rewrite H4.
  apply (wp_ReadFile name A 420 c m); [by apply absolute_nonempty| |done..|].
  - by rewrite resolve_absolute.
  - unfold readable. apply orb_true_r.
Qed.

Lemma tar_entries_plain (fsys : tree) : fs_closed fsys -> good_names fsys -> Forall plain_entry (tar_entries fsys).
Proof.
  intros Hc Hg. apply Forall_fmap, Forall_forall. intros [r n] Hr. apply entries_spec in Hr as [Hne Hr]; [|done].
  exists (r, n). split; [done|]. split; [done|]. apply Hg. by eexists.
Qed.

(** What an artifact puts in a directory is a file system. *)
Lemma artifact_shape_above (t : tree) (S rel p : path) x r :
  closed_tree t -> S <> [] -> (rel = [] -> exists mode, t !! S = Some (Dir mode)) ->
  is_Some (artifact_shape t S rel (p ++ x :: r)) -> artifact_shape t S rel p = Some None.
Proof.
  intros Hc HS Hroot. unfold artifact_shape. destruct (strip rel p) as [s|] eqn:Es.
  - apply strip_Some in Es as ->. rewrite <- app_assoc, strip_app, fmap_is_Some, app_assoc. intros H.
    apply Hc in H as [mode ->]; [done|]. by destruct S.
  - assert (is_Some (strip rel (p ++ x :: r)) -> below p rel = true) as H.
    { intros [s Hs]. apply strip_Some in Hs. destruct (prefixes_comparable p rel (x :: r) s Hs) as [Hb|Hb]; [done|].
      unfold below in Hb. by rewrite Es in Hb. }
    destruct (strip rel (p ++ x :: r)) as [s|]; [by rewrite H|].
    destruct (below (p ++ x :: r) rel) eqn:Hb; [|by intros [? ?]]. intros _.
    apply below_spec in Hb as [s ->]. rewrite <- app_assoc, (proj2 (below_spec _ _)); [done|]. by eexists.
Qed.

Lemma artifact_shape_names (t : tree) (S rel r : path) :
  good_names t -> Forall good_elem rel -> is_Some (artifact_shape t S rel r) -> Forall good_elem r.
Proof.
  intros Hg Hrel. unfold artifact_shape. destruct (strip rel r) as [s|] eqn:Es.
  - apply strip_Some in Es as ->. rewrite fmap_is_Some. intros H. apply Forall_app. split; [done|].
    apply Hg in H. by apply Forall_app in H as [_ ?].
  - destruct (below r rel) eqn:Hb; [|by intros [? ?]]. intros _. apply below_spec in Hb as [s ->].
    by apply Forall_app in Hrel as [? _].
Qed.

(** The temporary directory of an artifact as a file system. *)
Section filled.
  Context (m : machine) (T S rel D : path) (a : Artifact) (t : tree).
  Hypothesis (Ha : artifact_ok m T S rel a) (HS : S <> []) (Hc : closed_tree (tree_of m)) (Hg : good_names (tree_of m)).
  Hypothesis (Hf : filled m S rel D t) (HD : exists mode, t !! D = Some (Dir mode)).

Lemma destination_good : Forall good_elem rel.
Proof. rewrite <- (ok_dst _ _ _ _ _ Ha). apply join_elems_good. constructor. Qed.

Lemma filled_closed : fs_closed (subtree t D).
Proof.
  destruct Hf as (_ & Hsh & _). split.
  - destruct HD as [mode Hm]. exists mode. by rewrite subtree_lookup, app_nil_r.
  - intros p x r. rewrite !subtree_lookup. intros H. destruct p as [|y p]; [by rewrite app_nil_r|].
    assert (is_Some (artifact_shape (tree_of m) S rel ((y :: p) ++ x :: r))) as Hs.
    { rewrite <- Hsh by done. by rewrite fmap_is_Some. }
    apply artifact_shape_above in Hs; [|done|done|apply Ha]. rewrite <- Hsh in Hs by done.
    destruct (t !! (D ++ y :: p)) as [[mode|]|]; try done. by exists mode.
Qed.

Lemma filled_names : good_names (subtree t D).
Proof.
  destruct Hf as (_ & Hsh & _). intros r. rewrite subtree_lookup. intros Hr. destruct r as [|x r]; [constructor|].
  eapply artifact_shape_names; [done|apply destination_good|]. rewrite <- Hsh by done. by rewrite fmap_is_Some.
Qed.

Lemma filled_archive : archive_of (tree_of m) S rel (archive_closed (tar_entries (subtree t D))).
Proof.
  exists (subtree t D). split; [apply filled_closed|]. split; [apply filled_names|]. split; [done|].
  intros r Hr. rewrite subtree_lookup. by apply Hf.
Qed.

Lemma filled_readable r mode c super :
  r <> [] -> t !! (D ++ r) = Some (File mode c) -> readable super mode = true.
Proof. destruct Hf as (_ & _ & H). intros Hr Hm. unfold readable. rewrite (H r mode c Hr Hm). apply orb_true_r. Qed.
End filled.

(** ** The files of a build *)

Section building.
  Context (TempDir : string) (m0 : machine).
  Abbreviation T := (resolve_from [] TempDir).

(** The temporary directory of a random number, and the name of its archive. *)
Definition temp_dir (n : N) : string := PathJoin [TempDir; FormatUint n].
Definition temp_path (n : N) : path := T ++ [FormatUint n].
Definition digest (n : N) : string := sha256_hex (temp_dir n).

  Hypothesis (HT : HasPrefix TempDir "/" = true) (HTd : dirs_to (tree_of m0) T).
  Hypothesis (Hc0 : closed_tree (tree_of m0)) (Hg0 : good_names (tree_of m0)).
  Hypothesis (Hfree : forall n, n ∈ random m0 -> exists_at (tree_of m0) (temp_path n) = false).
  Hypothesis (Hsha : NoDup (digest <$> random m0)).

Lemma temp_dir_absolute n : HasPrefix (temp_dir n) "/" = true.
Proof. by apply PathJoin_is_absolute. Qed.

Lemma temp_dir_path n : resolve_from [] (temp_dir n) = temp_path n.
Proof.
  rewrite <- (resolve_absolute m0) by apply temp_dir_absolute. unfold temp_dir.
  by rewrite resolve_join, join_good_elem by (done || apply good_number).
Qed.

Lemma temp_path_nonempty n : temp_path n <> [].
Proof. unfold temp_path. by destruct T. Qed.

Lemma temp_path_good n : Forall good_elem (temp_path n).
Proof. apply Forall_snoc. split; [by apply resolve_from_good|apply good_number]. Qed.

Lemma temp_dir_inj n k : temp_path n = temp_path k -> digest n = digest k.
Proof. unfold temp_path, digest, temp_dir. intros H. apply app_inj_tail in H as [_ H]. by rewrite H. Qed.

Lemma temp_paths_apart n k q : digest n <> digest k -> below (temp_path n) q = true -> below (temp_path k) q = false.
Proof.
  intros Hd [r ->]%below_spec. apply not_true_is_false. intros [s Hs]%below_spec. unfold temp_path in Hs.
  rewrite <- !app_assoc in Hs. apply app_inv_head in Hs. injection Hs as Hs _. apply Hd, temp_dir_inj.
  unfold temp_path. by rewrite Hs.
Qed.

(** The files [v] with the factory's working directory in it, but for a temporary
    directory, and the random numbers of directories that have no archive yet. *)
Record working (f : ImageFactory) (v : tree) (rnd : list N) : Prop := {
  w_closed : closed_tree v;
  w_names : good_names v;
  w_random : sublist rnd (random m0);
  w_dir : (if_workDir f = "" /\ v = tree_of m0) \/
          exists w mode, if_workDir f = temp_dir w /\ w ∈ random m0 /\ (w ∉ rnd) /\
            only_below (temp_path w) (tree_of m0) v /\ v !! temp_path w = Some (Dir mode) /\
            forall k, k ∈ rnd -> v !! archive_path (temp_path w) (temp_dir k) = None
}.

Lemma working_start : working NewImageFactory (tree_of m0) (random m0).
Proof. split; [done..|]. by left. Qed.

Lemma working_weaken f v rnd rnd' : sublist rnd' rnd -> working f v rnd -> working f v rnd'.
Proof.
  intros Hs [H1 H2 H3 H4]. split; [done|done|by etrans|].
  assert (forall k, k ∈ rnd' -> k ∈ rnd) as Hin by (intros k Hk; by eapply elem_of_sublist).
  destruct H4 as [H4|(w & mode & H4 & H5 & H6 & H7 & H8 & H9)]; [by left|]. right. exists w, mode. naive_solver.
Qed.

Lemma digest_distinct n k rnd :
  sublist (n :: rnd) (random m0) -> k ∈ rnd -> digest n <> digest k.
Proof.
  intros Hs Hk E. eapply sublist_NoDup in Hsha; [|by apply (fmap_sublist digest)].
  rewrite fmap_cons in Hsha. apply NoDup_cons in Hsha as [Hn _]. apply Hn. rewrite E.
  apply list_elem_of_fmap. by exists k.
Qed.

Lemma random_distinct n k rnd :
  sublist rnd (random m0) -> n ∈ rnd -> k ∈ random m0 -> k ∉ rnd -> digest n <> digest k.
Proof.
  intros Hs Hn Hk Hkn E. assert (n <> k) as Hne by (intros ->; done).
  assert (n ∈ random m0) as Hn0 by by eapply elem_of_sublist.
  apply list_elem_of_split in Hn0 as (l1 & l2 & El). rewrite El in Hsha, Hk.
  rewrite fmap_app, fmap_cons in Hsha. apply NoDup_app in Hsha as (_ & H1 & [H2 _]%NoDup_cons).
  apply elem_of_app in Hk as [Hk|[->|Hk]%elem_of_cons]; [|done|].
  - apply (H1 (digest k)); [apply list_elem_of_fmap; by exists k|]. rewrite E. left.
  - apply H2. rewrite E. apply list_elem_of_fmap. by exists k.
Qed.

(** A directory that is drawn is new. *)
Lemma working_fresh f v rnd n q :
  working f v rnd -> n ∈ rnd -> below (temp_path n) q = true -> v !! q = None.
Proof.
  intros [_ _ Hs Hw] Hn Hq. assert (tree_of m0 !! q = None) as H0.
  { revert Hq. apply exists_at_false, Hfree. by eapply elem_of_sublist. }
  destruct Hw as [[_ ->]|(w & mode & _ & Hw & Hwn & Hb & _)]; [done|]. rewrite Hb; [done|].
  eapply temp_paths_apart; [|exact Hq]. by eapply random_distinct.
Qed.

Lemma temp_path_dirs n : forall q, q ∈ ancestors T -> below (temp_path n) q = false.
Proof.
  intros q [_ [r Hr]]%elem_of_ancestors. apply not_true_is_false. intros [s ->]%below_spec.
  apply (f_equal length) in Hr. unfold temp_path in Hr. rewrite !length_app in Hr. cbn in Hr. lia.
Qed.

Lemma working_temp f v rnd : working f v rnd -> dirs_to v T.
Proof.
  intros [_ _ _ Hw]. destruct Hw as [[_ ->]|(w & mode & _ & _ & _ & Hb & _)]; [done|].
  intros q Hq. rewrite Hb by by apply temp_path_dirs. by apply HTd.
Qed.

Lemma closed_insert_dir (v : tree) (p : path) x mode :
  closed_tree v -> dirs_to v p -> (forall q, below (p ++ [x]) q = true -> v !! q = None) ->
  closed_tree (<[p ++ [x] := Dir mode]> v).
Proof.
  intros Hc Hd Hn q y rel Hq H. destruct (decide (q = p ++ [x])) as [->|Hne].
  { exists mode. apply lookup_insert_eq. }
  rewrite (lookup_insert_ne v _ q) by done. destruct (decide (q ++ y :: rel = p ++ [x])) as [E|Hne'].
  - destruct (exists_last (l := y :: rel) ltac:(done)) as (l & z & El).
    rewrite El, app_assoc in E. apply app_inj_tail in E as [<- ->]. apply Hd, elem_of_ancestors. split; [done|by eexists].
  - rewrite lookup_insert_ne in H by done. by eapply Hc.
Qed.

Lemma closed_insert_file (v : tree) (p : path) x mode c :
  closed_tree v -> dirs_to v p -> (forall q, below (p ++ [x]) q = true -> v !! q = None) ->
  closed_tree (<[p ++ [x] := File mode c]> v).
Proof.
  intros Hc Hd Hn q y rel Hq H. destruct (decide (q ++ y :: rel = p ++ [x])) as [E|Hne'].
  - destruct (exists_last (l := y :: rel) ltac:(done)) as (l & z & El).
    rewrite El, app_assoc in E. apply app_inj_tail in E as [<- ->]. rewrite lookup_insert_ne.
    + apply Hd, elem_of_ancestors. split; [done|by eexists].
    + intros E. apply (f_equal length) in E. rewrite !length_app in E. cbn in E. lia.
  - rewrite lookup_insert_ne in H by done. destruct (decide (q = p ++ [x])) as [->|Hne].
    + rewrite Hn in H; [by destruct H|]. apply below_spec. by eexists.
    + rewrite lookup_insert_ne by done. by eapply Hc.
Qed.

Lemma names_insert (v : tree) (p : path) x n :
  good_names v -> Forall good_elem p -> good_elem x -> good_names (<[p ++ [x] := n]> v).
Proof.
  intros Hg Hp Hx q. destruct (decide (q = p ++ [x])) as [->|Hne]; [intros _; by apply Forall_snoc|].
  rewrite lookup_insert_ne by done. apply Hg.
Qed.

(** The working directory is made. *)
Lemma working_make f v rnd w rnd' :
  working f v rnd -> if_workDir f = "" -> w ∈ rnd -> w ∉ rnd' -> sublist rnd' rnd ->
  working {| if_workDir := temp_dir w |} (<[temp_path w := Dir 448]> v) rnd'.
Proof.
  intros Hw Hf Hin Hnin Hs. pose proof (working_temp _ _ _ Hw) as Hd.
  assert (forall q, below (temp_path w) q = true -> v !! q = None) as Hn by (intros q; by eapply working_fresh).
  destruct Hw as [H1 H2 H3 H4]. split.
  - by apply closed_insert_dir.
  - apply names_insert; [done|by apply resolve_from_good|apply good_number].
  - by etrans.
  - right. destruct H4 as [[_ ->]|(w' & mode & E & _)].
    2:{ rewrite E in Hf. pose proof (temp_dir_absolute w') as H. by rewrite Hf in H. }
    exists w, 448%N. split; [done|]. split; [by eapply elem_of_sublist|]. split; [done|]. split; [|split].
    + intros q Hq. rewrite lookup_insert_ne; [done|]. intros <-. rewrite (proj2 (below_spec _ _)) in Hq; [done|].
      exists []. by rewrite app_nil_r.
    + apply lookup_insert_eq.
    + intros k _. rewrite lookup_insert_ne.
      * apply Hn, below_spec. by eexists.
      * unfold archive_path. intros E. apply (f_equal length) in E. rewrite length_app in E. cbn in E. lia.
Qed.

Lemma working_workdir f v rnd :
  working f v rnd -> if_workDir f <> "" -> exists w,
    HasPrefix (if_workDir f) "/" = true /\ resolve_from [] (if_workDir f) = temp_path w /\
    w ∈ random m0 /\ (w ∉ rnd) /\ dirs_to v (temp_path w) /\ only_below (temp_path w) (tree_of m0) v /\
    forall k, k ∈ rnd -> v !! archive_path (temp_path w) (temp_dir k) = None.
Proof.
  intros Hw Hf. pose proof (working_temp _ _ _ Hw) as Hd. destruct Hw as [_ _ _ [[E _]|H]]; [done|].
  destruct H as (w & mode & E & H1 & H2 & H3 & H4 & H5). exists w. rewrite E.
  split; [apply temp_dir_absolute|]. split; [apply temp_dir_path|]. split; [done|]. split; [done|].
  split; [by eapply dirs_to_snoc|done].
Qed.

(** An archive is written in the working directory. *)
Lemma working_archive f v n rnd c :
  let A := archive_path (resolve_from [] (if_workDir f)) (temp_dir n) in
  working f v (n :: rnd) -> if_workDir f <> "" -> v !! A = None /\ working f (<[A := File 420 c]> v) rnd.
Proof.
  intros A Hw Hf. destruct (working_workdir _ _ _ Hw Hf) as (w & Ha & HW & Hw1 & Hw2 & Hd & Hb & Hk).
  unfold A. rewrite HW. assert (v !! archive_path (temp_path w) (temp_dir n) = None) as Hn by (apply Hk; left).
  split; [done|]. assert (forall q, below (archive_path (temp_path w) (temp_dir n)) q = true -> v !! q = None) as Hbel.
  { intros q [[|y r] ->]%below_spec; [by rewrite app_nil_r|].
    destruct (v !! (archive_path (temp_path w) (temp_dir n) ++ y :: r)) eqn:E; [|done].
    destruct (w_closed _ _ _ Hw (archive_path (temp_path w) (temp_dir n)) y r) as [mode ?]; [|by rewrite E|congruence].
    unfold archive_path. by destruct (temp_path w). }
  pose proof Hw as [H1 H2 H3 H4]. split.
  - by apply closed_insert_file.
  - apply names_insert; [done|apply temp_path_good|apply good_archive_name].
  - etrans; [|exact H3]. by apply sublist_cons.
  - right. destruct H4 as [[? _]|(w' & mode & E & H4 & H5 & H6 & H7 & H8)]; [done|].
    assert (temp_path w = temp_path w') as Ew by (by rewrite <- HW, E, temp_dir_path).
    exists w', mode. rewrite Ew. split; [done|]. split; [done|]. split; [by intros H; apply H5; right|]. split; [|split].
    + intros q Hq. rewrite lookup_insert_ne; [by apply H6|]. intros <-. unfold archive_path in Hq.
      rewrite (proj2 (below_spec _ _)) in Hq; [done|by eexists].
    + rewrite lookup_insert_ne; [done|]. unfold archive_path. intros E'. apply (f_equal length) in E'.
      rewrite length_app in E'. cbn in E'. lia.
    + intros k Hk'. rewrite lookup_insert_ne; [apply H8; by right|]. unfold archive_path. intros E'.
      apply app_inv_head in E'. injection E' as E'. apply string_app_inj_r in E'.
      by apply (digest_distinct n k rnd H3 Hk').
Qed.

(** ** The sources are not touched *)

Lemma temp_apart n S :
  n ∈ random m0 -> below S T = false -> is_Some (tree_of m0 !! S) ->
  apart S (temp_path n) /\ forall r, below (temp_path n) (S ++ r) = false.
Proof.
  intros Hn HS [nd Hnd]. pose proof (proj1 (exists_at_false _ _) (Hfree n Hn)) as Hnew.
  assert (below S (temp_path n) = false) as H1.
  { apply not_true_is_false. intros [s Hs]%below_spec. destruct (decide (s = [])) as [->|Hs'].
    - rewrite app_nil_r in Hs. rewrite Hnew in Hnd; [done|]. rewrite <- Hs. apply below_spec. exists []. by rewrite app_nil_r.
    - destruct (exists_last Hs') as (l & x & ->). unfold temp_path in Hs. rewrite app_assoc in Hs.
      apply app_inj_tail in Hs as [Hs _]. rewrite (proj2 (below_spec _ _)) in HS; [done|]. by exists l. }
  assert (forall r, below (temp_path n) (S ++ r) = false) as H2.
  { intros r. apply not_true_is_false. intros [s Hs]%below_spec. destruct (prefixes_comparable _ _ _ _ Hs) as [Hb|Hb].
    - congruence.
    - by rewrite Hnew in Hnd. }
  split; [|done]. split; [done|]. intros r. apply not_true_is_false. intros Hi.
  pose proof (H2 r) as H. rewrite (proj2 (below_inside _ _)) in H; [done|by right].
Qed.

Lemma working_source f v rnd S r :
  working f v rnd -> below S T = false -> is_Some (tree_of m0 !! S) -> v !! (S ++ r) = tree_of m0 !! (S ++ r).
Proof.
  intros [_ _ _ Hw] HS Hn. destruct Hw as [[_ ->]|(w & mode & _ & Hw & _ & Hb & _)]; [done|].
  apply Hb. by apply temp_apart.
Qed.

Lemma artifact_shape_agree t t' S rel r :
  (forall r, t' !! (S ++ r) = t !! (S ++ r)) -> artifact_shape t' S rel r = artifact_shape t S rel r.
Proof. intros H. unfold artifact_shape. by destruct (strip rel r); rewrite ?H. Qed.

Lemma artifact_ok_agree (m m' : machine) S rel a :
  same_process m m' -> (forall r, tree_of m' !! (S ++ r) = tree_of m !! (S ++ r)) ->
  artifact_ok m T S rel a -> artifact_ok m' T S rel a.
Proof.
  intros Hs Hr [H1 H2 H3 H4 H5 H6 H7].
  assert (tree_of m' !! S = tree_of m !! S) as HS by (by rewrite <- (app_nil_r S), Hr).
  split; try done.
  - by rewrite (same_resolve m).
  - by rewrite HS.
  - intros r mode c. rewrite Hr. destruct Hs as [_ ->]. apply H6.
  - by rewrite HS.
Qed.

(** ** One layer *)

Lemma random_bind {A A'} (c : F A) (g : A -> F A') (m : machine) R :
  random (c m).2 = R -> (forall a, keeps_random (g a)) -> random ((c ≫= g) m).2 = R.
Proof.
  intros Hc Hg. unfold mbind, F_bind. destruct (c m) as [[a|e|w|] m']; cbn in Hc; [|done..]. by rewrite Hg.
Qed.

Lemma removeDir_try dir (m : machine) : exists r m', F_try (removeDir dir) m = (Ok r, m').
Proof.
  unfold F_try, removeDir, F_wrap, RemoveAll. destruct (String.eqb dir ""); [by do 2 eexists|]. unfold syscall.
  destruct (faults m) as [|[flt|] fs]; cbn; by do 2 eexists.
Qed.

(** What is filled, or removed after a failure. *)
Lemma wp_or_remove {A} (c : F unit) dir (b : A) (m : machine) (Q : A -> tree -> Prop) :
  wp c m (fun _ t => Q b t) ->
  wp (r ← F_try c; match r with inl _ => mret b | inr err => _ ← F_try (removeDir dir); F_lift (Err err) end) m Q.
Proof.
  unfold wp. intros H. unfold mbind at 1, F_bind at 1. unfold F_try at 1. destruct (c m) as [[a|e|w|] m']; try done.
  unfold mbind, F_bind. by destruct (removeDir_try dir m') as (r & m2 & ->).
Qed.

Section layer.
  Context (a : Artifact) (S rel : path).
  Hypothesis (Ha : artifact_ok m0 T S rel a).

(** The temporary directory of the artifact. *)
Record temp_filled (n : N) (v t : tree) : Prop := {
  tf_only : only_below (temp_path n) v t;
  tf_dir : exists mode, t !! temp_path n = Some (Dir mode);
  tf_closed : fs_closed (subtree t (temp_path n));
  tf_names : good_names (subtree t (temp_path n));
  tf_readable : forall r mode c super, r <> [] -> t !! (temp_path n ++ r) = Some (File mode c) -> readable super mode = true;
  tf_archive : archive_of (tree_of m0) S rel (archive_closed (tar_entries (subtree t (temp_path n))))
}.

Lemma source_nonempty : S <> [].
Proof. pose proof (ok_outside _ _ _ _ _ Ha) as H. by intros ->. Qed.

Lemma wp_Artifact_FS f n rest (m : machine) :
  same_process m0 m -> working f (tree_of m) (random m) -> random m = n :: rest ->
  wp (Artifact_FS TempDir a) m (fun r t => r = temp_dir n /\ temp_filled n (tree_of m) t).
Proof.
  intros Hs Hw Hr. pose proof source_nonempty as HS. assert (n ∈ random m) as Hn by (rewrite Hr; left).
  assert (forall q, below (temp_path n) q = true -> tree_of m !! q = None) as Hnew by (intros q; by eapply working_fresh).
  assert (n ∈ random m0) as Hn0 by (eapply elem_of_sublist; [exact Hn|apply Hw]).
  destruct (temp_apart n S Hn0 (ok_outside _ _ _ _ _ Ha) (ok_exists _ _ _ _ _ Ha)) as [Hap Hbel].
  pose proof (working_temp _ _ _ Hw) as HdT.
  unfold Artifact_FS. apply wp_bind, wp_wrap. eapply wp_mono.
  { apply (wp_MkdirTemp_head TempDir m n rest); [done|done|done|]. by apply exists_at_false. }
  fold (temp_dir n) (temp_path n). cbn beta. intros r t [-> ->] m1 Hs1 E1. apply wp_or_remove.
  assert (forall r, tree_of m1 !! (S ++ r) = tree_of m0 !! (S ++ r)) as HSr.
  { intros r. rewrite E1, lookup_insert_ne; [by eapply working_source; [|apply Ha..]|]. intros E.
    specialize (Hbel r). rewrite <- E, (proj2 (below_spec _ _)) in Hbel; [done|]. exists []. by rewrite app_nil_r. }
  assert (closed_tree (tree_of m1)) as Hc1 by (rewrite E1; apply closed_insert_dir; [apply Hw|done|done]).
  assert (good_names (tree_of m1)) as Hg1.
  { rewrite E1. apply names_insert; [apply Hw|by apply resolve_from_good|apply good_number]. }
  assert (artifact_ok m1 T S rel a) as Ha1 by (eapply artifact_ok_agree; [|done..]; by etrans).
  assert (dirs_to (tree_of m1) (temp_path n)) as Hd1.
  { rewrite E1. apply dirs_to_insert_new; [done|]. apply Hnew, below_spec. exists []. by rewrite app_nil_r. }
  eapply wp_mono.
  - apply (wp_fill a T S rel (temp_path n)); try done.
    + apply temp_dir_absolute.
    + apply temp_dir_path.
    + apply temp_path_nonempty.
    + apply temp_path_good.
    + split; [done|]. intros p Hp. rewrite E1, lookup_insert_ne.
      * apply Hnew, below_inside. by right.
      * intros <-. apply inside_spec in Hp as (x & l & E). apply (f_equal length) in E. rewrite length_app in E. cbn in E. lia.
  - cbn beta. intros _ t Hf. split; [done|].
    assert (exists mode, t !! temp_path n = Some (Dir mode)) as HD.
    { exists 448%N. rewrite (proj1 Hf), E1, lookup_insert_eq; [done|]. apply not_true_is_false.
      intros (x & l & E)%inside_spec. apply (f_equal length) in E. rewrite length_app in E. cbn in E. lia. }
    split.
    + intros p Hp. rewrite (proj1 Hf).
      * rewrite E1, lookup_insert_ne; [done|]. intros <-. rewrite (proj2 (below_spec _ _)) in Hp; [done|].
        exists []. by rewrite app_nil_r.
      * apply not_true_is_false. intros Hi. rewrite (proj2 (below_inside _ _)) in Hp; [done|by right].
    + done.
    + by eapply (filled_closed m1 T S rel (temp_path n) a).
    + by eapply (filled_names m1 T S rel (temp_path n) a).
    + intros r mode c super. by apply (filled_readable m1 S rel (temp_path n) t).
    + destruct (filled_archive m1 T S rel (temp_path n) a t Ha1 HS Hc1 Hg1 Hf HD) as (fsys & H1 & H2 & H3 & H4).
      exists fsys. split; [done|]. split; [done|]. split; [done|]. intros r Hrne. rewrite H4 by done.
      by apply artifact_shape_agree.
Qed.

Lemma random_Artifact_FS f n rest (m : machine) :
  working f (tree_of m) (random m) -> random m = n :: rest -> random (Artifact_FS TempDir a m).2 = rest.
Proof.
  intros Hw Hr. unfold Artifact_FS. apply random_bind.
  - unfold F_wrap. assert (random (MkdirTemp TempDir "" m).2 = rest) as H; [|by destruct (MkdirTemp TempDir "" m)].
    apply (random_MkdirTemp _ _ n); [done|done|]. apply exists_at_false. intros q. eapply working_fresh; [done|].
    rewrite Hr. left.
  - intros b. apply keeps_bind; [apply keeps_try, keeps_fill|]. intros [u|e]; [apply keeps_ret|].
    apply keeps_bind; [apply keeps_try; unfold removeDir; auto with random|]. intros _. apply keeps_lift.
Qed.
End layer.

Lemma remove_all_insert (t : tree) (D p : path) n :
  below D p = false -> remove_all (<[p := n]> t) D = <[p := n]> (remove_all t D).
Proof.
  intros H. apply map_eq. intros q. rewrite remove_all_lookup. destruct (decide (q = p)) as [->|Hne].
  - by rewrite H, !lookup_insert_eq.
  - by rewrite !lookup_insert_ne, remove_all_lookup.
Qed.

Lemma remove_all_mono (t t' : tree) (D : path) : t ⊆ t' -> remove_all t D ⊆ remove_all t' D.
Proof.
  intros Ht. apply map_subseteq_spec. intros q n. rewrite !remove_all_lookup. destruct (below D q); [done|].
  intros Hq. by eapply lookup_weaken.
Qed.

Lemma remove_all_outside (t : tree) (D p : path) : below D p = false -> remove_all t D !! p = t !! p.
Proof. intros H. by rewrite remove_all_lookup, H. Qed.

(** The directory of the artifact with number [n] is there, and its archive is
    not. *)
Definition between (n : N) (f : ImageFactory) (m : machine) : Prop :=
  same_process m0 m /\ working f (remove_all (tree_of m) (temp_path n)) (n :: random m).

(** The random numbers the next archive takes. *)
Definition needs (f : ImageFactory) : nat := if String.eqb (if_workDir f) "" then 1 else 0.

Lemma wpB_createWorkDir n f (m : machine) :
  between n f m -> (needs f <= length (random m))%nat ->
  wpB (if_createWorkDir TempDir) f m (fun dir f' m' => dir = if_workDir f' /\ dir <> "" /\ between n f' m' /\
    same_process m m' /\ (forall r, tree_of m' !! (temp_path n ++ r) = tree_of m !! (temp_path n ++ r)) /\
    tree_of m ⊆ tree_of m' /\ (length (random m') + needs f = length (random m))%nat).
Proof.
  intros [Hs Hw] Hlen. unfold needs in *. unfold wpB, if_createWorkDir.
  destruct (String.eqb_spec (if_workDir f) "") as [Hf|Hf].
  2:{ split; [done|]. split; [done|]. split; [done|]. split; [done|]. split; [done|]. split; [done|]. split; [done|lia]. }
  destruct (random m) as [|w rest] eqn:Er; [cbn in Hlen; lia|].
  assert (w ∈ n :: w :: rest) as Hin by (right; left).
  pose proof (w_random _ _ _ Hw) as Hsub.
  assert (digest w <> digest n) as Hne by (intros E; by apply (digest_distinct n w (w :: rest) Hsub ltac:(left))).
  assert (forall q, below (temp_path w) q = true -> tree_of m !! q = None) as Hnew.
  { intros q Hq. rewrite <- (remove_all_outside _ (temp_path n)); [by eapply working_fresh|]. by eapply temp_paths_apart. }
  assert (dirs_to (tree_of m) T) as HdT.
  { intros q Hq. destruct (working_temp _ _ _ Hw q Hq) as [mode Hm]. exists mode.
    by rewrite remove_all_outside in Hm by by apply temp_path_dirs. }
  pose proof (wp_MkdirTemp_head TempDir m w rest HT HdT Er ltac:(by apply exists_at_false)) as Hwp.
  pose proof (random_MkdirTemp TempDir m w rest HT Er ltac:(by apply exists_at_false)) as Hrnd.
  unfold F_wrap, wp in *. destruct (MkdirTemp TempDir "" m) as [[dir|e|why|] m']; cbn [wrap_err]; try done.
  destruct Hwp as (H1 & H2 & -> & Et). cbn in Hrnd. fold (temp_dir w) (temp_path w) in *.
  assert (below (temp_path n) (temp_path w) = false) as Hbel.
  { apply (temp_paths_apart w n); [done|]. apply below_spec. exists []. by rewrite app_nil_r. }
  split; [done|]. split; [done|]. split; [by intros E; pose proof (temp_dir_absolute w) as Ha; rewrite E in Ha|].
  split; [|split; [done|split; [|split]]].
  - split; [by etrans|]. rewrite Et, remove_all_insert, Hrnd by done. eapply working_make; [exact Hw|done|done| |].
    + intros [->|Hwr]%elem_of_cons; [done|]. by apply (digest_distinct w w rest); [etrans; [by apply sublist_cons|done]|..].
    + apply sublist_skip, sublist_cons. done.
  - intros r. rewrite Et, lookup_insert_ne; [done|]. intros E. rewrite E, (proj2 (below_spec _ _)) in Hbel; [done|by eexists].
  - rewrite Et. apply insert_subseteq, Hnew, below_spec. exists []. by rewrite app_nil_r.
  - rewrite Hrnd. cbn. lia.
Qed.

(** The archive and the layer of the directory. *)
Section build_layer.
  Context (n : N).
  Abbreviation D := (temp_path n).
  Abbreviation has_files m := (fs_closed (subtree (tree_of m) D) /\ good_names (subtree (tree_of m) D) /\
    forall r mode c super, r <> [] -> tree_of m !! (D ++ r) = Some (File mode c) -> readable super mode = true).

Lemma wpB_archive_in f (m : machine) :
  between n f m -> if_workDir f <> "" -> has_files m ->
  let A := archive_path (resolve_from [] (if_workDir f)) (temp_dir n) in
  wpB (B_lift (archive_in (if_workDir f) (temp_dir n))) f m (fun r f' m' => f' = f /\ same_process m m' /\
    (resolve_from [] r = A /\ HasPrefix r "/" = true) /\ (below D A = false /\ tree_of m ⊆ tree_of m') /\
    tree_of m' !! A = Some (File 420 (archive_closed (tar_entries (subtree (tree_of m) D)))) /\
    random m' = random m /\ working f (remove_all (tree_of m') D) (random m')).
Proof.
  intros [Hs Hw] Hf (Hc & Hg & Hr) A. destruct (working_workdir _ _ _ Hw Hf) as (w & Ha & HW & Hw1 & Hw2 & Hd & _).
  set (es := tar_entries (subtree (tree_of m) D)).
  destruct (working_archive f _ n (random m) (archive_closed es) Hw Hf) as [HA HwA]. fold A in HA, HwA.
  assert (forall q, below (temp_path w) q = true -> below D q = false) as Hout.
  { intros q. apply temp_paths_apart. intros E. apply (random_distinct n w (n :: random m)); [apply Hw|left|done|done|done]. }
  assert (below D A = false) as HAo by (apply Hout; unfold A; rewrite HW; apply below_spec; by eexists).
  assert (dirs_to (tree_of m) (temp_path w)) as Hdw.
  { intros q Hq. destruct (Hd q Hq) as [mode Hm]. exists mode. rewrite remove_all_outside in Hm; [done|].
    unfold temp_path in Hq. rewrite ancestors_app in Hq. cbn in Hq. apply elem_of_app in Hq as [Hq|Hq]; [by apply temp_path_dirs|].
    apply list_elem_of_singleton in Hq as ->. apply Hout, below_spec. exists []. by rewrite app_nil_r. }
  eapply wpB_mono.
  - apply wpB_lift; [|by apply keeps_archive_in].
    apply (wp_archive_in (if_workDir f) (temp_dir n) (temp_path w) D m); try done.
    + apply temp_dir_absolute.
    + apply temp_dir_path.
    + intros r mode c Hrne Hm. by apply (Hr r mode c).
    + rewrite <- HW. fold A. by rewrite <- (remove_all_outside _ D).
    + rewrite <- HW. by fold A.
  - cbn beta. rewrite <- HW. fold A es. intros r f' m' (-> & Hs' & [-> Et] & Hrnd).
    split; [done|]. split; [done|]. split; [split|split].
    + rewrite <- (resolve_absolute m) by (by apply PathJoin_is_absolute). unfold A. rewrite HW. by apply archiveName_path.
    + by apply PathJoin_is_absolute.
    + split; [done|]. rewrite Et. apply insert_subseteq. by rewrite <- (remove_all_outside _ D).
    + rewrite Et, Hrnd. split; [apply lookup_insert_eq|]. split; [done|]. by rewrite remove_all_insert.
Qed.

Lemma wpB_BuildLayer f (m : machine) :
  between n f m -> (needs f <= length (random m))%nat -> has_files m ->
  wpB (BuildLayer TempDir (temp_dir n)) f m (fun l f' m' => if_workDir f' <> "" /\ same_process m m' /\
    working f' (remove_all (tree_of m') D) (random m') /\ remove_all (tree_of m) D ⊆ remove_all (tree_of m') D /\
    reads_archive (remove_all (tree_of m') D) l (archive_closed (tar_entries (subtree (tree_of m) D))) /\
    (length (random m') + needs f = length (random m))%nat).
Proof.
  intros Hb Hlen Hfiles. unfold BuildLayer, archive. apply wpB_bind, wpB_wrap, wpB_bind, wpB_wrap.
  eapply wpB_mono; [by apply (wpB_createWorkDir n)|]. cbn beta.
  intros dir f1 m1 (-> & Hne & Hb1 & Hs1 & Hsame & Ht1 & Hl1).
  assert (subtree (tree_of m1) D = subtree (tree_of m) D) as Hsub.
  { apply map_eq. intros r. by rewrite !subtree_lookup. }
  assert (has_files m1) as Hfiles1.
  { destruct Hfiles as (H1 & H2 & H3). rewrite Hsub. split; [done|]. split; [done|]. intros r mode c super Hr. rewrite Hsame. by apply H3. }
  eapply wpB_mono; [by apply wpB_archive_in|]. cbn beta. rewrite Hsub.
  intros name f2 m2 (-> & Hs2 & [Hn Hna] & [HAo Ht2] & HA & Hr2 & Hw2). eapply wpB_mono.
  - apply wpB_lift.
    + apply wp_wrap, (layer_opens _ _ (tar_entries (subtree (tree_of m) D))).
      { apply tar_entries_plain; apply Hfiles. }
      intros m3 Hs3 E3. eapply wp_mono.
      * apply (wp_ReadFile name (archive_path (resolve_from [] (if_workDir f1)) (temp_dir n)) 420 (archive_closed (tar_entries (subtree (tree_of m) D)))).
        -- by apply absolute_nonempty.
        -- rewrite resolve_absolute by done. exact Hn.
        -- unfold archive_path. by destruct (resolve_from [] (if_workDir f1)).
        -- by rewrite E3.
        -- unfold readable. apply orb_true_r.
      * cbn beta. intros c t [-> ->]. by rewrite E3.
    + apply keeps_wrap, layer_random. auto with random.
  - cbn beta. intros l f' m' (-> & Hs' & [Hl Et] & Hr'). rewrite Et, Hr', Hr2.
    split; [done|]. split; [do 2 (etrans; [done|]); done|]. rewrite Hr2 in Hw2. split; [done|].
    split; [apply remove_all_mono; by etrans|]. split; [|done].
    exists name, (archive_path (resolve_from [] (if_workDir f1)) (temp_dir n)).
    split; [done|]. split; [done|]. split; [|split; [exact Hl|by rewrite remove_all_outside]].
    unfold archive_path. by destruct (resolve_from [] (if_workDir f1)).
Qed.
End build_layer.

(** ** Images and the index *)

(** A build that is under way, where no call to come fails. *)
Definition building (f : ImageFactory) (m : machine) : Prop :=
  same_process m0 m /\ working f (tree_of m) (random m) /\ ~ faulty m.

(** The random numbers that [k] more archives take. *)
Definition enough (k : nat) (f : ImageFactory) (m : machine) : Prop := (k + needs f <= length (random m))%nat.

Lemma needs_done f : if_workDir f <> "" -> needs f = 0%nat.
Proof. unfold needs. by destruct (String.eqb_spec (if_workDir f) ""). Qed.

Lemma RemoveAll_works dir (m : machine) :
  ~ faulty m -> dir <> "" -> let m' := (RemoveAll dir m).2 in
  tree_of m' = remove_all (tree_of m) (resolve m dir) /\ same_process m m' /\ random m' = random m /\ ~ faulty m'.
Proof.
  intros Hf Hd. assert (wp (RemoveAll dir) m (fun _ t => t = remove_all (tree_of m) (resolve m dir))) as H.
  { unfold wp, RemoveAll. destruct (String.eqb_spec dir ""); [done|].
    exact (wp_syscall (fun t => Ok (tt, remove_all t (resolve m dir))) m
             (fun _ t => t = remove_all (tree_of m) (resolve m dir)) tt _ eq_refl eq_refl). }
  pose proof (keeps_RemoveAll dir m) as Hr. unfold wp in H. destruct (RemoveAll dir m) as [[[]|e|w|] m']; try done.
  destruct H as (H1 & H2 & H3). cbn in *. naive_solver.
Qed.

Lemma wpB_defer {A} (c : B A) dir f (m : machine) (Q : A -> ImageFactory -> machine -> Prop) :
  ~ faulty m -> wpB c f m (fun a f' m' => ~ faulty m' -> Q a f' (removeDir dir m').2 /\ ~ faulty (removeDir dir m').2) ->
  wpB (B_defer c (removeDir dir)) f m Q.
Proof. unfold wpB, B_defer. intros Hf. destruct (c f m) as [[[a|e|w|] f'] m']; naive_solver. Qed.

(** The bytes of a layer with the files of an artifact, and a layer that reads them. *)
Definition layer_for (a : Artifact) (c : string) : Prop :=
  exists S rel, artifact_ok m0 T S rel a /\ archive_of (tree_of m0) S rel c.

Definition holds (t : tree) (a : Artifact) (l : LocalLayer) : Prop :=
  exists c, layer_for a c /\ reads_archive t l c.

Lemma holds_mono (t t' : tree) a l : t ⊆ t' -> holds t a l -> holds t' a l.
Proof. intros Ht (c & H1 & H2). exists c. split; [done|]. by eapply reads_archive_mono. Qed.

Definition buildable (a : Artifact) : Prop := exists S rel, artifact_ok m0 T S rel a.

Lemma wpB_buildImageLayer a k f (m : machine) :
  buildable a -> building f m -> enough (Datatypes.S k) f m ->
  wpB (buildImageLayer TempDir a) f m (fun l f' m' =>
    (building f' m' /\ enough k f' m') /\ tree_of m ⊆ tree_of m' /\ holds (tree_of m') a l).
Proof.
  intros (S & rel & Ha) (Hs & Hw & Hnf) Hk. unfold enough in *.
  destruct (random m) as [|n rest] eqn:Er; [cbn in Hk; lia|].
  unfold buildImageLayer. apply wpB_bind, wpB_no_fault; [done|]. eapply wpB_mono.
  { apply wpB_lift; [apply (wp_Artifact_FS a S rel Ha f n rest); by rewrite ?Er|].
    apply (random_Artifact_FS a f n rest); by rewrite ?Er. }
  cbn beta. intros dir f1 m1 (-> & Hs1 & [-> Htf] & Hr1) Hnf1.
  assert (forall q, below (temp_path n) q = true -> tree_of m !! q = None) as Hnew.
  { intros q. eapply working_fresh; [done|left]. }
  assert (remove_all (tree_of m1) (temp_path n) = tree_of m) as Hrem.
  { apply map_eq. intros q. rewrite remove_all_lookup. destruct (below (temp_path n) q) eqn:Hq.
    - symmetry. by apply Hnew.
    - by apply (tf_only _ _ _ _ _ Htf). }
  apply wpB_defer; [done|]. eapply wpB_mono.
  - apply (wpB_BuildLayer n).
    + split; [by etrans|]. by rewrite Hrem, Hr1.
    + rewrite Hr1. cbn in Hk. lia.
    + split; [apply Htf|]. split; [apply Htf|]. apply Htf.
  - cbn beta. intros l f2 m2 (Hne & Hs2 & Hw2 & Ht2 & Hl & Hlen) Hnf2.
    assert (temp_dir n <> "") as Hdn by (apply absolute_nonempty, temp_dir_absolute).
    destruct (RemoveAll_works (temp_dir n) m2 Hnf2 Hdn) as (H1 & H2 & H3 & H4).
    unfold removeDir, F_wrap. destruct (RemoveAll (temp_dir n) m2) as [r3 m3]. cbn [snd] in *.
    rewrite resolve_absolute, temp_dir_path in H1 by apply temp_dir_absolute.
    split; [|done]. split; [split|split].
    + split; [do 3 (etrans; [done|]); done|]. split; [by rewrite H1, H3|done].
    + rewrite H3, (needs_done f2) by done. rewrite Hr1 in Hlen. cbn in Hk. lia.
    + by rewrite H1, <- Hrem.
    + rewrite H1. eexists. split; [|exact Hl]. exists S, rel. split; [done|]. apply (tf_archive _ _ _ _ _ Htf).
Qed.

(** The layers of a list of artifacts. *)
Lemma wpB_buildImageLayers l k f (m : machine) :
  Forall buildable l -> building f m -> enough (length l + k) f m ->
  wpB (buildImageLayers TempDir l) f m (fun ls f' m' =>
    (building f' m' /\ enough k f' m') /\ tree_of m ⊆ tree_of m' /\ Forall2 (holds (tree_of m')) l ls).
Proof.
  intros Hl Hb Hk. unfold buildImageLayers. eapply wpB_mono.
  - apply (wpB_map holds (fun l f m => Forall buildable l /\ building f m /\ enough (length l + k) f m));
      [apply holds_mono| |done]. intros a l' f' m' ([Ha Hl']%Forall_cons & Hb' & Hk'). apply wpB_wrap. eapply wpB_mono.
    + by apply (wpB_buildImageLayer a (length l' + k)).
    + cbn beta. naive_solver.
  - cbn beta. intros ls f' m' ((_ & H1 & H2) & H3 & H4). done.
Qed.

(** What is built for a platform. *)
Definition platform_layers (common specific : list Artifact) (platform : v1_Platform) : list Artifact :=
  common ++ ForPlatform specific platform.

Definition image_for (common specific : list Artifact) (t : tree) (platform : v1_Platform) (i : PlatformImage) : Prop :=
  pi_Platform i = platform /\ Forall2 (holds t) (platform_layers common specific platform) (image_layers (pi_Image i)).

Lemma BuildImage_layers createdAt layers :
  exists i, BuildImage createdAt layers = Ok i /\ image_layers i = layers.
Proof.
  unfold BuildImage. destruct (config_layers (Image_MediaType (Image_Annotations empty_Image created_annotation createdAt)
    OCIManifestSchema1)) as (i & -> & H1). destruct (appended_layers i layers) as (i' & E & H2).
  exists i'. cbn. rewrite E. split; [done|]. by rewrite H2, H1, typed_layers, annotated_layers, empty_layers.
Qed.

Lemma Forall_ForPlatform (P : Artifact -> Prop) l p : Forall P l -> Forall P (ForPlatform l p).
Proof.
  rewrite !Forall_forall. intros H a Ha. apply H. apply list_elem_of_In, filter_In in Ha as [Ha _].
  by apply list_elem_of_In.
Qed.

Lemma wpB_buildPlatformImage createdAt common specific platform k f (m : machine) :
  Forall buildable (common ++ specific) -> building f m ->
  enough (length (platform_layers common specific platform) + k) f m ->
  wpB (buildPlatformImage TempDir createdAt common specific platform) f m (fun i f' m' =>
    (building f' m' /\ enough k f' m') /\ tree_of m ⊆ tree_of m' /\ image_for common specific (tree_of m') platform i).
Proof.
  intros [Hc Hp]%Forall_app Hb Hk. unfold buildPlatformImage, Artifacts_Add. fold (platform_layers common specific platform).
  apply wpB_bind. eapply wpB_mono.
  - apply (wpB_buildImageLayers _ k); [|done|done]. apply Forall_app. split; [done|by apply Forall_ForPlatform].
  - cbn beta. intros ls f1 m1 (H1 & Ht & H2). destruct (BuildImage_layers createdAt ls) as (i & E & Hi).
    apply wpB_bind. unfold B_lift, F_lift. rewrite E. unfold wpB. cbn. split; [done|]. split; [done|]. split; [done|].
    split; [done|]. split; [done|]. by rewrite <- Hi in H2.
Qed.

Lemma BuildImageIndex_images createdAt images :
  index_images (BuildImageIndex createdAt images) = (fun i => (NormalizedPlatform i, pi_Image i)) <$> images.
Proof.
  unfold BuildImageIndex. set (idx := Index_Annotations _ _ _).
  assert (index_images idx = []) as H0 by (unfold idx; by rewrite annotated_images, empty_images).
  change (?f <$> images) with ([] ++ (f <$> images)). rewrite <- H0. generalize idx. clear.
  induction images as [|i images IH]; intros idx; cbn [foldl fmap list_fmap]; [by rewrite app_nil_r|].
  by rewrite IH, appended_images, <- app_assoc.
Qed.

(** The archives of an index. *)
Definition archives (common specific : list Artifact) (platforms : list v1_Platform) : nat :=
  sum_list ((fun p => length (platform_layers common specific p)) <$> platforms).

(** The image of the platform of an entry of an index. *)
Definition built_for (common specific : list Artifact) (t : tree) (platform : v1_Platform)
    (entry : v1_Platform * v1_Image) : Prop :=
  entry.1 = NormalizedPlatform {| pi_Image := entry.2; pi_Platform := platform |} /\
  Forall2 (holds t) (platform_layers common specific platform) (image_layers entry.2).

Lemma wpB_buildImageIndex createdAt common specific k f (m : machine) :
  Forall buildable (common ++ specific) -> building f m ->
  enough (archives common specific (Artifacts_Platforms specific) + k) f m ->
  wpB (buildImageIndex TempDir createdAt common specific) f m (fun idx f' m' =>
    building f' m' /\ Forall2 (built_for common specific (tree_of m')) (Artifacts_Platforms specific) (index_images idx)).
Proof.
  intros Hall Hb Hk. unfold buildImageIndex. apply wpB_bind. eapply wpB_mono.
  - apply (wpB_map (image_for common specific) (fun l f m => building f m /\ enough (archives common specific l + k) f m)); [| |done].
    + intros t t' p i Ht [H1 H2]. split; [done|]. eapply Forall2_impl; [exact H2|]. intros a l. by apply holds_mono.
    + intros p l f' m' [Hb' Hk']. apply (wpB_buildPlatformImage _ _ _ _ (archives common specific l + k)); [done|done|].
      unfold archives in *. cbn [fmap list_fmap sum_list] in Hk'. by rewrite Nat.add_assoc.
  - cbn beta. intros imgs f' m' ([Hb' _] & _ & His). apply wpB_ret. split; [done|]. rewrite BuildImageIndex_images.
    apply Forall2_fmap_r. eapply Forall2_impl; [exact His|]. intros p [img q] [Hp Hi]. cbn in *. subst q. by split.
Qed.

(** Cleaning up leaves the files as they were. *)
Lemma CleanUp_restores f rnd (m : machine) :
  same_process m0 m -> working f (tree_of m) rnd -> ~ faulty m -> tree_of (if_CleanUp f m).2 = tree_of m0.
Proof.
  intros Hs Hw Hnf. unfold if_CleanUp. cbn [snd].
  destruct (String.eqb_spec (if_workDir f) "") as [Hf|Hf].
  - destruct (w_dir _ _ _ Hw) as [[_ E]|(w & mode & E & _)]; [by rewrite Hf|].
    rewrite Hf in E. pose proof (temp_dir_absolute w) as H. by rewrite <- E in H.
  - destruct (working_workdir _ _ _ Hw Hf) as (w & Ha & HW & Hw1 & _ & _ & Hb & _).
    destruct (RemoveAll_works _ m Hnf Hf) as (-> & _). rewrite resolve_absolute, HW by done.
    apply map_eq. intros q. rewrite remove_all_lookup. destruct (below (temp_path w) q) eqn:Hq; [|by apply Hb].
    symmetry. revert Hq. by apply exists_at_false, Hfree.
Qed.

(** ** Pushing *)

(** The layers of an index can be read while the files stay as they are, and this is
    what they hold. *)
Definition layers_read (m : machine) (idx : v1_ImageIndex) (contents : list (list string)) : Prop :=
  Forall2 (fun entry cs => Forall2 (fun l c => forall m', same_process m m' -> tree_of m' = tree_of m ->
      wp (layer_Compressed l) m' (fun r t => r = c /\ t = tree_of m)) (image_layers entry.2) cs)
    (index_images idx) contents.

Lemma built_layers_read common specific (m : machine) platforms idx :
  Forall2 (built_for common specific (tree_of m)) platforms (index_images idx) ->
  exists contents, layers_read m idx contents /\
    Forall2 (fun platform cs => Forall2 layer_for (platform_layers common specific platform) cs) platforms contents.
Proof.
  unfold layers_read. generalize (index_images idx). intros images H. induction H as [|p e ps es [_ He] _ (css & H1 & H2)].
  { by exists []. }
  assert (exists cs, Forall2 (fun l c => forall m', same_process m m' -> tree_of m' = tree_of m ->
      wp (layer_Compressed l) m' (fun r t => r = c /\ t = tree_of m)) (image_layers e.2) cs /\
    Forall2 layer_for (platform_layers common specific p) cs) as (cs & H3 & H4).
  { induction He as [|a l al ls (c & Ha & Hl) _ (cs & H3 & H4)]; [by exists []|]. exists (c :: cs).
    split; constructor; try done. intros m' _ E. rewrite <- E in *. by apply wp_layer_Compressed. }
  exists (cs :: css). split; by constructor.
Qed.

Section publish.
  Context `{IN : ImageName} {R : Type} {PB : Publisher (IN := IN) (IB := IB) R}.

(** The documented behaviour of a push: it reads the layers of the images of the index,
    which must be there, and the registry answers to the index and to what it read; the
    files stay as they are. *)
Class PublisherLaws := {
  upload : R -> Reference -> v1_ImageIndex -> list (list string) -> option error * R;
  push_uploads reg ref idx contents (m : machine) :
    ~ faulty m -> layers_read m idx contents ->
    exists m', push_WriteIndex reg ref idx m = (upload reg ref idx contents, m') /\
      tree_of m' = tree_of m /\ same_process m m' /\ ~ faulty m'
}.
Context `{PBL : !PublisherLaws}.

(** What is pushed for a platform: the entry of the index, for the normalized platform,
    and the bytes of its layers, one for each artifact of the image. *)
Definition entry_for (common specific : list Artifact) (platform : v1_Platform)
    (entry : (v1_Platform * v1_Image) * list string) : Prop :=
  entry.1.1 = NormalizedPlatform {| pi_Image := entry.1.2; pi_Platform := platform |} /\
  length (image_layers entry.1.2) = length entry.2 /\
  Forall2 layer_for (platform_layers common specific platform) entry.2.

(** C16: on a machine where no system call fails, whose temporary directory is free
    for the names that are drawn, releasing artifacts that can be read pushes an
    index with one image for each platform, in the order of the artifacts, each
    for its normalized platform and with one layer for each common artifact and
    then for each artifact of the platform.  The layers are read from their archives
    when they are pushed, and what the registry is given of each is an archive with
    exactly the files of the artifact; the outcome is that of the push, and no file
    is left behind. *)
Theorem release_publishes_artifacts createdAt ref common specific (reg : R) :
  ~ faulty m0 -> Forall buildable (common ++ specific) ->
  (1 + archives common specific (Artifacts_Platforms specific) <= length (random m0))%nat ->
  remote_Head reg ref = false ->
  exists idx contents err reg' m', upload reg ref idx contents = (err, reg') /\
    Release TempDir createdAt ref common specific reg m0 =
      (match err with None => Ok idx | Some e => Err (WrapError "push index image: " e "") end, reg', m') /\
    tree_of m' = tree_of m0 /\ length contents = length (index_images idx) /\
    Forall2 (entry_for common specific) (Artifacts_Platforms specific) (zip (index_images idx) contents).
Proof.
  intros Hnf Hall Hlen Hhead.
  assert (building NewImageFactory m0) as Hb0 by (split; [done|split; [apply working_start|done]]).
  pose proof (wpB_buildImageIndex createdAt common specific 0 NewImageFactory m0 Hall Hb0) as Hwp.
  unfold enough, wpB in Hwp. change (needs NewImageFactory) with 1%nat in Hwp. specialize (Hwp ltac:(lia)).
  unfold Release, alreadyPublished. rewrite Hhead.
  destruct (buildImageIndex TempDir createdAt common specific NewImageFactory m0) as [[[idx|e|why|] f'] m']; try done.
  destruct Hwp as (_ & Hb & Hidx). destruct (built_layers_read _ _ _ _ _ Hidx) as (contents & Hread & Hfor).
  destruct (index_digest idx) as [d Hd]. unfold pushImageIndex. rewrite Hd. cbn [wrap_err].
  destruct (push_uploads reg ref idx contents m' ltac:(apply Hb) Hread) as (m2 & -> & Ht2 & Hs2 & Hnf2).
  assert (tree_of (if_CleanUp f' m2).2 = tree_of m0) as Hclean.
  { destruct Hb as (Hs & Hw & _). apply (CleanUp_restores f' (random m') m2); [by etrans|by rewrite Ht2|done]. }
  pose proof (Forall2_length _ _ _ Hread) as Hl.
  assert (Forall2 (entry_for common specific) (Artifacts_Platforms specific) (zip (index_images idx) contents)) as He.
  { unfold layers_read in Hread. clear - Hidx Hfor Hread. revert contents Hfor Hread.
    induction Hidx as [|p e ps es [H1 _] _ IH]; intros contents Hfor Hread; [constructor|].
    inversion Hread as [|? cs ? css H2 H3]; subst. apply Forall2_cons in Hfor as [H4 H5]. cbn [zip zip_with].
    constructor; [|by apply IH]. split; [done|]. split; [by eapply Forall2_length|done]. }
  destruct (upload reg ref idx contents) as [[e|] reg'] eqn:Eu; eexists idx, contents, _, _, _;
    (split; [exact Eu|]); (split; [done|]); by split.
Qed.
End publish.
End building.
End release.

(** ** Every artifact is in the image of one platform *)

Section platforms.
  Context `{PL : Platforms}.

(** Equal platforms. *)
Class PlatformLaws := {
  Equals_refl p : Equals p p = true;
  Equals_sym p q : Equals p q = Equals q p;
  Equals_trans p q r : Equals p q = true -> Equals q r = true -> Equals p r = true
}.
Context `{PLaws : !PlatformLaws}.

(** No two platforms of the list are equal. *)
Definition distinct (l : list v1_Platform) : Prop :=
  forall i j p q, l !! i = Some p -> l !! j = Some q -> Equals p q = true -> i = j.

Lemma distinct_snoc l p :
  distinct l -> (forall q, q ∈ l -> Equals p q = false) -> distinct (l ++ [p]).
Proof.
  intros Hl Hp i j x y Hi Hj E. apply lookup_app_Some in Hi as [Hi|[Hi1 Hi]], Hj as [Hj|[Hj1 Hj]].
  - by eapply Hl.
  - apply list_lookup_singleton_Some in Hj as [Hj <-]. rewrite Equals_sym in E. rewrite Hp in E; [done|].
    by eapply list_elem_of_lookup_2.
  - apply list_lookup_singleton_Some in Hi as [Hi <-]. rewrite Hp in E; [done|]. by eapply list_elem_of_lookup_2.
  - apply list_lookup_singleton_Some in Hi as [Hi _], Hj as [Hj _]. lia.
Qed.

Lemma platforms_from_spec unique a :
  distinct unique ->
  distinct (platforms_from unique a) /\ (forall p, p ∈ unique -> p ∈ platforms_from unique a) /\
  (forall x, x ∈ a -> exists p, p ∈ platforms_from unique a /\ Equals (a_Platform x) p = true) /\
  (forall p, p ∈ platforms_from unique a -> p ∈ unique \/ exists x, x ∈ a /\ a_Platform x = p).
Proof.
  revert unique. induction a as [|x a IH]; intros unique Hu; cbn [platforms_from].
  { split; [done|]. split; [done|]. split; [intros x Hx; by apply elem_of_nil in Hx|by left]. }
  set (unique' := if existsb _ unique then unique else unique ++ [a_Platform x]).
  assert (distinct unique' /\ (forall p, p ∈ unique -> p ∈ unique') /\
    (exists p, p ∈ unique' /\ Equals (a_Platform x) p = true) /\
    (forall p, p ∈ unique' -> p ∈ unique \/ a_Platform x = p)) as (H1 & H2 & H3 & H4).
  { unfold unique'. destruct (existsb _ unique) eqn:E.
    - split; [done|]. split; [done|]. split; [|by left]. apply existsb_exists in E as (p & Hp & E).
      exists p. split; [by apply list_elem_of_In|done].
    - split; [|split; [|split]].
      + apply distinct_snoc; [done|]. intros q Hq. apply not_true_is_false. intros Hq'.
        assert (existsb (fun platform => Equals (a_Platform x) platform) unique = true) as E'; [|congruence].
        apply existsb_exists. exists q. split; [by apply list_elem_of_In|done].
      + intros p Hp. apply elem_of_app. by left.
      + exists (a_Platform x). split; [apply elem_of_app; right; by left|apply Equals_refl].
      + intros p [Hp|Hp]%elem_of_app; [by left|]. apply list_elem_of_singleton in Hp. by right. }
  destruct (IH unique' H1) as (I1 & I2 & I3 & I4). split; [done|]. split; [naive_solver|]. split.
  - intros y [->|Hy]%elem_of_cons; [|by apply I3]. destruct H3 as (p & Hp & E). exists p. split; [by apply I2|done].
  - intros p [Hp|(y & Hy & <-)]%I4.
    + apply H4 in Hp as [Hp|Hp]; [by left|right]. exists x. split; [left|done].
    + right. exists y. split; [by right|done].
Qed.

(** The platforms of a list of artifacts are the platforms of artifacts, no
    two of them are equal, and every artifact is in the selection for exactly one
    of them. *)
Theorem artifact_has_one_platform (a : list Artifact) :
  (forall p, p ∈ Artifacts_Platforms a -> exists x, x ∈ ForPlatform a p /\ a_Platform x = p) /\
  forall x, x ∈ a -> exists i p, Artifacts_Platforms a !! i = Some p /\ x ∈ ForPlatform a p /\
    forall j q, Artifacts_Platforms a !! j = Some q -> x ∈ ForPlatform a q -> j = i.
Proof.
  assert (distinct []) as H0 by (intros i j p q Hi; by rewrite lookup_nil in Hi).
  destruct (platforms_from_spec [] a H0) as (H1 & _ & H3 & H4). fold (Artifacts_Platforms a) in *.
  assert (forall x p, x ∈ ForPlatform a p <-> x ∈ a /\ Equals (a_Platform x) p = true) as Hf.
  { intros x p. unfold ForPlatform. by rewrite list_elem_of_In, filter_In, <- list_elem_of_In. }
  split.
  - intros p Hp. apply H4 in Hp as [Hp|(x & Hx & <-)]; [by apply elem_of_nil in Hp|]. exists x. split; [|done].
    apply Hf. split; [done|apply Equals_refl].
  - intros x Hx. destruct (H3 x Hx) as (p & Hp & E). apply list_elem_of_lookup_1 in Hp as [i Hi]. exists i, p.
    split; [done|]. split; [by apply Hf|]. intros j q Hj [_ E']%Hf. apply (H1 j i q p); [done|done|].
    apply (Equals_trans q (a_Platform x) p); [by rewrite Equals_sym|done].
Qed.
End platforms.

(** ** From a build to a fetch *)

Section roundtrip.
  Context `{PL : Platforms} `{IB : ImageBuilder} `{LY : Layers} `{BL : !BuilderLaws} `{LL : !LayerLaws}.

(** Sanitizing does not change a name with plain elements, nor one with a slash
    after it. *)
Class SanitizeLaws := {
  SanitizePath_plain q : Forall good_elem q -> q <> [] -> name_elems (SanitizePath (Join q "/")) = q;
  SanitizePath_slash q : Forall good_elem q -> q <> [] -> name_elems (SanitizePath (Join q "/" +:+ "/")) = q
}.
Context `{SL : !SanitizeLaws}.

(** What the writer of layers makes of a node. *)
Definition fetched (n : node) : node := match n with Dir _ => Dir 448 | File _ c => File 256 c end.

Lemma shape_fetched n : shape (fetched n) = shape n.
Proof. by destruct n. Qed.

Lemma F_each_fmap {A A'} (f : A' -> F unit) (g : A -> A') l (m : machine) :
  F_each f (g <$> l) m = F_each (fun x => f (g x)) l m.
Proof.
  revert m. induction l as [|x l IH]; intros m; [done|]. cbn [fmap list_fmap F_each]. unfold mbind, F_bind.
  by destruct (f (g x) m) as [[] ].
Qed.

Section unpack.
  Context (dir : string) (O : path).
  Hypothesis (Hdir : HasPrefix dir "/" = true) (HO : resolve_from [] dir = O).

Lemma entry_path (q : path) n (m : machine) :
  Forall good_elem q -> q <> [] ->
  resolve m (PathJoin [dir; SanitizePath (hdr_Name (entry_of (q, n)))]) = O ++ q.
Proof.
  intros Hq Hne. rewrite resolve_join, HO, join_name by (done || apply SanitizePath_down). f_equal.
  unfold entry_of. destruct n; cbn; [by apply SanitizePath_slash|by apply SanitizePath_plain].
Qed.

Lemma wp_write_entry (q : path) x n (m : machine) :
  Forall good_elem (q ++ [x]) -> dirs_to (tree_of m) (O ++ q) -> tree_of m !! (O ++ q ++ [x]) = None ->
  wp (write_entry dir (entry_of (q ++ [x], n))) m (fun _ t => t = <[O ++ q ++ [x] := fetched n]> (tree_of m)).
Proof.
  intros Hg Hd Hn. assert (forall m', resolve m' (PathJoin [dir; SanitizePath (hdr_Name (entry_of (q ++ [x], n)))]) = (O ++ q) ++ [x]) as Hp.
  { intros m'. rewrite entry_path, app_assoc by (done || by destruct q). done. }
  assert (PathJoin [dir; SanitizePath (hdr_Name (entry_of (q ++ [x], n)))] <> "") as Hne
    by by apply absolute_nonempty, PathJoin_is_absolute.
  unfold write_entry. set (filePath := PathJoin _) in *. rewrite app_assoc in *. destruct n as [mode|mode c].
  - change (hdr_Typeflag (entry_of (q ++ [x], Dir mode))) with TypeDir. cbn iota. unfold writeDir. apply wp_wrap.
    unfold wp. rewrite MkdirAll_named, Hp by done. exact (wp_mkdir_all_snoc (O ++ q) x 448 m Hd Hn).
  - change (hdr_Typeflag (entry_of (q ++ [x], File mode c))) with TypeReg. cbn iota. unfold writeFile.
    apply wp_bind, wp_wrap. eapply wp_mono.
    { by apply (wp_OpenFile_new filePath (O ++ q) x). }
    cbn beta. intros [] t -> m1 Hs1 E1. apply wp_bind, wp_wrap, wp_bind. eapply wp_mono.
    { apply (wp_WriteTo filePath ((O ++ q) ++ [x]) (umask 256) ""); [done|by rewrite E1, lookup_insert_eq|cbn; lia]. }
    cbn beta. intros [] t -> m2 Hs2 E2. apply (wp_ret tt). intros m3 _ E3. apply wp_wrap.
    eapply wp_mono; [by apply wp_Close|]. cbn beta. intros [] t ->. by rewrite E3, E2, E1, insert_insert_eq.
Qed.

Lemma wp_write_layer l fsys (m : machine) :
  fs_closed fsys -> good_names fsys -> layer_Uncompressed l = Ok (tar_entries fsys, None) -> empty_dir (tree_of m) O ->
  wp (DiskLayerWriter_Write [l] dir) m (fun _ t => forall p, t !! p =
    match strip O p with Some (x :: r) => fetched <$> fsys !! (x :: r) | _ => tree_of m !! p end).
Proof.
  intros Hc Hg Hl He. unfold DiskLayerWriter_Write. cbn [F_each]. apply wp_bind, wp_wrap.
  unfold writeLayerToDisk. rewrite Hl. apply wp_bind, (wp_ret (tar_entries fsys, None)). intros m1 Hs1 E1.
  rewrite <- E1 in *. destruct He as [Hd He]. apply wp_bind.
  apply (wp_mono _ _ (fun _ t => forall p, t !! p =
    match strip O p with Some (x :: r) => fetched <$> fsys !! (x :: r) | _ => tree_of m1 !! p end)).
  - assert (wp (F_each (fun kn => write_entry dir (entry_of kn)) (entries fsys)) m1 (fun _ t => forall p, t !! p =
      match strip O p with Some (x :: r) => fetched <$> fsys !! (x :: r) | _ => tree_of m1 !! p end)) as H.
    { eapply wp_mono.
      - apply (wp_unpack fetched _ O fsys m1); [done|done|done|done|].
        intros q x n m' _ _ Hn Hd' Hnew. apply wp_write_entry; [|done|done]. apply Hg. by eexists.
      - cbn beta. intros _ t Ht. by apply unpacked_entries. }
    unfold wp, tar_entries in *. rewrite F_each_fmap. exact H.
  - cbn beta. intros _ t Ht m2 _ <-. apply wp_ret. intros m3 _ E3. apply wp_ret. by rewrite E3.
Qed.
End unpack.

(** C17: on machines where no system call fails, the layer that is built for an
    artifact is read from its archive, and what is read there, pushed, pulled and
    written to an empty directory, gives there exactly the files of the artifact: those
    of its source at its destination, and the directories on the way. *)
Theorem built_layer_unpacks (TempDir : string) (m : machine) n rest a S rel dir (m2 : machine) :
  HasPrefix TempDir "/" = true -> dirs_to (tree_of m) (resolve_from [] TempDir) -> closed_tree (tree_of m) ->
  good_names (tree_of m) -> ~ faulty m -> random m = n :: rest -> rest <> [] ->
  (forall n, n ∈ random m -> exists_at (tree_of m) (resolve_from [] TempDir ++ [FormatUint n]) = false) ->
  NoDup ((fun n => sha256_hex (PathJoin [TempDir; FormatUint n])) <$> random m) ->
  artifact_ok m (resolve_from [] TempDir) S rel a ->
  HasPrefix dir "/" = true -> empty_dir (tree_of m2) (resolve_from [] dir) -> ~ faulty m2 ->
  exists l f' m' blob m'' m2', buildImageLayer TempDir a NewImageFactory m = (Ok l, f', m') /\
    layer_Compressed l m' = (Ok blob, m'') /\ tree_of m'' = tree_of m' /\
    DiskLayerWriter_Write [pulled blob] dir m2 = (Ok tt, m2') /\
    only_inside (resolve_from [] dir) (tree_of m2) (tree_of m2') /\
    forall r, r <> [] -> shape <$> tree_of m2' !! (resolve_from [] dir ++ r) = artifact_shape (tree_of m) S rel r.
Proof.
  intros HT HTd Hc Hg Hnf Hr Hrest Hfree Hsha Ha Hdir He Hnf2.
  assert (building TempDir m NewImageFactory m) as Hb by (split; [done|split; [by apply working_start|done]]).
  assert (enough 1 NewImageFactory m) as Hk.
  { unfold enough, needs. rewrite Hr. cbn. destruct rest; [done|cbn; lia]. }
  pose proof (wpB_buildImageLayer TempDir m HT HTd Hfree Hsha a 0 NewImageFactory m ltac:(by exists S, rel) Hb Hk) as H.
  unfold wpB in H. destruct (buildImageLayer TempDir a NewImageFactory m) as [[[l|e|w|] f'] m']; try done.
  destruct H as (_ & [(_ & _ & Hnf') _] & _ & blob & (S' & rel' & Ha' & fsys & H1 & H2 & -> & H4) & Hl).
  assert (S' = S /\ rel' = rel) as [-> ->].
  { rewrite <- (ok_src _ _ _ _ _ Ha), <- (ok_src _ _ _ _ _ Ha'), <- (ok_dst _ _ _ _ _ Ha), <- (ok_dst _ _ _ _ _ Ha'). done. }
  pose proof (wp_layer_Compressed l _ m' Hl) as Hread. unfold wp in Hread.
  destruct (layer_Compressed l m') as [[blob|e|w|] m''] eqn:El; try done. destruct Hread as (_ & _ & -> & Ht).
  pose proof (wp_write_layer dir _ Hdir eq_refl (pulled (archive_closed (tar_entries fsys))) fsys m2 H1 H2
    ltac:(by apply pulled_entries, tar_entries_plain) He) as Hw. unfold wp in Hw.
  destruct (DiskLayerWriter_Write _ dir m2) as [[[]|e|w|] m2'] eqn:Ew; try done. destruct Hw as (_ & _ & Hw).
  eexists l, f', m', _, m'', m2'. split; [done|]. split; [exact El|]. split; [done|]. split; [done|]. split.
  - intros p Hp. rewrite Hw. unfold inside in Hp. by destruct (strip _ p) as [[|x r]|].
  - intros r Hrne. rewrite <- H4, Hw, strip_app by done. destruct r as [|x r]; [done|].
    rewrite <- option_fmap_compose. by destruct (fsys !! (x :: r)) as [[]|].
Qed.
End roundtrip.
