(* ===== verification/Values.v ===== *)
(** The values the runner handles: [google.protobuf.Value] messages, dynamic Go
    values ([any]), the interface to the [structpb] package, and package
    [context] (src/pkg/context): values and variables with their sensitivity. *)

From Stdlib Require Import SpecFloat.
From stdpp Require Import gmap strings list pretty.
From S2P Require Import Prelude GoStrings.
Open Scope go_scope.
Open Scope string_scope.
Open Scope list_scope.

(** ** Protobuf values *)

(** A [*structpb.Value], by the wrapper its [Kind] holds.  A [float64] is a
    [spec_float]; the fields of a struct come in the order a range visits them. *)
Inductive value :=
  | VUnset
  | VNull
  | VNumber (n : spec_float)
  | VString (s : string)
  | VBool (b : bool)
  | VStruct (fields : list (string * value))
  | VList (values : list value).

(** Induction on values, through lists and fields. *)
Fixpoint value_ind' (P : value -> Prop)
    (HU : P VUnset) (HN : P VNull) (Hn : forall n, P (VNumber n)) (Hs : forall s, P (VString s))
    (Hb : forall b, P (VBool b)) (HS : forall fs, Forall (fun kv => P kv.2) fs -> P (VStruct fs))
    (HL : forall vs, Forall P vs -> P (VList vs)) (v : value) : P v :=
  let rec := value_ind' P HU HN Hn Hs Hb HS HL in
  match v with
  | VUnset => HU
  | VNull => HN
  | VNumber n => Hn n
  | VString s => Hs s
  | VBool b => Hb b
  | VStruct fs =>
      HS fs ((fix go fs := match fs return Forall (fun kv => P kv.2) fs with
                           | [] => Forall_nil_2 _
                           | kv :: fs' => Forall_cons_2 _ kv fs' (rec kv.2) (go fs')
                           end) fs)
  | VList vs =>
      HL vs ((fix go vs := match vs return Forall P vs with
                           | [] => Forall_nil_2 _
                           | v :: vs' => Forall_cons_2 _ v vs' (rec v) (go vs')
                           end) vs)
  end.

(** ** Dynamic Go values *)

(** What [reflect] tells of a struct field: its name, whether it is exported,
    whether it is embedded, and its [json] tag. *)
Record struct_field := {
  fld_name : string;
  fld_exported : bool;
  fld_anonymous : bool;
  fld_json : option string
}.

(** An [any].  [AValue] is a [*structpb.Value] ([None] the nil pointer),
    [AStruct] a struct or a non-nil pointer to one, [ATypedMap] a map of a type
    other than [map[string]any], with the kind of its keys. *)
Inductive any :=
  | ANil
  | ABool (b : bool)
  | AFloat (f : spec_float)
  | AString (s : string)
  | AStringPtr (s : option string)
  | ASlice (l : list any)
  | AMap (m : list (string * any))
  | AStepInputs (m : list (string * any))
  | AValue (v : option value)
  | AStruct (type : string) (fields : list (struct_field * any))
  | ANilPtr (type : string)
  | ATypedMap (type key_kind : string) (m : list (string * any))
  | AOther (type kind : string).

(** ** The [structpb] package *)

(** [structpb.NewValue] and the JSON encoding of a [*structpb.Value], with what
    the documentation of [NewValue] says of the types the code passes it. *)
Class StructPB := {
  NewValue : any -> res value;
  MarshalValue : value -> res string;
  NewValue_nil : NewValue ANil = Ok VNull;
  NewValue_bool b : NewValue (ABool b) = Ok (VBool b);
  NewValue_float f : NewValue (AFloat f) = Ok (VNumber f);
  NewValue_string s : utf8_valid s = true -> NewValue (AString s) = Ok (VString s);
  NewValue_slice l vs :
    Forall2 (fun x v => NewValue x = Ok v) l vs -> NewValue (ASlice l) = Ok (VList vs);
  NewValue_map m fs :
    Forall2 (fun kx kv => kv.1 = kx.1 /\ utf8_valid kx.1 = true /\ NewValue kx.2 = Ok kv.2) m fs ->
    NewValue (AMap m) = Ok (VStruct fs);
  NewValue_decided x : decided (NewValue x) = true;
  MarshalValue_decided v : decided (MarshalValue v) = true
}.

(** ** [strconv.FormatFloat(f, 'f', -1, 64)] *)

(** A decimal [d * 10^k] compared with [n * 2^q]: both sides as integers. *)
Definition dec_side (d k q : Z) : Z := (d * 10 ^ (Z.max k 0) * 2 ^ (Z.max (- q) 0))%Z.
Definition bin_side (n k q : Z) : Z := (n * 2 ^ (Z.max q 0) * 10 ^ (Z.max (- k) 0))%Z.

(** The decimal with the fewest digits among those that round to [m * 2^e],
    the closest one when there are two: from the digit position [k] down. *)
Fixpoint shortest (fuel : nat) (k lower v upper q : Z) (inclusive : bool) : Z * Z :=
  let a := dec_side 1 k q in
  let d := (bin_side v k q / a)%Z in
  let inside x :=
    let (l, u) := (bin_side lower k q, bin_side upper k q) in
    if inclusive then ((l <=? x * a) && (x * a <=? u))%Z else ((l <? x * a) && (x * a <? u))%Z in
  let twice_rest := (2 * (bin_side v k q - d * a))%Z in
  let up := if (twice_rest =? a)%Z then Z.odd d else (a <? twice_rest)%Z in
  match inside d, inside (d + 1)%Z with
  | true, true => ((if up then d + 1 else d)%Z, k)
  | true, false => (d, k)
  | false, true => ((d + 1)%Z, k)
  | false, false =>
      match fuel with
      | O => (d, k)
      | S n => shortest n (k - 1) lower v upper q inclusive
      end
  end.

Fixpoint zeros (n : nat) : string := match n with O => "" | S n => String "0"%char (zeros n) end.

(** [d * 10^k] in positional notation. *)
Definition positional (d k : Z) : string :=
  let ds := itoa d in
  let n := String.length ds in
  if (0 <=? k)%Z then ds +:+ zeros (Z.to_nat k)
  else let p := Z.to_nat (- k) in
       if (p <? n)%nat then slice ds 0 (n - p) +:+ "." +:+ slice_from ds (n - p)
       else "0." +:+ zeros (p - n) +:+ ds.

Definition FormatFloat (f : spec_float) : string :=
  match f with
  | S754_zero s => if s then "-0" else "0"
  | S754_infinity s => if s then "-Inf" else "+Inf"
  | S754_nan => "NaN"
  | S754_finite s m e =>
      let v := (4 * Z.pos m)%Z in
      let lower := if ((Z.pos m =? 2 ^ 52) && (-1074 <? e))%Z then (v - 1)%Z else (v - 2)%Z in
      let q := (e - 2)%Z in
      let k := ((Z.log2 (Z.pos m) + 1 + e) * 30103 / 100000 + 1)%Z in
      let '(d, k) := shortest 20 k lower v (v + 2)%Z q (Z.even (Z.pos m)) in
      (if s then "-" else "") +:+ positional d k
  end.

(** The float an integer literal denotes. *)
Definition float_of_Z (z : Z) : spec_float := binary_normalize 53 1024 z 0 false.

(** ** Package [context] *)

Module context.

(** [type Value struct] *)
Record Value := {
  Value_Value : value;
  Value_Sensitive : bool;
  Value_SensitiveReason : string
}.

Definition NewValue (v : option value) (sensitive : bool) (sensitiveReasons : list string) :
    res Value :=
  match v with
  | None => Panic "value must have an inner value"
  | Some v => Ok {| Value_Value := v; Value_Sensitive := sensitive;
                    Value_SensitiveReason := Join sensitiveReasons "," |}
  end.

Definition NewStringValue (v : string) (sensitive : bool) (sensitiveReasons : list string) :
    res Value := NewValue (Some (VString v)) sensitive sensitiveReasons.

Definition NewNonSensitiveValue (v : option value) : res Value := NewValue v false [].

(** [type Variable struct] *)
Record Variable_ := {
  Variable_Value : value;
  Variable_Sensitive : bool
}.

Definition NewVariable (v : option value) (sensitive : bool) : res Variable_ :=
  match v with
  | None => Panic "variable must have a value"
  | Some v => Ok {| Variable_Value := v; Variable_Sensitive := sensitive |}
  end.

(** [v.Assign(value)]: the variable after the call. *)
Definition Assign (v : Variable_) (x : Value) : res Variable_ :=
  if Value_Sensitive x && negb (Variable_Sensitive v)
  then Err (NewError ("non-sensitive input cannot derive value using sensitive value(s) "
                      +:+ quote (Value_SensitiveReason x)))
  else Ok {| Variable_Value := Value_Value x; Variable_Sensitive := Variable_Sensitive v |}.

End context.

(** ** A concrete [structpb] *)

(** An implementation of the interface, on which the development evaluates.
    Its JSON encoder covers the values the examples use. *)
Fixpoint ref_NewValue (x : any) : res value :=
  match x with
  | ANil => Ok VNull
  | ABool b => Ok (VBool b)
  | AFloat f => Ok (VNumber f)
  | AString s => if utf8_valid s then Ok (VString s)
                 else Err (NewError "invalid UTF-8 in string")
  | ASlice l =>
      vs ← (fix go l := match l with
                        | [] => Ok []
                        | x :: l' => v ← ref_NewValue x; vs ← go l'; Ok (v :: vs)
                        end) l;
      Ok (VList vs)
  | AMap m =>
      fs ← (fix go m := match m with
                        | [] => Ok []
                        | (k, x) :: m' =>
                            if utf8_valid k then v ← ref_NewValue x; fs ← go m'; Ok ((k, v) :: fs)
                            else Err (NewError "invalid UTF-8 in string")
                        end) m;
      Ok (VStruct fs)
  | _ => Err (NewError "invalid type")
  end.

Fixpoint ref_MarshalValue (v : value) : res string :=
  match v with
  | VUnset => Err (NewError "none of the oneof fields is set")
  | VNull => Ok "null"
  | VNumber n => Ok (FormatFloat n)
  | VString s => Ok (quote s)
  | VBool b => Ok (FormatBool b)
  | VStruct fs =>
      ts ← (fix go fs := match fs with
                         | [] => Ok []
                         | (k, v) :: fs' =>
                             t ← ref_MarshalValue v; ts ← go fs'; Ok ((quote k +:+ ":" +:+ t) :: ts)
                         end) fs;
      Ok ("{" +:+ Join ts "," +:+ "}")
  | VList vs =>
      ts ← (fix go vs := match vs with
                         | [] => Ok []
                         | v :: vs' => t ← ref_MarshalValue v; ts ← go vs'; Ok (t :: ts)
                         end) vs;
      Ok ("[" +:+ Join ts "," +:+ "]")
  end.

(** Induction on dynamic values, through slices and maps. *)
Lemma any_ind_nested (P : any -> Prop) :
  (forall x, (forall l, x <> ASlice l) -> (forall m, x <> AMap m) -> P x) ->
  (forall l, Forall P l -> P (ASlice l)) ->
  (forall m, Forall (fun kx => P kx.2) m -> P (AMap m)) ->
  forall x, P x.
Proof.
  intros Hleaf Hsl Hm. fix IH 1. intros x.
  destruct x as [|b|f|s|s|l|m|m|v|t fs|t|t k m|t k];
    try (apply Hleaf; intros; discriminate).
  - apply Hsl. induction l as [|x l IHl]; constructor; [apply IH|exact IHl].
  - apply Hm. induction m as [|[k x] m IHm]; constructor; [apply IH|exact IHm].
Qed.

(** Induction on dynamic values, through the fields of structs. *)
Lemma any_ind_struct (P : any -> Prop) :
  (forall x, (forall t fs, x <> AStruct t fs) -> P x) ->
  (forall t fs, Forall (fun fx => P fx.2) fs -> P (AStruct t fs)) ->
  forall x, P x.
Proof.
  intros Hleaf Hst. fix IH 1. intros x.
  destruct x as [|b|f|s|s|l|m|m|v|t fs|t|t k m|t k];
    try (apply Hleaf; intros; discriminate).
  apply Hst. induction fs as [|[f x] fs IHfs]; constructor; [apply IH|exact IHfs].
Qed.

Lemma ref_NewValue_decided x : decided (ref_NewValue x) = true.
Proof.
  induction x as [x H1 H2|l IH|m IH] using any_ind_nested.
  - destruct x; try done; cbn.
    + by destruct (utf8_valid s).
    + by destruct (H1 l).
    + by destruct (H2 m).
  - cbn. apply bind_decided; [|done].
    induction IH as [|x l Hx _ IHl]; [done|]. repeat (apply bind_decided; [done|intros]). done.
  - cbn. apply bind_decided; [|done].
    induction IH as [|[k x] m Hx _ IHm]; [done|]. destruct (utf8_valid k); [|done].
    repeat (apply bind_decided; [done|intros]). done.
Qed.

Lemma ref_NewValue_string s : utf8_valid s = true -> ref_NewValue (AString s) = Ok (VString s).
Proof. cbn. by intros ->. Qed.

Lemma ref_NewValue_slice l vs :
  Forall2 (fun x v => ref_NewValue x = Ok v) l vs -> ref_NewValue (ASlice l) = Ok (VList vs).
Proof.
  intros H. cbn. apply bind_Ok. exists vs. split; [|done].
  induction H as [|x v l vs Hx _ IH]; [done|]. rewrite Hx. cbn. rewrite IH. done.
Qed.

Lemma ref_NewValue_map m fs :
  Forall2 (fun kx kv => kv.1 = kx.1 /\ utf8_valid kx.1 = true /\ ref_NewValue kx.2 = Ok kv.2) m fs ->
  ref_NewValue (AMap m) = Ok (VStruct fs).
Proof.
  intros H. cbn. apply bind_Ok. exists fs. split; [|done].
  induction H as [|[k x] [k' v] m fs (Hk & Hu & Hx) _ IH]; [done|]. cbn in *. subst k'.
  rewrite Hu, Hx. cbn. rewrite IH. done.
Qed.

Lemma ref_MarshalValue_decided v : decided (ref_MarshalValue v) = true.
Proof.
  induction v as [| | | | |fs IH|vs IH] using value_ind'; try done; cbn;
    (apply bind_decided; [|done]); induction IH as [|x l Hx _ IHl]; try done.
  - destruct x as [k v]. apply bind_decided; [done|intros].
    apply bind_decided; [done|]. done.
  - apply bind_decided; [done|intros]. apply bind_decided; [done|]. done.
Qed.

#[global] Instance ref_structpb : StructPB := {|
  NewValue := ref_NewValue;
  MarshalValue := ref_MarshalValue;
  NewValue_nil := eq_refl;
  NewValue_bool := fun b => eq_refl;
  NewValue_float := fun f => eq_refl;
  NewValue_string := ref_NewValue_string;
  NewValue_slice := ref_NewValue_slice;
  NewValue_map := ref_NewValue_map;
  NewValue_decided := ref_NewValue_decided;
  MarshalValue_decided := ref_MarshalValue_decided
|}.
#[global] Remove Hints ref_structpb : typeclass_instances.

(** ** Checks of the float formatter *)

Example FormatFloat_three : FormatFloat (float_of_Z 3) = "3".
Proof. vm_compute. reflexivity. Qed.
Example FormatFloat_big : FormatFloat (float_of_Z (10 ^ 21)) = "1000000000000000000000".
Proof. vm_compute. reflexivity. Qed.
Example FormatFloat_half : FormatFloat (S754_finite true 6755399441055744 (-52)) = "-1.5".
Proof. vm_compute. reflexivity. Qed.
Example FormatFloat_tenth : FormatFloat (S754_finite false 7205759403792794 (-56)) = "0.1".
Proof. vm_compute. reflexivity. Qed.
Example FormatFloat_third : FormatFloat (S754_finite false 6004799503160661 (-54)) = "0.3333333333333333".
Proof. vm_compute. reflexivity. Qed.

(** Assigning succeeds unless it would move a sensitive value into a variable
    that is not sensitive; it never changes the variable's sensitivity. *)
Lemma Assign_Ok v x v' :
  context.Assign v x = Ok v' <->
  (context.Value_Sensitive x = true -> context.Variable_Sensitive v = true) /\
  context.Variable_Value v' = context.Value_Value x /\
  context.Variable_Sensitive v' = context.Variable_Sensitive v.
Proof.
  unfold context.Assign. destruct v' as [v1 s1], x as [x1 [] r], v as [v2 []]; cbn;
    split; naive_solver congruence.
Qed.
