(* ===== verification/Expression.v ===== *)
(** Package [expression] (src/pkg/internal/expression): looking up keys in
    dynamic objects, evaluating an expression, and interpolating the
    expressions of a string, list or struct. *)

From stdpp Require Import gmap strings list pretty.
From S2P Require Import Prelude GoStrings Values.
Open Scope go_scope.
Open Scope string_scope.
Open Scope list_scope.

(** ** The context expressions are evaluated in *)

(** [type StepResultView struct] *)
Record StepResultView := { srv_Outputs : gmap string value }.

(** [type InterpolationContext struct] *)
Record InterpolationContext := {
  ic_Env : gmap string string;
  ic_ExportFile : string;
  ic_Inputs : gmap string (option value);
  ic_Job : gmap string string;
  ic_OutputFile : string;
  ic_StepDir : string;
  ic_StepResults : gmap string StepResultView;
  ic_WorkDir : string
}.

Definition exported (name json : string) : struct_field :=
  {| fld_name := name; fld_exported := true; fld_anonymous := false; fld_json := Some json |}.

(** What reflection sees of a context: its fields in the order of their
    declaration. *)
Definition any_of_StepResultView (v : StepResultView) : any :=
  AStruct "*expression.StepResultView"
    [(exported "Outputs" "outputs",
      ATypedMap "map[string]*structpb.Value" "string"
        (prod_map id (AValue ∘ Some) <$> map_to_list (srv_Outputs v)))].

Definition any_of_strings (m : gmap string string) : any :=
  ATypedMap "map[string]string" "string" (prod_map id AString <$> map_to_list m).

Definition any_of_context (c : InterpolationContext) : any :=
  AStruct "*expression.InterpolationContext"
    [(exported "Env" "env", any_of_strings (ic_Env c));
     (exported "ExportFile" "export_file", AString (ic_ExportFile c));
     (exported "Inputs" "inputs",
      ATypedMap "map[string]*structpb.Value" "string"
        (prod_map id AValue <$> map_to_list (ic_Inputs c)));
     (exported "Job" "job", any_of_strings (ic_Job c));
     (exported "OutputFile" "output_file", AString (ic_OutputFile c));
     (exported "StepDir" "step_dir", AString (ic_StepDir c));
     (exported "StepResults" "steps",
      ATypedMap "map[string]*expression.StepResultView" "string"
        (prod_map id any_of_StepResultView <$> map_to_list (ic_StepResults c)));
     (exported "WorkDir" "work_dir", AString (ic_WorkDir c))].

(** A [*InterpolationContext] passed as [any]; [None] is the nil pointer. *)
Definition any_of_view (c : option InterpolationContext) : any :=
  match c with
  | Some c => any_of_context c
  | None => ANilPtr "*expression.InterpolationContext"
  end.

(** ** value_type.go *)

(** First entry of a map or of a struct's fields with a key. *)
Fixpoint assoc {A} (k : string) (l : list (string * A)) : option A :=
  match l with
  | [] => None
  | (k', x) :: l' => if String.eqb k k' then Some x else assoc k l'
  end.

Section value_type.
  Context `{SP : StructPB}.

Definition ValueToString (v : value) : res string :=
  match v with
  | VString s => Ok s
  | _ => MarshalValue v
  end.

Definition ObjectToProtoValue (object : any) : res (option value) :=
  match object with
  | AValue v => Ok v
  | _ => Some <$> NewValue object
  end.

Definition not_found (key : string) : error :=
  NewError ("the " +:+ quote key +:+ " was not found").

(** The name a field is looked up by; [None] when its tag hides it. *)
Definition field_key (f : struct_field) : option string :=
  match fld_json f with
  | None => Some (fld_name f)
  | Some tag =>
      if String.eqb tag "-" then None
      else let '(tagName, _, _) := Cut tag "," in
           Some (if String.eqb tagName "" then fld_name f else tagName)
  end.

Definition digMap (key_kind : string) (m : list (string * any)) (key : string) : res any :=
  if String.eqb key_kind "string"
  then match assoc key m with
       | Some x => Ok x
       | None => Err (not_found key)
       end
  else Err (NewError ("the map key needs to be " +:+ quote "string" +:+ ", but is " +:+ quote key_kind)).

(** The text [%q] gives for a value's oneof wrapper is left out of the
    message: for lists and structs it holds memory addresses. *)
Definition digProtoValue (v : option value) (key : string) : res any :=
  match v with
  | None => Panic "nil pointer dereference"
  | Some (VStruct fields) =>
      match assoc key fields with
      | Some x => Ok (AValue (Some x))
      | None => Err (not_found key)
      end
  | Some _ => Err (NewError ("the value is not map to get " +:+ quote key +:+ " key"))
  end.

Section digStruct.
  Variable dig : any -> string -> res any.

(** [digStruct]; [dig] is the search of an embedded field. *)
Fixpoint digStruct (fields : list (struct_field * any)) (key : string) : res any :=
  match fields with
  | [] => Err (not_found key)
  | (f, x) :: fields' =>
      if negb (fld_exported f) then digStruct fields' key else
      let by_name :=
        match field_key f with
        | None => digStruct fields' key
        | Some name => if String.eqb name key then Ok x else digStruct fields' key
        end in
      if fld_anonymous f then
        match dig x key with
        | Ok r => Ok r
        | Err _ => by_name
        | Panic w => Panic w
        | OutOfFuel => OutOfFuel
        end
      else by_name
  end.
End digStruct.

Definition kind_of (object : any) : string :=
  match object with
  | ANil => "invalid"
  | ABool _ => "bool"
  | AFloat _ => "float64"
  | AString _ | AStringPtr _ => "string"
  | ASlice _ => "slice"
  | AMap _ | AStepInputs _ | ATypedMap _ _ _ => "map"
  | AValue _ | AStruct _ _ | ANilPtr _ => "struct"
  | AOther _ kind => kind
  end.

Definition zero_value_type : string :=
  "reflect: call of reflect.Value.Type on zero Value".

Fixpoint DigObject (object : any) (key : string) : res any :=
  match object with
  | AValue v => digProtoValue v key
  | AStruct _ fields => digStruct DigObject fields key
  | AMap m | AStepInputs m => digMap "string" m key
  | ATypedMap _ key_kind m => digMap key_kind m key
  | ANil | ANilPtr _ | AStringPtr None => Panic zero_value_type
  | _ => Err (NewError (quote (kind_of object) +:+ " is not supported"))
  end.

Definition DigProtoValue (object : any) (key : string) : res (option value) :=
  r ← DigObject object key; ObjectToProtoValue r.

(** ** expression.go *)

(** The loop of [evaluate] over the keys of [s]. *)
Fixpoint dig_path (s : string) (obj : any) (keys : list string) : res any :=
  match keys with
  | [] => Ok obj
  | key :: keys' =>
      match DigObject obj key with
      | Ok r => dig_path s r keys'
      | Err e => Err (NewError (s +:+ ": " +:+ Error e))
      | Panic w => Panic w
      | OutOfFuel => OutOfFuel
      end
  end.

Definition evaluate (obj : any) (s : string) : res (option value) :=
  r ← dig_path s obj (Split s "."); ObjectToProtoValue r.

Definition Evaluate (obj : any) (s : string) : res context.Value :=
  let s := TrimSpace s in
  v ← evaluate obj s;
  context.NewValue v false [s].

(** ** interpolation.go *)

Definition InterpolateOpen : string := "${{".
Definition InterpolateClose : string := "}}".

(** [interpolateRegex.FindAllStringIndex(value, -1)]: the leftmost
    non-overlapping matches of [\$\{\{|\}\}]. *)
Fixpoint find_all (pos skip : nat) (s : string) : list (nat * nat) :=
  match s with
  | "" => []
  | String _ s' =>
      match skip with
      | S k => find_all (S pos) k s'
      | O => if HasPrefix s InterpolateOpen then (pos, pos + 3) :: find_all (S pos) 2 s'
             else if HasPrefix s InterpolateClose then (pos, pos + 2) :: find_all (S pos) 1 s'
             else find_all (S pos) 0 s'
      end
  end.

(** The local variables of [interpolateString]. *)
Record interp_state := {
  is_output : list value;
  is_depth : Z;
  is_prev_idx : nat;
  is_open_idx : nat;
  is_sensitive : bool;
  is_sensitiveReasons : list string
}.

Definition interp_init : interp_state :=
  {| is_output := []; is_depth := 0; is_prev_idx := 0; is_open_idx := 0;
     is_sensitive := false; is_sensitiveReasons := [] |}.

(** One iteration of the loop over the matches. *)
Definition interp_match (obj : any) (value : string) (st : interp_state) (loc : nat * nat) :
    res interp_state :=
  let output :=
    if (is_depth st =? 0)%Z && negb (is_prev_idx st =? loc.1)%nat
    then is_output st ++ [VString (slice value (is_prev_idx st) loc.1)]
    else is_output st in
  let m := slice value loc.1 loc.2 in
  if String.eqb m InterpolateOpen then
    let depth := (is_depth st + 1)%Z in
    Ok {| is_output := output; is_depth := depth; is_prev_idx := loc.2;
          is_open_idx := if (depth =? 1)%Z then loc.2 else is_open_idx st;
          is_sensitive := is_sensitive st;
          is_sensitiveReasons := is_sensitiveReasons st |}
  else if String.eqb m InterpolateClose then
    let depth := (is_depth st - 1)%Z in
    let insideString := slice value (is_open_idx st) loc.1 in
    if (depth <? 0)%Z then
      Err (NewError ("the " +:+ quote insideString +:+ " has extra '}}'"))
    else if (0 <? depth)%Z then
      Ok {| is_output := output; is_depth := depth; is_prev_idx := loc.2;
            is_open_idx := is_open_idx st; is_sensitive := is_sensitive st;
            is_sensitiveReasons := is_sensitiveReasons st |}
    else
      insideValue ← Evaluate obj insideString;
      Ok {| is_output := output ++ [context.Value_Value insideValue]; is_depth := depth;
            is_prev_idx := loc.2; is_open_idx := is_open_idx st;
            is_sensitive := is_sensitive st || context.Value_Sensitive insideValue;
            is_sensitiveReasons :=
              if context.Value_Sensitive insideValue
              then is_sensitiveReasons st ++ [context.Value_SensitiveReason insideValue]
              else is_sensitiveReasons st |}
  else
    Ok {| is_output := output; is_depth := is_depth st; is_prev_idx := loc.2;
          is_open_idx := is_open_idx st; is_sensitive := is_sensitive st;
          is_sensitiveReasons := is_sensitiveReasons st |}.

Fixpoint interp_loop (obj : any) (value : string) (st : interp_state) (locs : list (nat * nat)) :
    res interp_state :=
  match locs with
  | [] => Ok st
  | loc :: locs' => st' ← interp_match obj value st loc; interp_loop obj value st' locs'
  end.

(** "concat all items" *)
Fixpoint concat_values (output : list value) : res string :=
  match output with
  | [] => Ok ""
  | o :: output' => s ← ValueToString o; r ← concat_values output'; Ok (s +:+ r)
  end.

(** A single item keeps its type, anything else becomes a string. *)
Definition join_output (output : list value) (sensitive : bool) (reasons : list string) :
    res context.Value :=
  match output with
  | [v] => context.NewValue (Some v) sensitive reasons
  | _ => r ← concat_values output; context.NewStringValue r sensitive reasons
  end.

Definition interpolateString (obj : option InterpolationContext) (value : string) :
    res context.Value :=
  st ← interp_loop (any_of_view obj) value interp_init (find_all 0 0 value);
  if (0 <? is_depth st)%Z then
    Err (NewError ("the " +:+ quote (slice_from value (is_open_idx st))
                   +:+ " is not closed: ${{ ... }}"))
  else
    let output :=
      if negb (is_prev_idx st =? String.length value)%nat
      then is_output st ++ [VString (slice_from value (is_prev_idx st))]
      else is_output st in
    join_output output (is_sensitive st) (is_sensitiveReasons st).

(** [Expand], [expandStruct] and [expandList]. *)
Fixpoint Expand (obj : option InterpolationContext) (v : value) : res context.Value :=
  match v with
  | VString s => interpolateString obj s
  | VStruct fields =>
      fs ← (fix expandStruct fields := match fields with
            | [] => Ok []
            | (fieldKey, fieldValue) :: fields' =>
                fieldNewValue ← Expand obj fieldValue;
                rest ← expandStruct fields';
                Ok ((fieldKey, context.Value_Value fieldNewValue) :: rest)
            end) fields;
      context.NewNonSensitiveValue (Some (VStruct fs))
  | VList values =>
      vs ← (fix expandList values := match values with
            | [] => Ok []
            | listValue :: values' =>
                listNewValue ← Expand obj listValue;
                rest ← expandList values';
                Ok (context.Value_Value listNewValue :: rest)
            end) values;
      context.NewNonSensitiveValue (Some (VList vs))
  | _ => context.NewNonSensitiveValue (Some v)
  end.

Definition ExpandString (obj : option InterpolationContext) (value : string) : res string :=
  r ← interpolateString obj value;
  ValueToString (context.Value_Value r).
End value_type.
