(* ===== verification/ExpressionFacts.v ===== *)
(** What interpolation computes: a reference lexer and machine for
    [interpolateString] and the proof that the index arithmetic of the code
    implements it, the meaning of templates, of paths, and the sensitivity of
    the results. *)

From stdpp Require Import gmap strings list pretty.
From S2P Require Import Prelude GoStrings Values Expression.
Open Scope go_scope.
Open Scope string_scope.
Open Scope list_scope.

(** ** Reference semantics of interpolation *)

(** A string as characters and delimiters. *)
Inductive token := TChar (c : Ascii.ascii) | TOpen | TClose.

Fixpoint lex (s : string) : list token :=
  match s with
  | "" => []
  | String a s1 =>
      match s1 with
      | "" => [TChar a]
      | String b s2 =>
          if Ascii.eqb "}" a && Ascii.eqb "}" b then TClose :: lex s2 else
          match s2 with
          | "" => TChar a :: lex s1
          | String c s3 =>
              if Ascii.eqb "$" a && Ascii.eqb "{" b && Ascii.eqb "{" c then TOpen :: lex s3
              else TChar a :: lex s1
          end
      end
  end.

(** State of the reference machine: the items so far, the nesting depth, the
    text since the last delimiter and the text since the last opening at depth 1. *)
Record machine := {
  m_out : list value;
  m_depth : nat;
  m_text : string;
  m_open : string
}.

(** The items once pending text outside an expression is emitted. *)
Definition flush (m : machine) : list value :=
  match m_depth m, m_text m with
  | O, String _ _ => m_out m ++ [VString (m_text m)]
  | _, _ => m_out m
  end.

Section reference.
  Context `{SP : StructPB}.

Definition machine_step (obj : any) (m : machine) (t : token) : res machine :=
  match t with
  | TChar c =>
      Ok {| m_out := m_out m; m_depth := m_depth m; m_text := m_text m +:+ String c "";
            m_open := m_open m +:+ String c "" |}
  | TOpen =>
      Ok {| m_out := flush m; m_depth := S (m_depth m); m_text := "";
            m_open := match m_depth m with O => "" | _ => m_open m +:+ InterpolateOpen end |}
  | TClose =>
      match m_depth m with
      | O => Err (NewError ("the " +:+ quote (m_open m) +:+ " has extra '}}'"))
      | 1 =>
          v ← Evaluate obj (m_open m);
          Ok {| m_out := m_out m ++ [context.Value_Value v]; m_depth := 0; m_text := "";
                m_open := m_open m +:+ InterpolateClose |}
      | S d =>
          Ok {| m_out := m_out m; m_depth := d; m_text := "";
                m_open := m_open m +:+ InterpolateClose |}
      end
  end.

Fixpoint machine_run (obj : any) (m : machine) (ts : list token) : res (list value) :=
  match ts with
  | [] =>
      match m_depth m with
      | O => Ok (flush m)
      | S _ => Err (NewError ("the " +:+ quote (m_open m) +:+ " is not closed: ${{ ... }}"))
      end
  | t :: ts' => m' ← machine_step obj m t; machine_run obj m' ts'
  end.

Definition machine_init : machine :=
  {| m_out := []; m_depth := 0; m_text := ""; m_open := "" |}.

(** The items of a string. *)
Definition reference_items (obj : any) (s : string) : res (list value) :=
  machine_run obj machine_init (lex s).

Definition reference_interpolate (obj : option InterpolationContext) (s : string) :
    res context.Value :=
  out ← reference_items (any_of_view obj) s; join_output out false [].
End reference.

(** Templates: literal text and expressions. *)
Inductive segment := Lit (s : string) | Expr (s : string).

Fixpoint render (segs : list segment) : string :=
  match segs with
  | [] => ""
  | Lit s :: segs' => s +:+ render segs'
  | Expr e :: segs' => InterpolateOpen +:+ e +:+ InterpolateClose +:+ render segs'
  end.

(** Text without delimiters. *)
Definition plain (s : string) : bool :=
  negb (Contains s InterpolateOpen) && negb (Contains s InterpolateClose).

(** Literals are plain, not empty and not adjacent; expressions are plain and do
    not end in a brace. *)
Fixpoint wf_segments (segs : list segment) : bool :=
  match segs with
  | [] => true
  | Lit s :: segs' =>
      plain s && negb (String.eqb s "") &&
      match segs' with Lit _ :: _ => false | _ => true end && wf_segments segs'
  | Expr e :: segs' => plain e && negb (HasSuffix e "}") && wf_segments segs'
  end.

(** The value of a segment. *)
Definition eval_segment `{SP : StructPB} (obj : any) (g : segment) : res value :=
  match g with
  | Lit s => Ok (VString s)
  | Expr e => context.Value_Value <$> Evaluate obj e
  end.

(** A value none of whose strings holds a delimiter. *)
Fixpoint plain_value (v : value) : bool :=
  match v with
  | VString s => plain s
  | VStruct fs => (fix go fs := match fs with
                                | [] => true
                                | (_, v) :: fs' => plain_value v && go fs'
                                end) fs
  | VList vs => (fix go vs := match vs with
                              | [] => true
                              | v :: vs' => plain_value v && go vs'
                              end) vs
  | _ => true
  end.

(** ** Positions *)

(** [t] is the text of [pre] from index [i] on. *)
Definition text_from (pre : string) (i : nat) (t : string) : Prop :=
  exists p, pre = p +:+ t /\ String.length p = i.

Lemma substring_prefix t suf : String.substring 0 (String.length t) (t +:+ suf) = t.
Proof. induction t as [|c t IH]; cbn; [by destruct suf|]. by rewrite IH. Qed.

Lemma slice_text pre suf i t :
  text_from pre i t -> slice (pre +:+ suf) i (String.length pre) = t.
Proof.
  intros (p & -> & <-). unfold slice.
  rewrite string_app_assoc, string_length_app, substring_app_r.
  replace (_ - _) with (String.length t) by lia. apply substring_prefix.
Qed.

Lemma slice_delim pre d suf :
  slice (pre +:+ d +:+ suf) (String.length pre) (String.length pre + String.length d) = d.
Proof.
  unfold slice. rewrite substring_app_r.
  replace (_ - _) with (String.length d) by lia. apply substring_prefix.
Qed.

Lemma slice_from_text pre i t : text_from pre i t -> slice_from pre i = t.
Proof.
  intros H. unfold slice_from. rewrite <- (string_app_nil_r pre) at 1.
  by apply slice_text.
Qed.

Lemma text_from_app pre i t d : text_from pre i t -> text_from (pre +:+ d) i (t +:+ d).
Proof. intros (p & -> & <-). exists p. by rewrite string_app_assoc. Qed.

Lemma text_from_end pre : text_from pre (String.length pre) "".
Proof. exists pre. by rewrite string_app_nil_r. Qed.

Lemma text_from_empty pre i t :
  text_from pre i t -> (i =? String.length pre)%nat = String.eqb t "".
Proof.
  intros (p & -> & <-). rewrite string_length_app. destruct t; cbn.
  - apply Nat.eqb_eq. lia.
  - apply Nat.eqb_neq. lia.
Qed.

(** ** The code implements the reference *)

Section simulation.
  Context `{SP : StructPB}.

(** The locals of the loop when it has scanned [pre]. *)
Definition related (pre : string) (st : interp_state) (m : machine) : Prop :=
  is_output st = m_out m /\ is_depth st = Z.of_nat (m_depth m) /\
  is_sensitive st = false /\ is_sensitiveReasons st = [] /\
  text_from pre (is_prev_idx st) (m_text m) /\ text_from pre (is_open_idx st) (m_open m).

Lemma Evaluate_not_sensitive obj s v :
  Evaluate obj s = Ok v -> context.Value_Sensitive v = false.
Proof.
  unfold Evaluate. intros ([w|] & _ & H)%bind_Ok; cbn in H; [|done]. by injection H as <-.
Qed.

(** The items after the flush at the top of an iteration. *)
Lemma flush_related pre st m suf :
  related pre st m ->
  (if (is_depth st =? 0)%Z && negb (is_prev_idx st =? String.length pre)%nat
   then is_output st ++ [VString (slice (pre +:+ suf) (is_prev_idx st) (String.length pre))]
   else is_output st) = flush m.
Proof.
  intros (Ho & Hd & _ & _ & Ht & _). rewrite Ho, Hd, (slice_text _ _ _ _ Ht).
  rewrite (text_from_empty _ _ _ Ht). unfold flush.
  by destruct (m_depth m), (m_text m).
Qed.

Lemma interp_match_open obj pre suf st m :
  related pre st m ->
  exists st' m', interp_match obj (pre +:+ InterpolateOpen +:+ suf) st
                   (String.length pre, String.length pre + 3) = Ok st' /\
    machine_step obj m TOpen = Ok m' /\ related (pre +:+ InterpolateOpen) st' m'.
Proof.
  intros Hr. do 2 eexists. split; [|split; [done|]].
  - unfold interp_match. cbn [fst snd]. rewrite (flush_related _ _ _ _ Hr).
    change 3 with (String.length InterpolateOpen). rewrite slice_delim. cbn. reflexivity.
  - destruct Hr as (_ & Hd & Hs & Hrs & Ht & Hop). unfold related. cbn.
    rewrite Hd, Hs, Hrs. repeat split; try done; [lia| |].
    + change 3 with (String.length InterpolateOpen).
      rewrite <- string_length_app. apply text_from_end.
    + destruct (m_depth m) as [|d].
      * cbn. change 3 with (String.length InterpolateOpen).
        rewrite <- string_length_app. apply text_from_end.
      * replace (Z.of_nat (S d) + 1 =? 1)%Z with false by (symmetry; apply Z.eqb_neq; lia).
        by apply text_from_app.
Qed.

Lemma interp_match_close obj pre suf st m :
  related pre st m ->
  match interp_match obj (pre +:+ InterpolateClose +:+ suf) st
          (String.length pre, String.length pre + 2), machine_step obj m TClose with
  | Ok st', Ok m' => related (pre +:+ InterpolateClose) st' m'
  | Err e, Err e' => e = e'
  | Panic w, Panic w' => w = w'
  | OutOfFuel, OutOfFuel => True
  | _, _ => False
  end.
Proof.
  intros Hr. unfold interp_match. cbn [fst snd]. rewrite (flush_related _ _ _ _ Hr).
  change 2 with (String.length InterpolateClose). rewrite slice_delim. cbn [String.eqb].
  replace (String.eqb InterpolateClose InterpolateOpen) with false by done.
  replace (String.eqb InterpolateClose InterpolateClose) with true by done.
  rewrite <- string_length_app.
  destruct Hr as (Ho & Hd & Hs & Hrs & Ht & Hop).
  rewrite (slice_text _ _ _ _ Hop), Hd, Hs, Hrs. cbn [machine_step].
  destruct (m_depth m) as [|[|d]] eqn:Em.
  - done.
  - cbn -[Evaluate]. destruct (Evaluate obj (m_open m)) as [v| | |] eqn:Ev; cbn; try done.
    rewrite (Evaluate_not_sensitive _ _ _ Ev). unfold related, flush. cbn.
    rewrite Em. repeat split; try done.
    + apply text_from_end.
    + by apply text_from_app.
  - replace (Z.of_nat (S (S d)) - 1)%Z with (Z.of_nat (S d)) by lia.
    replace (Z.of_nat (S d) <? 0)%Z with false by (symmetry; apply Z.ltb_ge; lia).
    replace (0 <? Z.of_nat (S d))%Z with true by (symmetry; apply Z.ltb_lt; lia).
    unfold related, flush. cbn -[Z.of_nat]. rewrite Em. repeat split; try done.
    + apply text_from_end.
    + by apply text_from_app.
Qed.

(** The rest of [interpolateString] from the state of the loop. *)
Definition finish (value : string) (st : interp_state) : res (list Values.value) :=
  if (0 <? is_depth st)%Z then
    Err (NewError ("the " +:+ quote (slice_from value (is_open_idx st))
                   +:+ " is not closed: ${{ ... }}"))
  else Ok (if negb (is_prev_idx st =? String.length value)%nat
           then is_output st ++ [VString (slice_from value (is_prev_idx st))]
           else is_output st).

Lemma finish_related pre st m obj :
  related pre st m -> finish pre st = machine_run obj m [].
Proof.
  intros (Ho & Hd & _ & _ & Ht & Hop). unfold finish. cbn.
  rewrite Hd, (slice_from_text _ _ _ Hop), (slice_from_text _ _ _ Ht), Ho,
    (text_from_empty _ _ _ Ht).
  unfold flush. destruct (m_depth m).
  - cbn. by destruct (m_text m).
  - replace (0 <? Z.of_nat (S n))%Z with true by (symmetry; apply Z.ltb_lt; lia). done.
Qed.

Lemma related_char pre c st m :
  related pre st m ->
  related (pre +:+ String c "") st
    {| m_out := m_out m; m_depth := m_depth m; m_text := m_text m +:+ String c "";
       m_open := m_open m +:+ String c "" |}.
Proof.
  intros (Ho & Hd & Hs & Hrs & Ht & Hop). repeat split; try done; by apply text_from_app.
Qed.

Lemma find_all_open pos s :
  find_all pos 0 (InterpolateOpen +:+ s) = (pos, pos + 3) :: find_all (pos + 3) 0 s.
Proof. cbn. by replace (pos + 3) with (S (S (S pos))) by lia. Qed.

Lemma find_all_close pos s :
  find_all pos 0 (InterpolateClose +:+ s) = (pos, pos + 2) :: find_all (pos + 2) 0 s.
Proof. cbn. by replace (pos + 2) with (S (S pos)) by lia. Qed.

Lemma lex_char c s :
  HasPrefix (String c s) InterpolateOpen = false ->
  HasPrefix (String c s) InterpolateClose = false ->
  lex (String c s) = TChar c :: lex s.
Proof.
  unfold HasPrefix. destruct s as [|b [|d s]]; cbn -[Ascii.eqb]; intros Ho Hc; [done|..];
    destruct (Ascii.eqb "}" c), (Ascii.eqb "}" b); cbn -[Ascii.eqb]; try done;
    destruct (Ascii.eqb "$" c), (Ascii.eqb "{" b), (Ascii.eqb "{" d); done.
Qed.

Lemma find_all_char pos c s :
  HasPrefix (String c s) InterpolateOpen = false ->
  HasPrefix (String c s) InterpolateClose = false ->
  find_all pos 0 (String c s) = find_all (S pos) 0 s.
Proof. intros Ho Hc. cbn [find_all]. by rewrite Ho, Hc. Qed.

(** How a string starts. *)
Lemma lex_cases s :
  s = "" \/
  (exists s', s = InterpolateOpen +:+ s' /\ lex s = TOpen :: lex s') \/
  (exists s', s = InterpolateClose +:+ s' /\ lex s = TClose :: lex s') \/
  (exists c s', s = String c s' /\ lex s = TChar c :: lex s' /\
     forall pos, find_all pos 0 s = find_all (S pos) 0 s').
Proof.
  destruct (HasPrefix s InterpolateOpen) eqn:Ho.
  { apply HasPrefix_spec in Ho as [s' ->]. right. left. by exists s'. }
  destruct (HasPrefix s InterpolateClose) eqn:Hc.
  { apply HasPrefix_spec in Hc as [s' ->]. right. right. left. by exists s'. }
  destruct s as [|c s]; [by left|]. right. right. right. exists c, s.
  split; [done|]. split; [by apply lex_char|]. intros pos. by apply find_all_char.
Qed.

(** From any point between tokens on, the loop of the code and the machine
    agree. *)
Lemma loop_simulates obj n : forall suf pre st m,
  String.length suf <= n ->
  related pre st m ->
  (st' ← interp_loop obj (pre +:+ suf) st (find_all (String.length pre) 0 suf);
   finish (pre +:+ suf) st') = machine_run obj m (lex suf) /\
  forall st', interp_loop obj (pre +:+ suf) st (find_all (String.length pre) 0 suf) = Ok st' ->
    is_sensitive st' = false /\ is_sensitiveReasons st' = [].
Proof.
  induction n as [|n IH]; intros suf pre st m Hn Hr.
  1: destruct suf; [|cbn in Hn; lia].
  2: destruct (lex_cases suf) as [->|[(s' & -> & ->)|[(s' & -> & ->)|(c & s' & -> & -> & Hf)]]].
  1,2: cbn; rewrite string_app_nil_r; split; [by apply (finish_related _ _ _ obj)|];
    intros st' [= <-]; by destruct Hr as (_ & _ & ? & ? & _).
  - rewrite find_all_open. cbn [interp_loop].
    destruct (interp_match_open obj pre s' st m Hr) as (st' & m' & -> & Hm & Hr').
    cbn [machine_run]. rewrite Hm. cbn.
    rewrite string_length_app in Hn. cbn in Hn.
    specialize (IH s' (pre +:+ InterpolateOpen) st' m' ltac:(lia) Hr').
    rewrite string_length_app, string_app_assoc in IH. exact IH.
  - rewrite find_all_close. cbn [interp_loop].
    pose proof (interp_match_close obj pre s' st m Hr) as Hc.
    cbn [machine_run].
    destruct (interp_match obj _ st _) as [st'| | |], (machine_step obj m TClose) as [m'| | |];
      try done; cbn; try (by subst); try (by rewrite Hc).
    rewrite string_length_app in Hn. cbn in Hn.
    specialize (IH s' (pre +:+ InterpolateClose) st' m' ltac:(lia) Hc).
    rewrite string_length_app, string_app_assoc in IH. exact IH.
  - rewrite Hf. cbn [machine_run machine_step mbind res_bind]. cbn in Hn.
    specialize (IH s' (pre +:+ String c "") st _ ltac:(lia) (related_char _ c _ _ Hr)).
    rewrite string_length_app, string_app_assoc in IH. cbn [String.length] in IH.
    rewrite Nat.add_1_r in IH. exact IH.
Qed.

(** [interpolateString] computes the reference semantics. *)
Lemma interpolateString_reference obj s :
  interpolateString obj s = reference_interpolate obj s.
Proof.
  assert (related "" interp_init machine_init) as Hr.
  { repeat split; exists ""; done. }
  destruct (loop_simulates (any_of_view obj) (String.length s) s "" interp_init machine_init
    ltac:(lia) Hr) as [Heq Hs].
  unfold reference_interpolate, reference_items. rewrite <- Heq.
  unfold interpolateString, finish. cbn [String.length] in *. change ("" +:+ s) with s in *.
  destruct (interp_loop _ s interp_init (find_all 0 0 s)) as [st| | |]; [|done..].
  destruct (Hs st eq_refl) as [Hs1 Hs2]. cbn.
  destruct (0 <? is_depth st)%Z; [done|]. cbn. by rewrite Hs1, Hs2.
Qed.
End simulation.

(** ** Lexing templates *)

Fixpoint chars (s : string) : list token :=
  match s with
  | "" => []
  | String c s' => TChar c :: chars s'
  end.

(** The first byte of a string, if any. *)
Definition first_byte (s : string) : option Ascii.ascii :=
  match s with "" => None | String c _ => Some c end.

Lemma plain_cons c s : plain (String c s) = true ->
  HasPrefix (String c s) InterpolateOpen = false /\
  HasPrefix (String c s) InterpolateClose = false /\ plain s = true.
Proof.
  unfold plain. cbn [Contains]. rewrite !andb_true_iff, !negb_true_iff, !orb_false_iff. tauto.
Qed.

Lemma HasSuffix_cons c d s p :
  HasSuffix (String c (String d s)) (String p "") = HasSuffix (String d s) (String p "").
Proof.
  apply eq_bool_prop_intro. rewrite !Is_true_true, !HasSuffix_spec. split.
  - intros [r Hr]. destruct r as [|x r]; [done|]. injection Hr as -> Hr. by exists r.
  - intros [r Hr]. exists (String c r). cbn. by rewrite <- Hr.
Qed.

(** Plain text before anything that does not complete a delimiter. *)
Lemma lex_plain s rest :
  plain s = true ->
  first_byte rest <> Some "{"%char ->
  (first_byte rest = Some "}"%char -> HasSuffix s "}" = false) ->
  lex (s +:+ rest) = chars s ++ lex rest.
Proof.
  intros Hp Hb Hc. induction s as [|c s IH]; [done|].
  apply plain_cons in Hp as (Ho & Hcl & Hp).
  cbn [chars]. rewrite string_app_cons, lex_char.
  - cbn. f_equal. apply IH; [done|]. intros Hr. specialize (Hc Hr).
    destruct s as [|d s]; [done|]. by rewrite HasSuffix_cons in Hc.
  - unfold HasPrefix in *. destruct s as [|d [|e s]]; cbn -[Ascii.eqb] in *;
      [| |by destruct (Ascii.eqb "$" c), (Ascii.eqb "{" d), (Ascii.eqb "{" e)].
    + destruct (Ascii.eqb "$" c); [|done]. destruct rest as [|x rest]; [done|].
      cbn -[Ascii.eqb] in *. by destruct (Ascii.eqb_spec "{" x) as [<-|].
    + destruct (Ascii.eqb "$" c), (Ascii.eqb "{" d); try done. destruct rest as [|x rest]; [done|].
      cbn -[Ascii.eqb] in *. by destruct (Ascii.eqb_spec "{" x) as [<-|].
  - unfold HasPrefix in Hcl |- *. destruct s as [|d s]; cbn -[Ascii.eqb] in *;
      [|by destruct (Ascii.eqb "}" c), (Ascii.eqb "}" d)].
    destruct (Ascii.eqb_spec "}" c) as [<-|]; [|done]. destruct rest as [|x rest]; [done|].
    cbn -[Ascii.eqb] in *. destruct (Ascii.eqb_spec "}" x) as [<-|]; [|done].
    specialize (Hc eq_refl). by vm_compute in Hc.
Qed.

Lemma render_first segs :
  wf_segments segs = true ->
  match segs with Lit _ :: _ => True | _ => first_byte (render segs) <> Some "{"%char /\
    first_byte (render segs) <> Some "}"%char end.
Proof. by destruct segs as [|[s|e] segs]. Qed.

Section templates.
  Context `{SP : StructPB}.

Lemma machine_chars obj m s ts :
  machine_run obj m (chars s ++ ts) =
  machine_run obj {| m_out := m_out m; m_depth := m_depth m; m_text := m_text m +:+ s;
                     m_open := m_open m +:+ s |} ts.
Proof.
  revert m. induction s as [|c s IH]; intros m; cbn [chars app machine_run].
  - rewrite !string_app_nil_r. by destruct m.
  - cbn [machine_step mbind res_bind]. rewrite IH. cbn. by rewrite !string_app_assoc.
Qed.

Definition flat (out : list value) (text op : string) : machine :=
  {| m_out := out; m_depth := 0; m_text := text; m_open := op |}.

(** The machine on a template, from outside any expression. *)
Lemma machine_template obj segs : forall out op,
  wf_segments segs = true ->
  machine_run obj (flat out "" op) (lex (render segs)) =
  (vs ← slice_map (eval_segment obj) segs; Ok (out ++ vs)).
Proof.
  assert (forall e segs out op text,
    wf_segments (Expr e :: segs) = true ->
    (forall out op, wf_segments segs = true ->
      machine_run obj (flat out "" op) (lex (render segs)) =
      (vs ← slice_map (eval_segment obj) segs; Ok (out ++ vs))) ->
    machine_run obj (flat out text op) (lex (render (Expr e :: segs))) =
    (vs ← slice_map (eval_segment obj) (Expr e :: segs); Ok (flush (flat out text op) ++ vs)))
    as Hexpr.
  { intros e segs' out op text Hwf IH. cbn [wf_segments] in Hwf.
    apply andb_true_iff in Hwf as [[Hp Hs]%andb_true_iff Hwf]. apply negb_true_iff in Hs.
    change (lex (render (Expr e :: segs')))
      with (TOpen :: lex (e +:+ InterpolateClose +:+ render segs')).
    rewrite lex_plain by done. cbn [machine_run machine_step mbind res_bind flat m_depth].
    rewrite machine_chars. cbn [m_out m_depth m_text m_open].
    change (lex (InterpolateClose +:+ render segs')) with (TClose :: lex (render segs')).
    cbn [machine_run machine_step m_depth m_open]. change ("" +:+ e) with e.
    cbn [slice_map eval_segment].
    destruct (Evaluate obj e) as [v| | |]; cbn [mbind res_bind fmap res_fmap]; try done.
    change (Build_machine _ 0 "" ?op) with (flat (flush (flat out text op) ++ [context.Value_Value v]) "" op).
    rewrite IH by done.
    destruct (slice_map (eval_segment obj) segs') as [vs| | |]; cbn; try done.
    by rewrite <- app_assoc. }
  remember (length segs) as n eqn:Hn. apply eq_sym, Nat.eq_le_incl in Hn. revert segs Hn.
  induction n as [|n IH]; intros [|[s|e] segs] Hn out op Hwf; cbn in Hn; try lia.
  1,2: cbn; by rewrite app_nil_r.
  - cbn [wf_segments] in Hwf.
    apply andb_true_iff in Hwf as [[[Hp Hne]%andb_true_iff Hadj]%andb_true_iff Hwf].
    cbn [render]. rewrite lex_plain; [|done|by destruct segs as [|[|] ?]..].
    rewrite machine_chars. cbn [flat m_out m_depth m_text m_open].
    change ("" +:+ s) with s.
    assert (flush (flat out s (op +:+ s)) = out ++ [VString s]) as Hfl.
    { unfold flush. cbn. by destruct s. }
    destruct segs as [|[s'|e] segs]; [|done|].
    + cbn [render lex machine_run]. change (Build_machine out 0 s (op +:+ s)) with (flat out s (op +:+ s)).
      by rewrite Hfl.
    + change (Build_machine out 0 s (op +:+ s)) with (flat out s (op +:+ s)).
      cbn in Hn. rewrite Hexpr; [|done|intros; apply IH; [lia|done]].
      rewrite Hfl. cbn [slice_map eval_segment].
      cbn [mbind res_bind].
      destruct (context.Value_Value <$> Evaluate obj e) as [v| | |]; cbn [mbind res_bind]; try done.
      destruct (slice_map (eval_segment obj) segs) as [vs| | |]; cbn; try done.
      by rewrite <- app_assoc.
  - rewrite Hexpr; [done|done|intros; apply IH; [lia|done]].
Qed.

Lemma interpolateString_template obj segs :
  wf_segments segs = true ->
  interpolateString obj (render segs) =
  (vs ← slice_map (eval_segment (any_of_view obj)) segs; join_output vs false []).
Proof.
  intros Hwf. rewrite interpolateString_reference.
  unfold reference_interpolate, reference_items.
  change machine_init with (flat [] "" ""). rewrite machine_template by done.
  by destruct (slice_map _ segs).
Qed.

Lemma interpolateString_plain obj s :
  plain s = true ->
  interpolateString obj s =
    Ok {| context.Value_Value := VString s; context.Value_Sensitive := false;
          context.Value_SensitiveReason := "" |}.
Proof.
  intros Hp. destruct s as [|c s]; [done|].
  replace (String c s) with (render [Lit (String c s)]) at 1 by apply string_app_nil_r.
  rewrite interpolateString_template; [done|]. cbn [wf_segments]. by rewrite Hp.
Qed.

Lemma join_output_not_sensitive out v :
  join_output out false [] = Ok v -> context.Value_Sensitive v = false.
Proof.
  destruct out as [|x [|y out]]; cbn [join_output]; intros H; inv_ok; try done;
    unfold context.NewStringValue, context.NewValue in *; by inv_ok.
Qed.

Lemma interpolateString_not_sensitive obj s v :
  interpolateString obj s = Ok v -> context.Value_Sensitive v = false.
Proof.
  rewrite interpolateString_reference. unfold reference_interpolate.
  intros (out & _ & H)%bind_Ok. by eapply join_output_not_sensitive.
Qed.

Lemma Expand_not_sensitive obj v x :
  Expand obj v = Ok x -> context.Value_Sensitive x = false.
Proof.
  destruct v; cbn [Expand]; intros H; try (unfold context.NewNonSensitiveValue, context.NewValue in H);
    inv_ok; try done. by eapply interpolateString_not_sensitive.
Qed.

Definition plain_result (v : value) : context.Value :=
  {| context.Value_Value := v; context.Value_Sensitive := false;
     context.Value_SensitiveReason := "" |}.

Lemma Expand_plain obj v : plain_value v = true -> Expand obj v = Ok (plain_result v).
Proof.
  induction v as [| | |s| |fs IH|vs IH] using value_ind'; cbn [Expand plain_value]; intros Hp;
    try done.
  - by apply interpolateString_plain.
  - apply bind_Ok. exists fs. split; [|done].
    induction IH as [|[k v] fs Hv _ IHl]; [done|]. apply andb_true_iff in Hp as [Hp1 Hp2].
    cbn in Hv. rewrite (Hv Hp1). cbn. by rewrite IHl.
  - apply bind_Ok. exists vs. split; [|done].
    induction IH as [|v vs Hv _ IHl]; [done|]. apply andb_true_iff in Hp as [Hp1 Hp2].
    rewrite (Hv Hp1). cbn. by rewrite IHl.
Qed.
End templates.

(** ** Paths *)

Lemma assoc_elem {A} (l : list (string * A)) k x :
  NoDup l.*1 -> assoc k l = Some x <-> (k, x) ∈ l.
Proof.
  induction l as [|[k' y] l IH]; cbn; intros Hnd.
  - split; [done|]. by intros ?%not_elem_of_nil.
  - apply NoDup_cons in Hnd as [Hk Hnd]. rewrite elem_of_cons.
    destruct (String.eqb_spec k k') as [->|Hne].
    + split; [intros [= ->]; by left|]. intros [[= ->]|Hin]; [done|].
      destruct Hk. apply list_elem_of_fmap. by exists (k', x).
    + rewrite IH by done. split; [by right|]. intros [[= ? ?]|]; done.
Qed.

Lemma assoc_map {A B} (f : A -> B) (l : list (string * A)) k :
  assoc k (prod_map id f <$> l) = f <$> assoc k l.
Proof.
  induction l as [|[k' y] l IH]; cbn; [done|]. unfold id. by destruct (String.eqb k k').
Qed.

Lemma assoc_map_to_list {A} (m : gmap string A) k : assoc k (map_to_list m) = m !! k.
Proof.
  destruct (m !! k) as [x|] eqn:Hm.
  - apply assoc_elem; [apply NoDup_fst_map_to_list|]. by apply elem_of_map_to_list.
  - destruct (assoc k _) as [x|] eqn:Ha; [|done].
    apply assoc_elem in Ha; [|apply NoDup_fst_map_to_list].
    apply elem_of_map_to_list in Ha. congruence.
Qed.

Lemma Split_path (keys : list string) :
  keys <> [] -> forallb is_name keys = true -> Split (Join keys ".") "." = keys.
Proof.
  induction keys as [|k [|k' keys] IH]; intros Hne Hnd; [done|..]; cbn [forallb] in Hnd;
    apply andb_true_iff in Hnd as [Hk%is_name_no_dot Hnd].
  - by apply Split_no_sep.
  - change (Split (k +:+ "." +:+ Join (k' :: keys) ".") "." = k :: k' :: keys).
    rewrite Split_cons by done. by rewrite IH.
Qed.

Section paths.
  Context `{SP : StructPB}.

Lemma Evaluate_path obj keys :
  keys <> [] -> forallb is_name keys = true ->
  Evaluate obj (Join keys ".") =
  (v ← (r ← dig_path (Join keys ".") obj keys; ObjectToProtoValue r);
   context.NewValue v false [Join keys "."]).
Proof.
  intros Hne Hnd. unfold Evaluate, evaluate.
  rewrite TrimSpace_visible by (by apply Join_visible). by rewrite Split_path.
Qed.

Lemma digMap_strings (m : gmap string string) k :
  DigObject (any_of_strings m) k =
  match m !! k with Some v => Ok (AString v) | None => Err (not_found k) end.
Proof.
  unfold any_of_strings. cbn [DigObject digMap]. cbn -[assoc].
  rewrite assoc_map, assoc_map_to_list. by destruct (m !! k).
Qed.

Lemma digMap_values {A} type (f : A -> any) (m : gmap string A) k :
  DigObject (ATypedMap type "string" (prod_map id f <$> map_to_list m)) k =
  match m !! k with Some v => Ok (f v) | None => Err (not_found k) end.
Proof.
  cbn -[assoc]. rewrite assoc_map, assoc_map_to_list. by destruct (m !! k).
Qed.

Lemma DigObject_context c :
  DigObject (any_of_context c) "env" = Ok (any_of_strings (ic_Env c)) /\
  DigObject (any_of_context c) "job" = Ok (any_of_strings (ic_Job c)) /\
  DigObject (any_of_context c) "inputs" =
    Ok (ATypedMap "map[string]*structpb.Value" "string"
          (prod_map id AValue <$> map_to_list (ic_Inputs c))) /\
  DigObject (any_of_context c) "steps" =
    Ok (ATypedMap "map[string]*expression.StepResultView" "string"
          (prod_map id any_of_StepResultView <$> map_to_list (ic_StepResults c))) /\
  DigObject (any_of_context c) "work_dir" = Ok (AString (ic_WorkDir c)) /\
  DigObject (any_of_context c) "step_dir" = Ok (AString (ic_StepDir c)) /\
  DigObject (any_of_context c) "output_file" = Ok (AString (ic_OutputFile c)) /\
  DigObject (any_of_context c) "export_file" = Ok (AString (ic_ExportFile c)).
Proof. repeat split. Qed.

Lemma DigObject_result r :
  DigObject (any_of_StepResultView r) "outputs" =
    Ok (ATypedMap "map[string]*structpb.Value" "string"
          (prod_map id (AValue ∘ Some) <$> map_to_list (srv_Outputs r))) /\
  DigObject (any_of_StepResultView r) "exports" = Err (not_found "exports").
Proof. by split. Qed.

(** An output of an earlier step. *)
Lemma Evaluate_step_output c n k r :
  is_name n = true -> is_name k = true -> ic_StepResults c !! n = Some r ->
  Evaluate (any_of_context c) (Join ["steps"; n; "outputs"; k] ".") =
  match srv_Outputs r !! k with
  | Some v => Ok {| context.Value_Value := v; context.Value_Sensitive := false;
                    context.Value_SensitiveReason := Join ["steps"; n; "outputs"; k] "." |}
  | None => Err (NewError (Join ["steps"; n; "outputs"; k] "." +:+ ": " +:+ Error (not_found k)))
  end.
Proof.
  intros Hn Hk Hr. destruct (DigObject_context c) as (_ & _ & _ & Ds & _).
  rewrite Evaluate_path; [|done|cbn [forallb]; by rewrite Hn, Hk].
  cbn [dig_path]. rewrite Ds, digMap_values, Hr. destruct (DigObject_result r) as [-> _].
  rewrite digMap_values. by destruct (srv_Outputs r !! k).
Qed.

(** A path of names has no delimiter. *)
Lemma path_is_expression keys :
  keys <> [] -> forallb is_name keys = true -> wf_segments [Expr (Join keys ".")] = true.
Proof.
  intros Hne Hk. set (f c := name_byte c || Ascii.eqb c "."%char).
  assert (all_bytes f (Join keys ".") = true) as Hf.
  { clear Hne. induction keys as [|x [|y l] IH]; cbn [forallb] in Hk; [done|..];
      apply andb_true_iff in Hk as [Hx Hl]; apply andb_true_iff in Hx as [_ Hx].
    - cbn. eapply all_bytes_impl; [|exact Hx]. intros c Hc. unfold f. by rewrite Hc.
    - change (all_bytes f (x +:+ "." +:+ Join (y :: l) ".") = true).
      rewrite !all_bytes_app, IH by done.
      rewrite (all_bytes_impl name_byte f x); [done| |done]. intros c Hc. unfold f. by rewrite Hc. }
  cbn [wf_segments]. unfold plain, InterpolateOpen, InterpolateClose.
  rewrite !(Contains_cons_byte f) by (done || by vm_compute). cbn [negb andb].
  destruct (HasSuffix (Join keys ".") "}") eqn:E; [|done].
  apply HasSuffix_spec in E as [r E]. rewrite E, all_bytes_app in Hf.
  apply andb_true_iff in Hf as [_ Hf]. by vm_compute in Hf.
Qed.

(** A template that is one reference to an output has its value. *)
Lemma interpolate_step_output c n k r v :
  is_name n = true -> is_name k = true ->
  ic_StepResults c !! n = Some r -> srv_Outputs r !! k = Some v ->
  interpolateString (Some c) ("${{" +:+ Join ["steps"; n; "outputs"; k] "." +:+ "}}") =
  context.NewValue (Some v) false [].
Proof.
  intros Hn Hk Hr Hv.
  change ("${{" +:+ Join ["steps"; n; "outputs"; k] "." +:+ "}}")
    with (render [Expr (Join ["steps"; n; "outputs"; k] ".")]).
  rewrite interpolateString_template
    by (apply path_is_expression; [done|]; cbn [forallb]; by rewrite Hn, Hk).
  cbn [slice_map eval_segment any_of_view].
  rewrite (Evaluate_step_output c n k r) by done. by rewrite Hv.
Qed.

(** The result of an expression that names a string. *)
Lemma string_result v s :
  utf8_valid v = true ->
  (w ← ObjectToProtoValue (AString v); context.NewValue w false [s]) =
  Ok {| context.Value_Value := VString v; context.Value_Sensitive := false;
        context.Value_SensitiveReason := s |}.
Proof. intros Hv. cbn. by rewrite NewValue_string. Qed.

Lemma digMap_decided kk m k : decided (digMap kk m k) = true.
Proof. unfold digMap. destruct (String.eqb kk "string"); [|done]. by destruct (assoc k m). Qed.

Lemma DigObject_decided x k : decided (DigObject x k) = true.
Proof.
  induction x as [x Hx|t fs IH] using any_ind_struct.
  - destruct x as [|b|f|s|[s|]|l|m|m|v|t fs|t|t kk m|t kd]; cbn [DigObject];
      try apply digMap_decided; try done.
    + destruct v as [[]|]; try done. cbn. by destruct (assoc k fields).
    + by destruct (Hx t fs).
  - cbn [DigObject]. induction IH as [|[f x] fs Hx _ IHfs]; [done|]. cbn [digStruct].
    destruct (negb (fld_exported f)); [exact IHfs|].
    assert (decided match field_key f with
                    | None => digStruct DigObject fs k
                    | Some name => if String.eqb name k then Ok x else digStruct DigObject fs k
                    end = true) as Hn.
    { destruct (field_key f) as [name|]; [|exact IHfs].
      destruct (String.eqb name k); [done|exact IHfs]. }
    destruct (fld_anonymous f); [|exact Hn]. cbn in Hx. by destruct (DigObject x k).
Qed.

Lemma Evaluate_decided obj s : decided (Evaluate obj s) = true.
Proof.
  unfold Evaluate, evaluate. apply bind_decided; [apply bind_decided|by intros [v|]].
  - generalize (Split (TrimSpace s) "."). intros keys. revert obj.
    induction keys as [|k keys IH]; intros obj; [done|]. cbn [dig_path].
    pose proof (DigObject_decided obj k). destruct (DigObject obj k); done.
  - intros x _. destruct x; try done; unfold ObjectToProtoValue;
      pose proof (NewValue_decided); by match goal with |- context [NewValue ?y] =>
        specialize (H y); destruct (NewValue y) end.
Qed.

Lemma ValueToString_decided v : decided (ValueToString v) = true.
Proof. destruct v; try done; apply MarshalValue_decided. Qed.

Lemma interpolateString_decided obj s : decided (interpolateString obj s) = true.
Proof.
  rewrite interpolateString_reference. unfold reference_interpolate, reference_items.
  apply bind_decided.
  - generalize machine_init. induction (lex s) as [|t ts IH]; intros m; cbn [machine_run].
    + by destruct (m_depth m).
    + apply bind_decided; [|done]. destruct t; cbn; try done.
      destruct (m_depth m) as [|[|d]]; try done. apply bind_decided; [|done].
      apply Evaluate_decided.
  - intros out _. destruct out as [|x [|y out]]; try done; unfold join_output;
      (apply bind_decided; [|done]).
    assert (forall l, decided (concat_values l) = true) as H; [|apply H].
    induction l as [|z l IH]; [done|]. cbn. apply bind_decided; [apply ValueToString_decided|].
    intros. by apply bind_decided.
Qed.

Lemma ExpandString_decided obj s : decided (ExpandString obj s) = true.
Proof.
  apply bind_decided; [apply interpolateString_decided|]. intros. apply ValueToString_decided.
Qed.

Lemma Expand_decided obj v : decided (Expand obj v) = true.
Proof.
  induction v as [| | | | |fs IH|vs IH] using value_ind'; try done; cbn [Expand].
  - apply interpolateString_decided.
  - apply bind_decided; [|done]. induction IH as [|[k v] fs Hv _ IHl]; [done|].
    apply bind_decided; [done|intros]. by apply bind_decided.
  - apply bind_decided; [|done]. induction IH as [|v vs Hv _ IHl]; [done|].
    apply bind_decided; [done|intros]. by apply bind_decided.
Qed.

(** With a nil context every expression panics. *)
Lemma Evaluate_nil s : Evaluate (any_of_view None) s = Panic zero_value_type.
Proof.
  unfold Evaluate, evaluate. cbn [any_of_view].
  unfold Split. by destruct (split_go "." 0 (TrimSpace s)).
Qed.
End paths.

(** ** Properties *)

Section properties.
  Context `{SP : StructPB}.

(** C34: [interpolateString], with its match indices, nesting depth and
    previous/opening offsets into the string, computes exactly what the
    reference machine computes on the string's characters and delimiters:
    the same items, the same joined value, the same error, for every string
    and every context, nil included. *)
Theorem interpolateString_refines obj s :
  interpolateString obj s = reference_interpolate obj s.
Proof. apply interpolateString_reference. Qed.

(** C35: interpolating a template evaluates its expressions in order and keeps
    its literal text: the first failing expression is the error, a template
    that is one expression keeps the type of its value, anything else is the
    concatenation of the items' texts. *)
Theorem interpolateString_of_template obj segs :
  wf_segments segs = true ->
  interpolateString obj (render segs) =
  (vs ← slice_map (eval_segment (any_of_view obj)) segs; join_output vs false []).
Proof. apply interpolateString_template. Qed.

(** No expansion is ever marked sensitive, whatever the context, and so
    assigning the result of an expansion to a step input never fails: the guard
    of [Variable.Assign] against moving sensitive values into inputs that are
    not sensitive cannot fire for values the expression evaluator produces. *)
Lemma Expand_never_sensitive obj v x (var : context.Variable_) :
  Expand obj v = Ok x ->
  context.Value_Sensitive x = false /\
  context.Assign var x =
    Ok {| context.Variable_Value := context.Value_Value x;
          context.Variable_Sensitive := context.Variable_Sensitive var |}.
Proof.
  intros H. apply Expand_not_sensitive in H. split; [done|]. unfold context.Assign. by rewrite H.
Qed.

(** Expansion leaves every value without delimiters in its strings
    unchanged, in every context, nil included. *)
Theorem Expand_identity_on_plain obj v :
  plain_value v = true ->
  exists x, Expand obj v = Ok x /\ context.Value_Value x = v.
Proof. intros H. exists (plain_result v). by rewrite Expand_plain. Qed.

(** The namespaces of expressions.  [env.k], [job.k], [inputs.k] and
    [steps.n.outputs.k] evaluate to the entry of the context's map of that
    name [k], and to a "was not found" error when there is none; strings of a
    context are valid UTF-8, as protobuf requires.  A present [inputs.k] that
    is the nil pointer panics. *)
Theorem expression_namespaces c n k :
  is_name n = true -> is_name k = true ->
  (map_Forall (fun _ v => utf8_valid v = true) (ic_Env c)) ->
  (map_Forall (fun _ v => utf8_valid v = true) (ic_Job c)) ->
  let result path v :=
    match v with
    | Some (Some v) => Ok {| context.Value_Value := v; context.Value_Sensitive := false;
                             context.Value_SensitiveReason := path |}
    | Some None => Panic "value must have an inner value"
    | None => Err (NewError (path +:+ ": " +:+ Error (not_found k)))
    end in
  Evaluate (any_of_context c) (Join ["env"; k] ".")
    = result (Join ["env"; k] ".") (Some ∘ VString <$> ic_Env c !! k) /\
  Evaluate (any_of_context c) (Join ["job"; k] ".")
    = result (Join ["job"; k] ".") (Some ∘ VString <$> ic_Job c !! k) /\
  Evaluate (any_of_context c) (Join ["inputs"; k] ".")
    = result (Join ["inputs"; k] ".") (ic_Inputs c !! k) /\
  (forall r, ic_StepResults c !! n = Some r ->
   Evaluate (any_of_context c) (Join ["steps"; n; "outputs"; k] ".")
    = result (Join ["steps"; n; "outputs"; k] ".") (Some <$> srv_Outputs r !! k)).
Proof.
  intros Hn Hk Henv Hjob result.
  destruct (DigObject_context c) as (De & Dj & Di & Ds & _).
  assert (forall d m, DigObject (any_of_context c) d = Ok (any_of_strings m) ->
    map_Forall (fun _ v => utf8_valid v = true) m -> is_name d = true ->
    Evaluate (any_of_context c) (Join [d; k] ".") =
    result (Join [d; k] ".") (Some ∘ VString <$> m !! k)) as Hstr.
  { intros d m Hd Hm Hnd. rewrite Evaluate_path; [|done|cbn [forallb]; by rewrite Hnd, Hk].
    cbn [dig_path]. rewrite Hd, digMap_strings. unfold result.
    destruct (m !! k) as [v|] eqn:Hv; cbn [fmap option_fmap option_map]; [|done].
    cbn [mbind res_bind]. apply string_result. by apply (Hm k). }
  split; [by apply Hstr|]. split; [by apply Hstr|]. split.
  - rewrite Evaluate_path; [|done|cbn [forallb]; by rewrite Hk].
    cbn [dig_path]. rewrite Di, digMap_values. unfold result.
    by destruct (ic_Inputs c !! k) as [[v|]|].
  - intros r Hr. rewrite (Evaluate_step_output c n k r) by done. unfold result.
    by destruct (srv_Outputs r !! k).
Qed.

(** Exports of earlier steps cannot be named: [steps.n.exports.k] is an
    error in every context that holds the step's result. *)
Lemma exports_not_addressable c n k r :
  is_name n = true -> is_name k = true ->
  ic_StepResults c !! n = Some r ->
  Evaluate (any_of_context c) (Join ["steps"; n; "exports"; k] ".")
    = Err (NewError (Join ["steps"; n; "exports"; k] "." +:+ ": " +:+ Error (not_found "exports"))).
Proof.
  intros Hn Hk Hr. destruct (DigObject_context c) as (_ & _ & _ & Ds & _).
  rewrite Evaluate_path; [|done|cbn [forallb]; by rewrite Hn, Hk].
  cbn [dig_path]. rewrite Ds, digMap_values, Hr. by destruct (DigObject_result r) as [_ ->].
Qed.
End properties.
