(* ===== verification/Environment.v ===== *)
(** Environments (src/pkg/runner/environment.go, global_env.go): lexical scopes
    and mutations over a heap of environment objects, and the global
    environment with its log level.

    Environments are shared by pointer: the parent of a scope and the mutations
    of an environment are references, and a mutation is seen through every
    scope that reaches the mutated object.  The heap holds the objects in the
    order of their allocation; a pointer is an index. *)

From stdpp Require Import gmap strings list fin_maps.
From S2P Require Import Prelude GoStrings.
Open Scope go_scope.
Open Scope string_scope.
Open Scope list_scope.

Abbreviation loc := nat.

(** [type Environment struct]; the mutex guards [mutations]. *)
Record Environment := {
  vars : gmap string string;
  parent : option loc;
  mutations : list loc
}.

Abbreviation env_heap := (list Environment).

Definition alloc (h : env_heap) (e : Environment) : loc * env_heap := (length h, h ++ [e]).

(** [NewEnvironment(vars)] *)
Definition NewEnvironment (h : env_heap) (vs : gmap string string) : loc * env_heap :=
  alloc h {| vars := vs; parent := None; mutations := [] |}.

(** [NewEmptyEnvironment()] *)
Definition NewEmptyEnvironment (h : env_heap) : loc * env_heap := NewEnvironment h ∅.

(** The loop of [NewKVEnvironment]. *)
Fixpoint kv_vars (keyValues : list string) (vs : gmap string string) : gmap string string :=
  match keyValues with
  | k :: v :: rest => kv_vars rest (<[k := v]> vs)
  | _ => vs
  end.

Definition NewKVEnvironment (h : env_heap) (keyValues : list string) : res (loc * env_heap) :=
  if Nat.odd (length keyValues)
  then Panic "NewEnvironmentFromValues: odd argument count"
  else Ok (NewEnvironment h (kv_vars keyValues ∅)).

(** [acceptEnvName(name, rejectIf)] *)
Fixpoint acceptEnvName (name : string) (rejectIf : list (string -> bool)) : bool :=
  match rejectIf with
  | [] => true
  | f :: rejectIf' => if f name then false else acceptEnvName name rejectIf'
  end.

(** The loop of [NewEnvironmentFromOS] over [os.Environ()]. *)
Fixpoint os_vars (rejectIf : list (string -> bool)) (environ : list string)
    (vs : gmap string string) : res (gmap string string) :=
  match environ with
  | [] => Ok vs
  | nameValue :: rest =>
      let '(name, v, ok) := Cut nameValue "=" in
      if ok then os_vars rejectIf rest (if acceptEnvName name rejectIf then <[name := v]> vs else vs)
      else Err (NewError ("failed to parse environment variable: " +:+ nameValue))
  end.

Definition NewEnvironmentFromOS (h : env_heap) (environ : list string)
    (rejectIf : list (string -> bool)) : res (loc * env_heap) :=
  vs ← os_vars rejectIf environ ∅; Ok (NewEnvironment h vs).

Definition knownVars : list string :=
  ["HTTPS_PROXY"; "HTTP_PROXY"; "LANG"; "LC_ALL"; "LC_CTYPE"; "LOGNAME"; "NO_PROXY"; "PATH";
   "SHELL"; "TERM"; "TMPDIR"; "TZ"; "USER"; "all_proxy"; "http_proxy"; "https_proxy"; "no_proxy"].

Definition NewEnvironmentFromOSWithKnownVars (h : env_heap) (environ : list string) :
    res (loc * env_heap) :=
  NewEnvironmentFromOS h environ
    [fun envName => negb (existsb (String.eqb envName) knownVars)].

(** [e.AddLexicalScope(vars)]: the receiver itself when there is no variable. *)
Definition AddLexicalScope (h : env_heap) (e : loc) (vs : gmap string string) : loc * env_heap :=
  if decide (vs = ∅) then (e, h)
  else alloc h {| vars := vs; parent := Some e; mutations := [] |}.

(** [maps.Copy(dst, src)] is [src ∪ dst]: the entries of [src] win. *)
Definition Copy (dst src : gmap string string) : gmap string string := src ∪ dst.

(** The loop of [Values] over the mutations. *)
Definition copy_all (vals : loc -> option (gmap string string)) (ms : list loc)
    (acc : gmap string string) : option (gmap string string) :=
  foldl (fun acc m => acc ← acc; v ← vals m; Some (Copy acc v)) (Some acc) ms.

(** [e.Values()], following at most [fuel] pointers in a row. *)
Fixpoint values_fuel (fuel : nat) (h : env_heap) (e : loc) : option (gmap string string) :=
  match fuel with
  | O => None
  | S n =>
      env ← h !! e;
      base ← match parent env with
             | Some p => values_fuel n h p
             | None => Some ∅
             end;
      copy_all (values_fuel n h) (mutations env) (Copy base (vars env))
  end.

(** The heap bounds the chains of pointers of an acyclic environment, so this
    fuel is enough ([Values_total] below); a cyclic one deadlocks in the code. *)
Definition Values (h : env_heap) (e : loc) : gmap string string :=
  default ∅ (values_fuel (S (length h)) h e).

#[global] Arguments Values : simpl never.
#[global] Arguments Copy : simpl never.

(** [e.Len()] *)
Definition Len (h : env_heap) (e : loc) : nat := size (Values h e).

(** [e.ValueOf(key)]: the empty string for a missing key. *)
Definition ValueOf (h : env_heap) (e : loc) (key : string) : string :=
  default "" (Values h e !! key).

(** [e.Mutate(env)]; a nil or empty [env] is ignored. *)
Definition Mutate (h : env_heap) (e : loc) (env : option loc) : env_heap :=
  match env with
  | None => h
  | Some m =>
      if (Len h m =? 0)%nat then h
      else alter (fun n => {| vars := vars n; parent := parent n;
                              mutations := mutations n ++ [m] |}) e h
  end.

(** ** Preconditions (src/pkg/precond/conditions.go) *)

(** A value of type [any]: none, or a pointer with its type, which may be nil. *)
Inductive any_value := NilInterface | Pointer (p : option loc).

(** [MustNotBeNil(value, message)] *)
Definition MustNotBeNil (value : any_value) (message : string) : res unit :=
  match value with
  | NilInterface => Panic message
  | Pointer _ => Ok tt
  end.

(** A nil environment passes: the pointer is nil, the [any] that holds it is not. *)
Lemma nil_environment_passes message : MustNotBeNil (Pointer None) message = Ok tt.
Proof. reflexivity. Qed.

(** ** Global environment (global_env.go) *)

Definition LogLevelEnvName : string := "CI_STEPS_LOG_LEVEL".

Definition logLevel (h : env_heap) (parent : loc) (jobVars : gmap string string) :
    res (gmap string string) :=
  let level := ToLower (TrimSpace (default "" (jobVars !! LogLevelEnvName))) in
  let level := if String.eqb level "" then ToLower (TrimSpace (ValueOf h parent LogLevelEnvName))
               else level in
  if String.eqb level "" || String.eqb level "info" then Ok {[LogLevelEnvName := "info"]}
  else if String.eqb level "debug" then Ok {[LogLevelEnvName := "debug"]}
  else if String.eqb level "warn" then Ok {[LogLevelEnvName := "warn"]}
  else if String.eqb level "error" then Ok {[LogLevelEnvName := "error"]}
  else Err (NewError ("log level: " +:+ level +:+ " not supported")).

Definition GlobalEnvironment (h : env_heap) (parent : loc) (jobVars : gmap string string) :
    res (loc * env_heap) :=
  level ← logLevel h parent jobVars or_wrap "init global environment: ";
  let globalEnv := Copy ∅ level in
  let '(tmp, h1) := NewEnvironment h globalEnv in
  Ok (AddLexicalScope h1 parent (Values h1 tmp)).

(** ** Well-formed heaps *)

(** [x] refers to [y]. *)
Definition edge (h : env_heap) (x y : loc) : Prop :=
  exists n, h !! x = Some n /\ (parent n = Some y \/ y ∈ mutations n).

(** No dangling pointer, and no cycle. *)
Definition acyclic (h : env_heap) : Prop :=
  (forall x y, edge h x y -> y < length h) /\ well_founded (flip (edge h)).

(** [y] is reached from [x]. *)
Definition reaches (h : env_heap) : loc -> loc -> Prop := rtc (edge h).

(** ** Termination of [Values] *)

(** Chains of pointers. *)
Fixpoint chain (h : env_heap) (x : loc) (l : list loc) : Prop :=
  match l with
  | [] => True
  | y :: l' => edge h x y /\ chain h y l'
  end.

Lemma copy_all_None vals ms acc :
  copy_all vals ms acc = None -> exists m, m ∈ ms /\ vals m = None.
Proof.
  unfold copy_all. revert acc. induction ms as [|m ms IH]; intros acc; cbn; [done|].
  destruct (vals m) as [v|] eqn:Hv.
  - intros H. destruct (IH (Copy acc v) H) as (m' & Hin & Hn). exists m'. split; [by right|done].
  - intros _. exists m. split; [left|done].
Qed.

(** When the fuel runs out, a chain as long as the fuel was followed. *)
Lemma values_fuel_None fuel h e :
  (forall x y, edge h x y -> y < length h) -> e < length h ->
  values_fuel fuel h e = None ->
  exists l, chain h e l /\ length l = fuel.
Proof.
  intros Hd. revert e. induction fuel as [|n IH]; intros e He; cbn.
  - intros _. by exists [].
  - destruct (lookup_lt_is_Some_2 h e He) as [env Henv]. rewrite Henv. cbn.
    intros H.
    assert (exists y, edge h e y /\ values_fuel n h y = None) as (y & Hy & Hn).
    { destruct (parent env) as [p|] eqn:Hp; cbn in H.
      - destruct (values_fuel n h p) as [b|] eqn:Hb; cbn in H.
        + destruct (copy_all_None _ _ _ H) as (m & Hm & Hv). exists m. split; [|done].
          exists env. by auto.
        + exists p. split; [|done]. exists env. auto.
      - destruct (copy_all_None _ _ _ H) as (m & Hm & Hv). exists m. split; [|done].
        exists env. by auto. }
    destruct (IH y) as (l & Hl & Hlen); [by eapply Hd|done|].
    exists (y :: l). cbn. auto.
Qed.

Lemma chain_tc h x l y : chain h x l -> y ∈ l -> tc (edge h) x y.
Proof.
  revert x. induction l as [|z l IH]; intros x; cbn; [by intros _ ?%not_elem_of_nil|].
  intros [Hxz Hl] [->|Hin]%elem_of_cons; [by apply tc_once|].
  eapply tc_l; [exact Hxz|]. by apply IH.
Qed.

Lemma acyclic_tc h x : acyclic h -> ~ tc (edge h) x x.
Proof.
  intros [_ Hwf]. induction (Hwf x) as [x _ IH]. intros Hx.
  assert (exists y, edge h x y /\ tc (edge h) y y) as (y & Hxy & Hy); [|by apply (IH y)].
  inversion Hx as [y Hxx|y1 y2 y3 Hxy Hyx]; subst.
  - exists x. split; [done|]. by apply tc_once.
  - exists y2. split; [done|]. eapply tc_transitive; [exact Hyx|]. by apply tc_once.
Qed.

Lemma chain_NoDup h x l :
  acyclic h -> chain h x l -> NoDup l /\ Forall (fun y => y < length h) l.
Proof.
  intros Ha. revert x. induction l as [|y l IH]; intros x; cbn.
  - intros _. split; constructor.
  - intros [Hxy Hl]. destruct (IH y Hl) as [Hnd Hf]. split; constructor; try done.
    + intros Hin. by apply (acyclic_tc h y Ha), (chain_tc h y l).
    + by eapply (proj1 Ha).
Qed.

Lemma NoDup_below (n : nat) l : NoDup l -> Forall (fun y => y < n) l -> length l <= n.
Proof.
  intros Hnd Hf. rewrite <- (length_seq n 0). apply submseteq_length, NoDup_submseteq; [done|].
  intros y Hy. rewrite Forall_forall in Hf. apply elem_of_seq. specialize (Hf y Hy). lia.
Qed.

Lemma values_fuel_total h e :
  acyclic h -> e < length h -> is_Some (values_fuel (S (length h)) h e).
Proof.
  intros Ha He. destruct (values_fuel (S (length h)) h e) eqn:Hv; [by eauto|].
  apply values_fuel_None in Hv as (l & Hl & Hlen); [|apply Ha|done].
  destruct (chain_NoDup h e l Ha Hl) as [Hnd Hf].
  pose proof (NoDup_below (length h) l Hnd Hf). lia.
Qed.

Lemma copy_all_mono (v1 v2 : loc -> option (gmap string string)) ms acc r :
  (forall m r, v1 m = Some r -> v2 m = Some r) ->
  copy_all v1 ms acc = Some r -> copy_all v2 ms acc = Some r.
Proof.
  intros Hv. unfold copy_all. revert acc. induction ms as [|m ms IH]; intros acc; cbn; [done|].
  destruct (v1 m) as [v|] eqn:Hm.
  - rewrite (Hv m v Hm). apply IH.
  - intros H. exfalso. clear -H. induction ms as [|m ms IH]; cbn in H; [done|]. auto.
Qed.

Lemma values_fuel_mono n n' h e r :
  n <= n' -> values_fuel n h e = Some r -> values_fuel n' h e = Some r.
Proof.
  revert n' e r. induction n as [|n IH]; intros n' e r Hn; cbn; [done|].
  destruct n' as [|n']; [lia|]. cbn. destruct (h !! e) as [env|]; cbn; [|done].
  destruct (parent env) as [p|]; cbn.
  - destruct (values_fuel n h p) as [b|] eqn:Hb; cbn; [|done].
    rewrite (IH n' p b) by (lia || done). cbn. apply copy_all_mono. intros. apply IH; [lia|done].
  - apply copy_all_mono. intros. apply IH; [lia|done].
Qed.

Lemma values_fuel_Values n h e r : values_fuel n h e = Some r -> acyclic h -> e < length h ->
  Values h e = r.
Proof.
  intros Hv Ha He. unfold Values. destruct (values_fuel_total h e Ha He) as [r' Hr']. rewrite Hr'.
  cbn. destruct (Nat.le_ge_cases n (S (length h))) as [Hle|Hle].
  - rewrite (values_fuel_mono _ _ _ _ _ Hle Hv) in Hr'. by injection Hr' as <-.
  - rewrite (values_fuel_mono _ _ _ _ _ Hle Hr') in Hv. by injection Hv as <-.
Qed.

Lemma copy_all_Values h ms acc vals :
  (forall m, m ∈ ms -> vals m = Some (Values h m)) ->
  copy_all vals ms acc = Some (foldl (fun acc m => Copy acc (Values h m)) acc ms).
Proof.
  unfold copy_all. revert acc. induction ms as [|m ms IH]; intros acc Hv; cbn; [done|].
  rewrite (Hv m) by left. cbn. apply IH. intros. apply Hv. by right.
Qed.

(** The defining equation of [Values], free of fuel. *)
Lemma Values_unfold h e env :
  acyclic h -> h !! e = Some env ->
  Values h e =
    foldl (fun acc m => Copy acc (Values h m))
      (Copy (from_option (Values h) ∅ (parent env)) (vars env)) (mutations env).
Proof.
  intros Ha Henv. pose proof (lookup_lt_Some _ _ _ Henv) as He.
  apply (values_fuel_Values (S (S (length h)))); [|done|done].
  assert (forall y, edge h e y -> values_fuel (S (length h)) h y = Some (Values h y)) as Hy.
  { intros y Hy. destruct (values_fuel_total h y Ha) as [r Hv]; [by eapply Ha|].
    unfold Values. by rewrite Hv. }
  revert Hy. generalize (S (length h)). intros N Hy.
  cbn [values_fuel]. rewrite Henv. cbn [mbind option_bind].
  destruct (parent env) as [p|] eqn:Hp.
  - rewrite (Hy p) by (exists env; auto). cbn [mbind option_bind from_option].
    apply copy_all_Values. intros m Hm. apply Hy. exists env. auto.
  - cbn [mbind option_bind from_option].
    apply copy_all_Values. intros m Hm. apply Hy. exists env. auto.
Qed.

(** ** How the operations change the heap *)

Lemma acyclic_of_rank h (rank : loc -> nat) :
  (forall x y, edge h x y -> y < length h /\ rank y < rank x) -> acyclic h.
Proof.
  intros Hr. split; [intros x y Hxy; by eapply Hr|].
  intros x. remember (rank x) as n eqn:Hn. revert x Hn.
  induction (lt_wf n) as [n _ IH]. intros x ->. constructor. intros y Hxy.
  destruct (Hr x y Hxy) as [_ Hlt]. by eapply IH.
Qed.

Lemma edge_alloc h n x y : edge (h ++ [n]) x y <->
  edge h x y \/ x = length h /\ (parent n = Some y \/ y ∈ mutations n).
Proof.
  unfold edge. setoid_rewrite lookup_app. split.
  - intros (m & Hm & He). destruct (h !! x) as [m'|] eqn:Hx; [left; by exists m|].
    right. apply list_lookup_singleton_Some in Hm as [Hx' <-].
    apply lookup_ge_None in Hx. split; [lia|done].
  - intros [(m & Hm & He)|[-> He]].
    + exists m. by rewrite Hm.
    + exists n. rewrite (lookup_ge_None_2 h) by lia. by rewrite Nat.sub_diag.
Qed.

Lemma acyclic_alloc h n :
  acyclic h -> (forall y, parent n = Some y \/ y ∈ mutations n -> y < length h) ->
  acyclic (h ++ [n]).
Proof.
  intros [Hd Hwf] Hn.
  assert (forall x, x < length h -> Acc (flip (edge (h ++ [n]))) x) as Hold.
  { intros x. induction (Hwf x) as [x _ IH]. intros Hx. constructor. intros y Hxy.
    apply edge_alloc in Hxy as [Hxy|[-> _]]; [|lia]. apply IH; [done|]. by eapply Hd. }
  split.
  - intros x y Hxy. rewrite length_app. cbn.
    apply edge_alloc in Hxy as [Hxy|[-> Hy]]; [specialize (Hd x y Hxy)|specialize (Hn y Hy)]; lia.
  - intros x. constructor. intros y Hxy. apply Hold.
    apply edge_alloc in Hxy as [Hxy|[_ Hy]]; [by eapply Hd|by apply Hn].
Qed.

(** Two heaps that agree on what [e] reaches give it the same values. *)
Lemma Values_agree h h' e :
  acyclic h -> acyclic h' -> e < length h ->
  (forall y, reaches h e y -> h' !! y = h !! y) ->
  Values h' e = Values h e.
Proof.
  intros Ha Ha'. induction (proj2 Ha e) as [e _ IH]. intros He Hag.
  destruct (lookup_lt_is_Some_2 h e He) as [env Henv].
  rewrite (Values_unfold h e env Ha Henv).
  rewrite (Values_unfold h' e env Ha') by (rewrite Hag by apply rtc_refl; done).
  assert (forall y, edge h e y -> Values h' y = Values h y) as Hy.
  { intros y Hy. apply IH; [done|by eapply (proj1 Ha)|].
    intros z Hz. apply Hag. by eapply rtc_l. }
  replace (from_option (Values h') ∅ (parent env)) with (from_option (Values h) ∅ (parent env)).
  - assert (forall ms acc, (forall m, m ∈ ms -> Values h' m = Values h m) ->
      foldl (fun acc m => Copy acc (Values h' m)) acc ms =
      foldl (fun acc m => Copy acc (Values h m)) acc ms) as Hfold.
    { induction ms as [|m ms IHms]; intros acc Hms; cbn; [done|].
      rewrite Hms by left. apply IHms. intros. apply Hms. by right. }
    apply Hfold. intros m Hm. apply Hy. exists env. auto.
  - destruct (parent env) as [p|] eqn:Hp; [|done]. cbn. symmetry. apply Hy. exists env. auto.
Qed.

Lemma reaches_below h x y : acyclic h -> x < length h -> reaches h x y -> y < length h.
Proof.
  intros [Hd _] Hx Hr. induction Hr as [|x y z Hxy Hyz IH]; [done|].
  apply IH. by eapply Hd.
Qed.

Lemma Values_alloc h n e :
  acyclic h -> acyclic (h ++ [n]) -> e < length h -> Values (h ++ [n]) e = Values h e.
Proof.
  intros Ha Ha' He. apply Values_agree; [done..|].
  intros y Hy. apply lookup_app_l. by eapply reaches_below.
Qed.

Lemma acyclic_NewEnvironment h vs : acyclic h -> acyclic (NewEnvironment h vs).2.
Proof.
  intros Ha. apply acyclic_alloc; [done|]. cbn. intros y [?|Hy]; [done|].
  by apply not_elem_of_nil in Hy.
Qed.

Lemma Values_NewEnvironment h vs :
  acyclic h -> Values (NewEnvironment h vs).2 (NewEnvironment h vs).1 = vs.
Proof.
  intros Ha. pose proof (acyclic_NewEnvironment h vs Ha) as Ha'. cbn in *.
  erewrite (Values_unfold _ (length h)); [|done|by apply list_lookup_middle].
  cbn. unfold Copy. by rewrite (right_id_L ∅ _).
Qed.

Lemma acyclic_AddLexicalScope h e vs :
  acyclic h -> e < length h -> acyclic (AddLexicalScope h e vs).2.
Proof.
  intros Ha He. unfold AddLexicalScope. destruct (decide (vs = ∅)); [done|].
  apply acyclic_alloc; [done|]. cbn. intros y [[= <-]|Hy]; [done|].
  by apply not_elem_of_nil in Hy.
Qed.

Lemma Values_AddLexicalScope h e vs :
  acyclic h -> e < length h ->
  Values (AddLexicalScope h e vs).2 (AddLexicalScope h e vs).1 = vs ∪ Values h e.
Proof.
  intros Ha He. pose proof (acyclic_AddLexicalScope h e vs Ha He) as Ha'.
  unfold AddLexicalScope in *. destruct (decide (vs = ∅)) as [->|].
  - cbn. by rewrite (left_id_L ∅ _).
  - cbn in *. erewrite (Values_unfold _ (length h)); [|done|by apply list_lookup_middle].
    cbn. by rewrite Values_alloc.
Qed.

Lemma AddLexicalScope_bound h e vs :
  e < length h -> (AddLexicalScope h e vs).1 < length (AddLexicalScope h e vs).2 /\
    length h <= length (AddLexicalScope h e vs).2.
Proof.
  intros He. unfold AddLexicalScope. destruct (decide _); cbn; [lia|].
  rewrite length_app. cbn. lia.
Qed.

(** Adding a mutation to [e]. *)
Definition mutated (h : env_heap) (e m : loc) : env_heap :=
  alter (fun n => {| vars := vars n; parent := parent n; mutations := mutations n ++ [m] |}) e h.

Lemma edge_mutated h e m x y : e < length h ->
  edge (mutated h e m) x y <-> edge h x y \/ x = e /\ y = m.
Proof.
  intros He. unfold edge, mutated. destruct (decide (x = e)) as [->|Hne].
  - rewrite list_lookup_alter_eq. destruct (lookup_lt_is_Some_2 h e He) as [n Hn]. rewrite Hn. cbn.
    split.
    + intros (? & [= <-] & Hy). cbn in Hy. rewrite elem_of_app, list_elem_of_singleton in Hy.
      destruct Hy as [Hy|[Hy|Hy]]; [left; exists n; auto|left; exists n; auto|by right].
    + intros H. eexists. split; [done|]. cbn. rewrite elem_of_app, list_elem_of_singleton.
      destruct H as [(? & [= <-] & [?|?])|[_ ->]]; auto.
  - rewrite list_lookup_alter_ne by done. split; [intros H; by left|].
    intros [H|[-> _]]; [exact H|by destruct Hne].
Qed.

Lemma acyclic_mutated h e m :
  acyclic h -> e < length h -> m < length h -> ~ reaches h m e -> acyclic (mutated h e m).
Proof.
  intros [Hd Hwf] He Hm Hr.
  assert (forall x, ~ reaches h x e -> Acc (flip (edge (mutated h e m))) x) as Hun.
  { intros x. induction (Hwf x) as [x _ IH]. intros Hx. constructor. intros y Hxy.
    apply (edge_mutated h e m x y He) in Hxy as [Hxy|[-> ->]].
    - apply IH; [done|]. intros Hy. apply Hx. by eapply rtc_l.
    - destruct Hx. apply rtc_refl. }
  split.
  - intros x y Hxy. unfold mutated. rewrite length_alter.
    apply (edge_mutated h e m x y He) in Hxy as [Hxy|[_ ->]]; [by eapply Hd|exact Hm].
  - intros x. induction (Hwf x) as [x _ IH]. constructor. intros y Hxy.
    apply (edge_mutated h e m x y He) in Hxy as [Hxy|[-> ->]]; [by apply IH|by apply Hun].
Qed.

Lemma Values_mutated_other h e m x :
  acyclic h -> acyclic (mutated h e m) -> x < length h -> ~ reaches h x e ->
  Values (mutated h e m) x = Values h x.
Proof.
  intros Ha Ha' Hx Hr. apply Values_agree; [done..|].
  intros y Hy. apply list_lookup_alter_ne. intros <-. done.
Qed.

Lemma Values_mutated_parents h e m p :
  acyclic h -> acyclic (mutated h e m) -> e < length h -> edge h e p ->
  Values (mutated h e m) p = Values h p.
Proof.
  intros Ha Ha' He Hp. apply Values_mutated_other; [done..|by eapply (proj1 Ha)|].
  intros Hr. apply (acyclic_tc h e Ha).
  apply rtc_tc in Hr as [->|Hr]; [by apply tc_once|by eapply tc_l].
Qed.

Lemma Values_mutated h e m :
  acyclic h -> acyclic (mutated h e m) -> e < length h ->
  Values (mutated h e m) e = Values (mutated h e m) m ∪ Values h e.
Proof.
  intros Ha Ha' He. destruct (lookup_lt_is_Some_2 h e He) as [n Hn].
  rewrite (Values_unfold (mutated h e m) e
    {| vars := vars n; parent := parent n; mutations := mutations n ++ [m] |});
    [|done|unfold mutated; by rewrite list_lookup_alter_eq, Hn].
  rewrite (Values_unfold h e n) by done. cbn [parent mutations vars].
  rewrite foldl_app. cbn. unfold Copy at 1. f_equal.
  assert (from_option (Values (mutated h e m)) ∅ (parent n) = from_option (Values h) ∅ (parent n)) as ->.
  { destruct (parent n) as [p|] eqn:Hp; [|done]. cbn. apply Values_mutated_parents; [done..|].
    exists n. auto. }
  assert (forall ms acc, (forall x, x ∈ ms -> x ∈ mutations n) ->
    foldl (fun acc m0 => Copy acc (Values (mutated h e m) m0)) acc ms =
    foldl (fun acc m0 => Copy acc (Values h m0)) acc ms) as Hfold.
  { induction ms as [|x ms IH]; intros acc Hms; cbn; [done|].
    rewrite Values_mutated_parents; [|done..|exists n; split; [done|right; apply Hms; left]].
    apply IH. intros. apply Hms. by right. }
  by apply Hfold.
Qed.

(** ** Abstract specification *)

Fixpoint first_some {A} (l : list (option A)) : option A :=
  match l with
  | [] => None
  | Some x :: _ => Some x
  | None :: l' => first_some l'
  end.

(** The variable [k] of an environment: the most recent mutation that has it,
    else the environment's own variables, else the parent scope. *)
Definition lookup_spec (h : env_heap) (env : Environment) (k : string) : option string :=
  first_some (((fun m => Values h m !! k) <$> reverse (mutations env))
              ++ [vars env !! k; from_option (fun p => Values h p !! k) None (parent env)]).

Lemma first_some_app {A} (l1 l2 : list (option A)) :
  first_some (l1 ++ l2) = match first_some l1 with Some x => Some x | None => first_some l2 end.
Proof. induction l1 as [|[x|] l1 IH]; cbn; auto. Qed.

Lemma foldl_Copy_lookup (f : loc -> gmap string string) ms acc k :
  foldl (fun acc m => Copy acc (f m)) acc ms !! k =
  first_some (((fun m => f m !! k) <$> reverse ms) ++ [acc !! k]).
Proof.
  induction ms as [|m ms IH] using rev_ind.
  - cbn. by destruct (acc !! k).
  - rewrite foldl_app, reverse_snoc. cbn. unfold Copy at 1. rewrite lookup_union, IH.
    destruct (f m !! k) as [x|]; cbn.
    + by destruct (first_some _).
    + by destruct (first_some _).
Qed.

Lemma Values_lookup h e env k :
  acyclic h -> h !! e = Some env -> Values h e !! k = lookup_spec h env k.
Proof.
  intros Ha He. rewrite (Values_unfold h e env Ha He), foldl_Copy_lookup.
  unfold lookup_spec. rewrite !first_some_app.
  destruct (first_some (_ <$> _)) as [x|]; [done|]. unfold Copy. rewrite lookup_union.
  destruct (parent env) as [p|]; cbn.
  - by destruct (vars env !! k), (Values h p !! k).
  - rewrite lookup_empty. by destruct (vars env !! k).
Qed.

(** The log levels steps may be given. *)
Definition log_levels : list string := ["info"; "debug"; "warn"; "error"].

(** The level a job asks for: its variable, or the inherited one when the
    variable is missing or blank; ["info"] when neither is set. *)
Definition requested_level (h : env_heap) (p : loc) (jobVars : gmap string string) : string :=
  let norm s := ToLower (TrimSpace s) in
  let job := norm (default "" (jobVars !! LogLevelEnvName)) in
  let l := if String.eqb job "" then norm (ValueOf h p LogLevelEnvName) else job in
  if String.eqb l "" then "info" else l.

Lemma logLevel_spec h p jobVars :
  logLevel h p jobVars =
  let l := requested_level h p jobVars in
  if existsb (String.eqb l) log_levels then Ok {[LogLevelEnvName := l]}
  else Err (NewError ("log level: " +:+ l +:+ " not supported")).
Proof.
  unfold logLevel, requested_level. cbv zeta.
  set (l := if String.eqb (ToLower (TrimSpace (default "" (jobVars !! LogLevelEnvName)))) ""
            then _ else _). clearbody l.
  destruct (String.eqb_spec l "") as [->|Hne]; cbn; [done|].
  destruct (String.eqb_spec l "info") as [->|]; cbn; [done|].
  destruct (String.eqb_spec l "debug") as [->|]; cbn; [done|].
  destruct (String.eqb_spec l "warn") as [->|]; cbn; [done|].
  by destruct (String.eqb_spec l "error") as [->|].
Qed.

Lemma Copy_empty s : Copy ∅ s = s.
Proof. unfold Copy. apply (right_id_L ∅ _). Qed.

(** What [GlobalEnvironment] returns. *)
Lemma GlobalEnvironment_Ok h p jobVars e h' :
  acyclic h -> p < length h -> GlobalEnvironment h p jobVars = Ok (e, h') ->
  requested_level h p jobVars ∈ log_levels /\ acyclic h' /\
  e = S (length h) /\ length h' = S (S (length h)) /\
  h' !! e = Some {| vars := {[LogLevelEnvName := requested_level h p jobVars]};
                    parent := Some p; mutations := [] |} /\
  (forall x, x < length h -> h' !! x = h !! x) /\
  Values h' e = <[LogLevelEnvName := requested_level h p jobVars]> (Values h p).
Proof.
  intros Ha Hp. unfold GlobalEnvironment. rewrite logLevel_spec. cbv zeta.
  set (l := requested_level h p jobVars). destruct (existsb _ _) eqn:Hl; [|done].
  cbn [wrap_err mbind res_bind]. rewrite Copy_empty.
  set (g := {[LogLevelEnvName := l]}).
  pose proof (Values_NewEnvironment h g Ha) as HV.
  pose proof (acyclic_NewEnvironment h g Ha) as Ha1.
  destruct (NewEnvironment _ _) as [tmp h1] eqn:Hnew. cbn [fst snd] in HV, Ha1. rewrite HV.
  unfold NewEnvironment, alloc in Hnew. injection Hnew as <- <-.
  set (h1 := h ++ _) in *. assert (length h1 = S (length h)) as Hlen1.
  { subst h1. rewrite length_app. cbn. lia. }
  pose proof (acyclic_AddLexicalScope h1 p g Ha1 ltac:(lia)) as Ha2.
  pose proof (Values_AddLexicalScope h1 p g Ha1 ltac:(lia)) as HV2.
  destruct (AddLexicalScope h1 p g) as [e' h''] eqn:Hadd. intros [= -> ->].
  cbn [fst snd] in Ha2, HV2.
  unfold AddLexicalScope in Hadd.
  destruct (decide _) as [He|_]; [by apply map_non_empty_singleton in He|].
  unfold alloc in Hadd. injection Hadd as <- <-.
  replace (Values h1 p) with (Values h p) in HV2 by (symmetry; by apply Values_alloc).
  split; [|split; [done|]].
  - apply existsb_exists in Hl as (x & Hx & Heq). apply String.eqb_eq in Heq as ->.
    by apply list_elem_of_In.
  - split; [done|]. split; [rewrite length_app, Hlen1; cbn; lia|]. split; [|split].
    + by apply list_lookup_middle.
    + intros x Hx. rewrite lookup_app_l by lia. subst h1. by apply lookup_app_l.
    + rewrite HV2. unfold g. by rewrite insert_union_singleton_l.
Qed.

(** ** Properties *)

(** Reading an environment terminates.  On every heap without dangling
    pointers or cycles, following pointers as many times as there are objects,
    plus one, yields the values, and more fuel yields the same. *)
Theorem Values_terminates h e :
  acyclic h -> e < length h ->
  forall fuel, S (length h) <= fuel -> values_fuel fuel h e = Some (Values h e).
Proof.
  intros Ha He fuel Hf. destruct (values_fuel_total h e Ha He) as [r Hr].
  unfold Values. rewrite Hr. cbn. by eapply values_fuel_mono.
Qed.

(** C36: the precedence of environment variables.  [Values], which merges maps
    by copying them over one another, gives each name its value in the most
    recent mutation that has it, else in the environment's own scope, else in
    the parent scope. *)
Theorem Values_precedence h e env k :
  acyclic h -> h !! e = Some env -> Values h e !! k = lookup_spec h env k.
Proof. apply Values_lookup. Qed.

(** Mutating an environment.  A non-empty mutation that does not refer back
    to the environment keeps the heap well formed, overrides the environment's
    values, and is seen by the scopes opened on it except for the names they
    define themselves; environments that do not reach it keep their values. *)
Theorem Mutate_spec h e m :
  acyclic h -> e < length h -> m < length h -> ~ reaches h m e -> Values h m <> ∅ ->
  let h' := Mutate h e (Some m) in
  acyclic h' /\
  Values h' e = Values h m ∪ Values h e /\
  (forall c env, h !! c = Some env -> c <> e -> parent env = Some e -> mutations env = [] ->
     Values h' c = vars env ∪ Values h m ∪ Values h e) /\
  (forall x, x < length h -> ~ reaches h x e -> Values h' x = Values h x).
Proof.
  intros Ha He Hm Hr Hne h'. subst h'.
  assert (Mutate h e (Some m) = mutated h e m) as ->.
  { unfold Mutate, Len. destruct (Nat.eqb_spec (size (Values h m)) 0) as [Hz|]; [|done].
    by apply map_size_empty_inv in Hz. }
  pose proof (acyclic_mutated h e m Ha He Hm Hr) as Ha'.
  pose proof (Values_mutated_other h e m m Ha Ha' Hm Hr) as Hvm.
  pose proof (Values_mutated h e m Ha Ha' He) as Hve. rewrite Hvm in Hve.
  split; [exact Ha'|]. split; [exact Hve|]. split.
  - intros c env Hc Hce Hp Hmu.
    rewrite (Values_unfold (mutated h e m) c env Ha')
      by (unfold mutated; by rewrite list_lookup_alter_ne by done).
    rewrite Hp, Hmu. cbn. rewrite Hve. unfold Copy. by rewrite (assoc_L _).
  - intros x Hx Hxe. by apply Values_mutated_other.
Qed.

(** Opening a scope with no variables returns the environment itself, so
    that a mutation of the "scope" mutates the environment; opening a scope with
    variables never changes the values of an existing environment. *)
Theorem AddLexicalScope_spec h e vs :
  acyclic h -> e < length h ->
  let '(s, h') := AddLexicalScope h e vs in
  acyclic h' /\ Values h' s = vs ∪ Values h e /\
  (s = e <-> vs = ∅) /\
  (forall x, x < length h -> Values h' x = Values h x).
Proof.
  intros Ha He. destruct (AddLexicalScope h e vs) as [s h'] eqn:E.
  pose proof (acyclic_AddLexicalScope h e vs Ha He) as Ha'.
  pose proof (Values_AddLexicalScope h e vs Ha He) as HV. rewrite E in Ha', HV.
  cbn [fst snd] in *. split; [done|]. split; [done|].
  unfold AddLexicalScope in E. destruct (decide (vs = ∅)) as [Hvs|Hvs].
  - injection E as <- <-. done.
  - unfold alloc in E. injection E as <- <-. split; [split; [lia|done]|].
    intros x Hx. by apply Values_alloc.
Qed.

(** The global environment of a job adds the requested log level to the
    inherited variables, in a new object whose mutations the inherited
    environment does not see; a level that is not supported is an error. *)
Theorem GlobalEnvironment_spec h p jobVars :
  acyclic h -> p < length h ->
  match GlobalEnvironment h p jobVars with
  | Ok (e, h') =>
      requested_level h p jobVars ∈ log_levels /\ acyclic h' /\
      Values h' e = <[LogLevelEnvName := requested_level h p jobVars]> (Values h p) /\
      (forall m, m < length h' -> ~ reaches h' m e ->
         Values (Mutate h' e (Some m)) p = Values h p)
  | Err err =>
      (requested_level h p jobVars ∉ log_levels) /\
      Error err = ("init global environment: log level: " +:+ requested_level h p jobVars
                   +:+ " not supported")
  | _ => False
  end.
Proof.
  intros Ha Hp. destruct (GlobalEnvironment h p jobVars) as [[e h']|err| |] eqn:E.
  - destruct (GlobalEnvironment_Ok h p jobVars e h' Ha Hp E)
      as (Hl & Ha' & -> & Hlen & _ & Hold & HV).
    split; [done|]. split; [done|]. split; [done|]. intros m Hm Hr.
    assert (forall y, reaches h p y -> y < length h) as Hb by (intros; by eapply reaches_below).
    assert (forall x, x <= length h -> x < length h') as Hx by lia.
    assert (Values h' p = Values h p) as HV'.
    { apply Values_agree; [done..|]. intros y Hy. apply Hold. auto. }
    rewrite <- HV'. unfold Mutate. destruct (_ =? 0)%nat; [done|].
    change (Values (mutated h' (S (length h)) m) p = Values h' p).
    assert (~ reaches h' p (S (length h))) as Hn.
    { intros Hrp. assert (forall x y, reaches h' x y -> x < length h -> y < length h) as Hcl.
      { induction 1 as [|x y z Hxy Hyz IH]; [done|]. intros Hx'. apply IH.
        destruct Hxy as (n & Hn & Hy). rewrite Hold in Hn by done.
        apply (proj1 Ha x). by exists n. }
      specialize (Hcl _ _ Hrp Hp). lia. }
    apply Values_mutated_other; [done| |lia|done].
    apply acyclic_mutated; [done|lia|done|done].
  - unfold GlobalEnvironment in E. rewrite logLevel_spec in E. cbv zeta in E.
    destruct (existsb _ _) eqn:Hl; cbn in E; [by destruct (AddLexicalScope _ _ _)|].
    injection E as <-. split; [|cbn; by rewrite string_app_nil_r].
    intros Hin. apply not_true_iff_false in Hl. apply Hl, existsb_exists.
    exists (requested_level h p jobVars). split; [by apply list_elem_of_In|apply String.eqb_refl].
  - unfold GlobalEnvironment in E. rewrite logLevel_spec in E. cbv zeta in E.
    destruct (existsb _ _); cbn in E; [by destruct (AddLexicalScope _ _ _)|done].
  - unfold GlobalEnvironment in E. rewrite logLevel_spec in E. cbv zeta in E.
    destruct (existsb _ _); cbn in E; [by destruct (AddLexicalScope _ _ _)|done].
Qed.
