(* ===== verification/Proto.v ===== *)
(** The messages of src/proto/step.proto the program exchanges and stores, as
    the generated Go structs hold them: a message field is an [option] where
    the code may find the nil pointer. *)

From stdpp Require Import gmap strings list.
From S2P Require Import Prelude Values.
Open Scope string_scope.

Module proto.

(** [enum StepReferenceProtocol] *)
Inductive StepReferenceProtocol :=
  | step_reference_protocol_unspecified | local | git | zip | oci | dist | dynamic | spec_def.

(** [enum DefinitionType] *)
Inductive DefinitionType := definition_type_unspecified | exec | steps.

(** [enum OutputMethod] *)
Inductive OutputMethod := output_method_unspecified | outputs | delegate.

(** [enum ValueType] *)
Inductive ValueType :=
  | value_type_unspecified | string_ | number | boolean | struct | array.

#[global] Instance protocol_eq_dec : EqDecision StepReferenceProtocol.
Proof. solve_decision. Defined.
#[global] Instance deftype_eq_dec : EqDecision DefinitionType.
Proof. solve_decision. Defined.
#[global] Instance method_eq_dec : EqDecision OutputMethod.
Proof. solve_decision. Defined.
#[global] Instance vtype_eq_dec : EqDecision ValueType.
Proof. solve_decision. Defined.

(** The [String()] methods protoc generates: the names of the values. *)
Definition ValueType_String (t : ValueType) : string :=
  match t with
  | value_type_unspecified => "value_type_unspecified"
  | string_ => "string"
  | number => "number"
  | boolean => "boolean"
  | struct => "struct"
  | array => "array"
  end.

Definition DefinitionType_String (t : DefinitionType) : string :=
  match t with
  | definition_type_unspecified => "definition_type_unspecified"
  | exec => "exec"
  | steps => "steps"
  end.

Definition StepReferenceProtocol_String (p : StepReferenceProtocol) : string :=
  match p with
  | step_reference_protocol_unspecified => "step_reference_protocol_unspecified"
  | local => "local"
  | git => "git"
  | zip => "zip"
  | oci => "oci"
  | dist => "dist"
  | dynamic => "dynamic"
  | spec_def => "spec_def"
  end.

(** [message Spec.Content.Input] *)
Record Spec_Content_Input := {
  Input_Type : ValueType;
  Input_Default : option value;
  Input_Sensitive : bool
}.

(** [message Spec.Content.Output] *)
Record Spec_Content_Output := {
  Output_Type : ValueType;
  Output_Default : option value;
  Output_Sensitive : bool
}.

(** [message Spec.Content] *)
Record Spec_Content := {
  Content_Inputs : gmap string Spec_Content_Input;
  Content_Outputs : gmap string Spec_Content_Output;
  Content_OutputMethod : OutputMethod
}.

(** [message Spec]; its content is never the nil pointer in this code. *)
Record Spec := { Spec_Spec : Spec_Content }.

(** [oneof step_path] of a reference. *)
Inductive StepPath := PathExp (e : string) | Paths (parts : list string).

(** [message Definition.Exec] *)
Record Definition_Exec := {
  Exec_Command : list string;
  Exec_WorkDir : string
}.

(** [message Step], [Step.Reference], [Definition] and [SpecDefinition] *)
Inductive Step := {
  Step_Name : string;
  Step_Step : option Step_Reference;
  Step_Env : gmap string string;
  Step_Inputs : gmap string value
}
with Step_Reference := {
  Ref_Protocol : StepReferenceProtocol;
  Ref_Url : string;
  Ref_Path : list string;
  Ref_Filename : string;
  Ref_Version : string;
  Ref_SpecDef : option SpecDefinition;
  Ref_StepPath : option StepPath
}
with Definition_ := {
  Def_Type : DefinitionType;
  Def_Exec : option Definition_Exec;
  Def_Steps : list Step;
  Def_Outputs : gmap string value;
  Def_Env : gmap string string;
  Def_Delegate : string
}
with SpecDefinition := {
  SpecDef_Spec : option Spec;
  SpecDef_Definition : option Definition_
}.

(** [enum StepResult.Status] *)
Inductive Status := unspecified | running | success | failure | cancelled.

#[global] Instance status_eq_dec : EqDecision Status.
Proof. solve_decision. Defined.

(** [message StepResult.ExecResult]; the exit code is an [int32]. *)
Record ExecResult := {
  ER_Command : list string;
  ER_WorkDir : string;
  ER_ExitCode : Z
}.

(** [message StepResult] *)
Inductive StepResult := {
  SR_Step : option Step;
  SR_SpecDefinition : option SpecDefinition;
  SR_Status : Status;
  SR_Outputs : gmap string value;
  SR_Exports : gmap string string;
  SR_Env : gmap string string;
  SR_ExecResult : option ExecResult;
  SR_SubStepResults : list StepResult
}.

(** [message Variable], [message Job] and [message RunRequest] *)
Record Variable_ := {
  Variable_Key : string;
  Variable_Value : string;
  Variable_File : bool;
  Variable_Masked : bool
}.

Record Job := {
  Job_Variables : list Variable_;
  Job_BuildDir : string
}.

Record RunRequest := {
  Request_Id : string;
  Request_WorkDir : string;
  Request_Env : gmap string string;
  Request_Job : option Job;
  Request_Steps : string
}.

(** [message Status]; a time that is not set is [None]. *)
Record JobStatus := {
  Status_Id : string;
  Status_Message : string;
  Status_Status : Status;
  Status_StartTime : option Z;
  Status_EndTime : option Z
}.

(** A reference with everything unset, [&proto.Step_Reference{}]. *)
Definition empty_Reference : Step_Reference := {|
  Ref_Protocol := step_reference_protocol_unspecified; Ref_Url := ""; Ref_Path := [];
  Ref_Filename := ""; Ref_Version := ""; Ref_SpecDef := None; Ref_StepPath := None |}.

(** A definition with everything unset, [&proto.Definition{}]. *)
Definition empty_Definition : Definition_ := {|
  Def_Type := definition_type_unspecified; Def_Exec := None; Def_Steps := [];
  Def_Outputs := ∅; Def_Env := ∅; Def_Delegate := "" |}.

End proto.
