(* ===== verification/Evolution.v ===== *)
(** How the environment objects evolve while a job runs: objects are allocated,
    and the global environment is extended with exported variables.  Every
    effect of the runner on the heap is such a step (RunnerFacts.v), so what is
    proved here of the steps holds throughout a run. *)

From stdpp Require Import gmap strings list fin_maps.
From S2P Require Import Prelude GoStrings Environment.
Open Scope go_scope.
Open Scope string_scope.
Open Scope list_scope.

(** One effect, where [g] is the global environment. *)
Inductive heap_step (g : loc) : env_heap -> env_heap -> Prop :=
  | step_alloc h n :
      (forall y, parent n = Some y \/ y ∈ mutations n -> y < length h) -> heap_step g h (h ++ [n])
  | step_export h m vs :
      h !! m = Some {| vars := vs; parent := None; mutations := [] |} -> m <> g -> g < length h ->
      heap_step g h (mutated h g m).

Definition evolves (g : loc) : env_heap -> env_heap -> Prop := rtc (heap_step g).

#[global] Instance evolves_preorder g : PreOrder (evolves g).
Proof. unfold evolves. apply _. Qed.

Lemma mutated_length h e m : length (mutated h e m) = length h.
Proof. apply length_alter. Qed.

Lemma leaf_reaches h m vs y :
  h !! m = Some {| vars := vs; parent := None; mutations := [] |} -> reaches h m y -> y = m.
Proof.
  intros Hm Hr. inversion Hr as [|x y' z (n & Hn & He) Hyz]; subst; [done|].
  rewrite Hm in Hn. injection Hn as <-. destruct He as [He|He]; [done|].
  by apply not_elem_of_nil in He.
Qed.

Lemma heap_step_acyclic g h h' : heap_step g h h' -> acyclic h -> acyclic h'.
Proof.
  intros [h0 n Hn|h0 m vs Hm Hne Hg] Ha; [by apply acyclic_alloc|].
  apply acyclic_mutated; [done..|by eapply lookup_lt_Some|].
  intros Hr. by apply (leaf_reaches h0 m vs g Hm) in Hr as ->.
Qed.

Lemma heap_step_length g h h' : heap_step g h h' -> length h <= length h'.
Proof. intros [h0 n _|h0 m vs _ _ _]; [rewrite length_app|rewrite mutated_length]; lia. Qed.

(** An object keeps its variables and its parent, and, unless it is the global
    environment, its mutations. *)
Lemma heap_step_object g h h' x n :
  heap_step g h h' -> h !! x = Some n ->
  exists n', h' !! x = Some n' /\ vars n' = vars n /\ parent n' = parent n /\
    (x <> g -> mutations n' = mutations n).
Proof.
  intros [h0 n0 _|h0 m vs _ _ _] Hx.
  - exists n. rewrite lookup_app_l by (by eapply lookup_lt_Some). done.
  - unfold mutated. destruct (decide (x = g)) as [->|Hne].
    + rewrite list_lookup_alter_eq, Hx. cbn. by eexists.
    + rewrite list_lookup_alter_ne by done. by exists n.
Qed.

(** Objects that do not lead to the global environment keep their values. *)
Lemma heap_step_other g h h' x :
  heap_step g h h' -> acyclic h -> x < length h -> ~ reaches h x g ->
  Values h' x = Values h x /\ ~ reaches h' x g.
Proof.
  intros Hs Ha Hx Hr. pose proof (heap_step_acyclic g h h' Hs Ha) as Ha'.
  assert (forall y, reaches h x y -> y < length h /\ ~ reaches h y g) as Hy.
  { intros y Hy. split; [by eapply reaches_below|]. intros Hyg. apply Hr. by trans y. }
  assert (forall a b, reaches h' a b -> reaches h x a -> reaches h x b) as Hback.
  { intros a b Hab. induction Hab as [|a b c Hab _ IH]; [done|]. intros Ha0. apply IH.
    destruct (Hy a Ha0) as [Hla Hga]. apply rtc_r with a; [done|].
    destruct Hs as [h0 n Hn|h0 m vs Hm Hne Hg].
    - apply edge_alloc in Hab as [Hab|[-> _]]; [done|lia].
    - apply edge_mutated in Hab as [Hab|[-> _]]; [done| |done]. destruct Hga. apply rtc_refl. }
  split; [|intros Hr'; apply Hr; apply (Hback x); [done|apply rtc_refl]].
  destruct Hs as [h0 n Hn|h0 m vs Hm Hne Hg].
  - by apply Values_alloc.
  - by apply Values_mutated_other.
Qed.

Section evolution.
  Context (g : loc).

Lemma evolves_step h h' : heap_step g h h' -> evolves g h h'.
Proof. apply rtc_once. Qed.

Lemma evolves_acyclic h h' : evolves g h h' -> acyclic h -> acyclic h'.
Proof. induction 1 as [|h h1 h2 Hs _ IH]; [done|]. intros Ha. apply IH. by eapply heap_step_acyclic. Qed.

Lemma evolves_length h h' : evolves g h h' -> length h <= length h'.
Proof. induction 1 as [|h h1 h2 Hs _ IH]; [done|]. apply heap_step_length in Hs. lia. Qed.

Lemma evolves_object h h' x n :
  evolves g h h' -> h !! x = Some n ->
  exists n', h' !! x = Some n' /\ vars n' = vars n /\ parent n' = parent n /\
    (x <> g -> mutations n' = mutations n).
Proof.
  intros He. revert n. induction He as [|h h1 h2 Hs _ IH]; intros n Hx; [by exists n|].
  destruct (heap_step_object g h h1 x n Hs Hx) as (n1 & H1 & Hv & Hp & Hm).
  destruct (IH n1 H1) as (n2 & H2 & Hv2 & Hp2 & Hm2). exists n2. split; [done|].
  split; [congruence|]. split; [congruence|]. intros Hne. rewrite Hm2, Hm; done.
Qed.

Lemma evolves_other h h' x :
  evolves g h h' -> acyclic h -> x < length h -> ~ reaches h x g -> Values h' x = Values h x.
Proof.
  induction 1 as [|h h1 h2 Hs _ IH]; [done|]. intros Ha Hx Hr.
  destruct (heap_step_other g h h1 x Hs Ha Hx Hr) as [<- Hr1].
  apply IH; [by eapply heap_step_acyclic| |done]. apply heap_step_length in Hs. lia.
Qed.

(** The variables of a scope are fixed: no later export changes what the scope
    and the scopes opened on it see of them. *)
Lemma evolves_scope_values h h' e n :
  evolves g h h' -> acyclic h -> h !! e = Some n -> e <> g -> mutations n = [] ->
  Values h' e = vars n ∪ from_option (Values h') ∅ (parent n).
Proof.
  intros He Ha Hn Hne Hm. destruct (evolves_object h h' e n He Hn) as (n' & Hn' & Hv & Hp & Hm').
  rewrite (Values_unfold h' e n' (evolves_acyclic h h' He Ha) Hn').
  rewrite Hm', Hm, Hv, Hp by done. done.
Qed.

(** Opening a scope, or allocating an environment, is an evolution. *)
Lemma evolves_AddLexicalScope h e vs : e < length h -> evolves g h (AddLexicalScope h e vs).2.
Proof.
  intros He. unfold AddLexicalScope. destruct (decide (vs = ∅)); [done|].
  apply evolves_step, step_alloc. cbn. intros y [[= <-]|Hy]; [done|]. by apply not_elem_of_nil in Hy.
Qed.

Lemma evolves_NewEnvironment h vs : evolves g h (NewEnvironment h vs).2.
Proof.
  apply evolves_step, step_alloc. cbn. intros y [?|Hy]; [done|]. by apply not_elem_of_nil in Hy.
Qed.

Lemma evolves_Mutate h m vs :
  h !! m = Some {| vars := vs; parent := None; mutations := [] |} -> m <> g -> g < length h ->
  evolves g h (Mutate h g (Some m)).
Proof.
  intros Hm Hne Hg. unfold Mutate. destruct (_ =? 0)%nat; [done|]. by apply evolves_step, (step_export _ _ _ vs).
Qed.

(** Allocations leave the objects that are there alone. *)
Lemma AddLexicalScope_values h e vs x :
  acyclic h -> e < length h -> x < length h -> Values (AddLexicalScope h e vs).2 x = Values h x.
Proof.
  intros Ha He Hx. pose proof (acyclic_AddLexicalScope h e vs Ha He) as Ha'.
  unfold AddLexicalScope in *. destruct (decide (vs = ∅)); [done|]. by apply Values_alloc.
Qed.

Lemma NewEnvironment_values h vs x :
  acyclic h -> x < length h -> Values (NewEnvironment h vs).2 x = Values h x.
Proof. intros Ha Hx. apply Values_alloc; [done| |done]. by apply acyclic_NewEnvironment. Qed.

(** What an export does to the values of the global environment. *)
Lemma Mutate_values h m vs :
  acyclic h -> h !! m = Some {| vars := vs; parent := None; mutations := [] |} -> m <> g -> g < length h ->
  Values (Mutate h g (Some m)) g = vs ∪ Values h g.
Proof.
  intros Ha Hm Hne Hg. assert (Values h m = vs) as Hv.
  { rewrite (Values_unfold h m _ Ha Hm). cbn. unfold Copy. apply (right_id_L ∅ _). }
  unfold Mutate, Len. rewrite Hv. destruct (Nat.eqb_spec (size vs) 0) as [Hz|Hz].
  { apply map_size_empty_inv in Hz as ->. by rewrite (left_id_L ∅ _). }
  pose proof (heap_step_acyclic g h _ (step_export g h m vs Hm Hne Hg) Ha) as Ha'.
  change (Values (mutated h g m) g = vs ∪ Values h g).
  rewrite Values_mutated by done. f_equal. rewrite <- Hv. apply Values_mutated_other; try done.
  - by eapply lookup_lt_Some.
  - intros Hr. by apply (leaf_reaches h m vs g Hm) in Hr as ->.
Qed.
End evolution.
