(* ===== verification/StepFile.v ===== *)
(** Step files (src/pkg/runner/step_file.go, error_ctx.go): reading the lines a
    step wrote to its output and export files. *)

From stdpp Require Import gmap strings list.
From S2P Require Import Prelude GoStrings Values Proto Environment.
Open Scope go_scope.
Open Scope string_scope.
Open Scope list_scope.

(** The files of the operating system, by path. *)
Abbreviation file_system := (gmap string string).

(** ** error_ctx.go *)

(** [type ErrorCtx struct] *)
Record ErrorCtx := {
  description : string;
  additionalCxt : string;
  logAdditionalCtx : bool
}.

(** [NewErrorCtx(description, additionalCxt)]; [debug] is [RunningInDebugMode]. *)
Definition NewErrorCtx (debug : bool) (descr additional : string) : ErrorCtx :=
  {| description := descr; additionalCxt := additional; logAdditionalCtx := debug |}.

(** [e.Errorf(message, v...)] without a wrapped error, the text of the message
    already formatted. *)
Definition Errorf (e : ErrorCtx) (message : string) : error :=
  if logAdditionalCtx e
  then NewError (message +:+ ", " +:+ description e +:+ ": " +:+ additionalCxt e)
  else NewError message.

(** [e.Errorf(message + "%w", v..., cause)] *)
Definition Errorf_wrap (e : ErrorCtx) (message : string) (cause : error) : error :=
  if logAdditionalCtx e
  then WrapError message cause (", " +:+ description e +:+ ": " +:+ additionalCxt e)
  else WrapError message cause "".

(** ** step_file.go *)

(** [type StepFileLine struct] *)
Record StepFileLine := {
  line_Name : option string;
  line_Value : option value
}.

(** What reading a step file asks of the rest of the system: the two JSON
    decoders (the values are decoded by the protobuf library), and the
    error of opening a file. *)
Class StepFileEnv := {
  UnmarshalLine : string -> res StepFileLine;
  UnmarshalStepResult : string -> res proto.StepResult;
  UnmarshalLine_decided line : decided (UnmarshalLine line) = true;
  UnmarshalStepResult_decided data : decided (UnmarshalStepResult data) = true;
  open_error : string -> error;
  RunningInDebugMode : bool
}.

Section step_file.
  Context `{SE : StepFileEnv} `{MR : MapRange}.

Definition lineErrMsg : string := "failed to unmarshal JSON at line".

(** The checks of one non-empty line: its entry. *)
Definition read_line (i : nat) (line : string) : res (string * value) :=
  let errCtx := NewErrorCtx RunningInDebugMode "line" line in
  let msg := lineErrMsg +:+ " " +:+ itoa (Z.of_nat i) +:+ ": " in
  match UnmarshalLine line with
  | Err e => Err (Errorf_wrap errCtx msg e)
  | Panic w => Panic w
  | OutOfFuel => OutOfFuel
  | Ok v =>
      match line_Name v with
      | None =>
          if negb (Contains line (dquote +:+ "name" +:+ dquote))
          then Err (Errorf errCtx (msg +:+ dquote +:+ "name" +:+ dquote +:+ " field is missing"))
          else Err (Errorf errCtx (msg +:+ dquote +:+ "name" +:+ dquote +:+ " field value is null"))
      | Some "" => Err (Errorf errCtx (msg +:+ dquote +:+ "name" +:+ dquote +:+ " field value is empty"))
      | Some name =>
          match line_Value v with
          | None =>
              if negb (Contains line (dquote +:+ "value" +:+ dquote))
              then Err (Errorf errCtx (msg +:+ dquote +:+ "value" +:+ dquote +:+ " field is missing"))
              else Err (Errorf errCtx (msg +:+ dquote +:+ "value" +:+ dquote +:+ " field value is null"))
          | Some x => Ok (name, x)
          end
      end
  end.

(** The loop over the scanner's lines, counted from 1. *)
Fixpoint read_lines (i : nat) (lines : list string) (out : gmap string value) :
    res (gmap string value) :=
  match lines with
  | [] => Ok out
  | line :: lines' =>
      if String.eqb line "" then read_lines (S i) lines' out
      else '(name, v) ← read_line i line; read_lines (S i) lines' (<[name := v]> out)
  end.

(** [s.ReadDotEnv()], where [Read] is [godotenv.Read]; nothing calls it. *)
Definition ReadDotEnv (Read : file_system -> string -> res (gmap string string)) (fs : file_system)
    (path : string) : res (gmap string string) :=
  Read fs path or_wrap "failed to read: ".

(** [s.ReadKeyValueLines()].  The scanner's error is not looked at. *)
Definition ReadKeyValueLines (fs : file_system) (path : string) : res (gmap string value) :=
  match fs !! path with
  | None => Err (WrapError ("opening file " +:+ path +:+ ": ") (open_error path) "")
  | Some content => read_lines 1 (scan_lines content).1 ∅
  end.

Definition ReadStepResult (fs : file_system) (path : string) : res proto.StepResult :=
  match fs !! path with
  | None => Err (WrapError ("reading file " +:+ path +:+ ": ") (open_error path) "")
  | Some data =>
      match UnmarshalStepResult data with
      | Err e =>
          Err (Errorf_wrap (NewErrorCtx RunningInDebugMode "output file data" data)
                 "reading output_file as a step result: " e)
      | r => r
      end
  end.

Definition structpbValueToTypeName (v : value) : string :=
  match v with
  | VBool _ => "boolean"
  | VList _ => "array"
  | VNumber _ => "number"
  | VString _ => "string"
  | VStruct _ => "struct"
  | VNull => "null"
  | VUnset => "unknown"
  end.

(** The body of the loop of [ReadEnvironment]. *)
Definition env_text (key : string) (v : value) : res string :=
  match v with
  | VBool b => Ok (FormatBool b)
  | VNumber n => Ok (FormatFloat n)
  | VString s => Ok s
  | _ => Err (NewError ("read env file: key " +:+ quote key +:+ ": cannot convert value type "
                        +:+ quote (structpbValueToTypeName v) +:+ " to string"))
  end.

(** [s.ReadEnvironment()]: the environment is allocated on the heap. *)
Definition ReadEnvironment (fs : file_system) (path : string) (h : env_heap) :
    res (loc * env_heap) :=
  outputs ← ReadKeyValueLines fs path or_wrap "read env file: ";
  env ← range_map env_text outputs;
  Ok (NewEnvironment h env).

Definition checkOutputType (want : proto.ValueType) (have : value) : res unit :=
  let wantType := proto.ValueType_String want in
  let haveType := structpbValueToTypeName have in
  if String.eqb wantType haveType then Ok tt
  else Err (NewError ("mismatched types, declared as " +:+ quote wantType
                      +:+ " in step specification and received from step as type " +:+ quote haveType)).

(** The body of the first loop of [ReadValues]. *)
Definition check_output (specOutputs : gmap string proto.Spec_Content_Output)
    (key : string) (v : value) : res unit :=
  let pre := "read output file: key " +:+ quote key +:+ ": " in
  match specOutputs !! key with
  | None => Err (NewError (pre +:+ "unexpected output, remove from step outputs or define in step specification"))
  | Some outputSpec => checkOutputType (proto.Output_Type outputSpec) v or_wrap pre
  end.

(** The second loop of [ReadValues], which fills in defaults. *)
Fixpoint add_defaults (specs : list (string * proto.Spec_Content_Output))
    (keyValues : gmap string value) : res (gmap string value) :=
  match specs with
  | [] => Ok keyValues
  | (name, o) :: specs' =>
      match keyValues !! name with
      | Some _ => add_defaults specs' keyValues
      | None =>
          match proto.Output_Default o with
          | Some d => add_defaults specs' (<[name := d]> keyValues)
          | None => Err (NewError ("read output file: key " +:+ quote name
                      +:+ ": missing output, add to step outputs or remove from step specification"))
          end
      end
  end.

Definition ReadValues (fs : file_system) (path : string)
    (specOutputs : gmap string proto.Spec_Content_Output) : res (gmap string value) :=
  keyValues ← ReadKeyValueLines fs path or_wrap "read output file: ";
  _ ← range_all (check_output specOutputs) keyValues;
  add_defaults (map_range specOutputs) keyValues.
End step_file.

(** ** What reading a file returns *)

(** The entry of one line, if reading it succeeds. *)
Definition line_entries `{StepFileEnv} (i : nat) (lines : list string) :
    res (list (string * value)) :=
  slice_map (fun '(j, line) => read_line j line)
    (filter (fun '(_, line) => line <> "") (imap (fun k line => (i + k, line)) lines)).

(** Later entries of a name win. *)
Definition last_wins {A} (entries : list (string * A)) (out : gmap string A) : gmap string A :=
  foldl (fun m '(k, v) => <[k := v]> m) out entries.

Lemma last_wins_lookup {A} (entries : list (string * A)) out k :
  last_wins entries out !! k =
  match list_find (fun '(k', _) => k' = k) (reverse entries) with
  | Some (_, (_, v)) => Some v
  | None => out !! k
  end.
Proof.
  induction entries as [|[k' v] entries IH] using rev_ind; [done|].
  unfold last_wins. rewrite foldl_app, reverse_snoc. cbn.
  destruct (decide (k' = k)) as [->|Hne].
  - rewrite lookup_insert_eq. done.
  - rewrite lookup_insert_ne by done. unfold last_wins in IH. rewrite IH.
    by destruct (list_find _ (reverse entries)) as [[? []]|].
Qed.

(** [s.ReadValues()] as one comparison of the file with the specification:
    outputs are declared and have the declared type, and a declared output is
    there or has a default. *)
Definition outputs_conform (specs : gmap string proto.Spec_Content_Output)
    (kv : gmap string value) : Prop :=
  (forall k v, kv !! k = Some v -> exists o, specs !! k = Some o /\
     proto.ValueType_String (proto.Output_Type o) = structpbValueToTypeName v) /\
  (forall k o, specs !! k = Some o -> is_Some (kv !! k) \/ is_Some (proto.Output_Default o)).

Section step_file_facts.
  Context `{SE : StepFileEnv} `{MR : MapRange}.

Lemma read_line_name i line k v : read_line i line = Ok (k, v) -> k <> "".
Proof.
  unfold read_line. destruct (UnmarshalLine line) as [[[[|c n]|] [x|]]| | |]; cbn;
    try destruct (negb _); naive_solver.
Qed.

Lemma read_lines_spec i lines out :
  read_lines i lines out = (es ← line_entries i lines; Ok (last_wins es out)).
Proof.
  revert i out. induction lines as [|line lines IH]; intros i out; [done|].
  cbn [read_lines]. unfold line_entries. rewrite imap_cons, Nat.add_0_r, filter_cons.
  replace (imap ((fun k l => (i + k, l)) ∘ S) lines) with (imap (fun k l => (S i + k, l)) lines)
    by (apply imap_ext; intros; cbn; f_equal; lia).
  destruct (String.eqb_spec line "") as [->|Hne].
  - rewrite decide_False by (cbn; auto). apply IH.
  - rewrite decide_True by done. cbn [slice_map].
    destruct (read_line i line) as [[k v]| | |]; cbn; try done.
    rewrite IH. unfold line_entries. cbn. by destruct (slice_map _ _).
Qed.

Lemma checkOutputType_Ok want v :
  checkOutputType want v = Ok tt <-> proto.ValueType_String want = structpbValueToTypeName v.
Proof.
  unfold checkOutputType. destruct (String.eqb_spec (proto.ValueType_String want)
    (structpbValueToTypeName v)); naive_solver.
Qed.

Lemma check_output_Ok specs k v :
  check_output specs k v = Ok tt <-> exists o, specs !! k = Some o /\
    proto.ValueType_String (proto.Output_Type o) = structpbValueToTypeName v.
Proof.
  unfold check_output. destruct (specs !! k) as [o|]; [|naive_solver].
  rewrite wrap_err_Ok, checkOutputType_Ok. naive_solver.
Qed.

Lemma add_defaults_Ok specs kv out :
  NoDup specs.*1 ->
  add_defaults specs kv = Ok out <->
  (forall k o, (k, o) ∈ specs -> is_Some (kv !! k) \/ is_Some (proto.Output_Default o)) /\
  out = kv ∪ omap proto.Output_Default (list_to_map specs).
Proof.
  revert kv. induction specs as [|[k o] specs IH]; cbn; intros kv Hnd.
  - rewrite omap_empty, (right_id_L ∅ _). split; [|naive_solver].
    intros [= ->]. split; [|done]. intros k o Hin. by apply not_elem_of_nil in Hin.
  - apply NoDup_cons in Hnd as [Hk Hnd].
    assert (list_to_map (M:=gmap string _) specs !! k = None) as Hl
      by (by apply not_elem_of_list_to_map_1).
    setoid_rewrite elem_of_cons. destruct (kv !! k) as [x|] eqn:Hkv.
    + rewrite IH by done. split.
      * intros [H1 ->]. split; [naive_solver|]. apply map_eq. intros j.
        rewrite !lookup_union, !lookup_omap. destruct (decide (j = k)) as [->|Hne].
        -- rewrite Hkv, Hl, lookup_insert_eq. cbn. by destruct (proto.Output_Default o).
        -- by rewrite lookup_insert_ne.
      * intros [H1 ->]. split; [naive_solver|]. apply map_eq. intros j.
        rewrite !lookup_union, !lookup_omap. destruct (decide (j = k)) as [->|Hne].
        -- rewrite Hkv, Hl, lookup_insert_eq. cbn. by destruct (proto.Output_Default o).
        -- by rewrite lookup_insert_ne.
    + destruct (proto.Output_Default o) as [d|] eqn:Hd.
      * rewrite IH by done. split.
        -- intros [H1 ->]. split.
           ++ intros k' o' [[= -> ->]|Hin]; [rewrite Hd; eauto|].
              destruct (H1 k' o' Hin) as [Hs|Hs]; [|by right].
              rewrite lookup_insert_ne in Hs; [by left|].
              intros ->. apply Hk. apply list_elem_of_fmap. by exists (k', o').
           ++ apply map_eq. intros j. rewrite !lookup_union, !lookup_omap.
              destruct (decide (j = k)) as [->|Hne].
              ** rewrite Hkv, Hl, !lookup_insert_eq. cbn. by rewrite Hd.
              ** by rewrite !lookup_insert_ne.
        -- intros [H1 ->]. split.
           ++ intros k' o' Hin. destruct (H1 k' o'); [by right| |by right].
              left. destruct (decide (k = k')) as [->|]; [rewrite lookup_insert_eq; eauto|].
              by rewrite lookup_insert_ne.
           ++ apply map_eq. intros j. rewrite !lookup_union, !lookup_omap.
              destruct (decide (j = k)) as [->|Hne].
              ** rewrite Hkv, Hl, !lookup_insert_eq. cbn. by rewrite Hd.
              ** by rewrite !lookup_insert_ne.
      * split; [done|]. intros [H1 _]. destruct (H1 k o) as [[? ?]|[? ?]]; [by left|congruence..].
Qed.

Lemma ReadValues_Ok fs path specs out :
  ReadValues fs path specs = Ok out <->
  exists kv, ReadKeyValueLines fs path = Ok kv /\ outputs_conform specs kv /\
    out = kv ∪ omap proto.Output_Default specs.
Proof.
  unfold ReadValues. rewrite bind_Ok. setoid_rewrite wrap_err_Ok.
  apply exist_proper. intros kv. apply and_iff_compat_l.
  rewrite bind_Ok. split.
  - intros ([] & Hc & Hd). apply range_all_Ok in Hc.
    apply add_defaults_Ok in Hd as [Hd ->]; [|apply map_range_NoDup]. split; [split|].
    + intros k v Hk. apply check_output_Ok. by apply Hc.
    + intros k o Ho. apply Hd. by apply elem_of_map_range.
    + f_equal. f_equal. rewrite (list_to_map_proper _ _ (map_range_NoDup specs) (map_range_perm _ specs)).
      apply list_to_map_to_list.
  - intros [[H1 H2] ->]. exists tt. split.
    + apply range_all_Ok. intros k v Hk. apply check_output_Ok. eauto.
    + apply add_defaults_Ok; [apply map_range_NoDup|]. split.
      * intros k o Hin%elem_of_map_range. eauto.
      * f_equal. f_equal. rewrite (list_to_map_proper _ _ (map_range_NoDup specs) (map_range_perm _ specs)).
        symmetry. apply list_to_map_to_list.
Qed.
End step_file_facts.

(** Reading is decided. *)
Section step_file_decided.
  Context `{SE : StepFileEnv} `{MR : MapRange}.

Lemma read_line_decided i line : decided (read_line i line) = true.
Proof.
  unfold read_line. pose proof (UnmarshalLine_decided line). destruct (UnmarshalLine line) as [[[[|]|] [|]]| | |];
    cbn in *; try destruct (negb _); done.
Qed.

Lemma ReadKeyValueLines_decided fs path : decided (ReadKeyValueLines fs path) = true.
Proof.
  unfold ReadKeyValueLines. destruct (fs !! path); [|done]. rewrite read_lines_spec.
  apply bind_decided; [|done]. apply slice_map_decided. intros [i line] _. apply read_line_decided.
Qed.

Lemma ReadStepResult_decided fs path : decided (ReadStepResult fs path) = true.
Proof.
  unfold ReadStepResult. destruct (fs !! path) as [d|]; [|done].
  pose proof (UnmarshalStepResult_decided d). by destruct (UnmarshalStepResult d).
Qed.

Lemma ReadEnvironment_decided fs path h : decided (ReadEnvironment fs path h) = true.
Proof.
  unfold ReadEnvironment. walk_decided; [apply ReadKeyValueLines_decided|by destruct v].
Qed.

Lemma ReadValues_decided fs path specs : decided (ReadValues fs path specs) = true.
Proof.
  unfold ReadValues. walk_decided; [apply ReadKeyValueLines_decided|..].
  - unfold check_output. destruct (specs !! k); [|done]. rewrite wrap_err_decided.
    unfold checkOutputType. by destruct (String.eqb _ _).
  - generalize a. induction (map_range specs) as [|[k o] l IH]; intros kv; [done|]. cbn.
    destruct (kv !! k); [done|]. by destruct (proto.Output_Default o).
Qed.
End step_file_decided.

(** ** Long lines *)

Lemma scan_go_cut cur n pre rest :
  (scan_go cur n (pre +:+ newline)).2 = false ->
  scan_go cur n (pre +:+ newline +:+ rest) =
  ((scan_go cur n (pre +:+ newline)).1 ++ (scan_lines rest).1, (scan_lines rest).2).
Proof.
  revert cur n. induction pre as [|c pre IH]; intros cur n; cbn [String.app scan_go].
  - cbn. unfold scan_lines. by destruct (scan_go "" 0 rest).
  - destruct (byte_of c =? 10)%N.
    + specialize (IH "" 0%N). destruct (scan_go "" 0 (pre +:+ newline)) as [ls e].
      cbn in *. intros He. by rewrite IH.
    + destruct (_ <? _)%N; [apply IH|done].
Qed.

Lemma scan_go_long cur n long rest :
  all_bytes (fun c => negb (byte_of c =? 10)%N) long = true ->
  (MaxScanTokenSize <= n + N.of_nat (String.length long))%N -> (n < MaxScanTokenSize)%N ->
  scan_go cur n (long +:+ rest) = ([], true).
Proof.
  revert cur n. induction long as [|c long IH]; intros cur n; cbn [all_bytes String.length].
  - lia.
  - intros [Hc Hl]%andb_true_iff Hn Hlt. cbn [String.app scan_go].
    apply negb_true_iff in Hc. rewrite Hc. destruct (N.ltb_spec (n + 1) MaxScanTokenSize); [|done].
    apply IH; [done|lia..].
Qed.

(** A file whose lines the scanner reads, followed by a line that fills the
    scanner's buffer. *)
Definition cut_short (pre long : string) : Prop :=
  (scan_lines (pre +:+ newline)).2 = false /\
  all_bytes (fun c => negb (byte_of c =? 10)%N) long = true /\
  (MaxScanTokenSize <= N.of_nat (String.length long))%N.

(** The value types a variable can be made of. *)
Definition env_convertible (v : value) : bool :=
  match v with VBool _ | VNumber _ | VString _ => true | _ => false end.

(** A string of [2 ^ n] bytes, for the concrete inputs below. *)
Fixpoint doubled (n : nat) (s : string) : string :=
  match n with O => s | S n => let d := doubled n s in d +:+ d end.

(** ** Properties *)

Section step_file_properties.
  Context `{SE : StepFileEnv} `{MR : MapRange}.

(** C39: reading the outputs of a step succeeds exactly when the file agrees with
    the specification: every line that is not blank is an entry, every entry
    is declared with the type of its value, every declared output is written or
    has a default; the result is the file's entries completed with the
    defaults.  The order in which the two maps are ranged over is irrelevant. *)
Theorem ReadValues_conforms fs path specs out :
  ReadValues fs path specs = Ok out <->
  exists kv, ReadKeyValueLines fs path = Ok kv /\ outputs_conform specs kv /\
    out = kv ∪ omap proto.Output_Default specs.
Proof. apply ReadValues_Ok. Qed.

(** Reading a step file returns, for every name, the value of the last line
    of that name; no name is empty; and the first line that is not an entry is
    the error. *)
Theorem ReadKeyValueLines_spec fs path content :
  fs !! path = Some content ->
  match line_entries 1 (scan_lines content).1 with
  | Ok es => exists out, ReadKeyValueLines fs path = Ok out /\ out !! "" = None /\
      forall k, out !! k = snd ∘ snd <$> list_find (fun '(k', _) => k' = k) (reverse es)
  | r => ReadKeyValueLines fs path = (es ← r; Ok (last_wins es ∅))
  end.
Proof.
  intros Hc. unfold ReadKeyValueLines. rewrite Hc, read_lines_spec.
  destruct (line_entries _ _) as [es| | |] eqn:E; try done.
  assert (forall k, last_wins es ∅ !! k =
    snd ∘ snd <$> list_find (fun '(k', _) => k' = k) (reverse es)) as Hl.
  { intros k. rewrite last_wins_lookup, lookup_empty. by destruct (list_find _ _) as [[? []]|]. }
  eexists. split; [done|]. split; [|done]. rewrite Hl.
  destruct (list_find _ (reverse es)) as [[j [k v]]|] eqn:Hf; [|done]. exfalso.
  apply list_find_Some in Hf as (Hj & -> & _). apply list_elem_of_lookup_2 in Hj.
  rewrite elem_of_reverse in Hj. unfold line_entries in E. apply slice_map_Ok in E.
  apply list_elem_of_lookup_1 in Hj as [i Hi].
  destruct (Forall2_lookup_r _ _ _ _ _ E Hi) as ([n line] & _ & Hr).
  by apply read_line_name in Hr.
Qed.

(** A line that fills the scanner's buffer ends the file: it and everything
    after it are dropped and no error is reported, since the scanner's error is
    never looked at. *)
Lemma long_line_drops_the_rest fs fs' path pre long rest :
  fs !! path = Some (pre +:+ newline +:+ long +:+ rest) -> fs' !! path = Some (pre +:+ newline) ->
  cut_short pre long ->
  ReadKeyValueLines fs path = ReadKeyValueLines fs' path /\
  (scan_lines (pre +:+ newline +:+ long +:+ rest)).2 = true.
Proof.
  intros H1 H2 (Hpre & Hl & Hn). unfold ReadKeyValueLines. rewrite H1, H2. unfold scan_lines.
  rewrite scan_go_cut by done. unfold scan_lines. rewrite (scan_go_long "" 0 long rest); [|done|lia|unfold MaxScanTokenSize; lia].
  cbn. by rewrite (right_id_L [] _).
Qed.

(** The exported environment of a step.  The entries of the file become
    variables, booleans and numbers as text, in a new environment that leaves
    the others as they are; a value of another type is an error. *)
Theorem ReadEnvironment_spec fs path h kv :
  acyclic h -> ReadKeyValueLines fs path = Ok kv ->
  (is_ok (ReadEnvironment fs path h) = true <->
     map_Forall (fun _ v => env_convertible v = true) kv) /\
  (forall e h', ReadEnvironment fs path h = Ok (e, h') ->
     acyclic h' /\
     (forall k, match kv !! k, Values h' e !! k with
                | Some v, Some s => env_text k v = Ok s
                | None, None => True
                | _, _ => False
                end) /\
     (forall x, x < length h -> Values h' x = Values h x)).
Proof.
  intros Ha Hkv. unfold ReadEnvironment. rewrite Hkv. cbn [wrap_err mbind res_bind]. split.
  - trans (is_ok (range_map env_text kv) = true); [by destruct (range_map _ _)|].
    rewrite range_map_is_ok. split; intros H k v Hk; specialize (H k v Hk); by destruct v.
  - intros e h' (env & Henv & Hn)%bind_Ok.
    pose proof (acyclic_NewEnvironment h env Ha) as Ha'.
    pose proof (Values_NewEnvironment h env Ha) as HV.
    unfold NewEnvironment, alloc in *. cbn [fst snd] in *. injection Hn as <- <-.
    split; [done|]. split.
    + intros k. rewrite HV. by apply range_map_lookup.
    + intros x Hx. by apply Values_alloc.
Qed.
End step_file_properties.
