(* ===== verification/ShortReference.v ===== *)
(** Short step references (src/schema/v1/short_reference.go): the strings that
    name a local, distributed, remote or dynamic step. *)

From stdpp Require Import gmap strings list.
From S2P Require Import Prelude GoStrings GoPaths Values Proto.
Open Scope go_scope.
Open Scope string_scope.
Open Scope list_scope.

Definition distPrefix : string := "dist://".

(** [containsExpressionRe.MatchString(s)] for the expression [\${{.*}}], whose dot
    does not match a newline. *)
Fixpoint containsExpressionRe (s : string) : bool :=
  match s with
  | "" => false
  | String _ s' =>
      match cut_prefix "${{" s with
      | Some r => Contains (Cut r newline).1.1 "}}"
      | None => false
      end || containsExpressionRe s'
  end.

Definition defaultHTTPS (stepUrl : string) : string :=
  if HasPrefix stepUrl "http://" || HasPrefix stepUrl "https://" then stepUrl
  else "https://" +:+ stepUrl.

(** [slices.DeleteFunc(path, func(value) { return value == "" })] *)
Definition delete_empty (path : list string) : list string := filter (fun v => v <> "") path.

(** [pathFilename(allowAbsolute, pathStr)] *)
Definition pathFilename (allowAbsolute : bool) (pathStr : string) : list string * string :=
  let filename := "step.yml" in
  if String.eqb pathStr "" then ([], filename)
  else
    let path := Split pathStr "/" in
    let last_item := List.last path "" in
    let '(path, filename) :=
      if HasSuffix last_item ".yml" then (List.removelast path, last_item) else (path, filename) in
    let path :=
      if allowAbsolute && HasPrefix pathStr "/"
      then match path with [] => [] | _ :: path' => "/" :: path' end
      else path in
    (delete_empty path, filename).

(** [shortReference.compileDist] *)
Definition compileDist (sr : string) : res proto.Step_Reference :=
  let stepDir := TrimPrefix sr distPrefix in
  Ok {| proto.Ref_Protocol := proto.dist; proto.Ref_Url := "";
        proto.Ref_Path := Split stepDir "/"; proto.Ref_Filename := "step.yml";
        proto.Ref_Version := ""; proto.Ref_SpecDef := None; proto.Ref_StepPath := None |}.

(** [shortReference.compileLocal] *)
Definition compileLocal (sr : string) : res proto.Step_Reference :=
  let '(path, filename) := pathFilename true sr in
  Ok {| proto.Ref_Protocol := proto.local; proto.Ref_Url := "";
        proto.Ref_Path := path; proto.Ref_Filename := filename;
        proto.Ref_Version := ""; proto.Ref_SpecDef := None; proto.Ref_StepPath := None |}.

(** [shortReference.compileRemote] *)
Definition compileRemote (sr : string) : res proto.Step_Reference :=
  let parts := Split sr "@" in
  if (length parts <? 2)%nat then Err (NewError ("expecting url@rev. got " +:+ quote sr))
  else
    let rest := Join (List.removelast parts) "@" in
    let rev := List.last parts "" in
    let '(url, rest, _) := Cut rest "/-/" in
    let url := defaultHTTPS url in
    let '(path, filename) := pathFilename false rest in
    Ok {| proto.Ref_Protocol := proto.git; proto.Ref_Url := url;
          proto.Ref_Path := "steps" :: path; proto.Ref_Filename := filename;
          proto.Ref_Version := rev; proto.Ref_SpecDef := None; proto.Ref_StepPath := None |}.

(** [shortReference.compile] *)
Definition compile_short (sr : string) : res proto.Step_Reference :=
  let value := TrimSpace sr in
  if containsExpressionRe sr then
    Ok {| proto.Ref_Protocol := proto.dynamic; proto.Ref_Url := sr;
          proto.Ref_Path := []; proto.Ref_Filename := ""; proto.Ref_Version := "";
          proto.Ref_SpecDef := None; proto.Ref_StepPath := None |}
  else if HasPrefix value "." || HasPrefix value "/" then compileLocal sr
  else if HasPrefix sr distPrefix then compileDist sr
  else compileRemote sr.

Definition CompileShortRef (value : string) : res proto.Step_Reference := compile_short value.

Example short_local : CompileShortRef "./a//b/my.yml" =
  Ok {| proto.Ref_Protocol := proto.local; proto.Ref_Url := ""; proto.Ref_Path := ["."; "a"; "b"];
        proto.Ref_Filename := "my.yml"; proto.Ref_Version := ""; proto.Ref_SpecDef := None;
        proto.Ref_StepPath := None |}.
Proof. reflexivity. Qed.
Example short_remote : CompileShortRef "gitlab.com/x/y/-/a@b@v1" =
  Ok {| proto.Ref_Protocol := proto.git; proto.Ref_Url := "https://gitlab.com/x/y";
        proto.Ref_Path := ["steps"; "a@b"]; proto.Ref_Filename := "step.yml";
        proto.Ref_Version := "v1"; proto.Ref_SpecDef := None; proto.Ref_StepPath := None |}.
Proof. reflexivity. Qed.

(** ** Lemmas on paths *)

Lemma Split_not_nil s sep : Split s sep <> [].
Proof. unfold Split. by destruct (split_go sep 0 s). Qed.

Lemma Join_cons2 x y l sep : Join (x :: y :: l) sep = x +:+ sep +:+ Join (y :: l) sep.
Proof. done. Qed.

(** Splitting a joined list gives the list back, when the separator is one byte
    that no element holds. *)
Lemma Split_Join (c : Ascii.ascii) l :
  l <> [] -> Forall (fun x => Contains x (String c "") = false) l ->
  Split (Join l (String c "")) (String c "") = l.
Proof.
  intros Hne Hl. induction Hl as [|x l Hx Hl IH]; [done|]. destruct l as [|y l].
  - by apply Split_no_sep.
  - rewrite Join_cons2, Split_cons by done. by rewrite IH.
Qed.

Lemma Split_elements (c : Ascii.ascii) s :
  Forall (fun x => Contains x (String c "") = false) (Split s (String c "")).
Proof.
  unfold Split. induction s as [|d s IH]; [by repeat constructor|].
  cbn [split_go String.length Nat.sub]. destruct (split_go _ 0 s) as [p ps].
  apply Forall_cons_1 in IH as [Hp Hps].
  destruct (HasPrefix (String d s) (String c "")) eqn:E; [by repeat constructor|].
  constructor; [|done]. cbn [Contains]. apply orb_false_iff. split; [|done].
  unfold HasPrefix in *. cbn [cut_prefix] in *. by destruct (Ascii.eqb c d).
Qed.

Lemma Join_app l1 l2 sep :
  l1 <> [] -> l2 <> [] -> Join (l1 ++ l2) sep = Join l1 sep +:+ sep +:+ Join l2 sep.
Proof.
  intros H1 H2. induction l1 as [|x l1 IH]; [done|]. destruct l1 as [|y l1].
  - by destruct l2.
  - cbn [app]. rewrite !Join_cons2. cbn [app] in IH. rewrite IH by done.
    by rewrite !string_app_assoc.
Qed.

Lemma Split_app (c : Ascii.ascii) a b :
  Split (a +:+ String c "" +:+ b) (String c "") = Split a (String c "") ++ Split b (String c "").
Proof.
  rewrite <- (Join_Split a (String c "")) at 1 by done.
  rewrite <- (Join_Split b (String c "")) at 1 by done.
  rewrite <- Join_app by apply Split_not_nil.
  apply Split_Join; [|apply Forall_app; split; apply Split_elements].
  intros H. apply app_eq_nil in H as [H _]. by apply Split_not_nil in H.
Qed.

Lemma foldl_delete_empty rooted stack l :
  foldl (clean_elem rooted) stack (delete_empty l) = foldl (clean_elem rooted) stack l.
Proof.
  revert stack. induction l as [|x l IH]; intros stack; [done|]. unfold delete_empty.
  destruct (decide (x = "")) as [->|Hx].
  - rewrite filter_cons_False by auto. apply IH.
  - rewrite filter_cons_True by done. apply IH.
Qed.

Lemma delete_empty_spec l x : x ∈ delete_empty l <-> x <> "" /\ x ∈ l.
Proof. unfold delete_empty. by rewrite list_elem_of_filter. Qed.

Lemma PathJoin_visible l : l <> [] -> Forall (fun x => x <> "") l -> PathJoin l = Clean (Join l "/").
Proof. intros Hne Hl. destruct Hl as [|x l Hx _]; [done|]. cbn. by destruct (String.eqb_spec x ""). Qed.

(** [Clean] looks only at the elements. *)
Lemma Clean_elements p q :
  HasPrefix p "/" = HasPrefix q "/" ->
  (forall r, foldl (clean_elem r) [] (Split p "/") = foldl (clean_elem r) [] (Split q "/")) ->
  Clean p = Clean q.
Proof. intros Hr Hf. unfold Clean, clean_elems. by rewrite Hr, Hf. Qed.

Lemma HasPrefix_slash c s : HasPrefix (String c s) "/" = Ascii.eqb "/" c.
Proof. unfold HasPrefix. cbn [cut_prefix]. by destruct (Ascii.eqb "/" c). Qed.

(** The first element tells whether the path is rooted. *)
Lemma Join_rooted x l : x <> "" -> Contains x "/" = false -> HasPrefix (Join (x :: l) "/") "/" = false.
Proof.
  intros Hx Hc. destruct x as [|c x]; [done|]. cbn [Contains] in Hc.
  apply orb_false_iff in Hc as [Hc _]. rewrite HasPrefix_slash in Hc.
  destruct l as [|y l]; [cbn [Join]; by rewrite HasPrefix_slash|].
  rewrite Join_cons2, string_app_cons. by rewrite HasPrefix_slash.
Qed.

Lemma Split_rooted s x l :
  Split s "/" = x :: l -> s <> "" -> HasPrefix s "/" = true -> x = "" /\ l <> [].
Proof.
  intros Hs Hne Hp. destruct s as [|c s]; [done|]. rewrite HasPrefix_slash in Hp.
  apply Ascii.eqb_eq in Hp as <-. pose proof (Split_app "/" "" s) as H.
  change ("" +:+ String "/" "" +:+ s) with (String "/" s) in H. rewrite H in Hs.
  cbn in Hs. injection Hs as <- <-. split; [done|]. apply Split_not_nil.
Qed.

Lemma Split_unrooted s x l :
  Split s "/" = x :: l -> s <> "" -> HasPrefix s "/" = false -> x <> "".
Proof.
  intros Hs Hne Hp ->. pose proof (Join_Split s "/" ltac:(done)) as HJ. rewrite Hs in HJ.
  destruct l as [|y l]; [done|]. rewrite Join_cons2 in HJ. subst s. change (HasPrefix (String "/" (Join (y :: l) "/")) "/" = false) in Hp. by rewrite HasPrefix_slash in Hp.
Qed.

(** The elements of a path after [init] and a name, without the empty ones. *)
Lemma Clean_delete_empty init file :
  Forall (fun x => Contains x "/" = false) init -> Contains file "/" = false -> file <> "" ->
  (match init with [] => True | x :: _ => x <> "" end) ->
  PathJoin (delete_empty init ++ [file]) = Clean (Join (init ++ [file]) "/").
Proof.
  intros Hi Hf Hne Hx.
  assert (Forall (fun x => x <> "" /\ Contains x "/" = false) (delete_empty init)) as Hd.
  { apply Forall_forall. intros y [Hy Hin]%delete_empty_spec. split; [done|].
    by eapply Forall_forall in Hi. }
  assert (Forall (fun x => x <> "") (delete_empty init ++ [file])) as Hv.
  { apply Forall_app. split; [eapply Forall_impl; [exact Hd|]; by intros ? [? ?]|by repeat constructor]. }
  assert (forall l, l ++ [file] <> []) as Hnn by (by intros [|? ?]).
  rewrite PathJoin_visible by done. apply Clean_elements.
  - assert (forall l, Forall (fun x => Contains x "/" = false) l ->
      match l with [] => True | x :: _ => x <> "" end ->
      HasPrefix (Join (l ++ [file]) "/") "/" = false) as H.
    { intros [|y l] Hl Hy; [by apply Join_rooted|]. apply Forall_cons_1 in Hl as [Hl _].
      by apply Join_rooted. }
    rewrite !H; [done..| |].
    + eapply Forall_impl; [exact Hd|]. by intros ? [? ?].
    + destruct (delete_empty init) as [|y l] eqn:E; [done|]. by apply Forall_cons_1 in Hd as [[? _] _].
  - intros r. rewrite !Split_Join; try done.
    + by rewrite !foldl_app, foldl_delete_empty.
    + apply Forall_app. split; [done|by repeat constructor].
    + apply Forall_app. split; [|by repeat constructor].
      eapply Forall_impl; [exact Hd|]. by intros ? [? ?].
Qed.

(** The same under the root. *)
Lemma Clean_delete_empty_rooted init file :
  Forall (fun x => Contains x "/" = false) init -> Contains file "/" = false -> file <> "" ->
  PathJoin ("/" :: delete_empty init ++ [file]) = Clean (Join ("" :: init ++ [file]) "/").
Proof.
  intros Hi Hf Hne.
  assert (Forall (fun x => x <> "" /\ Contains x "/" = false) (delete_empty init)) as Hd.
  { apply Forall_forall. intros y [Hy Hin]%delete_empty_spec. split; [done|].
    by eapply Forall_forall in Hi. }
  assert (forall l, exists y l', l ++ [file] = y :: l') as Hc by (intros [|y l]; cbn; eauto).
  rewrite PathJoin_visible; [|done|].
  2:{ constructor; [done|]. apply Forall_app. split; [|by repeat constructor].
      eapply Forall_impl; [exact Hd|]. by intros ? [? ?]. }
  assert (forall x, Join (x :: delete_empty init ++ [file]) "/" =
    x +:+ "/" +:+ Join (delete_empty init ++ [file]) "/") as HJ.
  { intros x. destruct (Hc (delete_empty init)) as (y & l' & ->). done. }
  assert (Join ("" :: init ++ [file]) "/" = "" +:+ "/" +:+ Join (init ++ [file]) "/") as HJ'.
  { destruct (Hc init) as (y & l' & ->). done. }
  apply Clean_elements; [by rewrite HJ, HJ', !string_app_cons, !HasPrefix_slash|].
  intros r. rewrite HJ, HJ'.
  change ("/" +:+ "/" +:+ Join (delete_empty init ++ [file]) "/")
    with ("" +:+ String "/" "" +:+ ("" +:+ String "/" "" +:+ Join (delete_empty init ++ [file]) "/")).
  rewrite (Split_app "/" "" ("" +:+ _)). rewrite !(Split_app "/" "").
  rewrite !Split_Join.
  - cbn [Split split_go app foldl clean_elem String.eqb orb].
    by rewrite !foldl_app, foldl_delete_empty.
  - by destruct init.
  - apply Forall_app. split; [done|by repeat constructor].
  - by destruct (delete_empty init).
  - apply Forall_app. split; [|by repeat constructor].
    eapply Forall_impl; [exact Hd|]. by intros ? [? ?].
Qed.

Lemma yml_not_empty s : HasSuffix s ".yml" = true -> s <> "".
Proof. by intros H ->. Qed.

Lemma removelast_last (l : list string) : l <> [] -> l = List.removelast l ++ [List.last l ""].
Proof. apply List.app_removelast_last. Qed.

(** Where a local reference leads: to its own path when it names a file, to
    the step file of its directory otherwise. *)
Definition local_target (sr : string) : string :=
  if HasSuffix (List.last (Split sr "/") "") ".yml" then Clean sr else PathJoin [sr; "step.yml"].

Lemma pathFilename_local sr :
  let '(path, filename) := pathFilename true sr in
  Forall (fun x => x <> "") path /\ filename <> "" /\
  PathJoin (path ++ [filename]) = local_target sr.
Proof.
  unfold pathFilename, local_target. destruct (String.eqb_spec sr "") as [->|Hne]; [by repeat constructor|].
  pose proof (Split_elements "/" sr) as Hel. pose proof (Split_not_nil sr "/") as Hnn.
  pose proof (Join_Split sr "/" ltac:(done)) as HJ.
  assert (forall l, Forall (fun x => x <> "") (delete_empty l)) as Hde.
  { intros l. apply Forall_forall. by intros x [? _]%delete_empty_spec. }
  destruct (HasSuffix (List.last (Split sr "/") "") ".yml") eqn:Hyml.
  - pose proof (yml_not_empty _ Hyml) as Hf. rewrite (removelast_last _ Hnn) in Hel, HJ.
    apply Forall_app in Hel as [Hel Hfl]. apply Forall_cons_1 in Hfl as [Hfl _].
    split; [apply Hde|]. split; [done|]. cbn [andb].
    rewrite <- (f_equal Clean HJ).
    destruct (HasPrefix sr "/") eqn:Hr.
    + destruct (Split sr "/") as [|x l] eqn:Es; [done|].
      destruct (Split_rooted sr x l Es Hne Hr) as [-> Hl].
      destruct l as [|y l]; [done|]. cbn [List.removelast].
      change (List.last ("" :: y :: l) "") with (List.last (y :: l) "") in *.
      change (List.removelast ("" :: y :: l)) with ("" :: List.removelast (y :: l)) in *.
      apply Forall_cons_1 in Hel as [_ Hel]. by apply Clean_delete_empty_rooted.
    + destruct (Split sr "/") as [|x l] eqn:Es; [done|].
      apply Clean_delete_empty; try done. destruct l as [|y l]; [done|].
      by apply (Split_unrooted sr x (y :: l)).
  - split; [apply Hde|]. split; [done|]. cbn [andb PathJoin].
    destruct (String.eqb_spec sr ""); [done|]. rewrite Join_cons2. cbn [Join].
    assert (sr +:+ "/" +:+ "step.yml" = Join (Split sr "/" ++ ["step.yml"]) "/") as ->.
    { rewrite Join_app by done. by rewrite HJ. }
    destruct (HasPrefix sr "/") eqn:Hr.
    + destruct (Split sr "/") as [|x l] eqn:Es; [done|].
      destruct (Split_rooted sr x l Es Hne Hr) as [-> Hl].
      apply Forall_cons_1 in Hel as [_ Hel]. by apply Clean_delete_empty_rooted.
    + apply Clean_delete_empty; try done. destruct (Split sr "/") as [|x l] eqn:Es; [done|].
      by apply (Split_unrooted sr x l).
Qed.

(** ** Lemmas on remote references *)

(** The first separator is the one written, when the text before it does not
    hold one, not even one that would end in the separator. *)
Lemma Cut_app a sep r :
  (forall x y z, a = x +:+ y -> y <> "" -> cut_prefix sep (y +:+ sep +:+ z) = None) ->
  Cut (a +:+ sep +:+ r) sep = (a, r, true).
Proof.
  intros H. unfold Cut. enough (cut_at sep (a +:+ sep +:+ r) = Some (a, r)) as -> by done.
  induction a as [|c a IH].
  - pose proof (cut_prefix_app sep r) as Hp. cbn [String.append].
    destruct (sep +:+ r) as [|d s] eqn:E; cbn [cut_at]; by rewrite Hp.
  - rewrite string_app_cons. cbn [cut_at].
    rewrite <- string_app_cons, (H "" (String c a)) by done. rewrite IH; [done|].
    intros x y z -> Hy. by apply (H (String c x) y).
Qed.

Lemma Contains_app_r a b sub : Contains b sub = true -> Contains (a +:+ b) sub = true.
Proof.
  rewrite !Contains_spec. intros (x & y & ->). exists (a +:+ x), y. by rewrite string_app_assoc.
Qed.

(** The condition for the separator of a remote reference. *)
Lemma Cut_remote url r :
  Contains (url +:+ "/-") "/-/" = false -> Cut (url +:+ "/-/" +:+ r) "/-/" = (url, r, true).
Proof.
  intros Hu. apply Cut_app. intros x y z -> Hy.
  destruct (cut_prefix "/-/" (y +:+ "/-/" +:+ z)) as [s|] eqn:E; [|done]. exfalso.
  assert (Contains (y +:+ "/-") "/-/" = true) as Hc.
  { apply cut_prefix_Some in E. destruct y as [|a [|b [|c y]]]; [done|..]; cbn in E; simplify_eq; done. }
  rewrite string_app_assoc, (Contains_app_r x _ _ Hc) in Hu. done.
Qed.

Lemma Split_last_at a rev :
  Contains rev "@" = false ->
  exists l, Split (a +:+ "@" +:+ rev) "@" = l ++ [rev] /\ l <> [] /\ Join l "@" = a.
Proof.
  intros Hr. exists (Split a "@"). rewrite Split_app, (Split_no_sep rev) by done.
  split; [done|]. split; [apply Split_not_nil|by apply Join_Split].
Qed.

Lemma compileRemote_at a rev :
  Contains rev "@" = false ->
  compileRemote (a +:+ "@" +:+ rev) =
  let '(url, rest, _) := Cut a "/-/" in
  let '(path, filename) := pathFilename false rest in
  Ok {| proto.Ref_Protocol := proto.git; proto.Ref_Url := defaultHTTPS url;
        proto.Ref_Path := "steps" :: path; proto.Ref_Filename := filename;
        proto.Ref_Version := rev; proto.Ref_SpecDef := None; proto.Ref_StepPath := None |}.
Proof.
  intros Hr. unfold compileRemote. destruct (Split_last_at a rev Hr) as (l & -> & Hl & HJ).
  rewrite length_app. replace (length l + length [rev] <? 2)%nat with false.
  2:{ symmetry. apply Nat.ltb_ge. destruct l; [done|]. cbn. lia. }
  rewrite List.removelast_last, List.last_last, HJ. done.
Qed.

(** A path of a repository: non-empty elements without slashes. *)
Definition path_elements (l : list string) : Prop :=
  Forall (fun x => x <> "" /\ Contains x "/" = false) l.

Lemma delete_empty_id l : path_elements l -> delete_empty l = l.
Proof.
  induction 1 as [|x l [Hx _] _ IH]; [done|].
  unfold delete_empty in *. rewrite filter_cons_True by done. by rewrite IH.
Qed.

Lemma path_elements_split l : l <> [] -> path_elements l -> Split (Join l "/") "/" = l.
Proof. intros Hne Hl. apply Split_Join; [done|]. eapply Forall_impl; [exact Hl|]. by intros ? [? ?]. Qed.

Lemma Join_not_empty l sep : l <> [] -> path_elements l -> Join l sep <> "".
Proof.
  intros Hne Hl. destruct Hl as [|x l [Hx _] _]; [done|]. destruct x as [|c x]; [done|].
  by destruct l.
Qed.

Lemma pathFilename_elements l :
  path_elements l ->
  pathFilename false (Join l "/") =
  if HasSuffix (List.last l "") ".yml" then (List.removelast l, List.last l "") else (l, "step.yml").
Proof.
  intros Hl. unfold pathFilename. destruct l as [|x l]; [done|].
  destruct (String.eqb_spec (Join (x :: l) "/") "") as [H|_]; [by apply Join_not_empty in H|].
  rewrite path_elements_split by done. destruct (HasSuffix _ _); cbn [andb].
  - f_equal. apply delete_empty_id. pose proof (removelast_last (x :: l) ltac:(done)) as E.
    rewrite E in Hl. by apply Forall_app in Hl as [Hl _].
  - f_equal. by apply delete_empty_id.
Qed.

(** ** Properties *)

(** A reference that starts with a dot or a slash, spaces aside. *)
Definition is_local (sr : string) : bool :=
  HasPrefix (TrimSpace sr) "." || HasPrefix (TrimSpace sr) "/".

Lemma compile_local sr :
  containsExpressionRe sr = false -> is_local sr = true -> CompileShortRef sr = compileLocal sr.
Proof. intros He Hl. unfold CompileShortRef, compile_short. unfold is_local in Hl. by rewrite He, Hl. Qed.

Lemma compile_remote sr :
  containsExpressionRe sr = false -> is_local sr = false -> HasPrefix sr distPrefix = false ->
  CompileShortRef sr = compileRemote sr.
Proof.
  intros He Hl Hd. unfold CompileShortRef, compile_short. unfold is_local in Hl. by rewrite He, Hl, Hd.
Qed.

(** A local reference compiles to a path without empty elements and a file
    name that, joined, denote the file the reference names, or the step file of
    the directory it names. *)
Theorem local_reference_denotes sr :
  containsExpressionRe sr = false -> is_local sr = true ->
  exists ref, CompileShortRef sr = Ok ref /\ proto.Ref_Protocol ref = proto.local /\
    Forall (fun x => x <> "") (proto.Ref_Path ref) /\ proto.Ref_Filename ref <> "" /\
    PathJoin (proto.Ref_Path ref ++ [proto.Ref_Filename ref]) = local_target sr.
Proof.
  intros He Hl. rewrite compile_local by done. unfold compileLocal.
  pose proof (pathFilename_local sr) as H. destruct (pathFilename true sr) as [path filename].
  eexists. by split.
Qed.

(** C30: a remote reference written [url/-/path@rev] compiles to the parts it was
    written from: the URL, with https:// when it has no scheme, the revision,
    and the path under the directory of steps, whose last element is the file
    name when it ends in .yml. *)
Theorem remote_reference_roundtrip url path rev :
  let sr := url +:+ "/-/" +:+ Join path "/" +:+ "@" +:+ rev in
  containsExpressionRe sr = false -> is_local sr = false -> HasPrefix sr distPrefix = false ->
  Contains (url +:+ "/-") "/-/" = false -> path_elements path -> Contains rev "@" = false ->
  let yml := HasSuffix (List.last path "") ".yml" in
  CompileShortRef sr = Ok {|
    proto.Ref_Protocol := proto.git; proto.Ref_Url := defaultHTTPS url;
    proto.Ref_Path := "steps" :: if yml then List.removelast path else path;
    proto.Ref_Filename := if yml then List.last path "" else "step.yml";
    proto.Ref_Version := rev; proto.Ref_SpecDef := None; proto.Ref_StepPath := None |}.
Proof.
  intros sr He Hl Hd Hu Hp Hr yml. rewrite compile_remote by done. subst sr.
  replace (url +:+ "/-/" +:+ Join path "/" +:+ "@" +:+ rev)
    with ((url +:+ "/-/" +:+ Join path "/") +:+ "@" +:+ rev) by (by rewrite !string_app_assoc).
  rewrite compileRemote_at, Cut_remote, pathFilename_elements by done. subst yml.
  by destruct (HasSuffix _ _).
Qed.

(** What a short reference is.  One with an expression is dynamic, one that
    starts with a dot or a slash is local, one with the dist scheme is in the
    distribution; any other is a Git reference and needs an @, its revision
    is what follows the last @, and it is the only kind that can be refused. *)
Theorem short_reference_protocol sr :
  match CompileShortRef sr with
  | Ok ref =>
      proto.Ref_Protocol ref =
        (if containsExpressionRe sr then proto.dynamic else if is_local sr then proto.local
         else if HasPrefix sr distPrefix then proto.dist else proto.git) /\
      (proto.Ref_Protocol ref = proto.git ->
         exists a, sr = a +:+ "@" +:+ proto.Ref_Version ref /\
           Contains (proto.Ref_Version ref) "@" = false) /\
      proto.Ref_SpecDef ref = None /\ proto.Ref_StepPath ref = None
  | Err e =>
      containsExpressionRe sr = false /\ is_local sr = false /\ HasPrefix sr distPrefix = false /\
      Contains sr "@" = false /\ e = NewError ("expecting url@rev. got " +:+ quote sr)
  | _ => False
  end.
Proof.
  unfold CompileShortRef, compile_short. fold (is_local sr).
  destruct (containsExpressionRe sr) eqn:He; [done|].
  destruct (is_local sr) eqn:Hl.
  { unfold compileLocal. by destruct (pathFilename true sr). }
  destruct (HasPrefix sr distPrefix) eqn:Hd; [done|].
  destruct (Contains sr "@") eqn:Hat.
  - destruct (String.eqb_spec sr "") as [->|Hne]; [done|].
    pose proof (Join_Split sr "@" ltac:(done)) as HJ. pose proof (Split_elements "@" sr) as Hel.
    pose proof (removelast_last _ (Split_not_nil sr "@")) as E.
    assert (List.removelast (Split sr "@") <> []) as Hl2.
    { intros Hz. rewrite Hz in E. rewrite E in HJ. cbn in HJ. rewrite E in Hel.
      apply Forall_cons_1 in Hel as [Hel _]. congruence. }
    set (a := Join (List.removelast (Split sr "@")) "@"). set (rev := List.last (Split sr "@") "") in *.
    assert (sr = a +:+ "@" +:+ rev) as Hsr.
    { rewrite <- HJ at 1. rewrite E at 1. by rewrite Join_app. }
    assert (Contains rev "@" = false) as Hrev.
    { rewrite E in Hel. apply Forall_app in Hel as [_ Hel]. by apply Forall_cons_1 in Hel as [? _]. }
    replace (compileRemote sr) with (compileRemote (a +:+ "@" +:+ rev)) by (by rewrite <- Hsr).
    rewrite compileRemote_at by done.
    destruct (Cut a "/-/") as [[url rest] ?]. destruct (pathFilename false rest).
    split; [done|]. split; [|done]. intros _. exists a. by split.
  - unfold compileRemote. by rewrite Split_no_sep.
Qed.
