(* ===== verification/Schema.v ===== *)
(** The step file format and its compiler (src/schema/v1): specifications with
    typed inputs and outputs, step definitions, references to steps, and their
    translation to the messages of Proto.v. *)

From stdpp Require Import gmap strings list fin_maps.
From S2P Require Import Prelude GoStrings GoPaths Values Proto ShortReference.
Open Scope go_scope.
Open Scope string_scope.
Open Scope list_scope.

Module schema.

(** ** Data *)

(** [type InputType string] and [type OutputType string] *)
Abbreviation InputType := string.
Abbreviation OutputType := string.
Definition InputTypeArray : InputType := "array".
Definition InputTypeBoolean : InputType := "boolean".
Definition InputTypeNumber : InputType := "number".
Definition InputTypeString : InputType := "string".
Definition InputTypeStruct : InputType := "struct".
Definition OutputTypeArray : OutputType := "array".
Definition OutputTypeBoolean : OutputType := "boolean".
Definition OutputTypeNumber : OutputType := "number".
Definition OutputTypeString : OutputType := "string".
Definition OutputTypeStruct : OutputType := "struct".

Definition enumValues_InputType : list string := ["string"; "number"; "boolean"; "struct"; "array"].
Definition enumValues_OutputType : list string := ["string"; "number"; "boolean"; "struct"; "array"].

(** [type Input struct] *)
Record Input := {
  Input_AdditionalProperties : any;
  Input_Default : any;
  Input_Sensitive : option bool;
  Input_Type : option InputType
}.

(** [type Output struct] *)
Record Output := {
  Output_Default : any;
  Output_Sensitive : option bool;
  Output_Type : option OutputType
}.

(** [type Exec struct] *)
Record Exec := {
  Exec_Command : list string;
  Exec_WorkDir : option string
}.

(** [type GitReference struct] *)
Record GitReference := {
  Git_Dir : option string;
  Git_Rev : string;
  Git_Url : string;
  Git_File : option string
}.

(** [type OCIReference struct] *)
Record OCIReference := {
  OCI_Registry : string;
  OCI_Repository : string;
  OCI_Tag : string;
  OCI_Dir : option string;
  OCI_File : option string
}.

(** [type Reference struct] *)
Record Reference := {
  Reference_Git : option GitReference;
  Reference_OCI : option OCIReference
}.

(** The dynamic values of the field [Outputs] of a signature, an [any]:
    nothing, a string, [*Outputs], the map it is decoded from, another type. *)
Inductive SignatureOutputs :=
  | SONil
  | SOString (s : string)
  | SOOutputs (o : gmap string Output)
  | SOMap (m : gmap string any)
  | SOOther (type : string).

(** [type Signature struct] *)
Record Signature := {
  Signature_Inputs : gmap string Input;
  Signature_Outputs : SignatureOutputs
}.

(** [type Spec struct] *)
Record Spec := { Spec_Spec : option Signature }.

(** The dynamic values of the field [Step] of a step, an [any]. *)
Inductive StepValue :=
  | SVNil
  | SVString (s : string)
  | SVReference (r : Reference)
  | SVProto (r : proto.Step_Reference)
  | SVMap (m : gmap string any)
  | SVOther (type : string).

(** [type Step struct] *)
Inductive Step := {
  Step_Action : option string;
  Step_Delegate : option string;
  Step_Env : gmap string string;
  Step_Exec : option Exec;
  Step_Inputs : gmap string any;
  Step_Name : option string;
  Step_Outputs : gmap string any;
  Step_Script : option string;
  Step_Step : StepValue;
  Step_Run : option (list Step)
}.

(** The verb [%T] of the two dynamic fields. *)
Definition SignatureOutputs_type (o : SignatureOutputs) : string :=
  match o with
  | SONil => "<nil>"
  | SOString _ => "string"
  | SOOutputs _ => "*schema.Outputs"
  | SOMap _ => "map[string]interface {}"
  | SOOther t => t
  end.

Definition StepValue_type (v : StepValue) : string :=
  match v with
  | SVNil => "<nil>"
  | SVString _ => "string"
  | SVReference _ => "*schema.Reference"
  | SVProto _ => "*proto.Step_Reference"
  | SVMap _ => "map[string]interface {}"
  | SVOther t => t
  end.

(** How the verb [%v] prints dynamic values, structs and pointers: package
    [fmt], and for pointers the address. *)
Class Format := {
  format_any : any -> string;
  format_input : Input -> string;
  format_output : Output -> string;
  format_pointer : option string -> string
}.

(** The update of the three fields [CompileStep] assigns. *)
Definition with_step (s : Step) (v : StepValue) (inputs : gmap string any) : Step := {|
  Step_Action := Step_Action s; Step_Delegate := Step_Delegate s; Step_Env := Step_Env s;
  Step_Exec := Step_Exec s; Step_Inputs := inputs; Step_Name := Step_Name s;
  Step_Outputs := Step_Outputs s; Step_Script := Step_Script s; Step_Step := v;
  Step_Run := Step_Run s |}.
Definition without_script (s : Step) : Step := {|
  Step_Action := Step_Action s; Step_Delegate := Step_Delegate s; Step_Env := Step_Env s;
  Step_Exec := Step_Exec s; Step_Inputs := Step_Inputs s; Step_Name := Step_Name s;
  Step_Outputs := Step_Outputs s; Step_Script := None; Step_Step := Step_Step s;
  Step_Run := Step_Run s |}.
Definition without_action (s : Step) : Step := {|
  Step_Action := None; Step_Delegate := Step_Delegate s; Step_Env := Step_Env s;
  Step_Exec := Step_Exec s; Step_Inputs := Step_Inputs s; Step_Name := Step_Name s;
  Step_Outputs := Step_Outputs s; Step_Script := Step_Script s; Step_Step := Step_Step s;
  Step_Run := Step_Run s |}.

(** ** Constructors of references *)

(** [NewGitReference(url, rev, options...)] *)
Definition NewGitReference (url rev : string) (options : list (GitReference -> GitReference)) :
    GitReference :=
  foldl (fun r opt => opt r)
    {| Git_Dir := None; Git_Rev := rev; Git_Url := url; Git_File := None |} options.

Definition GitRefDir (dir : string) (j : GitReference) : GitReference :=
  {| Git_Dir := Some dir; Git_Rev := Git_Rev j; Git_Url := Git_Url j; Git_File := Git_File j |}.

Definition NewOCIReference (registry repository tag : string) : OCIReference :=
  {| OCI_Registry := registry; OCI_Repository := repository; OCI_Tag := tag;
     OCI_Dir := None; OCI_File := None |}.

(** ** Values *)

(** [simplifyTypes] of [valueCompiler.compile] *)
Fixpoint simplifyTypes (v : any) : any :=
  match v with
  | AStringPtr (Some s) => AString s
  | AStepInputs m => AMap ((fix go m := match m with
                                        | [] => []
                                        | (k, x) :: m' => (k, simplifyTypes x) :: go m'
                                        end) m)
  | v => v
  end.

Section compile.
  Context `{SP : StructPB} `{MR : MapRange} `{FM : Format}.

(** [valueCompiler.compile] *)
Definition compile_value (v : any) : res value := NewValue (simplifyTypes v).

Definition is_nil (v : any) : bool := match v with ANil => true | _ => false end.

(** ** Inputs and outputs (inputs.go, outputs.go) *)

(** [Input.compileToProto] *)
Definition Input_compileToProto (i : Input) : res proto.Spec_Content_Input :=
  match Input_Type i with
  | None => Err (NewError "missing input type")
  | Some t =>
      type ← (if String.eqb t InputTypeBoolean then Ok proto.boolean
              else if String.eqb t InputTypeArray then Ok proto.array
              else if String.eqb t InputTypeNumber then Ok proto.number
              else if String.eqb t InputTypeString then Ok proto.string_
              else if String.eqb t InputTypeStruct then Ok proto.struct
              else Err (NewError ("unsupported input type: " +:+ format_pointer (Input_Type i))));
      default_ ← (if is_nil (Input_Default i) then Ok None
                  else Some <$> (compile_value (Input_Default i)
                         or_wrap ("compiling default " +:+ format_any (Input_Default i) +:+ ": ")));
      Ok {| proto.Input_Type := type; proto.Input_Default := default_;
            proto.Input_Sensitive := match Input_Sensitive i with Some true => true | _ => false end |}
  end.

(** The type of a value, when it is one of [t]'s values: the switches of
    [verifyDefaultValueMatchesType]. *)
Definition defaultType (t : string) (d : value) : option string :=
  if String.eqb t InputTypeBoolean then Some match d with VBool _ => InputTypeBoolean | _ => "" end
  else if String.eqb t InputTypeArray then Some match d with VList _ => InputTypeArray | _ => "" end
  else if String.eqb t InputTypeNumber then Some match d with VNumber _ => InputTypeNumber | _ => "" end
  else if String.eqb t InputTypeString then Some match d with VString _ => InputTypeString | _ => "" end
  else if String.eqb t InputTypeStruct then Some match d with VStruct _ => InputTypeStruct | _ => "" end
  else None.

(** [Input.verifyDefaultValueMatchesType] *)
Definition Input_verifyDefaultValueMatchesType (i : Input) (protoInput : proto.Spec_Content_Input) :
    res unit :=
  match is_nil (Input_Default i), proto.Input_Default protoInput, Input_Type i with
  | false, Some d, Some t =>
      match defaultType t d with
      | None => Err (NewError ("unsupported type: " +:+ format_pointer (Input_Type i)))
      | Some dt =>
          if String.eqb dt t then Ok tt
          else Err (NewError ("input type " +:+ format_pointer (Input_Type i)
                              +:+ " and default value type " +:+ dt +:+ " must match"))
      end
  | _, _, _ => Ok tt
  end.

(** [Input.compile] *)
Definition Input_compile (i : Input) : res proto.Spec_Content_Input :=
  protoInput ← Input_compileToProto i;
  _ ← Input_verifyDefaultValueMatchesType i protoInput;
  Ok protoInput.

(** [Output.compileToProto] *)
Definition Output_compileToProto (o : Output) : res proto.Spec_Content_Output :=
  match Output_Type o with
  | None => Err (NewError "missing output type")
  | Some t =>
      type ← (if String.eqb t OutputTypeBoolean then Ok proto.boolean
              else if String.eqb t OutputTypeArray then Ok proto.array
              else if String.eqb t OutputTypeNumber then Ok proto.number
              else if String.eqb t OutputTypeString then Ok proto.string_
              else if String.eqb t OutputTypeStruct then Ok proto.struct
              else Err (NewError ("unsupported output type: " +:+ format_pointer (Output_Type o))));
      default_ ← (if is_nil (Output_Default o) then Ok None
                  else Some <$> (compile_value (Output_Default o)
                         or_wrap ("compiling default " +:+ format_any (Output_Default o) +:+ ": ")));
      Ok {| proto.Output_Type := type; proto.Output_Default := default_;
            proto.Output_Sensitive := match Output_Sensitive o with Some true => true | _ => false end |}
  end.

(** [Output.verifyDefaultValueMatchesType] *)
Definition Output_verifyDefaultValueMatchesType (o : Output) (protoOutput : proto.Spec_Content_Output) :
    res unit :=
  match is_nil (Output_Default o), proto.Output_Default protoOutput, Output_Type o with
  | false, Some d, Some t =>
      match defaultType t d with
      | None => Err (NewError ("unsupported type: " +:+ format_pointer (Output_Type o)))
      | Some dt =>
          if String.eqb dt t then Ok tt
          else Err (NewError ("output type " +:+ format_pointer (Output_Type o)
                              +:+ " and default value type " +:+ dt +:+ " must match"))
      end
  | _, _, _ => Ok tt
  end.

(** [Output.compile] *)
Definition Output_compile (o : Output) : res proto.Spec_Content_Output :=
  protoOutput ← Output_compileToProto o;
  _ ← Output_verifyDefaultValueMatchesType o protoOutput;
  Ok protoOutput.

(** ** Specifications (spec.go) *)

Definition empty_Signature : Signature := {| Signature_Inputs := ∅; Signature_Outputs := SONil |}.

(** The body of the range over the inputs; the error of [v] is wrapped. *)
Definition compile_input (k : string) (v : Input) : res proto.Spec_Content_Input :=
  Input_compile v or_wrap ("compiling input[" +:+ quote k +:+ "]: " +:+ format_input v +:+ ": ").

(** The body of the range over the outputs. *)
Definition compile_output (k : string) (v : Output) : res proto.Spec_Content_Output :=
  Output_compile v or_wrap ("compiling input[" +:+ quote k +:+ "]: " +:+ format_output v +:+ ": ").

(** [spec.Compile()]: the receiver after the call, whose nil signature is
    replaced by an empty one, and the compiled message. *)
Definition Spec_Compile (spec : Spec) : Spec * res proto.Spec :=
  let sig := default empty_Signature (Spec_Spec spec) in
  ({| Spec_Spec := Some sig |},
   inputs ← range_map compile_input (Signature_Inputs sig);
   '(method, outputs) ←
     match Signature_Outputs sig with
     | SOString _ => Ok (proto.delegate, ∅)
     | SOOutputs o => outputs ← range_map compile_output o; Ok (proto.outputs, outputs)
     | SONil => Ok (proto.outputs, ∅)
     | o => Err (NewError ("unsupported type: " +:+ SignatureOutputs_type o))
     end;
   Ok {| proto.Spec_Spec := {| proto.Content_Inputs := inputs; proto.Content_Outputs := outputs;
                               proto.Content_OutputMethod := method |} |}).

(** ** References (reference.go) *)

(** [Reference.compileGit] *)
Definition compileGit (g : GitReference) : res proto.Step_Reference :=
  Ok {| proto.Ref_Protocol := proto.git; proto.Ref_Url := defaultHTTPS (Git_Url g);
        proto.Ref_Path := match Git_Dir g with Some dir => Split dir "/" | None => [] end;
        proto.Ref_Filename := default "step.yml" (Git_File g);
        proto.Ref_Version := Git_Rev g; proto.Ref_SpecDef := None; proto.Ref_StepPath := None |}.

(** [Reference.compileOCI]: a step definition that fetches the image and
    delegates to the step in it. *)
Definition compileOCI (o : OCIReference) (stepName : string) (inputs : gmap string value)
    (env : gmap string string) : res proto.Step_Reference :=
  let tag := if String.eqb (OCI_Tag o) "" then "latest" else OCI_Tag o in
  let dir := default "" (OCI_Dir o) in
  let filename := default "step.yml" (OCI_File o) in
  let fetchStepName := "fetch_step_" +:+ stepName in
  let fetch := {|
    proto.Step_Name := fetchStepName;
    proto.Step_Step := Some {|
      proto.Ref_Protocol := proto.dist; proto.Ref_Url := "";
      proto.Ref_Path := ["step"; "oci"; "fetch"]; proto.Ref_Filename := "step.yml";
      proto.Ref_Version := ""; proto.Ref_SpecDef := None; proto.Ref_StepPath := None |};
    proto.Step_Env := env;
    proto.Step_Inputs := list_to_map [
      ("registry", VString (OCI_Registry o)); ("repository", VString (OCI_Repository o));
      ("tag", VString tag); ("step_path", VString dir)] |} in
  let run := {|
    proto.Step_Name := stepName;
    proto.Step_Step := Some {|
      proto.Ref_Protocol := proto.local; proto.Ref_Url := ""; proto.Ref_Path := [];
      proto.Ref_Filename := filename; proto.Ref_Version := ""; proto.Ref_SpecDef := None;
      proto.Ref_StepPath :=
        Some (proto.PathExp ("${{steps." +:+ fetchStepName +:+ ".outputs.fetched_step_path}}")) |};
    proto.Step_Env := env;
    proto.Step_Inputs := inputs |} in
  Ok {| proto.Ref_Protocol := proto.spec_def; proto.Ref_Url := ""; proto.Ref_Path := [];
        proto.Ref_Filename := ""; proto.Ref_Version := "";
        proto.Ref_SpecDef := Some {|
          proto.SpecDef_Spec := Some {| proto.Spec_Spec := {|
            proto.Content_Inputs := ∅; proto.Content_Outputs := ∅;
            proto.Content_OutputMethod := proto.delegate |} |};
          proto.SpecDef_Definition := Some {|
            proto.Def_Type := proto.steps; proto.Def_Exec := None; proto.Def_Steps := [fetch; run];
            proto.Def_Outputs := ∅; proto.Def_Env := ∅; proto.Def_Delegate := stepName |} |};
        proto.Ref_StepPath := None |}.

(** [Reference.compile] *)
Definition Reference_compile (r : Reference) (stepName : string) (inputs : gmap string value)
    (env : gmap string string) : res proto.Step_Reference :=
  match Reference_Git r, Reference_OCI r with
  | None, None => Err (NewError "compiling reference: git or oci not specified")
  | Some _, Some _ => Err (NewError "compiling reference: git and oci specified")
  | Some g, None => compileGit g
  | None, Some o => compileOCI o stepName inputs env
  end.

(** ** Steps (step.go) *)

(** [s.verifyOneTypeProvided()] *)
Definition verifyOneTypeProvided (s : Step) : res unit :=
  let have := (match Step_Exec s with Some _ => 1 | None => 0 end
               + match Step_Run s with Some _ => 1 | None => 0 end)%Z in
  if (have =? 0)%Z then
    Err (NewError "at least one of `script, `action`, `run` or `exec` must be provided")
  else if (1 <? have)%Z then
    Err (NewError ("only one of `script`, `action`, `run` or `exec` may be provided. have " +:+ itoa have))
  else Ok tt.

(** A pointer to a string that is not empty. *)
Definition keyword (s : option string) : bool :=
  match s with Some t => negb (String.eqb t "") | None => false end.

Definition has_step (s : Step) : bool := match Step_Step s with SVNil => false | _ => true end.

(** [s.compileScriptKeywordToStep()]: the step after the call. *)
Definition compileScriptKeywordToStep (s : Step) : res Step :=
  if negb (keyword (Step_Script s)) then Ok s
  else if has_step s then
    Err (NewError "the `script` keyword cannot be used with the `step` keyword")
  else if keyword (Step_Action s) then
    Err (NewError "the `script` keyword cannot be used with the `action` keyword")
  else if negb (size (Step_Inputs s) =? 0)%nat then
    Err (NewError "the `script` keyword cannot be used with `inputs`")
  else
    Ok (without_script (with_step s
      (SVProto {| proto.Ref_Protocol := proto.dist; proto.Ref_Url := "";
                  proto.Ref_Path := ["script"]; proto.Ref_Filename := "step.yml";
                  proto.Ref_Version := ""; proto.Ref_SpecDef := None; proto.Ref_StepPath := None |})
      {["script" := AStringPtr (Step_Script s)]})).

(** [s.compileActionKeywordToStep()]: the step after the call. *)
Definition compileActionKeywordToStep (s : Step) : res Step :=
  if negb (keyword (Step_Action s)) then Ok s
  else if has_step s then
    Err (NewError "the `action` keyword cannot be used with the `step` keyword")
  else if keyword (Step_Script s) then
    Err (NewError "the `action` keyword cannot be used with the `script` keyword")
  else
    Ok (without_action (with_step s
      (SVReference {|
         Reference_Git := Some (NewGitReference "https://gitlab.com/components/action-runner" "main" []);
         Reference_OCI := None |})
      (<["action" := AStringPtr (Step_Action s)]>
         {["inputs" := AStepInputs (map_range (Step_Inputs s))]}))).

(** [s.compileToStepProto()] *)
Definition compileToStepProto (s : Step) : res proto.Step :=
  protoInputs ← range_map (fun _ v => compile_value v) (Step_Inputs s);
  let name := default "" (Step_Name s) in
  ref ← (match Step_Step s with
         | SVProto v => Ok v
         | SVString v => compile_short v
         | SVReference v => Reference_compile v name protoInputs (Step_Env s)
         | v => Err (NewError ("unsupported type: " +:+ StepValue_type v))
         end or_wrap "compiling reference: ");
  if bool_decide (proto.Ref_Protocol ref = proto.spec_def)
  then Ok {| proto.Step_Name := name; proto.Step_Step := Some ref; proto.Step_Env := Step_Env s;
             proto.Step_Inputs := ∅ |}
  else Ok {| proto.Step_Name := name; proto.Step_Step := Some ref; proto.Step_Env := Step_Env s;
             proto.Step_Inputs := protoInputs |}.

(** [s.CompileStep()] *)
Definition CompileStep (s : Step) : res proto.Step :=
  s ← compileScriptKeywordToStep s;
  s ← compileActionKeywordToStep s;
  compileToStepProto s.

(** The loop over [s.Run], from index [i]; each step is a copy. *)
Fixpoint compile_run (name : option string) (i : nat) (run : list Step) : res (list proto.Step) :=
  match run with
  | [] => Ok []
  | ss :: run' =>
      protoStep ← (CompileStep ss
        or_wrap ("compiling run[" +:+ itoa (Z.of_nat i) +:+ "]: " +:+ format_pointer name +:+ ": "));
      rest ← compile_run name (S i) run';
      Ok (protoStep :: rest)
  end.

(** The body of the range over [s.Outputs]. *)
Definition compile_step_output (name : option string) (k : string) (v : any) : res value :=
  compile_value v or_wrap ("compiling output[" +:+ quote k +:+ "]: " +:+ format_any v +:+ ": ").

(** [s.compileToDefinitionProto()] *)
Definition compileToDefinitionProto (s : Step) : res proto.Definition_ :=
  let delegate := default "" (Step_Delegate s) in
  match Step_Exec s, Step_Run s with
  | Some e, _ =>
      Ok {| proto.Def_Type := proto.exec;
            proto.Def_Exec := Some {| proto.Exec_Command := Exec_Command e;
                                      proto.Exec_WorkDir := default "" (Exec_WorkDir e) |};
            proto.Def_Steps := []; proto.Def_Outputs := ∅; proto.Def_Env := Step_Env s;
            proto.Def_Delegate := delegate |}
  | None, Some run =>
      steps ← compile_run (Step_Name s) 0 run;
      outputs ← range_map (compile_step_output (Step_Name s)) (Step_Outputs s);
      Ok {| proto.Def_Type := proto.steps; proto.Def_Exec := None; proto.Def_Steps := steps;
            proto.Def_Outputs := outputs; proto.Def_Env := Step_Env s;
            proto.Def_Delegate := delegate |}
  | None, None => Err (NewError "could not determine step type")
  end.

(** [s.Compile()] *)
Definition Compile (s : Step) : res proto.Definition_ :=
  _ ← verifyOneTypeProvided s;
  compileToDefinitionProto s.

End compile.
End schema.
