(* ===== verification/Decoding.v ===== *)
(** The hooks of the decoders of step files (src/schema/v1: the methods
    [UnmarshalJSON] and [UnmarshalYAML], and read.go): references, outputs and
    types are decoded from trees of JSON as [encoding/json] decodes a struct, and
    the dynamic fields of a file get the types the compiler looks for. *)

From Stdlib Require Import SpecFloat.
From stdpp Require Import gmap strings list fin_maps.
From S2P Require Import Prelude GoStrings Values Proto Schema.
Open Scope go_scope.
Open Scope string_scope.
Open Scope list_scope.

(** ** JSON *)

(** A JSON text, its numbers as [float64]s. *)
Inductive json :=
  | JNull
  | JBool (b : bool)
  | JNumber (f : spec_float)
  | JString (s : string)
  | JArray (l : list json)
  | JObject (m : list (string * json)).

Definition kind (j : json) : string :=
  match j with
  | JNull => "null"
  | JBool _ => "bool"
  | JNumber _ => "number"
  | JString _ => "string"
  | JArray _ => "array"
  | JObject _ => "object"
  end.

(** What a value decodes to in an [any]. *)
Fixpoint any_of_json (j : json) : any :=
  match j with
  | JNull => ANil
  | JBool b => ABool b
  | JNumber f => AFloat f
  | JString s => AString s
  | JArray l => ASlice (any_of_json <$> l)
  | JObject m => AMap ((fun kv => (kv.1, any_of_json kv.2)) <$> m)
  end.

(** What the package prints for a value of the wrong kind, and [json.Marshal] of
    the maps a YAML decoder makes. *)
Class JSON := {
  type_error : string -> string -> error;
  MarshalMap : gmap string any -> res json;
  MarshalMap_decided m : decided (MarshalMap m) = true
}.

(** The name of a field with the case of its letters folded; two letters outside
    ASCII fold to K and S. *)
Definition upper_byte (c : Ascii.ascii) : Ascii.ascii :=
  let n := byte_of c in if ((97 <=? n) && (n <=? 122))%N then Ascii.ascii_of_N (n - 32) else c.

Definition kelvin_sign : string := String "226"%char (String "132"%char (String "170"%char "")).
Definition long_s : string := String "197"%char (String "191"%char "").

Fixpoint fold_name (fuel : nat) (s : string) : string :=
  match fuel, s with
  | S n, String c s' =>
      match cut_prefix kelvin_sign s, cut_prefix long_s s with
      | Some rest, _ => String "K"%char (fold_name n rest)
      | _, Some rest => String "S"%char (fold_name n rest)
      | None, None => String (upper_byte c) (fold_name n s')
      end
  | _, _ => ""
  end.
Definition foldName (s : string) : string := fold_name (String.length s) s.

(** The field of a struct that a key is decoded to: the exact name, or the first
    one that is equal when case is ignored. *)
Definition field_of (fields : list string) (key : string) : option string :=
  if existsb (String.eqb key) fields then Some key
  else List.find (fun f => String.eqb (foldName f) (foldName key)) fields.

Definition has_key (m : list (string * json)) (key : string) : bool :=
  existsb (fun kv => String.eqb kv.1 key) m.

(** Decoding the entries of an object to a struct.  A value of the wrong kind is
    remembered, and decoding goes on; the first is the error in the end, unless an
    error of a field's own method ends the decoding before. *)
Fixpoint decode_fields {A} (fields : list string) (set : string -> json -> A -> res (A * option error))
    (m : list (string * json)) (a : A) (saved : option error) : res (A * option error) :=
  match m with
  | [] => Ok (a, saved)
  | (key, v) :: m' =>
      match field_of fields key with
      | None => decode_fields fields set m' a saved
      | Some f =>
          '(a, e) ← set f v a;
          decode_fields fields set m' a (match saved with Some _ => saved | None => e end)
      end
  end.

(** The end of [json.Unmarshal]. *)
Definition unmarshalled {A} (r : res (A * option error)) : res A :=
  '(a, saved) ← r;
  match saved with Some e => Err e | None => Ok a end.

Module decoding.

Section decoding.
  Context `{JS : JSON}.

(** Fields of the types [string], [*string] and [*bool]. *)
Definition set_string (v : json) (old : string) : string * option error :=
  match v with
  | JNull => (old, None)
  | JString s => (s, None)
  | _ => (old, Some (type_error (kind v) "string"))
  end.
Definition set_string_pointer (v : json) (old : option string) : option string * option error :=
  match v with
  | JNull => (None, None)
  | _ => let '(s, e) := set_string v (default "" old) in (Some s, e)
  end.
Definition set_bool_pointer (v : json) (old : option bool) : option bool * option error :=
  match v with
  | JNull => (None, None)
  | JBool b => (Some b, None)
  | _ => (Some (default false old), Some (type_error (kind v) "bool"))
  end.

(** The keys of [var raw map[string]interface{}]: nil for null. *)
Definition raw_map (j : json) : res (option (list (string * json))) :=
  match j with
  | JNull => Ok None
  | JObject m => Ok (Some m)
  | _ => Err (type_error (kind j) "map[string]interface {}")
  end.

(** [if _, ok := raw["f"]; raw != nil && !ok] for each of the fields. *)
Fixpoint require_fields (where_ : string) (fields : list string) (raw : option (list (string * json))) : res unit :=
  match fields with
  | [] => Ok tt
  | f :: fields' =>
      match raw with
      | Some m => if has_key m f then require_fields where_ fields' raw
                  else Err (NewError ("field " +:+ f +:+ " in " +:+ where_ +:+ ": required"))
      | None => Ok tt
      end
  end.

(** ** git_reference.go *)

Definition set_git (f : string) (v : json) (g : schema.GitReference) : res (schema.GitReference * option error) :=
  let '(Dir, Rev, Url, File_) := (schema.Git_Dir g, schema.Git_Rev g, schema.Git_Url g, schema.Git_File g) in
  let make Dir Rev Url File_ :=
    {| schema.Git_Dir := Dir; schema.Git_Rev := Rev; schema.Git_Url := Url; schema.Git_File := File_ |} in
  Ok (if String.eqb f "dir" then let '(x, e) := set_string_pointer v Dir in (make x Rev Url File_, e)
      else if String.eqb f "rev" then let '(x, e) := set_string v Rev in (make Dir x Url File_, e)
      else if String.eqb f "url" then let '(x, e) := set_string v Url in (make Dir Rev x File_, e)
      else let '(x, e) := set_string_pointer v File_ in (make Dir Rev Url x, e)).

Definition zero_git : schema.GitReference :=
  {| schema.Git_Dir := None; schema.Git_Rev := ""; schema.Git_Url := ""; schema.Git_File := None |}.

(** [j.UnmarshalJSON(b)] of [GitReference] *)
Definition GitReference_UnmarshalJSON (j : json) : res schema.GitReference :=
  raw ← raw_map j;
  _ ← require_fields "git" ["rev"; "url"] raw;
  unmarshalled (decode_fields ["dir"; "rev"; "url"; "file"] set_git (default [] raw) zero_git None).

(** ** oci_reference.go *)

Definition set_oci (f : string) (v : json) (o : schema.OCIReference) : res (schema.OCIReference * option error) :=
  let '(Registry, Repository, Tag, Dir, File_) :=
    (schema.OCI_Registry o, schema.OCI_Repository o, schema.OCI_Tag o, schema.OCI_Dir o, schema.OCI_File o) in
  let make Registry Repository Tag Dir File_ :=
    {| schema.OCI_Registry := Registry; schema.OCI_Repository := Repository; schema.OCI_Tag := Tag;
       schema.OCI_Dir := Dir; schema.OCI_File := File_ |} in
  Ok (if String.eqb f "registry" then
        let '(x, e) := set_string v Registry in (make x Repository Tag Dir File_, e)
      else if String.eqb f "repository" then
        let '(x, e) := set_string v Repository in (make Registry x Tag Dir File_, e)
      else if String.eqb f "tag" then let '(x, e) := set_string v Tag in (make Registry Repository x Dir File_, e)
      else if String.eqb f "dir" then
        let '(x, e) := set_string_pointer v Dir in (make Registry Repository Tag x File_, e)
      else let '(x, e) := set_string_pointer v File_ in (make Registry Repository Tag Dir x, e)).

Definition zero_oci : schema.OCIReference :=
  {| schema.OCI_Registry := ""; schema.OCI_Repository := ""; schema.OCI_Tag := "";
     schema.OCI_Dir := None; schema.OCI_File := None |}.

(** [j.UnmarshalJSON(b)] of [OCIReference] *)
Definition OCIReference_UnmarshalJSON (j : json) : res schema.OCIReference :=
  raw ← raw_map j;
  _ ← require_fields "oci" ["tag"; "registry"; "repository"] raw;
  unmarshalled (decode_fields ["registry"; "repository"; "tag"; "dir"; "file"] set_oci
                  (default [] raw) zero_oci None).

(** ** reference.go *)

(** A field of a pointer type with its own [UnmarshalJSON]: null is the nil
    pointer, and an error ends the decoding. *)
Definition set_pointer {A} (unmarshal : json -> res A) (v : json) : res (option A) :=
  match v with
  | JNull => Ok None
  | _ => x ← unmarshal v; Ok (Some x)
  end.

Definition set_reference (f : string) (v : json) (r : schema.Reference) : res (schema.Reference * option error) :=
  if String.eqb f "git" then
    git ← set_pointer GitReference_UnmarshalJSON v;
    Ok ({| schema.Reference_Git := git; schema.Reference_OCI := schema.Reference_OCI r |}, None)
  else
    oci ← set_pointer OCIReference_UnmarshalJSON v;
    Ok ({| schema.Reference_Git := schema.Reference_Git r; schema.Reference_OCI := oci |}, None).

Definition zero_reference : schema.Reference := {| schema.Reference_Git := None; schema.Reference_OCI := None |}.

(** [r.UnmarshalJSON(b)] of [Reference] *)
Definition Reference_UnmarshalJSON (j : json) : res schema.Reference :=
  raw ← raw_map j;
  let m := default [] raw in
  if has_key m "git" && has_key m "oci" then
    Err (NewError "cannot use both git: and oci: fields, please specify only one step location")
  else if negb (has_key m "git") && negb (has_key m "oci") then
    Err (NewError "field git: or oci: required")
  else unmarshalled (decode_fields ["git"; "oci"] set_reference m zero_reference None).

(** ** exec.go *)

(** A field of the type [[]string]; nil is [None]. *)
Definition set_strings (v : json) (old : option (list string)) : option (list string) * option error :=
  match v with
  | JNull => (None, None)
  | JArray l =>
      let decoded := (fun x => set_string x "") <$> l in
      (Some decoded.*1, foldr (fun x e => match x.2 with Some err => Some err | None => e end) None decoded)
  | _ => (old, Some (type_error (kind v) "[]string"))
  end.

Definition set_exec (f : string) (v : json) (e : option (list string) * option string) :
    res (option (list string) * option string * option error) :=
  Ok (if String.eqb f "command" then let '(x, err) := set_strings v e.1 in ((x, e.2), err)
      else let '(x, err) := set_string_pointer v e.2 in ((e.1, x), err)).

(** [j.UnmarshalJSON(b)] of [Exec] *)
Definition Exec_UnmarshalJSON (j : json) : res schema.Exec :=
  raw ← raw_map j;
  _ ← require_fields "Exec" ["command"] raw;
  plain ← unmarshalled (decode_fields ["command"; "work_dir"] set_exec (default [] raw) (None, None) None);
  match plain.1 with
  | Some [] => Err (NewError "field command length: must be >= 1")
  | command => Ok {| schema.Exec_Command := default [] command; schema.Exec_WorkDir := plain.2 |}
  end.

(** ** outputs.go and inputs.go *)

(** [fmt.Sprintf("%#v", values)] of strings in a slice of [any]. *)
Definition format_values (values : list string) : string :=
  "[]interface {}{" +:+ Join (quote <$> values) ", " +:+ "}".

(** [j.UnmarshalJSON(b)] of [InputType] and of [OutputType], by their values. *)
Definition Enum_UnmarshalJSON (enumValues : list string) (j : json) : res string :=
  match set_string j "" with
  | (_, Some e) => Err e
  | (v, None) =>
      if existsb (String.eqb v) enumValues then Ok v
      else Err (NewError ("invalid value (expected one of " +:+ format_values enumValues +:+ "): " +:+ quote v))
  end.
Definition InputType_UnmarshalJSON : json -> res string := Enum_UnmarshalJSON schema.enumValues_InputType.
Definition OutputType_UnmarshalJSON : json -> res string := Enum_UnmarshalJSON schema.enumValues_OutputType.

Definition set_output (f : string) (v : json) (o : schema.Output) : res (schema.Output * option error) :=
  let make Default Sensitive Type_ :=
    {| schema.Output_Default := Default; schema.Output_Sensitive := Sensitive; schema.Output_Type := Type_ |} in
  let '(Default, Sensitive, Type_) :=
    (schema.Output_Default o, schema.Output_Sensitive o, schema.Output_Type o) in
  if String.eqb f "default" then Ok (make (any_of_json v) Sensitive Type_, None)
  else if String.eqb f "sensitive" then
    let '(x, e) := set_bool_pointer v Sensitive in Ok (make Default x Type_, e)
  else
    t ← set_pointer OutputType_UnmarshalJSON v;
    Ok (make Default Sensitive t, None).

Definition zero_output : schema.Output :=
  {| schema.Output_Default := ANil; schema.Output_Sensitive := None; schema.Output_Type := None |}.

(** A value of the map of type [Outputs], with the error it leaves. *)
Definition decode_output (v : json) : res (schema.Output * option error) :=
  match v with
  | JNull => Ok (zero_output, None)
  | JObject m => decode_fields ["default"; "sensitive"; "type"] set_output m zero_output None
  | _ => Ok (zero_output, Some (type_error (kind v) "schema.Output"))
  end.

(** [json.Unmarshal(data, outputs)] into an empty map of type [Outputs]. *)
Fixpoint decode_outputs (m : list (string * json)) (out : gmap string schema.Output) (saved : option error) :
    res (gmap string schema.Output * option error) :=
  match m with
  | [] => Ok (out, saved)
  | (key, v) :: m' =>
      '(o, e) ← decode_output v;
      decode_outputs m' (<[key := o]> out) (match saved with Some _ => saved | None => e end)
  end.

Definition Unmarshal_Outputs (j : json) : res (gmap string schema.Output) :=
  match j with
  | JNull => Ok ∅
  | JObject m => unmarshalled (decode_outputs m ∅ None)
  | _ => Err (type_error (kind j) "schema.Outputs")
  end.

(** ** signature.go *)

Definition with_outputs (s : schema.Signature) (o : schema.SignatureOutputs) : schema.Signature :=
  {| schema.Signature_Inputs := schema.Signature_Inputs s; schema.Signature_Outputs := o |}.

(** [s.unmarshalOutputs()] *)
Definition unmarshalOutputs (s : schema.Signature) : res schema.Signature :=
  match schema.Signature_Outputs s with
  | schema.SONil => Ok s
  | schema.SOString v =>
      if negb (String.eqb v "delegate") then Err (NewError ("unsupported value: " +:+ v)) else Ok s
  | schema.SOMap v =>
      data ← MarshalMap v or_wrap "reifying outputs: ";
      outputs ← Unmarshal_Outputs data or_wrap "reifying outputs: ";
      Ok (with_outputs s (schema.SOOutputs outputs))
  | o => Err (NewError ("unsupported type: " +:+ schema.SignatureOutputs_type o))
  end.

(** ** step.go *)

Definition with_value (s : schema.Step) (v : schema.StepValue) : schema.Step :=
  schema.with_step s v (schema.Step_Inputs s).

(** [s.unmarshalStep()] *)
Definition unmarshalStep (s : schema.Step) : res schema.Step :=
  match schema.Step_Step s with
  | schema.SVNil => Ok s
  | schema.SVString _ => Ok s
  | schema.SVMap v =>
      data ← MarshalMap v or_wrap "reifying step: ";
      ref ← Reference_UnmarshalJSON data or_wrap "reifying step: ";
      Ok (with_value s (schema.SVReference ref))
  | v => Err (NewError ("unsupported type: " +:+ schema.StepValue_type v))
  end.

Definition with_run (s : schema.Step) (run : option (list schema.Step)) : schema.Step := {|
  schema.Step_Action := schema.Step_Action s; schema.Step_Delegate := schema.Step_Delegate s;
  schema.Step_Env := schema.Step_Env s; schema.Step_Exec := schema.Step_Exec s;
  schema.Step_Inputs := schema.Step_Inputs s; schema.Step_Name := schema.Step_Name s;
  schema.Step_Outputs := schema.Step_Outputs s; schema.Step_Script := schema.Step_Script s;
  schema.Step_Step := schema.Step_Step s; schema.Step_Run := run |}.

(** [s.UnmarshalYAML(value)]: the fields are decoded, and with them the sub-steps,
    each by its own method; then the hook is called. *)
Fixpoint Step_UnmarshalYAML (s : schema.Step) : res schema.Step :=
  run ← match schema.Step_Run s with
        | None => Ok None
        | Some steps =>
            (fix each (l : list schema.Step) : res (option (list schema.Step)) :=
               match l with
               | [] => Ok (Some [])
               | x :: l' => y ← Step_UnmarshalYAML x; ys ← each l'; Ok (Some (y :: default [] ys))
               end) steps
        end;
  unmarshalStep (with_run s run).

(** [s.UnmarshalYAML(value)] of a signature whose fields are decoded. *)
Definition Signature_UnmarshalYAML (s : schema.Signature) : res schema.Signature := unmarshalOutputs s.

(** [s.UnmarshalJSON(data)] of both: the fields are decoded by encoding/json, which
    calls the method of each sub-step, and then the same hooks are called. *)
Definition Step_UnmarshalJSON : schema.Step -> res schema.Step := Step_UnmarshalYAML.
Definition Signature_UnmarshalJSON : schema.Signature -> res schema.Signature := Signature_UnmarshalYAML.

(** [unmarshalSchema(input, &spec, &step)] (read.go), where [decode] decodes the two
    documents without the hooks. *)
Definition unmarshalSchema (decode : string -> res (schema.Spec * schema.Step)) (input : string) :
    res (schema.Spec * schema.Step) :=
  ('(spec, step) ← decode input;
   signature ← match schema.Spec_Spec spec with
               | None => Ok None
               | Some s => s ← Signature_UnmarshalYAML s; Ok (Some s)
               end;
   step ← Step_UnmarshalYAML step;
   Ok ({| schema.Spec_Spec := signature |}, step)) or_wrap "decoding: ".

(** [WriteSteps(spec, step)] (read.go), where the encoder appends each document to
    what is written. *)
Definition WriteSteps (Encode : schema.Spec + schema.Step -> string -> res string)
    (Close : string -> res string) (spec : schema.Spec) (step : schema.Step) : res string :=
  buf ← Encode (inl spec) "" or_wrap "encoding spec: ";
  buf ← Encode (inr step) buf or_wrap "encoding definition: ";
  Close buf or_wrap "closing: ".

(** ** Validation (validate.go) *)

Section validation.
  (** [yaml.Marshal], [yaml.Unmarshal] of any value, the compiled schemas and their
      method [Validate]. *)
  Context {Untyped JSONSchema : Type} (Marshal : schema.Spec + schema.Step -> res string)
    (Unmarshal : string -> res Untyped) (specSchema stepSchema : JSONSchema)
    (Validate : JSONSchema -> Untyped -> res unit).

(** [untype(v)] *)
Definition untype (v : schema.Spec + schema.Step) : res Untyped :=
  data ← Marshal v;
  Unmarshal data.

(** [validateSpec(spec)] and [validateStep(step)] *)
Definition validateSpec (spec : schema.Spec) : res unit :=
  untyped ← untype (inl spec);
  Validate specSchema untyped.
Definition validateStep (step : schema.Step) : res unit :=
  untyped ← untype (inr step);
  Validate stepSchema untyped.
End validation.

(** ** What decoding gives *)

(** The JSON of references, as [json.Marshal] writes it. *)
Definition encode_optional (key : string) (v : option string) : list (string * json) :=
  match v with Some s => [(key, JString s)] | None => [] end.

Definition encode_git (g : schema.GitReference) : json :=
  JObject (encode_optional "dir" (schema.Git_Dir g) ++
           [("rev", JString (schema.Git_Rev g)); ("url", JString (schema.Git_Url g))] ++
           encode_optional "file" (schema.Git_File g)).

Definition encode_oci (o : schema.OCIReference) : json :=
  JObject ([("registry", JString (schema.OCI_Registry o)); ("repository", JString (schema.OCI_Repository o));
            ("tag", JString (schema.OCI_Tag o))] ++
           encode_optional "dir" (schema.OCI_Dir o) ++ encode_optional "file" (schema.OCI_File o)).

Definition encode_pointer {A} (key : string) (encode : A -> json) (v : option A) : list (string * json) :=
  match v with Some x => [(key, encode x)] | None => [] end.

Definition encode_reference (r : schema.Reference) : json :=
  JObject (encode_pointer "git" encode_git (schema.Reference_Git r) ++
           encode_pointer "oci" encode_oci (schema.Reference_OCI r)).

Lemma git_roundtrip g : GitReference_UnmarshalJSON (encode_git g) = Ok g.
Proof. by destruct g as [[] ? ? []]. Qed.

Lemma oci_roundtrip o : OCIReference_UnmarshalJSON (encode_oci o) = Ok o.
Proof. by destruct o as [? ? ? [] []]. Qed.

Lemma set_pointer_git g : set_pointer GitReference_UnmarshalJSON (encode_git g) = Ok (Some g).
Proof.
  change ((x ← GitReference_UnmarshalJSON (encode_git g); Ok (Some x)) = Ok (Some g)).
  by rewrite git_roundtrip.
Qed.

Lemma set_pointer_oci o : set_pointer OCIReference_UnmarshalJSON (encode_oci o) = Ok (Some o).
Proof.
  change ((x ← OCIReference_UnmarshalJSON (encode_oci o); Ok (Some x)) = Ok (Some o)).
  by rewrite oci_roundtrip.
Qed.

(** References survive JSON: a reference to a Git repository or to an image is
    decoded from its encoding as it was; one that names both or neither is
    refused. *)
Theorem reference_roundtrip r :
  Reference_UnmarshalJSON (encode_reference r) =
  match schema.Reference_Git r, schema.Reference_OCI r with
  | Some _, Some _ =>
      Err (NewError "cannot use both git: and oci: fields, please specify only one step location")
  | None, None => Err (NewError "field git: or oci: required")
  | _, _ => Ok r
  end.
Proof.
  destruct r as [[g|] [o|]]; try done; cbn [schema.Reference_Git schema.Reference_OCI].
  - change (unmarshalled ('(a, e) ← (git ← set_pointer GitReference_UnmarshalJSON (encode_git g);
      Ok ({| schema.Reference_Git := git; schema.Reference_OCI := None |}, None)); Ok (a, e))
      = Ok {| schema.Reference_Git := Some g; schema.Reference_OCI := None |}).
    by rewrite set_pointer_git.
  - change (unmarshalled ('(a, e) ← (oci ← set_pointer OCIReference_UnmarshalJSON (encode_oci o);
      Ok ({| schema.Reference_Git := None; schema.Reference_OCI := oci |}, None)); Ok (a, e))
      = Ok {| schema.Reference_Git := None; schema.Reference_OCI := Some o |}).
    by rewrite set_pointer_oci.
Qed.

(** The dynamic fields of a decoded file. *)
Definition typed_value (s : schema.Step) : Prop :=
  match schema.Step_Step s with
  | schema.SVNil | schema.SVString _ | schema.SVReference _ => True
  | _ => False
  end.
Definition typed_outputs (s : schema.Signature) : Prop :=
  match schema.Signature_Outputs s with
  | schema.SONil | schema.SOOutputs _ => True
  | schema.SOString v => v = "delegate"
  | _ => False
  end.

Lemma unmarshalStep_Ok s s' :
  unmarshalStep s = Ok s' -> typed_value s' /\ schema.Step_Run s' = schema.Step_Run s.
Proof.
  unfold unmarshalStep, typed_value. destruct (schema.Step_Step s) eqn:E; try done.
  - intros [= <-]. by rewrite E.
  - intros [= <-]. by rewrite E.
  - intros (data & _ & H)%bind_Ok. apply bind_Ok in H as (r & _ & [= <-]). done.
Qed.

Lemma unmarshalOutputs_Ok s s' : unmarshalOutputs s = Ok s' -> typed_outputs s'.
Proof.
  unfold unmarshalOutputs, typed_outputs. destruct (schema.Signature_Outputs s) eqn:E; try done.
  - intros [= <-]. by rewrite E.
  - destruct (String.eqb_spec s0 "delegate") as [->|]; [|done]. intros [= <-]. by rewrite E.
  - intros (data & _ & H)%bind_Ok. apply bind_Ok in H as (r & _ & [= <-]). done.
Qed.

Lemma Step_UnmarshalYAML_typed s s' : Step_UnmarshalYAML s = Ok s' -> typed_value s'.
Proof.
  destruct s. cbn [Step_UnmarshalYAML]. intros (r & _ & H)%bind_Ok. by apply unmarshalStep_Ok in H as [Ht _].
Qed.

(** A decoded step and its sub-steps have typed values. *)
Lemma Step_UnmarshalYAML_Ok s s' :
  Step_UnmarshalYAML s = Ok s' ->
  typed_value s' /\ match schema.Step_Run s' with Some ss => Forall typed_value ss | None => True end.
Proof.
  intros H. split; [by eapply Step_UnmarshalYAML_typed|].
  destruct s as [a d env ex ins n outs sc v run]. cbn [Step_UnmarshalYAML schema.Step_Run] in H.
  apply bind_Ok in H as (r & Hr & H). apply unmarshalStep_Ok in H as [_ ->]. cbn [schema.Step_Run with_run].
  destruct run as [ss|]; [|by injection Hr as <-]. revert r Hr.
  induction ss as [|x ss IHss]; intros r Hr; [injection Hr as <-; constructor|].
  apply bind_Ok in Hr as (y & Hy & Hr). apply bind_Ok in Hr as (ys & Hys & [= <-]).
  constructor; [by eapply Step_UnmarshalYAML_typed|]. specialize (IHss _ Hys). by destruct ys.
Qed.

Lemma unmarshalSchema_Ok decode input spec st :
  unmarshalSchema decode input = Ok (spec, st) ->
  match schema.Spec_Spec spec with Some s => typed_outputs s | None => True end /\
  typed_value st /\ match schema.Step_Run st with Some ss => Forall typed_value ss | None => True end.
Proof.
  unfold unmarshalSchema. intros H%wrap_err_Ok. apply bind_Ok in H as ([spec0 st0] & _ & H).
  apply bind_Ok in H as (sig & Hs & H). apply bind_Ok in H as (st' & Hst & [= <- <-]).
  split; [|by eapply Step_UnmarshalYAML_Ok]. cbn. destruct (schema.Spec_Spec spec0) as [s|].
  - apply bind_Ok in Hs as (s' & Hs & [= <-]). by eapply unmarshalOutputs_Ok.
  - by injection Hs as <-.
Qed.
End decoding.
End decoding.
