(* ===== verification/SchemaFacts.v ===== *)
(** The compiler of step files is right: compiled specifications are well typed,
    definitions keep their steps in order, and the keywords and references that
    are translated away mean what they say. *)

From stdpp Require Import gmap strings list fin_maps.
From S2P Require Import Prelude GoStrings GoPaths Values Expression ExpressionFacts Environment Proto.
From S2P Require Import StepFile ShortReference Schema.
Open Scope go_scope.
Open Scope string_scope.
Open Scope list_scope.
Import schema.

(** Case analysis on a comparison of the string [t] with a literal. *)
Ltac case_string t :=
  match goal with |- context [String.eqb t ?x] => destruct (String.eqb_spec t x) as [->|_] end.

Section facts.
  Context `{SP : StructPB} `{MR : MapRange} `{FM : Format}.

(** ** Typed defaults *)

(** A declared type and the default of that type. *)
Definition well_typed (t : proto.ValueType) (d : option value) : Prop :=
  t <> proto.value_type_unspecified /\
  (forall v, d = Some v -> checkOutputType t v = Ok tt).

(** The message type a type name stands for. *)
Definition type_named (t : string) : option proto.ValueType :=
  if String.eqb t "boolean" then Some proto.boolean
  else if String.eqb t "array" then Some proto.array
  else if String.eqb t "number" then Some proto.number
  else if String.eqb t "string" then Some proto.string_
  else if String.eqb t "struct" then Some proto.struct
  else None.

Lemma type_named_String t vt : type_named t = Some vt -> proto.ValueType_String vt = t.
Proof.
  unfold type_named. repeat (case_string t; [intros H; injection H as <-; reflexivity|]). done.
Qed.

Lemma type_named_enum t : is_Some (type_named t) <-> t ∈ enumValues_InputType.
Proof.
  split.
  - intros [vt H]. rewrite <- (type_named_String t vt H).
    unfold type_named in H. unfold enumValues_InputType.
    repeat (destruct (String.eqb t _); [injection H as <-; cbn; set_solver|]). done.
  - unfold enumValues_InputType. intros H. repeat (apply elem_of_cons in H as [->|H]; [by eexists|]).
    by apply not_elem_of_nil in H.
Qed.

(** The default has the declared type exactly when the check of the outputs a
    step writes would accept it. *)
Lemma defaultType_spec t vt d :
  type_named t = Some vt ->
  exists dt, defaultType t d = Some dt /\
    String.eqb dt t = bool_decide (checkOutputType vt d = Ok tt).
Proof.
  unfold type_named, defaultType, InputTypeBoolean, InputTypeArray, InputTypeNumber,
    InputTypeString, InputTypeStruct.
  repeat (case_string t;
    [intros [= <-]; eexists; split; [reflexivity|by destruct d]|]). done.
Qed.

(** What compiling a declaration does: inputs and outputs share it. *)
Definition accepts (t : option string) (d : any) (vt : proto.ValueType) (pd : option value) : Prop :=
  (exists t', t = Some t' /\ type_named t' = Some vt) /\
  match pd with
  | None => is_nil d = true
  | Some v => is_nil d = false /\ compile_value d = Ok v /\ checkOutputType vt v = Ok tt
  end.

Lemma Input_compile_Ok i p :
  Input_compile i = Ok p <->
  accepts (Input_Type i) (Input_Default i) (proto.Input_Type p) (proto.Input_Default p) /\
  proto.Input_Sensitive p = default false (Input_Sensitive i).
Proof.
  unfold Input_compile, Input_compileToProto, Input_verifyDefaultValueMatchesType, accepts.
  destruct (Input_Type i) as [t|]; [|split; [done|naive_solver]].
  fold (type_named t).
  set (sw := if String.eqb t _ then _ else _).
  assert (sw = match type_named t with
               | Some vt => Ok vt
               | None => Err (NewError ("unsupported input type: " +:+ format_pointer (Some t)))
               end) as ->.
  { subst sw. unfold type_named, InputTypeBoolean, InputTypeArray, InputTypeNumber,
      InputTypeString, InputTypeStruct.
    repeat (destruct (String.eqb t _); [done|]). done. }
  destruct (type_named t) as [vt|] eqn:Ht; cbn; [|split; [done|naive_solver]].
  replace (match Input_Sensitive i with Some true => true | _ => false end)
    with (default false (Input_Sensitive i)) by (by destruct (Input_Sensitive i) as [[]|]).
  destruct (is_nil (Input_Default i)) eqn:Hn; cbn.
  - split; [intros [= <-]; cbn; split; [split; [eauto|done]|done]|].
    destruct p as [pt [pd|] ps]; cbn; [naive_solver|]. intros ((( ? & [= <-] & ?) & _) & ->).
    congruence.
  - destruct (compile_value (Input_Default i)) as [v| | |] eqn:Hv; cbn.
    2-4: split; [done|]; destruct p as [pt [pd|] ps]; cbn; naive_solver.
    destruct (defaultType_spec t vt v Ht) as (dt & -> & ->).
    case_bool_decide as Hc; cbn.
    + split; [intros [= <-]; cbn; split; [split; [eauto|done]|done]|].
      destruct p as [pt [pd|] ps]; cbn; [|naive_solver].
      intros (((? & [= <-] & ?) & _ & [= <-] & _) & ->). congruence.
    + split; [done|]. destruct p as [pt [pd|] ps]; cbn; naive_solver.
Qed.

Lemma Output_compile_Ok o p :
  Output_compile o = Ok p <->
  accepts (Output_Type o) (Output_Default o) (proto.Output_Type p) (proto.Output_Default p) /\
  proto.Output_Sensitive p = default false (Output_Sensitive o).
Proof.
  (* an output compiles as the input with the same declaration *)
  pose (i := {| Input_AdditionalProperties := ANil; Input_Default := Output_Default o;
                Input_Sensitive := Output_Sensitive o; Input_Type := Output_Type o |}).
  assert (forall q, Output_compile o = Ok q <->
    Input_compile i = Ok {| proto.Input_Type := proto.Output_Type q;
      proto.Input_Default := proto.Output_Default q;
      proto.Input_Sensitive := proto.Output_Sensitive q |}) as H.
  { intros [qt qd qs]. unfold Output_compile, Output_compileToProto,
      Output_verifyDefaultValueMatchesType, Input_compile, Input_compileToProto,
      Input_verifyDefaultValueMatchesType. subst i. cbn.
    unfold OutputTypeBoolean, OutputTypeArray, OutputTypeNumber, OutputTypeString, OutputTypeStruct,
      InputTypeBoolean, InputTypeArray, InputTypeNumber, InputTypeString, InputTypeStruct.
    destruct (Output_Type o) as [t|]; [|by split].
    repeat (destruct (String.eqb t _); cbn); try done.
    all: destruct (is_nil _); cbn; [split; congruence|].
    all: destruct (compile_value _); cbn; [|by split..].
    all: destruct (defaultType t _) as [dt|]; cbn; [|by split].
    all: destruct (String.eqb dt t); cbn; split; congruence. }
  rewrite H, Input_compile_Ok. done.
Qed.

(** The declaration [t], [d] compiles to a typed default. *)
Lemma accepts_well_typed t d vt pd : accepts t d vt pd -> well_typed vt pd.
Proof.
  intros [(t' & _ & Ht) Hd]. split.
  - intros ->. unfold type_named in Ht. by repeat destruct (String.eqb t' _).
  - intros v ->. apply Hd.
Qed.
(** ** Compiled specifications *)

(** What a declaration of a map and its compiled counterpart have to do with
    each other. *)
Definition compiled_entry {A B} (R : A -> B -> Prop) (a : option A) (b : option B) : Prop :=
  match a, b with
  | Some a, Some b => R a b
  | None, None => True
  | _, _ => False
  end.

Definition input_compiled (i : Input) (p : proto.Spec_Content_Input) : Prop :=
  accepts (Input_Type i) (Input_Default i) (proto.Input_Type p) (proto.Input_Default p) /\
  proto.Input_Sensitive p = default false (Input_Sensitive i).

Definition output_compiled (o : Output) (p : proto.Spec_Content_Output) : Prop :=
  accepts (Output_Type o) (Output_Default o) (proto.Output_Type p) (proto.Output_Default p) /\
  proto.Output_Sensitive p = default false (Output_Sensitive o).

(** The outputs a signature declares, and how they are produced. *)
Definition signature_outputs (sig : Signature) : option (proto.OutputMethod * gmap string Output) :=
  match Signature_Outputs sig with
  | SONil => Some (proto.outputs, ∅)
  | SOString _ => Some (proto.delegate, ∅)
  | SOOutputs o => Some (proto.outputs, o)
  | _ => None
  end.

Lemma range_compiled {A B} (R : A -> B -> Prop) (f : string -> A -> res B) m out :
  (forall k a b, f k a = Ok b <-> R a b) ->
  range_map f m = Ok out <-> forall k, compiled_entry R (m !! k) (out !! k).
Proof.
  intros HR. rewrite range_map_Ok. unfold compiled_entry. split; intros H k; specialize (H k);
    destruct (m !! k), (out !! k); try done.
  - by apply (HR k).
  - by apply HR.
Qed.

Lemma compile_input_Ok k i p : compile_input k i = Ok p <-> input_compiled i p.
Proof. unfold compile_input. by rewrite wrap_err_Ok, Input_compile_Ok. Qed.

Lemma compile_output_Ok k o p : compile_output k o = Ok p <-> output_compiled o p.
Proof. unfold compile_output. by rewrite wrap_err_Ok, Output_compile_Ok. Qed.

Lemma compiled_empty {A B} (R : A -> B -> Prop) (out : gmap string B) :
  (forall k, compiled_entry R ((∅ : gmap string A) !! k) (out !! k)) <-> out = ∅.
Proof.
  split; [|intros -> k; by rewrite !lookup_empty].
  intros H. apply map_eq. intros k. specialize (H k). rewrite lookup_empty in *. by destruct (out !! k).
Qed.

Lemma Spec_Compile_Ok spec p :
  (Spec_Compile spec).2 = Ok p <->
  let sig := default empty_Signature (Spec_Spec spec) in
  let c := proto.Spec_Spec p in
  (forall k, compiled_entry input_compiled (Signature_Inputs sig !! k) (proto.Content_Inputs c !! k)) /\
  exists method outs, signature_outputs sig = Some (method, outs) /\
    proto.Content_OutputMethod c = method /\
    (forall k, compiled_entry output_compiled (outs !! k) (proto.Content_Outputs c !! k)).
Proof.
  unfold Spec_Compile. cbn [snd]. set (sig := default empty_Signature (Spec_Spec spec)).
  destruct p as [[pi po pm]]. cbv zeta. cbn [proto.Spec_Spec proto.Content_Inputs
    proto.Content_Outputs proto.Content_OutputMethod].
  rewrite bind_Ok.
  setoid_rewrite (range_compiled input_compiled compile_input _ _ compile_input_Ok).
  unfold signature_outputs. split.
  - intros (ins & Hi & ([m outs] & Ho & [= <- <- <-])%bind_Ok). split; [done|].
    destruct (Signature_Outputs sig) as [|s|o|mm|ty]; try discriminate Ho.
    1,2: injection Ho as <- <-; eexists _, _; split; [done|]; split; [done|]; by apply compiled_empty.
    + apply bind_Ok in Ho as (outs' & Ho & [= <- <-]). eexists _, _. split; [done|]. split; [done|].
      by apply (range_compiled output_compiled compile_output _ _ compile_output_Ok).
  - intros (Hi & method & outs & Hs & <- & Ho). exists pi. split; [done|].
    destruct (Signature_Outputs sig) as [|s|o|mm|ty]; simplify_eq; cbn.
    1,2: by apply compiled_empty in Ho as ->.
    apply (range_compiled output_compiled compile_output _ _ compile_output_Ok) in Ho as ->. done.
Qed.

(** ** Keywords *)

Lemma compile_value_string s : utf8_valid s = true -> compile_value (AStringPtr (Some s)) = Ok (VString s).
Proof. apply NewValue_string. Qed.

Lemma keyword_Some o : keyword o = true -> exists s, o = Some s /\ s <> "".
Proof. destruct o as [s|]; [|done]. cbn. destruct (String.eqb_spec s ""); [done|eauto]. Qed.

(** The step that runs a script. *)
Definition script_reference : proto.Step_Reference := {|
  proto.Ref_Protocol := proto.dist; proto.Ref_Url := ""; proto.Ref_Path := ["script"];
  proto.Ref_Filename := "step.yml"; proto.Ref_Version := ""; proto.Ref_SpecDef := None;
  proto.Ref_StepPath := None |}.

(** The step that runs an action. *)
Definition action_reference : proto.Step_Reference := {|
  proto.Ref_Protocol := proto.git; proto.Ref_Url := "https://gitlab.com/components/action-runner";
  proto.Ref_Path := []; proto.Ref_Filename := "step.yml"; proto.Ref_Version := "main";
  proto.Ref_SpecDef := None; proto.Ref_StepPath := None |}.

(** The keywords of a step that cannot be combined. *)
Definition exclusive (s : Step) : bool :=
  match has_step s, keyword (Step_Script s), keyword (Step_Action s) with
  | true, false, false | false, true, false | false, false, true | false, false, false => true
  | _, _, _ => false
  end.

Lemma CompileStep_exclusive s p : CompileStep s = Ok p -> exclusive s = true.
Proof.
  unfold CompileStep. intros (s1 & H1 & (s2 & H2 & _)%bind_Ok)%bind_Ok. unfold exclusive.
  unfold compileScriptKeywordToStep in H1. unfold compileActionKeywordToStep in H2.
  destruct (keyword (Step_Script s)) eqn:Hs, (has_step s) eqn:Hst, (keyword (Step_Action s)) eqn:Ha;
    cbn in *; inv_ok; try done.
  all: rewrite ?Hs, ?Hst, ?Ha in H2; cbn in H2; done.
Qed.
End facts.

(** ** Properties *)

Section properties.
  Context `{SP : StructPB} `{MR : MapRange} `{FM : Format}.

(** C29: compiled specifications are well typed.  Compilation succeeds exactly
    when every input and output declares a known type and has no default or a
    default that converts to a value of that type; the compiled specification
    has the same names, and every default it holds passes the check that
    outputs written by a step have to pass.  The order of the ranges over the
    two maps is irrelevant. *)
Theorem Spec_Compile_well_typed spec p :
  ((Spec_Compile spec).2 = Ok p <->
    let sig := default empty_Signature (Spec_Spec spec) in
    let c := proto.Spec_Spec p in
    (forall k, compiled_entry input_compiled (Signature_Inputs sig !! k) (proto.Content_Inputs c !! k)) /\
    exists method outs, signature_outputs sig = Some (method, outs) /\
      proto.Content_OutputMethod c = method /\
      (forall k, compiled_entry output_compiled (outs !! k) (proto.Content_Outputs c !! k))) /\
  ((Spec_Compile spec).2 = Ok p ->
    map_Forall (fun _ i => well_typed (proto.Input_Type i) (proto.Input_Default i))
      (proto.Content_Inputs (proto.Spec_Spec p)) /\
    map_Forall (fun _ o => well_typed (proto.Output_Type o) (proto.Output_Default o))
      (proto.Content_Outputs (proto.Spec_Spec p))).
Proof.
  split; [apply Spec_Compile_Ok|].
  intros (Hi & method & outs & _ & _ & Ho)%Spec_Compile_Ok. split; intros k x Hx.
  - specialize (Hi k). rewrite Hx in Hi. unfold compiled_entry in Hi.
    destruct (_ !! k); [|done]. eapply accepts_well_typed, Hi.
  - specialize (Ho k). rewrite Hx in Ho. unfold compiled_entry in Ho.
    destruct (_ !! k); [|done]. eapply accepts_well_typed, Ho.
Qed.

(** A [script] step is the distributed step [script] with the script as its
    input; it cannot be combined with a step, an action or inputs. *)
Theorem script_keyword s text :
  Step_Script s = Some text -> text <> "" -> utf8_valid text = true ->
  if has_step s || keyword (Step_Action s) || negb (bool_decide (Step_Inputs s = ∅))
  then exists e, CompileStep s = Err e
  else CompileStep s = Ok {|
    proto.Step_Name := default "" (Step_Name s); proto.Step_Step := Some script_reference;
    proto.Step_Env := Step_Env s; proto.Step_Inputs := {["script" := VString text]} |}.
Proof.
  intros Ht Hne Hu. unfold CompileStep, compileScriptKeywordToStep.
  rewrite Ht. cbn [keyword negb]. destruct (String.eqb_spec text ""); [done|]. cbn [negb].
  destruct (has_step s); [by eexists|]. destruct (keyword (Step_Action s)) eqn:Ha; [by eexists|].
  cbn [orb]. destruct (Nat.eqb_spec (size (Step_Inputs s)) 0) as [Hz|Hz].
  - apply map_size_empty_inv in Hz. rewrite bool_decide_true by done. cbn [negb].
    cbn [mbind res_bind]. unfold compileActionKeywordToStep.
    cbn [without_script with_step Step_Action]. rewrite Ha. cbn [negb mbind res_bind].
    unfold compileToStepProto. cbn [without_script with_step Step_Inputs Step_Name Step_Env Step_Step].
    replace (range_map _ _) with (Ok {["script" := VString text]} : res (gmap string value)); [done|].
    symmetry. apply range_map_Ok. intros k. destruct (decide (k = "script")) as [->|Hk].
    + rewrite !lookup_singleton_eq. by apply compile_value_string.
    + by rewrite !lookup_singleton_ne.
  - rewrite bool_decide_false by (intros E; rewrite E, map_size_empty in Hz; done). by eexists.
Qed.

(** An [action] step is a Git step, the action runner at its main revision,
    with the action and the inputs of the step as its two inputs; it cannot be
    combined with a step or a script. *)
Theorem action_keyword s action v :
  Step_Action s = Some action -> action <> "" -> utf8_valid action = true ->
  compile_value (AStepInputs (map_range (Step_Inputs s))) = Ok v ->
  if has_step s || keyword (Step_Script s)
  then exists e, CompileStep s = Err e
  else CompileStep s = Ok {|
    proto.Step_Name := default "" (Step_Name s); proto.Step_Step := Some action_reference;
    proto.Step_Env := Step_Env s;
    proto.Step_Inputs := <["action" := VString action]> {["inputs" := v]} |}.
Proof.
  intros Ht Hne Hu Hv. destruct (has_step s || keyword (Step_Script s)) eqn:Hex.
  - assert (forall p, CompileStep s <> Ok p) as Hno.
    { intros p Hp. apply CompileStep_exclusive in Hp. unfold exclusive in Hp. rewrite Ht in Hp.
      cbn [keyword] in Hp. destruct (String.eqb_spec action ""); [done|]. cbn [negb] in Hp.
      by destruct (has_step s), (keyword (Step_Script s)). }
    revert Hno. unfold CompileStep, compileScriptKeywordToStep, compileActionKeywordToStep.
    rewrite Ht. cbn [keyword]. destruct (String.eqb_spec action ""); [done|]. cbn [negb].
    destruct (keyword (Step_Script s)) eqn:Hs, (has_step s) eqn:Hst; try done; intros _; cbn.
    1,2: by eexists.
    rewrite Ht, Hst. cbn. destruct (String.eqb_spec action ""); [done|]. by eexists.
  - apply orb_false_iff in Hex as [Hst Hs]. unfold CompileStep, compileScriptKeywordToStep.
    rewrite Hs. cbn [negb mbind res_bind]. unfold compileActionKeywordToStep.
    rewrite Ht, Hst, Hs. cbn [keyword]. destruct (String.eqb_spec action ""); [done|].
    cbn [negb mbind res_bind]. unfold compileToStepProto.
    cbn [without_action with_step Step_Inputs Step_Name Step_Env Step_Step].
    replace (range_map _ _)
      with (Ok (<["action" := VString action]> {["inputs" := v]}) : res (gmap string value)); [done|].
    symmetry. apply range_map_Ok. intros k. destruct (decide (k = "action")) as [->|Hk].
    + rewrite !lookup_insert_eq. by apply compile_value_string.
    + rewrite !lookup_insert_ne by done. destruct (decide (k = "inputs")) as [->|Hk'].
      * by rewrite !lookup_singleton_eq.
      * by rewrite !lookup_singleton_ne.
Qed.

(** A step of an OCI image becomes a definition of two steps that delegates
    to the second, which runs with the step's own inputs at the path the first
    one reports: the path expression of its reference evaluates to the first
    step's output. *)
Theorem oci_reference_path s o c r path :
  Step_Step s = SVReference {| Reference_Git := None; Reference_OCI := Some o |} ->
  keyword (Step_Script s) = false -> keyword (Step_Action s) = false ->
  let name := default "" (Step_Name s) in
  is_name ("fetch_step_" +:+ name) = true ->
  ic_StepResults c !! ("fetch_step_" +:+ name) = Some r ->
  srv_Outputs r !! "fetched_step_path" = Some (VString path) ->
  forall p, CompileStep s = Ok p ->
  exists fetch run ref expr inputs,
    range_map (fun _ v => compile_value v) (Step_Inputs s) = Ok inputs /\
    proto.Step_Inputs p = ∅ /\
    (d ← proto.Step_Step p; d ← proto.Ref_SpecDef d; proto.SpecDef_Definition d) = Some {|
      proto.Def_Type := proto.steps; proto.Def_Exec := None; proto.Def_Steps := [fetch; run];
      proto.Def_Outputs := ∅; proto.Def_Env := ∅; proto.Def_Delegate := name |} /\
    proto.Step_Name fetch = "fetch_step_" +:+ name /\ proto.Step_Name run = name /\
    proto.Step_Inputs run = inputs /\ proto.Step_Step run = Some ref /\
    proto.Ref_StepPath ref = Some (proto.PathExp expr) /\
    ExpandString (Some c) expr = Ok path.
Proof.
  intros Hst Hs Ha name Hn Hr Hv p. unfold CompileStep, compileScriptKeywordToStep.
  rewrite Hs. cbn [negb mbind res_bind]. unfold compileActionKeywordToStep. rewrite Ha.
  cbn [negb mbind res_bind]. unfold compileToStepProto. rewrite Hst. fold name.
  intros (inputs & Hin & H)%bind_Ok. cbn [Reference_compile Reference_Git Reference_OCI] in H.
  unfold compileOCI in H. cbn [wrap_err mbind res_bind proto.Ref_Protocol] in H.
  rewrite bool_decide_true in H by done. injection H as <-.
  eexists _, _, _, _, inputs. split; [done|]. split; [done|]. split; [reflexivity|].
  split; [done|]. split; [done|]. split; [done|]. split; [reflexivity|]. split; [reflexivity|].
  unfold ExpandString.
  pose proof (interpolate_step_output c ("fetch_step_" +:+ name) "fetched_step_path" r
    (VString path) Hn ltac:(done) Hr Hv) as H.
  match goal with |- context [interpolateString _ ?e] =>
    replace e
      with ("${{" +:+ Join ["steps"; "fetch_step_" +:+ name; "outputs"; "fetched_step_path"] "." +:+ "}}")
  end.
  - rewrite H. done.
  - cbn [Join]. rewrite !string_app_assoc. done.
Qed.

(** C2: a definition compiles to one of its type with the same command, or to
    the same steps in the same order, each compiled on its own, with all the
    outputs, environment and delegate of the source; a definition with both an
    [exec] and a [run], or with neither, is refused. *)
Theorem Compile_definition s d :
  Compile s = Ok d <->
  proto.Def_Env d = Step_Env s /\ proto.Def_Delegate d = default "" (Step_Delegate s) /\
  match Step_Exec s, Step_Run s with
  | Some e, None =>
      proto.Def_Type d = proto.exec /\ proto.Def_Steps d = [] /\ proto.Def_Outputs d = ∅ /\
      proto.Def_Exec d = Some {| proto.Exec_Command := Exec_Command e;
                                 proto.Exec_WorkDir := default "" (Exec_WorkDir e) |}
  | None, Some run =>
      proto.Def_Type d = proto.steps /\ proto.Def_Exec d = None /\
      Forall2 (fun ss p => CompileStep ss = Ok p) run (proto.Def_Steps d) /\
      (forall k, compiled_entry (fun a v => compile_value a = Ok v)
                   (Step_Outputs s !! k) (proto.Def_Outputs d !! k))
  | _, _ => False
  end.
Proof.
  assert (forall name run i out,
    compile_run name i run = Ok out <-> Forall2 (fun ss p => CompileStep ss = Ok p) run out) as Hrun.
  { intros name run. induction run as [|ss run IH]; intros i out; cbn [compile_run].
    - split; [intros [= <-]; constructor|by inversion 1].
    - rewrite bind_Ok. split.
      + intros (p & Hp%wrap_err_Ok & (ps & Hps%IH & [= <-])%bind_Ok). by constructor.
      + inversion 1 as [|? p ? ps Hp Hps]; subst. exists p. split; [by apply wrap_err_Ok|].
        apply bind_Ok. exists ps. split; [by apply IH|done]. }
  assert (forall m out, range_map (compile_step_output (Step_Name s)) m = Ok out <->
    forall k, compiled_entry (fun a v => compile_value a = Ok v) (m !! k) (out !! k)) as Hout.
  { intros m out. apply (range_compiled (fun a v => compile_value a = Ok v)). intros k a b.
    unfold compile_step_output. apply wrap_err_Ok. }
  unfold Compile, verifyOneTypeProvided, compileToDefinitionProto.
  destruct d as [ty ex st outs env del]. cbn [proto.Def_Type proto.Def_Exec proto.Def_Steps
    proto.Def_Outputs proto.Def_Env proto.Def_Delegate].
  destruct (Step_Exec s) as [e|], (Step_Run s) as [run|]; cbn [Z.add Z.eqb Z.ltb mbind res_bind Z.compare].
  1,4: naive_solver.
  - split; [intros [= <- <- <- <- <- <-]; done|]. intros (-> & -> & -> & -> & -> & ->). done.
  - change (0 + 1 =? 0)%Z with false. change (1 <? 0 + 1)%Z with false. cbn [mbind res_bind].
    rewrite bind_Ok. split.
    + intros (ps & Hps%Hrun & (o & Ho & [= <- <- <- <- <- <-])%bind_Ok). rewrite <- Hout. done.
    + rewrite <- Hout. intros (-> & -> & -> & -> & Hps & Ho). exists st. split; [by apply Hrun|].
      apply bind_Ok. by exists outs.
Qed.
End properties.
