(* ===== verification/SpecDefinition.v ===== *)
(** The data of a running step (src/pkg/runner): its definition
    (spec_definition.go), parameters (runner.go), the reference it was loaded
    from (named_step_reference.go), and the result it builds
    (exec_result.go, step_result_builder.go). *)

From stdpp Require Import gmap strings list fin_maps.
From S2P Require Import Prelude GoStrings Values Environment Proto.
Open Scope go_scope.
Open Scope string_scope.
Open Scope list_scope.

(** ** spec_definition.go *)

(** [type SpecDefinition struct].  The three places that build one pass a
    specification and a definition that are not nil. *)
Record SpecDefinition := {
  spec : proto.Spec;
  definition : proto.Definition_;
  dir : string
}.

Definition NewSpecDefinition (spec : proto.Spec) (definition : proto.Definition_) (dir : string) :
    SpecDefinition := {| spec := spec; definition := definition; dir := dir |}.

Definition ToProto (sd : SpecDefinition) : proto.SpecDefinition :=
  {| proto.SpecDef_Spec := Some (spec sd); proto.SpecDef_Definition := Some (definition sd) |}.

Definition Dir (sd : SpecDefinition) : string := dir sd.

Definition SpecInputs (sd : SpecDefinition) : gmap string proto.Spec_Content_Input :=
  proto.Content_Inputs (proto.Spec_Spec (spec sd)).

Definition SpecOutputs (sd : SpecDefinition) : gmap string proto.Spec_Content_Output :=
  proto.Content_Outputs (proto.Spec_Spec (spec sd)).

Definition IsTypeExec (sd : SpecDefinition) : bool :=
  bool_decide (proto.Def_Type (definition sd) = proto.exec).

Definition IsTypeSteps (sd : SpecDefinition) : bool :=
  bool_decide (proto.Def_Type (definition sd) = proto.steps).

Definition Steps (sd : SpecDefinition) : list proto.Step := proto.Def_Steps (definition sd).

Definition DescribeType (sd : SpecDefinition) : string :=
  proto.DefinitionType_String (proto.Def_Type (definition sd)).

(** Reading a field of a nil [Exec] panics. *)
Definition exec_field {A} (f : proto.Definition_Exec -> A) (sd : SpecDefinition) : res A :=
  match proto.Def_Exec (definition sd) with
  | Some e => Ok (f e)
  | None => Panic "invalid memory address or nil pointer dereference"
  end.

Definition ExecCommand : SpecDefinition -> res (list string) := exec_field proto.Exec_Command.

Definition Env (sd : SpecDefinition) : gmap string string := proto.Def_Env (definition sd).

Definition ExecWorkDir : SpecDefinition -> res string := exec_field proto.Exec_WorkDir.

Definition IsDelegateOutputs (sd : SpecDefinition) : bool :=
  bool_decide (proto.Content_OutputMethod (proto.Spec_Spec (spec sd)) = proto.delegate).

Definition DelegateTo (sd : SpecDefinition) : string := proto.Def_Delegate (definition sd).

Definition DefinitionOutputs (sd : SpecDefinition) : gmap string value :=
  proto.Def_Outputs (definition sd).

Definition SpecInputWithName (sd : SpecDefinition) (name : string) :
    option proto.Spec_Content_Input := SpecInputs sd !! name.

(** ** runner.go *)

(** [type Params struct] *)
Record Params := {
  Params_Inputs : gmap string context.Variable_;
  Params_Env : gmap string string
}.

(** [p.NewInputsWithDefault(specInputs)]: an input without a variable gets its
    default, the nil pointer when it has none. *)
Definition NewInputsWithDefault (p : Params) (specInputs : gmap string proto.Spec_Content_Input) :
    gmap string (option value) :=
  map_imap (fun key v =>
    Some match Params_Inputs p !! key with
         | Some x => Some (context.Variable_Value x)
         | None => proto.Input_Default v
         end) specInputs.

(** ** named_step_reference.go *)

(** [type NamedStepReference struct] *)
Record NamedStepReference := {
  name : string;
  ref : option proto.Step_Reference
}.

Definition NewNamedStepReference (n : string) (r : option proto.Step_Reference) :
    NamedStepReference := {| name := n; ref := r |}.

Definition formatInputs (inputs : gmap string context.Variable_) : gmap string value :=
  context.Variable_Value <$> inputs.

Definition ToProtoStep (sr : NamedStepReference) (params : Params) : proto.Step := {|
  proto.Step_Name := name sr;
  proto.Step_Step := ref sr;
  proto.Step_Env := Params_Env params;
  proto.Step_Inputs := formatInputs (Params_Inputs params)
|}.

Definition Describe (sr : NamedStepReference) : string := name sr.

(** step_reference.go *)
Definition StepDefinedInGitLabJob : NamedStepReference := NewNamedStepReference "" None.

(** ** exec_result.go *)

(** [type ExecResult struct]; the exit code is an [int]. *)
Record ExecResult := {
  workDir : string;
  cmdArgs : list string;
  exitCode : Z
}.

Definition NewExecResult (workDir : string) (cmdArgs : list string) (exitCode : Z) : ExecResult :=
  {| workDir := workDir; cmdArgs := cmdArgs; exitCode := exitCode |}.

(** [int32(x)]: the low 32 bits, signed. *)
Definition int32 (x : Z) : Z := ((x + 2 ^ 31) mod 2 ^ 32 - 2 ^ 31)%Z.

Definition ExecResult_ToProto (ec : ExecResult) : proto.ExecResult :=
  {| proto.ER_Command := cmdArgs ec; proto.ER_WorkDir := workDir ec;
     proto.ER_ExitCode := int32 (exitCode ec) |}.

(** ** step_result_builder.go *)

(** [type StepResultBuilder struct] *)
Record StepResultBuilder := {
  b_env : gmap string string;
  b_execResult : option proto.ExecResult;
  b_exports : gmap string string;
  b_loadedFrom : NamedStepReference;
  b_outputs : gmap string value;
  b_params : Params;
  b_specDef : SpecDefinition;
  b_subStepResults : list proto.StepResult
}.

Definition NewStepResultBuilder (loadedFrom : NamedStepReference) (params : Params)
    (specDef : SpecDefinition) : StepResultBuilder := {|
  b_env := ∅; b_execResult := None; b_exports := ∅; b_loadedFrom := loadedFrom;
  b_outputs := ∅; b_params := params; b_specDef := specDef; b_subStepResults := [] |}.

Definition WithExecResult (b : StepResultBuilder) (executedCmd : option ExecResult) :
    StepResultBuilder :=
  match executedCmd with
  | None => b
  | Some r => {|
      b_env := b_env b; b_execResult := Some (ExecResult_ToProto r); b_exports := b_exports b;
      b_loadedFrom := b_loadedFrom b; b_outputs := b_outputs b; b_params := b_params b;
      b_specDef := b_specDef b; b_subStepResults := b_subStepResults b |}
  end.

Definition WithEnv (b : StepResultBuilder) (env : gmap string string) : StepResultBuilder := {|
  b_env := env; b_execResult := b_execResult b; b_exports := b_exports b;
  b_loadedFrom := b_loadedFrom b; b_outputs := b_outputs b; b_params := b_params b;
  b_specDef := b_specDef b; b_subStepResults := b_subStepResults b |}.

Definition WithOutputs (b : StepResultBuilder) (outputs : gmap string value) : StepResultBuilder := {|
  b_env := b_env b; b_execResult := b_execResult b; b_exports := b_exports b;
  b_loadedFrom := b_loadedFrom b; b_outputs := outputs; b_params := b_params b;
  b_specDef := b_specDef b; b_subStepResults := b_subStepResults b |}.

Definition WithSubStepResult (b : StepResultBuilder) (result : option proto.StepResult) :
    StepResultBuilder :=
  match result with
  | None => b
  | Some r => {|
      b_env := b_env b; b_execResult := b_execResult b; b_exports := b_exports b;
      b_loadedFrom := b_loadedFrom b; b_outputs := b_outputs b; b_params := b_params b;
      b_specDef := b_specDef b; b_subStepResults := b_subStepResults b ++ [r] |}
  end.

Definition WithExports (h : env_heap) (b : StepResultBuilder) (exports : option loc) :
    StepResultBuilder :=
  match exports with
  | None => b
  | Some e => {|
      b_env := b_env b; b_execResult := b_execResult b; b_exports := Values h e;
      b_loadedFrom := b_loadedFrom b; b_outputs := b_outputs b; b_params := b_params b;
      b_specDef := b_specDef b; b_subStepResults := b_subStepResults b |}
  end.

(** The [Observe] methods record the value of a call that returned a value and
    an error, and pass the error on: the builder after the call. *)
Definition ObserveEnv (h : env_heap) (b : StepResultBuilder) (env : option loc) :
    StepResultBuilder :=
  match env with
  | None => b
  | Some e => WithEnv b (Values h e)
  end.

Definition ObserveExecutedCmd (b : StepResultBuilder) (execResult : option ExecResult) :
    StepResultBuilder := WithExecResult b execResult.

Definition ObserveOutputs (b : StepResultBuilder) (outputs : gmap string value) :
    StepResultBuilder := WithOutputs b outputs.

Definition ObserveExports (h : env_heap) (b : StepResultBuilder) (exports : option loc) :
    StepResultBuilder := WithExports h b exports.

Definition ObserveStepResult (b : StepResultBuilder) (result : option proto.StepResult) :
    StepResultBuilder := WithSubStepResult b result.

Definition buildResult (b : StepResultBuilder) (status : proto.Status) : proto.StepResult := {|
  proto.SR_Step := Some (ToProtoStep (b_loadedFrom b) (b_params b));
  proto.SR_SpecDefinition := Some (ToProto (b_specDef b));
  proto.SR_Status := status;
  proto.SR_Outputs := b_outputs b;
  proto.SR_Exports := b_exports b;
  proto.SR_Env := b_env b;
  proto.SR_ExecResult := b_execResult b;
  proto.SR_SubStepResults := b_subStepResults b
|}.

Definition BuildFailure (b : StepResultBuilder) : proto.StepResult := buildResult b proto.failure.

Definition Build (b : StepResultBuilder) : proto.StepResult := buildResult b proto.success.
