(* ===== verification/World.v ===== *)
(** The world a running step acts on, and the effects of the runner: the
    environment objects, the files, the temporary directory of the step files
    (step_file.go), the log, and what the operating system, the fetchers and
    the YAML decoder answer. *)

From stdpp Require Import gmap strings list fin_maps.
From S2P Require Import Prelude GoStrings GoPaths Values Environment Proto StepFile Schema.
From S2P Require Import SpecDefinition.
Open Scope go_scope.
Open Scope string_scope.
Open Scope list_scope.

(** What the runner calls and does not implement.  The operating system and the
    fetchers have a state of their own, so that an answer can depend on all
    that happened before. *)
Class System := {
  os_state : Type;
  (** [os.MkdirTemp(os.TempDir(), "step-runner-*")] *)
  MkdirTemp : os_state -> res string * os_state;
  (** [rand.Uint32()] *)
  Uint32 : os_state -> N * os_state;
  (** why [os.WriteFile] of a file fails, and how much of the data it then holds: a
      file that was not opened is as it was, one that was is created or truncated
      and holds the first part of the data *)
  WriteFile_error : os_state -> file_system -> string -> option (error * option nat);
  (** why [os.Remove] of a path fails, as it does when nothing is there *)
  Remove_error : os_state -> file_system -> string -> option error;
  (** writing to the standard output of the job *)
  Write_stdout : os_state -> string -> option error * os_state;
  (** [exec.Cmd.Run] of a command, in a directory, with an environment: the exit
      code, the error, and the files and state the command leaves behind *)
  Cmd_Run : list string -> string -> list string -> os_state -> file_system ->
            Z * option error * file_system * os_state;
  (** [GitFetcher.Get(url, version)] and [dist.Fetcher.Fetch(stepDir)] *)
  Git_Get : string -> string -> os_state -> file_system -> res string * file_system * os_state;
  Dist_Fetch : string -> os_state -> file_system -> res string * file_system * os_state;
  (** [yaml.Decoder.Decode] of the two documents of a step file, and the
      validation of the two against their JSON schema *)
  unmarshalSchema : string -> res (schema.Spec * schema.Step);
  validateSpec : schema.Spec -> option error;
  validateStep : schema.Step -> option error;
  MkdirTemp_decided o : decided (MkdirTemp o).1 = true;
  Git_Get_decided url version o f : decided (Git_Get url version o f).1.1 = true;
  Dist_Fetch_decided dir o f : decided (Dist_Fetch dir o f).1.1 = true;
  unmarshalSchema_decided content : decided (unmarshalSchema content) = true
}.

(** The state: objects, files, the step-file directory ([filesDir], empty until
    it is created) and the rest of the system. *)
Record World `{System} := {
  heap : env_heap;
  files : file_system;
  filesDir : string;
  os : os_state
}.

(** ** The state monad with errors and panics *)

(** A call: its result, and the world after it. *)
Definition M `{System} (A : Type) : Type := World -> res A * World.

Section monad.
  Context `{Sy : System}.

#[global] Instance M_ret : MRet M := fun A a w => (Ok a, w).
#[global] Instance M_bind : MBind M := fun A B f m w =>
  match m w with
  | (Ok a, w') => f a w'
  | (Err e, w') => (Err e, w')
  | (Panic p, w') => (Panic p, w')
  | (OutOfFuel, w') => (OutOfFuel, w')
  end.

(** A computation without effects. *)
Definition lift {A} (r : res A) : M A := fun w => (r, w).

(** [fmt.Errorf("pre%w", err)] around the error of a call. *)
Definition wrap {A} (pre : string) (m : M A) : M A := fun w =>
  let '(r, w') := m w in (wrap_err pre r, w').

(** A call whose error the caller inspects: [v, err := f()]. *)
Definition catch {A} (m : M A) : M (A + error) := fun w =>
  match m w with
  | (Ok a, w') => (Ok (inl a), w')
  | (Err e, w') => (Ok (inr e), w')
  | (Panic p, w') => (Panic p, w')
  | (OutOfFuel, w') => (OutOfFuel, w')
  end.

(** A deferred call: it runs when [m] returns and when it panics. *)
Definition finally {A} (m : M A) (deferred : M unit) : M A := fun w =>
  match m w with
  | (OutOfFuel, w') => (OutOfFuel, w')
  | (r, w') => match deferred w' with
               | (Ok _, w'') => (r, w'')
               | (Err e, w'') => (Err e, w'')
               | (Panic p, w'') => (Panic p, w'')
               | (OutOfFuel, w'') => (OutOfFuel, w'')
               end
  end.

Definition get : M World := fun w => (Ok w, w).

Definition set_heap (h : env_heap) (w : World) : World :=
  {| heap := h; files := files w; filesDir := filesDir w; os := os w |}.
Definition set_files (f : file_system) (w : World) : World :=
  {| heap := heap w; files := f; filesDir := filesDir w; os := os w |}.
Definition set_filesDir (d : string) (w : World) : World :=
  {| heap := heap w; files := files w; filesDir := d; os := os w |}.
Definition set_os (o : os_state) (w : World) : World :=
  {| heap := heap w; files := files w; filesDir := filesDir w; os := o |}.

(** An operation on the environment objects that allocates or mutates. *)
Definition on_heap {A} (f : env_heap -> A * env_heap) : M A := fun w =>
  let '(a, h) := f (heap w) in (Ok a, set_heap h w).

(** An operation on the environment objects that may fail. *)
Definition on_heap_res {A} (f : env_heap -> res (A * env_heap)) : M A := fun w =>
  match f (heap w) with
  | Ok (a, h) => (Ok a, set_heap h w)
  | Err e => (Err e, w)
  | Panic p => (Panic p, w)
  | OutOfFuel => (OutOfFuel, w)
  end.

(** ** Creating and removing step files (step_file.go) *)

(** [os.WriteFile(name, data, perm)]: a failure may leave a part of the data. *)
Definition os_WriteFile (name data : string) : M unit := fun w =>
  match WriteFile_error (os w) (files w) name with
  | None => (Ok tt, set_files (<[name := data]> (files w)) w)
  | Some (err, None) => (Err err, w)
  | Some (err, Some n) => (Err err, set_files (<[name := slice data 0 n]> (files w)) w)
  end.

(** [NewStepFileInDir(dir)]: the path of the file. *)
Definition NewStepFileInDir (dir : string) : M string := fun w =>
  let '(n, o) := Uint32 (os w) in
  let path := PathJoin [dir; "step-file-" +:+ itoa (Z.of_N n)] in
  (_ ← wrap "failed to create step file: " (os_WriteFile path ""); mret path) (set_os o w).

(** [NewStepFileInTmp()], under the mutex of [filesDir]. *)
Definition NewStepFileInTmp : M string := fun w =>
  if String.eqb (filesDir w) "" then
    let '(r, o) := MkdirTemp (os w) in
    let w := set_os o w in
    match r with
    | Ok d => NewStepFileInDir d (set_filesDir d w)
    | Err err =>
        (Err (WrapError "failed to create step file: failed to create temporary dir: " err ""), w)
    | Panic p => (Panic p, w)
    | OutOfFuel => (OutOfFuel, w)
    end
  else NewStepFileInDir (filesDir w) w.

(** [s.Remove()] *)
Definition Remove (path : string) : M unit := fun w =>
  match Remove_error (os w) (files w) path with
  | Some err => (Err (WrapError ("failed to remove step file " +:+ path +:+ ": ") err ""), w)
  | None => (Ok tt, set_files (delete path (files w)) w)
  end.

(** ** Loading a step file (schema/v1/read.go) *)

(** [ReadSteps(content)] *)
Definition ReadSteps (content : string) : res (schema.Spec * schema.Step) :=
  '(spec, step) ← unmarshalSchema content or_wrap "unmarshaling: ";
  match validateSpec spec with
  | Some err => Err (WrapError "validating spec: " err "")
  | None =>
      match validateStep step with
      | Some err => Err (WrapError "validating step: " err "")
      | None => Ok (spec, step)
      end
  end.

(** [LoadSteps(filename)] *)
Definition LoadSteps `{StepFileEnv} (filename : string) : M (schema.Spec * schema.Step) := fun w =>
  match files w !! filename with
  | None => (Err (WrapError "reading file: " (open_error filename) ""), w)
  | Some buf => (ReadSteps buf, w)
  end.

(** ** Logging (global_context.go) *)

(** [gc.Logf(format, v...)] of an already formatted text. *)
Definition Logf (text : string) : M unit := fun w =>
  let '(err, o) := Write_stdout (os w) text in
  match err with
  | Some err => (Err (WrapError "writing to stdout: " err ""), set_os o w)
  | None => (Ok tt, set_os o w)
  end.

Definition Logln (text : string) : M unit := Logf (text +:+ newline).

(** ** Laws *)

Lemma M_bind_Ok {A B} (m : M A) (f : A -> M B) w b w' :
  (m ≫= f) w = (Ok b, w') <-> exists a w1, m w = (Ok a, w1) /\ f a w1 = (Ok b, w').
Proof.
  unfold mbind, M_bind. destruct (m w) as [[a| | |] w1]; split; try naive_solver.
Qed.

Lemma os_WriteFile_Ok name data w u w' :
  os_WriteFile name data w = (Ok u, w') -> w' = set_files (<[name := data]> (files w)) w.
Proof.
  unfold os_WriteFile. destruct (WriteFile_error _ _ _) as [[err [n|]]|]; try done. by intros [= _ <-].
Qed.

(** A write, also one that fails, touches no other file and no object. *)
Lemma os_WriteFile_frame name data w :
  let w' := (os_WriteFile name data w).2 in
  heap w' = heap w /\ os w' = os w /\ filesDir w' = filesDir w /\
  forall p, p <> name -> files w' !! p = files w !! p.
Proof.
  unfold os_WriteFile. destruct (WriteFile_error _ _ _) as [[err [n|]]|]; cbn; repeat (split; [done|]);
    intros p Hp; try done; by rewrite lookup_insert_ne.
Qed.

Lemma os_WriteFile_decided name data w : decided (os_WriteFile name data w).1 = true.
Proof. unfold os_WriteFile. by destruct (WriteFile_error _ _ _) as [[err [n|]]|]. Qed.

Lemma M_bind_step {A B} (m : M A) (f : A -> M B) w a w1 :
  m w = (Ok a, w1) -> (m ≫= f) w = f a w1.
Proof. unfold mbind, M_bind. by intros ->. Qed.

Lemma M_bind_decided {A B} (m : M A) (f : A -> M B) w :
  decided (m w).1 = true -> (forall a w1, m w = (Ok a, w1) -> decided (f a w1).1 = true) ->
  decided ((m ≫= f) w).1 = true.
Proof.
  unfold mbind, M_bind. destruct (m w) as [[a| | |] w1]; cbn; try done. intros _ H. by apply H.
Qed.

Lemma wrap_decided {A} pre (m : M A) w : decided (wrap pre m w).1 = decided (m w).1.
Proof. unfold wrap. destruct (m w) as [[]]; done. Qed.

Lemma catch_decided {A} (m : M A) w : decided (catch m w).1 = decided (m w).1.
Proof. unfold catch. destruct (m w) as [[]]; done. Qed.

Lemma lift_decided {A} (r : res A) w : decided (lift r w).1 = decided r.
Proof. done. Qed.
End monad.

#[export] Hint Resolve M_bind_decided : go.
#[export] Hint Rewrite @wrap_decided @catch_decided @lift_decided : go.
