(* ===== verification/Resources.v ===== *)
(** Step resources and the step parser (src/pkg/runner): where a step is loaded
    from and how its definition is fetched (step_resource_parser.go and the
    _step_resource.go files), and how a definition becomes a step to run
    (step_parser.go). *)

From stdpp Require Import gmap strings list fin_maps.
From S2P Require Import Prelude GoStrings GoPaths Values Expression Environment Proto StepFile.
From S2P Require Import ShortReference Schema SpecDefinition World.
Open Scope go_scope.
Open Scope string_scope.
Open Scope list_scope.

(** ** Data *)

(** [type StepResource interface], by its implementations. *)
Inductive StepResource :=
  | FileSystemStepResource (workDir stepPath filename : string)
  | GitStepResource (url version stepDir filename : string)
  | DistStepResource (stepDir filename : string)
  | DynamicStepResource (shortRef : string)
  | FixedStepResource (specDef : SpecDefinition).

Definition NewFileSystemStepResource : string -> string -> string -> StepResource := FileSystemStepResource.
Definition NewGitStepResource (url version stepDir filename : string) : StepResource :=
  GitStepResource url version stepDir filename.
Definition NewDistStepResource (stepDir filename : string) : StepResource :=
  DistStepResource stepDir filename.
Definition NewDynamicStepResource (shortRef : string) : StepResource := DynamicStepResource shortRef.
Definition NewFixedStepResource (specDef : SpecDefinition) : StepResource := FixedStepResource specDef.

(** [type GlobalContext struct]; the writers are the standard output of the
    system (World.v). *)
Record GlobalContext := {
  gc_workDir : string;
  gc_job : gmap string string;
  gc_env : loc
}.

(** [NewGlobalContext(workDir, job, env, stdout, stderr)] *)
Definition NewGlobalContext (workDir : string) (job : gmap string string) (env : loc) :
    res GlobalContext :=
  _ ← MustNotBeNil (Pointer (Some env)) "global context must have an environment";
  Ok {| gc_workDir := workDir; gc_job := job; gc_env := env |}.

(** [type Step interface], by its implementations. *)
Inductive Step :=
  | ExecutableStep (loadedFrom : NamedStepReference) (params : Params) (specDef : SpecDefinition)
  | SequenceOfSteps (loadedFrom : NamedStepReference) (params : Params) (specDef : SpecDefinition)
                    (steps : list Step)
  | LazilyLoadedStep (globalCtx : GlobalContext) (stepReference : proto.Step)
                     (stepResource : StepResource).

Definition NewExecutableStep : NamedStepReference -> Params -> SpecDefinition -> Step := ExecutableStep.
Definition NewSequenceOfSteps : NamedStepReference -> Params -> SpecDefinition -> list Step -> Step :=
  SequenceOfSteps.
Definition NewLazilyLoadedStep : GlobalContext -> proto.Step -> StepResource -> Step := LazilyLoadedStep.

(** [s.Describe()] *)
Definition Step_Describe (s : Step) : res string :=
  match s with
  | ExecutableStep _ _ sd =>
      command ← ExecCommand sd; Ok ("executable step " +:+ quote (Join command " "))
  | SequenceOfSteps _ _ _ steps =>
      Ok (if (length steps <? 2)%nat then "sequence of steps"
          else "sequence of " +:+ itoa (Z.of_nat (length steps)) +:+ " steps")
  | LazilyLoadedStep _ r _ => Ok ("step " +:+ quote (proto.Step_Name r))
  end.

(** ** step_resource_parser.go *)

(** [p.stepPath(stepRef)] *)
Definition stepPath (stepRef : proto.Step_Reference) : string :=
  match proto.Ref_StepPath stepRef with
  | Some (proto.PathExp e) => e
  | Some (proto.Paths parts) => PathJoin parts
  | None => PathJoin (proto.Ref_Path stepRef)
  end.

(** [StepResourceParser.Parse(workDir, stepRef)].  A nil reference, or one to a
    definition that is not there, panics. *)
Definition parseResource (workDir : string) (stepRef : option proto.Step_Reference) :
    res StepResource :=
  match stepRef with
  | None => Panic "invalid memory address or nil pointer dereference"
  | Some r =>
      let path := stepPath r in
      match proto.Ref_Protocol r with
      | proto.local => Ok (NewFileSystemStepResource workDir path (proto.Ref_Filename r))
      | proto.git =>
          Ok (NewGitStepResource (proto.Ref_Url r) (proto.Ref_Version r) path (proto.Ref_Filename r))
      | proto.dist => Ok (NewDistStepResource path (proto.Ref_Filename r))
      | proto.dynamic => Ok (NewDynamicStepResource (proto.Ref_Url r))
      | proto.spec_def =>
          match proto.Ref_SpecDef r with
          | Some sd =>
              match proto.SpecDef_Spec sd, proto.SpecDef_Definition sd with
              | Some s, Some d => Ok (NewFixedStepResource (NewSpecDefinition s d path))
              | _, _ => Panic "invalid memory address or nil pointer dereference"
              end
          | None => Panic "invalid memory address or nil pointer dereference"
          end
      | p => Err (NewError ("unknown step reference protocol: " +:+ proto.StepReferenceProtocol_String p))
      end
  end.

Section fetch.
  Context `{Sy : System} `{SE : StepFileEnv} `{SP : StructPB} `{MR : MapRange} `{FM : schema.Format}.

(** [FileSystemStepResource.stepDir(view)].  The error quotes the result of the
    failed expansion, which is empty. *)
Definition stepDir (workDir path : string) (view : option InterpolationContext) : res string :=
  match ExpandString view path with
  | Ok p => if HasPrefix p "/" then Ok p else Ok (PathJoin [workDir; p])
  | Err err => Err (WrapError ("expanding step path " +:+ quote "" +:+ ": ") err "")
  | Panic p => Panic p
  | OutOfFuel => OutOfFuel
  end.

(** [FileSystemStepResource.Fetch(ctx, view)] *)
Definition FileSystem_Fetch (workDir path filename : string) (view : option InterpolationContext) :
    M SpecDefinition :=
  dir ← lift (stepDir workDir path view or_wrap "fetching step from file: ");
  let stepFile := PathJoin [dir; filename] in
  '(spec, step) ← wrap ("loading file " +:+ quote stepFile +:+ ": ") (LoadSteps stepFile);
  protoSpec ← lift ((schema.Spec_Compile spec).2 or_wrap "compiling proto specification: ");
  protoDef ← lift (schema.Compile step or_wrap "compiling proto definition: ");
  mret (NewSpecDefinition protoSpec protoDef dir).

(** [GitStepResource.Fetch(ctx, view)]: the step file is loaded without a view. *)
Definition Git_Fetch (url version path filename : string) (view : option InterpolationContext) :
    M SpecDefinition :=
  url ← lift (ExpandString view url or_wrap "fetching git step: interpolating url: ");
  dir ← wrap "fetching git step: " (fun w =>
    let '(r, f, o) := Git_Get url version (os w) (files w) in (r, set_os o (set_files f w)));
  wrap "fetching git step: " (FileSystem_Fetch dir path filename None).

(** [DistStepResource.Fetch(ctx, view)]: the step file is loaded without a view. *)
Definition Dist_Fetch_resource (path filename : string) : M SpecDefinition :=
  dir ← wrap "fetching dist step: " (fun w =>
    let '(r, f, o) := Dist_Fetch path (os w) (files w) in (r, set_os o (set_files f w)));
  wrap "fetching dist step: " (FileSystem_Fetch dir path filename None).

(** [StepResource.Fetch(ctx, view)].  A dynamic reference expands to another
    resource, which is fetched in turn: at most [fuel] in a row. *)
Fixpoint Fetch (fuel : nat) (sr : StepResource) (view : option InterpolationContext) :
    M SpecDefinition :=
  match sr with
  | FileSystemStepResource workDir path filename => FileSystem_Fetch workDir path filename view
  | GitStepResource url version path filename => Git_Fetch url version path filename view
  | DistStepResource path filename => Dist_Fetch_resource path filename
  | FixedStepResource specDef => mret specDef
  | DynamicStepResource shortRef =>
      match fuel with
      | O => lift OutOfFuel
      | S fuel' =>
          shortRef ← lift (ExpandString view shortRef
                             or_wrap "fetching step: interpolating reference: ");
          stepRef ← lift (CompileShortRef shortRef
                            or_wrap "fetching step: compiling step reference: ");
          stepRsc ← lift (parseResource "" (Some stepRef) or_wrap "fetching step: ");
          Fetch fuel' stepRsc view
      end
  end.

(** ** step_parser.go *)

(** [p.validateInputs(specInputs, inputs)] *)
Definition validateInputs (specInputs : gmap string proto.Spec_Content_Input)
    (inputs : gmap string context.Variable_) : res unit :=
  range_all (fun key v =>
    match inputs !! key, proto.Input_Default v with
    | None, None => Err (NewError ("input " +:+ quote key +:+ " required, but not defined"))
    | _, _ => Ok tt
    end) specInputs.

(** [p.parseStepType(globalCtx, specDef, params, loadedFrom)] *)
Definition parseStepType (globalCtx : GlobalContext) (specDef : SpecDefinition) (params : Params)
    (loadedFrom : NamedStepReference) : res Step :=
  if IsTypeExec specDef then Ok (NewExecutableStep loadedFrom params specDef)
  else if IsTypeSteps specDef then
    steps ← slice_map (fun stepReference =>
      stepResource ← parseResource (Dir specDef) (proto.Step_Step stepReference);
      Ok (NewLazilyLoadedStep globalCtx stepReference stepResource)) (Steps specDef);
    Ok (NewSequenceOfSteps loadedFrom params specDef steps)
  else Err (NewError ("unknown step definition type: " +:+ DescribeType specDef)).

(** [Parser.Parse(globalCtx, specDef, params, loadedFrom)] *)
Definition Parse (globalCtx : GlobalContext) (specDef : SpecDefinition) (params : Params)
    (loadedFrom : NamedStepReference) : res Step :=
  _ ← validateInputs (SpecInputs specDef) (Params_Inputs params)
        or_wrap "failed to parse spec definition: ";
  parseStepType globalCtx specDef params loadedFrom or_wrap "failed to parse spec definition: ".
End fetch.
