(* ===== verification/Runner.v ===== *)
(** Running steps (src/pkg/runner): the context of a step (steps_context.go,
    global_context.go), executable steps (executable_step.go), sequences
    (sequence_of_steps.go) and lazily loaded steps (lazily_loaded_step.go).

    A [Run] method returns a result and an error, either of which may be nil;
    the context it is given is an object it mutates, so [run] returns it. *)

From stdpp Require Import gmap strings list fin_maps.
From S2P Require Import Prelude GoStrings GoPaths Values Expression Environment Proto StepFile.
From S2P Require Import ShortReference Schema SpecDefinition World Resources.
Open Scope go_scope.
Open Scope string_scope.
Open Scope list_scope.

(** ** steps_context.go *)

(** [type StepsContext struct] *)
Record StepsContext := {
  sc_globalCtx : GlobalContext;
  sc_stepDir : string;
  sc_outputFile : string;
  sc_exportFile : string;
  sc_env : loc;
  sc_inputs : gmap string (option value);
  sc_steps : gmap string proto.StepResult
}.

Definition with_env (s : StepsContext) (env : loc) : StepsContext := {|
  sc_globalCtx := sc_globalCtx s; sc_stepDir := sc_stepDir s; sc_outputFile := sc_outputFile s;
  sc_exportFile := sc_exportFile s; sc_env := env; sc_inputs := sc_inputs s; sc_steps := sc_steps s |}.

Definition with_steps (s : StepsContext) (steps : gmap string proto.StepResult) : StepsContext := {|
  sc_globalCtx := sc_globalCtx s; sc_stepDir := sc_stepDir s; sc_outputFile := sc_outputFile s;
  sc_exportFile := sc_exportFile s; sc_env := sc_env s; sc_inputs := sc_inputs s; sc_steps := steps |}.

(** [type option func( *StepsContext)]: the three options. *)
Definition WithStepsCtxOutputFile (outputFile : string) (s : StepsContext) : StepsContext := {|
  sc_globalCtx := sc_globalCtx s; sc_stepDir := sc_stepDir s; sc_outputFile := outputFile;
  sc_exportFile := sc_exportFile s; sc_env := sc_env s; sc_inputs := sc_inputs s; sc_steps := sc_steps s |}.

Definition WithStepsCtxExportFile (exportFile : string) (s : StepsContext) : StepsContext := {|
  sc_globalCtx := sc_globalCtx s; sc_stepDir := sc_stepDir s; sc_outputFile := sc_outputFile s;
  sc_exportFile := exportFile; sc_env := sc_env s; sc_inputs := sc_inputs s; sc_steps := sc_steps s |}.

Definition WithStepsCtxStepResults (results : gmap string proto.StepResult) (s : StepsContext) :
    StepsContext := with_steps s results.

(** The view of a result. *)
Definition result_view (r : proto.StepResult) : StepResultView :=
  {| srv_Outputs := proto.SR_Outputs r |}.

(** [s.View()] *)
Definition View (h : env_heap) (s : StepsContext) : InterpolationContext := {|
  ic_Env := Values h (sc_env s);
  ic_ExportFile := sc_exportFile s;
  ic_OutputFile := sc_outputFile s;
  ic_Inputs := sc_inputs s;
  ic_Job := gc_job (sc_globalCtx s);
  ic_StepDir := sc_stepDir s;
  ic_StepResults := result_view <$> sc_steps s;
  ic_WorkDir := gc_workDir (sc_globalCtx s) |}.

(** [s.RecordResult(stepResult)] *)
Definition RecordResult (s : StepsContext) (stepResult : option proto.StepResult) : StepsContext :=
  match stepResult with
  | None => s
  | Some r =>
      match proto.SR_Step r with
      | None => s
      | Some st => with_steps s (<[proto.Step_Name st := r]> (sc_steps s))
      end
  end.

(** [findOutputsWithName(name, results)] (sequence_of_steps.go) *)
Fixpoint findOutputsWithName (name : string) (results : list proto.StepResult) :
    res (gmap string value) :=
  match results with
  | [] => Err (NewError ("delegate: could not find step with name " +:+ quote name))
  | s :: results' =>
      match proto.SR_Step s with
      | Some st => if String.eqb (proto.Step_Name st) name then Ok (proto.SR_Outputs s)
                   else findOutputsWithName name results'
      | None => findOutputsWithName name results'
      end
  end.

(** [buildInputVars(stepReference, stepSpecDef)] (lazily_loaded_step.go); the
    values of a reference's inputs are never nil. *)
Definition buildInputVars `{MapRange} (stepReference : proto.Step) (stepSpecDef : SpecDefinition) :
    res (gmap string context.Variable_) :=
  range_map (fun name val =>
    match SpecInputWithName stepSpecDef name with
    | None => Err (NewError ("step does not accept input with name " +:+ quote name))
    | Some input => context.NewVariable (Some val) (proto.Input_Sensitive input)
    end) (proto.Step_Inputs stepReference).

(** What [Run] returns, and the context after the call. *)
Abbreviation outcome := (option proto.StepResult * option error * StepsContext)%type.

Section run.
  Context `{Sy : System} `{SE : StepFileEnv} `{SP : StructPB} `{MR : MapRange} `{FM : schema.Format}.

(** [NewStepsContext(globalCtx, stepDir, inputs, env, options...)] *)
Definition NewStepsContext (globalCtx : GlobalContext) (stepDir : string)
    (inputs : gmap string (option value)) (env : loc)
    (options : list (StepsContext -> StepsContext)) : M StepsContext :=
  outputFile ← wrap "creating steps context: output file: " NewStepFileInTmp;
  exportFile ← wrap "creating steps context: export file: " NewStepFileInTmp;
  let stepsCtx := foldl (fun s option => option s)
    {| sc_globalCtx := globalCtx; sc_stepDir := stepDir; sc_env := env; sc_inputs := inputs;
       sc_steps := ∅; sc_outputFile := outputFile; sc_exportFile := exportFile |} options in
  _ ← lift (MustNotBeNil (Pointer (Some (sc_env stepsCtx))) "steps context must have an environment");
  mret stepsCtx.

(** [s.GetEnvs()] and [s.GetEnvList()] *)
Definition GetEnvs (h : env_heap) (s : StepsContext) : gmap string string := Values h (sc_env s).

Definition GetEnvList (h : env_heap) (s : StepsContext) : list string :=
  (fun '(k, v) => k +:+ "=" +:+ v) <$> map_range (GetEnvs h s).

(** [s.ExpandAndApplyEnv(env)]: the expanded environment and the context after
    the call. *)
Definition ExpandAndApplyEnv (s : StepsContext) (env : gmap string string) : M (loc * StepsContext) :=
  w ← get;
  expandedEnv ← lift (range_map (fun key v =>
    ExpandString (Some (View (heap w) s)) v or_wrap ("env variable " +:+ quote key +:+ ": ")) env);
  e ← on_heap (fun h => AddLexicalScope h (sc_env s) expandedEnv);
  mret (e, with_env s e).

(** [s.StepResults()] *)
Definition StepResults (s : StepsContext) : list proto.StepResult := snd <$> map_range (sc_steps s).

(** [s.Cleanup()]: the errors of the two removals are dropped. *)
Definition Cleanup (s : StepsContext) : M unit :=
  _ ← catch (Remove (sc_outputFile s));
  _ ← catch (Remove (sc_exportFile s));
  mret tt.

(** [s.AddGlobalEnv(env)], through [GlobalContext.AddGlobalEnv] *)
Definition AddGlobalEnv (s : StepsContext) (env : option loc) : M unit :=
  on_heap (fun h => (tt, Mutate h (gc_env (sc_globalCtx s)) env)).

(** [s.EnvWithLexicalScope(envVars)] *)
Definition EnvWithLexicalScope (s : StepsContext) (envVars : gmap string string) : M loc :=
  on_heap (fun h => AddLexicalScope h (sc_env s) envVars).

(** [s.ReadOutputStepResult()], [s.ReadOutputValues(specOutputs)] and
    [s.ReadExportedEnv()] *)
Definition ReadOutputStepResult (s : StepsContext) : M proto.StepResult := fun w =>
  (ReadStepResult (files w) (sc_outputFile s), w).

Definition ReadOutputValues (s : StepsContext) (specOutputs : gmap string proto.Spec_Content_Output) :
    M (gmap string value) := fun w => (ReadValues (files w) (sc_outputFile s) specOutputs, w).

Definition ReadExportedEnv (s : StepsContext) : M loc := fun w =>
  on_heap_res (ReadEnvironment (files w) (sc_exportFile s)) w.

(** ** executable_step.go *)

(** [s.determineWorkDir(stepsCtx)] *)
Definition determineWorkDir (specDef : SpecDefinition) (view : InterpolationContext) (workDir : string) :
    res string :=
  d ← ExecWorkDir specDef;
  if String.eqb d "" then Ok workDir
  else ExpandString (Some view) d or_wrap ("interpolate workdir " +:+ quote d +:+ ": ").

(** [s.execCommand(ctx, stepsCtx)]: the execution result, which is nil when the
    command was not run, and the error. *)
Definition execCommand (specDef : SpecDefinition) (s : StepsContext) :
    M (option ExecResult * option error) :=
  w ← get;
  let view := View (heap w) s in
  r ← catch (lift (
    command ← ExecCommand specDef;
    cmdArgs ← slice_map (fun arg =>
      ExpandString (Some view) arg or_wrap ("interpolate command argument " +:+ quote arg +:+ ": "))
      command;
    workDir ← determineWorkDir specDef view (gc_workDir (sc_globalCtx s));
    Ok (cmdArgs, workDir)));
  match r with
  | inr err => mret (None, Some err)
  | inl ([], _) => lift (Panic "runtime error: index out of range [0] with length 0")
  | inl (cmdArgs, workDir) => fun w =>
      let '(code, err, f, o) := Cmd_Run cmdArgs workDir (GetEnvList (heap w) s) (os w) (files w) in
      (Ok (Some (NewExecResult workDir cmdArgs code), err), set_os o (set_files f w))
  end.

(** [ExecutableStep.readOutputs(stepsCtx)] *)
Definition Executable_readOutputs (specDef : SpecDefinition) (s : StepsContext) :
    M (gmap string value) :=
  if IsDelegateOutputs specDef then
    stepResult ← wrap "delegate: " (ReadOutputStepResult s);
    mret (proto.SR_Outputs stepResult)
  else ReadOutputValues s (SpecOutputs specDef).

(** [ExecutableStep.Run(ctx, stepsCtx)] *)
Definition Executable_Run (loadedFrom : NamedStepReference) (params : Params)
    (specDef : SpecDefinition) (s : StepsContext) : M outcome :=
  logged ← catch (Logln ("Running step " +:+ quote (Describe loadedFrom)));
  match logged with
  | inr err => mret (None, Some err, s)
  | inl _ =>
  let result := NewStepResultBuilder loadedFrom params specDef in
  expanded ← catch (ExpandAndApplyEnv s (Env specDef));
  match expanded with
  | inr err => mret (Some (BuildFailure result), Some (WrapError "expand step env: " err ""), s)
  | inl (env, s) =>
  w ← get;
  let result := ObserveEnv (heap w) result (Some env) in
  '(execResult, err) ← execCommand specDef s;
  let result := ObserveExecutedCmd result execResult in
  match err with
  | Some err => mret (Some (BuildFailure result), Some (WrapError "exec: " err ""), s)
  | None =>
  outputs ← catch (Executable_readOutputs specDef s);
  match outputs with
  | inr err => mret (Some (BuildFailure (ObserveOutputs result ∅)),
                     Some (WrapError "output file: " err ""), s)
  | inl outputs =>
  let result := ObserveOutputs result outputs in
  exports ← catch (ReadExportedEnv s);
  match exports with
  | inr err => mret (Some (BuildFailure result), Some (WrapError "export file: " err ""), s)
  | inl exports =>
  w ← get;
  let result := ObserveExports (heap w) result (Some exports) in
  _ ← AddGlobalEnv s (Some exports);
  mret (Some (Build result), None, s)
  end end end end end.

(** ** sequence_of_steps.go *)

(** [s.interpolateStepOutputs(stepsCtx)] *)
Definition interpolateStepOutputs (specDef : SpecDefinition) (view : InterpolationContext) :
    res (gmap string value) :=
  range_map (fun k v =>
    context.Value_Value <$> (Expand (Some view) v or_wrap ("expand " +:+ quote k +:+ ": ")))
    (DefinitionOutputs specDef).

(** [SequenceOfSteps.readOutputs(stepsCtx, stepResults)] *)
Definition Sequence_readOutputs (specDef : SpecDefinition) (view : InterpolationContext)
    (stepResults : list proto.StepResult) : res (gmap string value) :=
  if IsDelegateOutputs specDef then findOutputsWithName (DelegateTo specDef) stepResults
  else interpolateStepOutputs specDef view.

(** The loop of [SequenceOfSteps.Run] over its steps, the builder and the
    context so far: the builder and the context after the loop, and the error
    that ended it. *)
Fixpoint run_steps (run : Step -> StepsContext -> M outcome) (steps : list Step)
    (result : StepResultBuilder) (s : StepsContext) :
    M (StepResultBuilder * option error * StepsContext) :=
  match steps with
  | [] => mret (result, None, s)
  | step :: steps' =>
      '(stepResult, err, s) ← run step s;
      let result := ObserveStepResult result stepResult in
      let s := RecordResult s stepResult in
      match err with
      | Some err => mret (result, Some err, s)
      | None => run_steps run steps' result s
      end
  end.

(** [SequenceOfSteps.Run(ctx, stepsCtx)] *)
Definition Sequence_Run (run : Step -> StepsContext -> M outcome) (loadedFrom : NamedStepReference)
    (params : Params) (specDef : SpecDefinition) (steps : list Step) (s : StepsContext) : M outcome :=
  let result := NewStepResultBuilder loadedFrom params specDef in
  expanded ← catch (ExpandAndApplyEnv s (Env specDef));
  match expanded with
  | inr err => mret (Some (BuildFailure result), Some (WrapError "expand step env: " err ""), s)
  | inl (env, s) =>
  w ← get;
  let result := ObserveEnv (heap w) result (Some env) in
  '(result, err, s) ← run_steps run steps result s;
  match err with
  | Some err => mret (Some (BuildFailure result), Some err, s)
  | None =>
  w ← get;
  outputs ← catch (lift (Sequence_readOutputs specDef (View (heap w) s) (StepResults s)));
  match outputs with
  | inr err => mret (Some (BuildFailure (ObserveOutputs result ∅)),
                     Some (WrapError "outputs: " err ""), s)
  | inl outputs => mret (Some (Build (ObserveOutputs result outputs)), None, s)
  end end end.

(** ** lazily_loaded_step.go *)

(** [s.loadStep(ctx, stepsCtx)].  Each variable is assigned the expansion of its
    own value. *)
Definition loadStep (fuel : nat) (stepReference : proto.Step) (stepResource : StepResource)
    (s : StepsContext) : M (Step * Params * SpecDefinition) :=
  w ← get;
  specDef ← wrap "failed to load: " (Fetch fuel stepResource (Some (View (heap w) s)));
  inputs ← lift (buildInputVars stepReference specDef or_wrap "failed to load: ");
  w ← get;
  let view := View (heap w) s in
  inputs ← lift (range_map (fun name v =>
    res ← (Expand (Some view) (context.Variable_Value v)
             or_wrap ("failed to load: expand input " +:+ quote name +:+ ": "));
    context.Assign v res or_wrap ("failed to load: assign input " +:+ quote name +:+ ": ")) inputs);
  env ← lift (range_map (fun k v =>
    ExpandString (Some view) v or_wrap ("failed to load: env " +:+ quote k +:+ ": "))
    (proto.Step_Env stepReference));
  e ← EnvWithLexicalScope s env;
  w ← get;
  let params := {| Params_Inputs := inputs; Params_Env := Values (heap w) e |} in
  step ← lift (Parse (sc_globalCtx s) specDef params
    (NewNamedStepReference (proto.Step_Name stepReference) (proto.Step_Step stepReference))
      or_wrap "failed to load: ");
  mret (step, params, specDef).

(** [LazilyLoadedStep.Run(ctx, parentStepsCtx)].  The deferred removal of the
    step files reads two fields of the context that running does not change. *)
Definition Lazily_Run (run : Step -> StepsContext -> M outcome) (fuel : nat)
    (globalCtx : GlobalContext) (stepReference : proto.Step) (stepResource : StepResource)
    (parent : StepsContext) : M outcome :=
  let pre := "step " +:+ quote (proto.Step_Name stepReference) +:+ ": " in
  loaded ← catch (loadStep fuel stepReference stepResource parent);
  match loaded with
  | inr err => mret (None, Some (WrapError pre err ""), parent)
  | inl (step, params, specDef) =>
  env ← EnvWithLexicalScope parent (Params_Env params);
  let inputs := NewInputsWithDefault params (SpecInputs specDef) in
  stepsCtx ← catch (NewStepsContext globalCtx (Dir specDef) inputs env []);
  match stepsCtx with
  | inr err => mret (None, Some (WrapError pre err ""), parent)
  | inl stepsCtx =>
  '(result, err, _) ← finally (run step stepsCtx) (Cleanup stepsCtx);
  mret (result, (fun err => WrapError pre err "") <$> err, parent)
  end end.

(** [step.Run(ctx, stepsCtx)]: at most [fuel] definitions are nested. *)
Fixpoint run (fuel : nat) (step : Step) (s : StepsContext) : M outcome :=
  match fuel with
  | O => lift OutOfFuel
  | S fuel' =>
      match step with
      | ExecutableStep loadedFrom params specDef => Executable_Run loadedFrom params specDef s
      | SequenceOfSteps loadedFrom params specDef steps =>
          Sequence_Run (run fuel') loadedFrom params specDef steps s
      | LazilyLoadedStep globalCtx stepReference stepResource =>
          Lazily_Run (run fuel') fuel' globalCtx stepReference stepResource s
      end
  end.
End run.
