(* ===== verification/RunnerFacts.v ===== *)
(** What holds of every run: its effect on the environment objects, on the
    step files and on the context. *)

From stdpp Require Import gmap strings list fin_maps.
From S2P Require Import Prelude GoStrings GoPaths Values Expression ExpressionFacts Environment Evolution.
From S2P Require Import Proto StepFile ShortReference Schema SpecDefinition World Resources Runner.
Open Scope go_scope.
Open Scope string_scope.
Open Scope list_scope.

(** ** Effects: what a call does to the world, whatever it returns *)

Section effects.
  Context `{Sy : System}.
  Context (R : World -> World -> Prop) `{!PreOrder R}.

(** [m] changes the world [w] by [R]. *)
Definition effect {A} (m : M A) (w : World) : Prop := R w (m w).2.

Lemma effect_ret {A} (a : A) w : effect (mret a) w.
Proof. unfold effect. cbn. reflexivity. Qed.

Lemma effect_lift {A} (r : res A) w : effect (lift r) w.
Proof. unfold effect. cbn. reflexivity. Qed.

Lemma effect_get w : effect get w.
Proof. unfold effect. cbn. reflexivity. Qed.

Lemma effect_bind {A B} (m : M A) (f : A -> M B) w :
  effect m w -> (forall a w1, m w = (Ok a, w1) -> R w w1 -> effect (f a) w1) ->
  effect (m ≫= f) w.
Proof.
  unfold effect, mbind, M_bind. destruct (m w) as [[a| | |] w1]; cbn; intros H1 H2; try done.
  etrans; [exact H1|]. by apply H2.
Qed.

(** The same with what holds of a returned value. *)
Definition good {A} (Q : A -> World -> Prop) (m : M A) (w : World) : Prop :=
  effect m w /\ forall a w', m w = (Ok a, w') -> Q a w'.

Lemma good_ret {A} (Q : A -> World -> Prop) a w : Q a w -> good Q (mret a) w.
Proof. intros H. split; [apply effect_ret|]. by intros b w' [= <- <-]. Qed.

Lemma good_bind {A B} (Q : B -> World -> Prop) (m : M A) (f : A -> M B) w :
  effect m w -> (forall a w1, m w = (Ok a, w1) -> R w w1 -> good Q (f a) w1) ->
  good Q (m ≫= f) w.
Proof.
  intros Hm Hf. split.
  - apply effect_bind; [done|]. intros a w1 Ha Hr. by apply Hf.
  - intros b w' (a & w1 & Ha & Hb)%M_bind_Ok. apply (Hf a w1 Ha); [|done].
    unfold effect in Hm. by rewrite Ha in Hm.
Qed.

Lemma effect_wrap {A} pre (m : M A) w : effect m w -> effect (wrap pre m) w.
Proof. unfold effect, wrap. by destruct (m w). Qed.

Lemma effect_catch {A} (m : M A) w : effect m w -> effect (catch m) w.
Proof. unfold effect, catch. by destruct (m w) as [[]]. Qed.

Lemma effect_finally {A} (m : M A) d w :
  effect m w -> (forall w1, R w w1 -> effect d w1) -> effect (finally m d) w.
Proof.
  unfold effect, finally. destruct (m w) as [[a| | |] w1]; cbn; intros H1 H2; try done;
    specialize (H2 w1 H1); destruct (d w1) as [[] w2]; cbn in *; by etrans.
Qed.
End effects.

(** Results of the control operators, inverted. *)
Section inversion.
  Context `{Sy : System}.

Lemma catch_inl {A} (m : M A) w a w' : catch m w = (Ok (inl a), w') -> m w = (Ok a, w').
Proof. unfold catch. destruct (m w) as [[]]; naive_solver. Qed.

Lemma catch_inr {A} (m : M A) w e w' : catch m w = (Ok (inr e), w') -> m w = (Err e, w').
Proof. unfold catch. destruct (m w) as [[]]; naive_solver. Qed.

Lemma wrap_Ok {A} pre (m : M A) w a w' : wrap pre m w = (Ok a, w') -> m w = (Ok a, w').
Proof. unfold wrap. destruct (m w) as [[]]; naive_solver. Qed.

Lemma lift_Ok {A} (r : res A) w a w' : lift r w = (Ok a, w') -> r = Ok a /\ w' = w.
Proof. unfold lift. naive_solver. Qed.

Lemma get_Ok w w1 w2 : get w = (Ok w1, w2) -> w1 = w /\ w2 = w.
Proof. unfold get. naive_solver. Qed.

Lemma ret_Ok {A} (a b : A) w w' : (mret a : M A) w = (Ok b, w') -> a = b /\ w' = w.
Proof. unfold mret, M_ret. naive_solver. Qed.

Lemma finally_Ok {A} (m : M A) d w a w' :
  finally m d w = (Ok a, w') <-> exists w1, m w = (Ok a, w1) /\ exists u, d w1 = (Ok u, w').
Proof.
  unfold finally. destruct (m w) as [[b| | |] w1].
  - destruct (d w1) as [[u| | |] w2] eqn:E; split.
    + intros [= -> ->]. eauto.
    + intros (? & [= -> ->] & u' & E'). rewrite E in E'. by injection E' as -> ->.
    + done.
    + intros (? & [= -> ->] & u' & E'). by rewrite E in E'.
    + done.
    + intros (? & [= -> ->] & u' & E'). by rewrite E in E'.
    + done.
    + intros (? & [= -> ->] & u' & E'). by rewrite E in E'.
  - destruct (d w1) as [[u| | |] w2]; split; try done; by intros (? & ? & _).
  - destruct (d w1) as [[u| | |] w2]; split; try done; by intros (? & ? & _).
  - split; [done|]. by intros (? & ? & _).
Qed.
End inversion.

(** Inverts a [do]-block of the monad that returned. *)
Ltac inv_M :=
  repeat match goal with
  | H : (_, _) = (_, _) |- _ => injection H as H; subst
  | H : @mbind _ M_bind _ _ _ _ _ = (Ok _, _) |- _ => apply M_bind_Ok in H as (? & ? & ? & H)
  | H : @mret _ M_ret _ _ _ = (Ok _, _) |- _ => apply ret_Ok in H as [H ?]; subst
  | H : lift _ _ = (Ok _, _) |- _ => apply lift_Ok in H as [H ?]; subst
  | H : get _ = (Ok _, _) |- _ => apply get_Ok in H as [? ?]; subst
  | H : wrap _ _ _ = (Ok _, _) |- _ => apply wrap_Ok in H
  | H : catch _ _ = (Ok (inl _), _) |- _ => apply catch_inl in H
  | H : catch _ _ = (Ok (inr _), _) |- _ => apply catch_inr in H
  | H : wrap_err _ _ = Ok _ |- _ => apply wrap_err_Ok in H
  | H : Ok _ = Ok _ |- _ => injection H as H; subst
  | H : Err _ = Ok _ |- _ => discriminate H
  | H : Panic _ = Ok _ |- _ => discriminate H
  end.

(** ** The effect on the environment objects *)

Section heap.
  Context `{Sy : System} `{SE : StepFileEnv} `{SP : StructPB} `{MR : MapRange} `{FM : schema.Format}.
  Context (g : loc).

(** The objects of [w] evolve to those of [w']. *)
Definition heap_evolves (w w' : World) : Prop := evolves g (heap w) (heap w').

#[global] Instance heap_evolves_preorder : PreOrder heap_evolves.
Proof. unfold heap_evolves. split; [intros w; reflexivity|intros w1 w2 w3 H1 H2; by etrans]. Qed.

(** A call that leaves the objects alone. *)
Lemma effect_same_heap {A} (m : M A) w : heap (m w).2 = heap w -> effect heap_evolves m w.
Proof. unfold effect, heap_evolves. by intros ->. Qed.

Lemma NewStepFileInDir_heap d w : heap (NewStepFileInDir d w).2 = heap w.
Proof.
  unfold NewStepFileInDir. destruct (Uint32 (os w)) as [n o]. generalize (PathJoin [d; "step-file-" +:+ itoa (Z.of_N n)]).
  intros path. destruct (os_WriteFile_frame path "" (set_os o w)) as (Hh & _). revert Hh.
  unfold mbind, M_bind, wrap. destruct (os_WriteFile _ _ _) as [[] w']; by intros.
Qed.

Lemma NewStepFileInTmp_heap w : heap (NewStepFileInTmp w).2 = heap w.
Proof.
  unfold NewStepFileInTmp. destruct (String.eqb _ _); [|apply NewStepFileInDir_heap].
  destruct (MkdirTemp (os w)) as [[] ?]; try done. by rewrite NewStepFileInDir_heap.
Qed.

Lemma Remove_heap p w : heap (Remove p w).2 = heap w.
Proof. unfold Remove. by destruct (Remove_error _ _ _). Qed.

(** What [os.Remove] leaves of the files. *)
Definition remove_file (o : os_state) (p : string) (f : file_system) : file_system :=
  match Remove_error o f p with Some _ => f | None => delete p f end.

(** The clean-up of a step: its output file and then its export file. *)
Definition remove_step_files (o : os_state) (s : StepsContext) (f : file_system) : file_system :=
  remove_file o (sc_exportFile s) (remove_file o (sc_outputFile s) f).

Lemma Cleanup_spec s w :
  Cleanup s w = (Ok tt, set_files (remove_step_files (os w) s (files w)) w).
Proof.
  unfold Cleanup, Remove, remove_step_files, remove_file, catch, mbind, M_bind.
  destruct (Remove_error (os w) (files w) (sc_outputFile s)); cbn;
    destruct (Remove_error _ _ (sc_exportFile s)); destruct w; reflexivity.
Qed.

Lemma remove_file_ne o p f q : q <> p -> remove_file o p f !! q = f !! q.
Proof. intros Hq. unfold remove_file. destruct (Remove_error _ _ _); [done|by apply lookup_delete_ne]. Qed.

Lemma remove_file_eq o p f :
  remove_file o p f !! p = None \/
  exists err, Remove_error o f p = Some err /\ remove_file o p f !! p = f !! p.
Proof.
  unfold remove_file. destruct (Remove_error o f p) as [err|]; [right; by exists err|left; apply lookup_delete_eq].
Qed.

(** A step file that is still there after the clean-up is one the system would
    not remove; other files are not touched. *)
Lemma remove_step_files_spec o s f :
  let f' := remove_step_files o s f in
  (forall p, p <> sc_outputFile s -> p <> sc_exportFile s -> f' !! p = f !! p) /\
  (forall p, p = sc_outputFile s \/ p = sc_exportFile s ->
     f' !! p = None \/
     exists f1 err, f1 !! p = f !! p /\ f' !! p = f !! p /\ Remove_error o f1 p = Some err).
Proof.
  intros f'. subst f'. unfold remove_step_files. split.
  - intros p Ho He. by rewrite !remove_file_ne.
  - intros p Hp. destruct (decide (p = sc_exportFile s)) as [->|Hne].
    + destruct (remove_file_eq o (sc_exportFile s) (remove_file o (sc_outputFile s) f)) as [H|(err & Herr & H)];
        [by left|]. rewrite H. destruct (decide (sc_exportFile s = sc_outputFile s)) as [->|Hne].
      * destruct (remove_file_eq o (sc_outputFile s) f) as [H1|(err1 & Herr1 & H1)]; [by left|].
        right. by exists f, err1.
      * right. exists (remove_file o (sc_outputFile s) f), err. by rewrite remove_file_ne.
    + destruct Hp as [->|?]; [|done]. rewrite remove_file_ne by done.
      destruct (remove_file_eq o (sc_outputFile s) f) as [H|(err & Herr & H)]; [by left|].
      right. by exists f, err.
Qed.

Lemma Logln_heap t w : heap (Logln t w).2 = heap w.
Proof. unfold Logln, Logf. by destruct (Write_stdout _ _) as [[] ?]. Qed.

Lemma Cleanup_effect s w : effect heap_evolves (Cleanup s) w.
Proof.
  unfold Cleanup. apply effect_bind; [apply _|apply effect_catch, effect_same_heap, Remove_heap|].
  intros _ w1 _ _. apply effect_bind; [apply _|apply effect_catch, effect_same_heap, Remove_heap|].
  intros _ w2 _ _. apply effect_ret. apply _.
Qed.

Lemma NewStepsContext_effect gc d i e os w : effect heap_evolves (NewStepsContext gc d i e os) w.
Proof.
  unfold NewStepsContext.
  apply effect_bind; [apply _|apply effect_wrap, effect_same_heap, NewStepFileInTmp_heap|].
  intros out w1 _ _.
  apply effect_bind; [apply _|apply effect_wrap, effect_same_heap, NewStepFileInTmp_heap|].
  intros ex w2 _ _. destruct e; [apply effect_ret|apply effect_lift]; apply _.
Qed.

(** Walks through the control structure of a call. *)
Ltac walk :=
  repeat lazymatch goal with
  | |- effect _ (@mbind _ M_bind _ _ _ _) _ => apply effect_bind; [apply _| |intros ? ? ? ?]
  | |- effect _ (@mret _ M_ret _ _) _ => apply effect_ret; apply _
  | |- effect _ (lift _) _ => apply effect_lift; apply _
  | |- effect _ get _ => apply effect_get; apply _
  | |- effect _ (wrap _ _) _ => apply effect_wrap
  | |- effect _ (catch _) _ => apply effect_catch
  | |- effect _ (match ?x with _ => _ end) _ => destruct x
  end.

Lemma FileSystem_Fetch_effect d p f v w : effect heap_evolves (FileSystem_Fetch d p f v) w.
Proof.
  unfold FileSystem_Fetch. walk. apply effect_same_heap. unfold LoadSteps. by destruct (files _ !! _).
Qed.

Lemma Fetch_effect fuel sr v w : effect heap_evolves (Fetch fuel sr v) w.
Proof.
  revert sr w. induction fuel as [|fuel IH]; intros sr w; destruct sr; cbn [Fetch];
    try (apply FileSystem_Fetch_effect); try (apply effect_ret; apply _); try (apply effect_lift; apply _).
  1,3: unfold Git_Fetch; walk; [|apply FileSystem_Fetch_effect];
    apply effect_same_heap; by destruct (Git_Get _ _ _ _) as [[? ?] ?].
  1,2: unfold Dist_Fetch_resource; walk; [|apply FileSystem_Fetch_effect];
    apply effect_same_heap; by destruct (Dist_Fetch _ _ _) as [[? ?] ?].
  walk. apply IH.
Qed.

(** The context belongs to the global environment [g] and its environment is
    allocated. *)
Definition ctx_ok (s : StepsContext) (w : World) : Prop :=
  gc_env (sc_globalCtx s) = g /\ sc_env s < length (heap w).

Lemma ctx_ok_evolves s w w' : ctx_ok s w -> heap_evolves w w' -> ctx_ok s w'.
Proof. intros [? ?] He%evolves_length. split; [done|lia]. Qed.

Lemma on_heap_scope_effect e vs w :
  e < length (heap w) -> effect heap_evolves (on_heap (fun h => AddLexicalScope h e vs)) w.
Proof.
  intros He. unfold effect, heap_evolves, on_heap.
  pose proof (evolves_AddLexicalScope g (heap w) e vs He) as H.
  by destruct (AddLexicalScope (heap w) e vs).
Qed.

(** What [ExpandAndApplyEnv] returns. *)
Lemma ExpandAndApplyEnv_Ok s env w e s' w' :
  ExpandAndApplyEnv s env w = (Ok (e, s'), w') ->
  exists vs, range_map (fun key v =>
      ExpandString (Some (View (heap w) s)) v or_wrap ("env variable " +:+ quote key +:+ ": ")) env
      = Ok vs /\
    AddLexicalScope (heap w) (sc_env s) vs = (e, heap w') /\ s' = with_env s e /\
    w' = set_heap (heap w') w.
Proof.
  unfold ExpandAndApplyEnv. intros H. inv_M. eexists. split; [done|].
  unfold on_heap in *. destruct (AddLexicalScope _ _ _) as [e' h'] eqn:E. by simplify_eq.
Qed.

Lemma ExpandAndApplyEnv_effect s env w :
  sc_env s < length (heap w) -> effect heap_evolves (ExpandAndApplyEnv s env) w.
Proof.
  intros Hs. unfold ExpandAndApplyEnv. walk.
  - inv_M. by apply on_heap_scope_effect.
Qed.

Lemma execCommand_heap sd s w : heap (execCommand sd s w).2 = heap w.
Proof.
  unfold execCommand, get, mbind, M_bind, catch, lift.
  match goal with |- context [match ?r with Ok _ => _ | _ => _ end] => destruct r as [[[|c cmd] d]| | |] end;
    try done.
  unfold mret. by destruct (Cmd_Run _ _ _ _ _) as [[[? ?] ?] ?].
Qed.

Lemma Executable_readOutputs_heap sd s w : heap (Executable_readOutputs sd s w).2 = heap w.
Proof.
  unfold Executable_readOutputs, ReadOutputStepResult, ReadOutputValues.
  destruct (IsDelegateOutputs sd); [|done]. unfold mbind, M_bind, wrap.
  by destruct (wrap_err _ _).
Qed.

(** The environment read from an export file is a new object. *)
Lemma ReadExportedEnv_Ok s w e w' :
  ReadExportedEnv s w = (Ok e, w') ->
  exists vs, (e, heap w') = NewEnvironment (heap w) vs /\ w' = set_heap (heap w') w /\
    (kv ← ReadKeyValueLines (files w) (sc_exportFile s); range_map env_text kv) = Ok vs.
Proof.
  unfold ReadExportedEnv, on_heap_res, ReadEnvironment.
  destruct (ReadKeyValueLines (files w) (sc_exportFile s)) as [kv| | |]; cbn; try done.
  destruct (range_map env_text kv) as [vs| | |] eqn:E; cbn; try done. intros [= <- <-]. by exists vs.
Qed.

Lemma ReadExportedEnv_effect s w : effect heap_evolves (ReadExportedEnv s) w.
Proof.
  unfold effect. destruct (ReadExportedEnv s w) as [r w'] eqn:E. cbn.
  destruct r as [e| | |].
  - apply ReadExportedEnv_Ok in E as (vs & H & _ & _). unfold heap_evolves.
    replace (heap w') with (NewEnvironment (heap w) vs).2 by (by rewrite <- H).
    apply evolves_NewEnvironment.
  - unfold ReadExportedEnv, on_heap_res in E. destruct (ReadEnvironment _ _ _) as [[]| | |]; by simplify_eq.
  - unfold ReadExportedEnv, on_heap_res in E. destruct (ReadEnvironment _ _ _) as [[]| | |]; by simplify_eq.
  - unfold ReadExportedEnv, on_heap_res in E. destruct (ReadEnvironment _ _ _) as [[]| | |]; by simplify_eq.
Qed.

(** A newly read environment is a leaf that is not the global environment. *)
Lemma NewEnvironment_leaf h vs e h' :
  (e, h') = NewEnvironment h vs -> g < length h ->
  h' !! e = Some {| vars := vs; parent := None; mutations := [] |} /\ e <> g /\ g < length h'.
Proof.
  unfold NewEnvironment, alloc. intros [= -> ->] Hg. split; [by apply list_lookup_middle|].
  rewrite length_app. cbn. lia.
Qed.

(** ** Runs *)

(** The steps of a run share the global context. *)
Fixpoint step_ok (step : Step) : Prop :=
  match step with
  | ExecutableStep _ _ _ => True
  | SequenceOfSteps _ _ _ steps =>
      (fix all steps := match steps with [] => True | s :: steps' => step_ok s /\ all steps' end) steps
  | LazilyLoadedStep gc _ _ => gc_env gc = g
  end.

Lemma step_ok_Sequence l p sd steps : step_ok (SequenceOfSteps l p sd steps) <-> Forall step_ok steps.
Proof.
  cbn. induction steps as [|s steps IH]; [by split; [constructor|]|].
  rewrite Forall_cons, <- IH. done.
Qed.

Lemma Parse_step_ok gc sd p l step : gc_env gc = g -> Parse gc sd p l = Ok step -> step_ok step.
Proof.
  intros Hg (_ & _ & H)%bind_Ok. apply wrap_err_Ok in H. unfold parseStepType in H.
  destruct (IsTypeExec sd); [by injection H as <-|]. destruct (IsTypeSteps sd); [|done].
  apply bind_Ok in H as (steps & Hs & [= <-]). apply step_ok_Sequence.
  apply slice_map_Ok in Hs. clear -Hs Hg. induction Hs as [|r s rs ss Hr _ IH]; [done|].
  constructor; [|done]. by apply bind_Ok in Hr as (? & _ & [= <-]).
Qed.

Lemma ctx_ok_scope s env w e s' w' :
  ctx_ok s w -> ExpandAndApplyEnv s env w = (Ok (e, s'), w') -> ctx_ok s' w'.
Proof.
  intros [Hg Hs] (vs & _ & He & -> & _)%ExpandAndApplyEnv_Ok. split; [done|]. cbn.
  pose proof (AddLexicalScope_bound (heap w) (sc_env s) vs Hs) as [H _]. by rewrite He in H.
Qed.

(** The effect of the end of an executable step. *)
Lemma AddGlobalEnv_effect s e vs w0 w :
  ctx_ok s w -> g < length (heap w0) -> ReadExportedEnv s w0 = (Ok e, w) ->
  (e, heap w) = NewEnvironment (heap w0) vs ->
  effect heap_evolves (AddGlobalEnv s (Some e)) w.
Proof.
  intros [Hs _] Hg _ Hn. unfold effect, AddGlobalEnv, on_heap, heap_evolves. cbn. rewrite Hs.
  apply NewEnvironment_leaf in Hn as (Hl & Hne & Hg'); [|done]. by apply (evolves_Mutate g _ _ vs).
Qed.

(** The parts of a context that running does not change. *)
Definition same_ctx (s s' : StepsContext) : Prop :=
  sc_globalCtx s' = sc_globalCtx s /\ sc_stepDir s' = sc_stepDir s /\ sc_inputs s' = sc_inputs s /\
  sc_outputFile s' = sc_outputFile s /\ sc_exportFile s' = sc_exportFile s.

#[global] Instance same_ctx_preorder : PreOrder same_ctx.
Proof.
  split; [done|]. intros a b c (? & ? & ? & ? & ?) (? & ? & ? & ? & ?). unfold same_ctx.
  split; [congruence|]. split; [congruence|]. split; [congruence|]. split; congruence.
Qed.

Lemma with_env_same s e : same_ctx s (with_env s e).
Proof. done. Qed.

Lemma RecordResult_same s r : same_ctx s (RecordResult s r).
Proof. unfold RecordResult. destruct r as [[[st|] ?]|]; done. Qed.

Lemma RecordResult_env s r : sc_env (RecordResult s r) = sc_env s.
Proof. unfold RecordResult. destruct r as [[[st|] ?]|]; done. Qed.

Lemma RecordResult_ctx_ok s r w : ctx_ok s w -> ctx_ok (RecordResult s r) w.
Proof.
  intros [Hg Hs]. split; [|by rewrite RecordResult_env].
  destruct (RecordResult_same s r) as [-> _]. done.
Qed.

(** The effect of a sequence of two calls, in the order of the code. *)
Ltac bind_good := cbv beta iota zeta; apply good_bind; [apply _| |].

(** What the [Run] method of a step guarantees: an evolution of the objects, and
    a context that is still good and has changed only in its environment and
    its recorded results. *)
Definition run_ok (m : M outcome) (s : StepsContext) (w : World) : Prop :=
  good heap_evolves (fun o w' => ctx_ok o.2 w' /\ same_ctx s o.2) m w.

Lemma run_ok_ret s w r e s' : ctx_ok s' w -> same_ctx s s' -> run_ok (mret (r, e, s')) s w.
Proof. intros H1 H2. by apply good_ret; [apply _|]. Qed.

Lemma ExpandAndApplyEnv_good s env w e s' w' :
  ctx_ok s w -> ExpandAndApplyEnv s env w = (Ok (e, s'), w') -> ctx_ok s' w' /\ same_ctx s s'.
Proof.
  intros Hs H. split; [by eapply ctx_ok_scope|].
  apply ExpandAndApplyEnv_Ok in H as (_ & _ & _ & -> & _). done.
Qed.

Lemma Executable_Run_ok l p sd s w :
  g < length (heap w) -> ctx_ok s w -> run_ok (Executable_Run l p sd s) s w.
Proof.
  intros Hg Hs. unfold Executable_Run, run_ok.
  bind_good; [apply effect_catch, effect_same_heap, Logln_heap|].
  intros [|err] w1 _ H1; pose proof (ctx_ok_evolves s w w1 Hs H1) as Hs1; [|by apply run_ok_ret].
  bind_good; [by apply effect_catch, ExpandAndApplyEnv_effect, Hs1|].
  intros [[env s2]|err] w2 Hx H2; [apply catch_inl in Hx|apply run_ok_ret; [by eapply ctx_ok_evolves|done]].
  destruct (ExpandAndApplyEnv_good s _ w1 env s2 w2 Hs1 Hx) as [Hs2 Hsame].
  bind_good; [apply effect_get; apply _|]. intros w3 w3' [-> ->]%get_Ok _.
  bind_good; [apply effect_same_heap, execCommand_heap|].
  intros [er err] w4 _ H4. pose proof (ctx_ok_evolves s2 w2 w4 Hs2 H4) as Hs4.
  destruct err; [by apply run_ok_ret|].
  bind_good; [apply effect_catch, effect_same_heap, Executable_readOutputs_heap|].
  intros [outs|err] w5 _ H5; pose proof (ctx_ok_evolves s2 w4 w5 Hs4 H5) as Hs5; [|by apply run_ok_ret].
  bind_good; [apply effect_catch, ReadExportedEnv_effect|].
  intros [e|err] w6 Hr H6; pose proof (ctx_ok_evolves s2 w5 w6 Hs5 H6) as Hs6; [|by apply run_ok_ret].
  apply catch_inl in Hr. bind_good; [apply effect_get; apply _|]. intros w7 w7' [-> ->]%get_Ok _.
  bind_good; [|intros [] w8 _ H8; apply run_ok_ret; [by eapply ctx_ok_evolves|done]].
  assert (heap_evolves w w5) as H by (by trans w1; [|trans w2; [|trans w4]]).
  destruct (ReadExportedEnv_Ok _ _ _ _ Hr) as (vs & Hn & _).
  apply (AddGlobalEnv_effect s2 e vs w5); [done|apply evolves_length in H; lia|done..].
Qed.

(** The loop over the steps of a sequence. *)
Lemma run_steps_ok runf steps b s w :
  (forall step s w, step_ok step -> g < length (heap w) -> ctx_ok s w -> run_ok (runf step s) s w) ->
  Forall step_ok steps -> g < length (heap w) -> ctx_ok s w ->
  good heap_evolves (fun o w' => ctx_ok o.2 w' /\ same_ctx s o.2) (run_steps runf steps b s) w.
Proof.
  intros Hrun Hsteps. revert b s w. induction Hsteps as [|step steps Hstep _ IH]; intros b s w Hg Hs.
  { cbn [run_steps]. apply good_ret; [apply _|done]. }
  cbn [run_steps]. destruct (Hrun step s w Hstep Hg Hs) as [He Hq].
  bind_good; [exact He|]. intros [[r err] s1] w1 Hr H1. destruct (Hq _ _ Hr) as [Hs1 Hsame].
  cbn [snd] in *. assert (same_ctx s (RecordResult s1 r)) as Hrec.
  { trans s1; [done|]. apply RecordResult_same. }
  apply (RecordResult_ctx_ok s1 r w1) in Hs1 as Hs2.
  destruct err as [err|]; [by apply good_ret; [apply _|]|].
  assert (g < length (heap w1)) as Hg1 by (apply evolves_length in H1; lia).
  destruct (IH (ObserveStepResult b r) (RecordResult s1 r) w1 Hg1 Hs2) as [He' Hq'].
  split; [done|]. intros o w' Ho. destruct (Hq' o w' Ho) as [? ?]. split; [done|]. by trans (RecordResult s1 r).
Qed.

Lemma Sequence_Run_ok runf l p sd steps s w :
  (forall step s w, step_ok step -> g < length (heap w) -> ctx_ok s w -> run_ok (runf step s) s w) ->
  Forall step_ok steps -> g < length (heap w) -> ctx_ok s w ->
  run_ok (Sequence_Run runf l p sd steps s) s w.
Proof.
  intros Hrun Hsteps Hg Hs. unfold Sequence_Run, run_ok.
  bind_good; [by apply effect_catch, ExpandAndApplyEnv_effect, Hs|].
  intros [[env s1]|err] w1 Hx H1; [apply catch_inl in Hx|apply run_ok_ret; [by eapply ctx_ok_evolves|done]].
  destruct (ExpandAndApplyEnv_good s _ w env s1 w1 Hs Hx) as [Hs1 Hsame].
  assert (g < length (heap w1)) as Hg1 by (apply evolves_length in H1; lia).
  bind_good; [apply effect_get; apply _|]. intros w2 w2' [-> ->]%get_Ok _.
  destruct (run_steps_ok runf steps (ObserveEnv (heap w1) (NewStepResultBuilder l p sd) (Some env))
    s1 w1 Hrun Hsteps Hg1 Hs1) as [He Hq].
  bind_good; [exact He|]. intros [[b err] s2] w3 Hr H3. destruct (Hq _ _ Hr) as [Hs2 Hsame2].
  cbn [snd] in *. assert (same_ctx s s2) as Hs02 by (by trans s1).
  destruct err as [err|]; [by apply run_ok_ret|].
  bind_good; [apply effect_get; apply _|]. intros w4 w4' [-> ->]%get_Ok _.
  bind_good; [apply effect_catch, effect_lift; apply _|].
  intros [outs|err] w5 _ H5; apply run_ok_ret; try done; by eapply ctx_ok_evolves.
Qed.

Lemma EnvWithLexicalScope_Ok s vs w e w' :
  EnvWithLexicalScope s vs w = (Ok e, w') ->
  AddLexicalScope (heap w) (sc_env s) vs = (e, heap w') /\ w' = set_heap (heap w') w.
Proof.
  unfold EnvWithLexicalScope, on_heap. destruct (AddLexicalScope _ _ _) as [e' h'].
  by intros [= -> <-].
Qed.

Lemma EnvWithLexicalScope_effect s vs w :
  sc_env s < length (heap w) -> effect heap_evolves (EnvWithLexicalScope s vs) w.
Proof. intros. by apply on_heap_scope_effect. Qed.

Lemma loadStep_good fuel r sr s w :
  ctx_ok s w ->
  good heap_evolves (fun o _ => step_ok o.1.1) (loadStep fuel r sr s) w.
Proof.
  intros Hs. unfold loadStep.
  bind_good; [apply effect_get; apply _|]. intros w0 w0' [-> ->]%get_Ok _.
  bind_good; [apply effect_wrap, Fetch_effect|]. intros sd w1 _ H1.
  bind_good; [apply effect_lift; apply _|]. intros ins w2 [_ ->]%lift_Ok _.
  bind_good; [apply effect_get; apply _|]. intros w3 w3' [-> ->]%get_Ok _.
  bind_good; [apply effect_lift; apply _|]. intros ins' w2 [_ ->]%lift_Ok _.
  bind_good; [apply effect_lift; apply _|]. intros env w2 [_ ->]%lift_Ok _.
  bind_good; [apply EnvWithLexicalScope_effect; by eapply ctx_ok_evolves|]. intros e w2 _ H2.
  bind_good; [apply effect_get; apply _|]. intros w3 w3' [-> ->]%get_Ok _.
  bind_good; [apply effect_lift; apply _|]. intros step w3 [Hp ->]%lift_Ok _.
  apply wrap_err_Ok in Hp. apply good_ret; [apply _|]. cbn [fst]. eapply Parse_step_ok; [apply Hs|exact Hp].
Qed.

Lemma NewStepsContext_Ok gc d i e opts w s w' :
  NewStepsContext gc d i e opts w = (Ok s, w') -> opts = [] ->
  exists out ex, s = {| sc_globalCtx := gc; sc_stepDir := d; sc_env := e; sc_inputs := i;
    sc_steps := ∅; sc_outputFile := out; sc_exportFile := ex |}.
Proof.
  intros H ->. unfold NewStepsContext in H.
  apply M_bind_Ok in H as (out & w1 & _ & H). apply M_bind_Ok in H as (ex & w2 & _ & H).
  inv_M. by eexists _, _.
Qed.

Lemma Lazily_Run_ok runf fuel gc r sr s w :
  (forall step s w, step_ok step -> g < length (heap w) -> ctx_ok s w -> run_ok (runf step s) s w) ->
  gc_env gc = g -> g < length (heap w) -> ctx_ok s w ->
  run_ok (Lazily_Run runf fuel gc r sr s) s w.
Proof.
  intros Hrun Hgc Hg Hs. unfold Lazily_Run, run_ok.
  destruct (loadStep_good fuel r sr s w Hs) as [He Hq].
  bind_good; [by apply effect_catch|].
  intros [[[step params] sd]|err] w1 Hl H1;
    [apply catch_inl in Hl|apply run_ok_ret; [by eapply ctx_ok_evolves|done]].
  pose proof (Hq _ _ Hl) as Hstep. cbn [fst] in Hstep.
  pose proof (ctx_ok_evolves s w w1 Hs H1) as Hs1.
  bind_good; [apply EnvWithLexicalScope_effect, Hs1|].
  intros env w2 Henv H2. apply EnvWithLexicalScope_Ok in Henv as [Henv _].
  pose proof (AddLexicalScope_bound (heap w1) (sc_env s) (Params_Env params) (proj2 Hs1)) as [Hb _].
  rewrite Henv in Hb. cbn [fst snd] in Hb.
  bind_good; [apply effect_catch, NewStepsContext_effect|].
  intros [sc|err] w3 Hc H3; [apply catch_inl in Hc|].
  2:{ apply run_ok_ret; [|done]. eapply ctx_ok_evolves; [exact Hs1|]. by trans w2. }
  assert (ctx_ok sc w3) as Hsc.
  { destruct (NewStepsContext_Ok _ _ _ _ _ _ _ _ Hc ltac:(done)) as (out & ex & ->).
    split; [done|]. cbn. apply evolves_length in H3. lia. }
  assert (heap_evolves w w3) as H03 by (trans w1; [done|]; by trans w2).
  assert (g < length (heap w3)) as Hg3 by (apply evolves_length in H03; lia).
  destruct (Hrun step sc w3 Hstep Hg3 Hsc) as [Her _].
  bind_good.
  - apply effect_finally; [apply _|exact Her|]. intros w4 _. apply Cleanup_effect.
  - intros [[res err] sc'] w4 _ H4. apply run_ok_ret; [|done].
    eapply ctx_ok_evolves; [exact Hs1|]. trans w2; [done|]. by trans w3.
Qed.

(** Every run evolves the objects and keeps the context good. *)
Lemma run_is_ok fuel step s w :
  step_ok step -> g < length (heap w) -> ctx_ok s w -> run_ok (run fuel step s) s w.
Proof.
  revert step s w. induction fuel as [|fuel IH]; intros step s w Hstep Hg Hs; cbn [run].
  { split; [apply effect_lift; apply _|done]. }
  destruct step as [l p sd|l p sd steps|gc r sr].
  - by apply Executable_Run_ok.
  - apply step_ok_Sequence in Hstep. by apply Sequence_Run_ok.
  - by apply Lazily_Run_ok.
Qed.
End heap.
