(* ===== verification/Termination.v ===== *)
(** Runs terminate: more fuel never changes a run that finished, and the fuel
    that is enough is bounded by how deep definitions are nested. *)

From stdpp Require Import gmap strings list fin_maps.
From S2P Require Import Prelude GoStrings GoPaths Values Expression ExpressionFacts Environment Proto.
From S2P Require Import StepFile ShortReference Schema SpecDefinition World Resources Runner RunnerFacts.
Open Scope go_scope.
Open Scope string_scope.
Open Scope list_scope.

(** ** The parts without fuel are decided *)

#[export] Hint Resolve ExpandString_decided Expand_decided ReadKeyValueLines_decided
  ReadStepResult_decided ReadEnvironment_decided ReadValues_decided NewValue_decided
  unmarshalSchema_decided : go.

Section decided_schema.
  Context `{SP : StructPB} `{MR : MapRange} `{FM : schema.Format}.
  Import schema.

Lemma compile_value_decided v : decided (compile_value v) = true.
Proof. apply NewValue_decided. Qed.

Lemma Input_compile_decided i : decided (Input_compile i) = true.
Proof.
  unfold Input_compile, Input_compileToProto, Input_verifyDefaultValueMatchesType.
  walk_decided. apply compile_value_decided.
Qed.

Lemma Output_compile_decided o : decided (Output_compile o) = true.
Proof.
  unfold Output_compile, Output_compileToProto, Output_verifyDefaultValueMatchesType.
  walk_decided. apply compile_value_decided.
Qed.

Lemma Spec_Compile_decided spec : decided (Spec_Compile spec).2 = true.
Proof.
  unfold Spec_Compile, compile_input, compile_output. cbn [snd].
  walk_decided; [apply Input_compile_decided|apply Output_compile_decided].
Qed.

Lemma compile_short_decided sr : decided (compile_short sr) = true.
Proof.
  unfold compile_short, compileLocal, compileDist, compileRemote. walk_decided.
Qed.

Lemma CompileStep_decided s : decided (CompileStep s) = true.
Proof.
  unfold CompileStep, compileScriptKeywordToStep, compileActionKeywordToStep, compileToStepProto,
    Reference_compile, compileGit, compileOCI.
  walk_decided; try apply compile_value_decided; apply compile_short_decided.
Qed.

Lemma Compile_decided s : decided (Compile s) = true.
Proof.
  unfold Compile, verifyOneTypeProvided, compileToDefinitionProto, compile_step_output.
  walk_decided; try apply compile_value_decided.
  match goal with |- decided (compile_run ?n ?i ?l) = true => generalize i end.
  induction l as [|s' l IH]; intros i; [done|]. cbn [compile_run].
  walk_decided. apply CompileStep_decided.
Qed.
End decided_schema.

(** ** More fuel never hurts *)

Section fuel.
  Context `{Sy : System} `{SE : StepFileEnv} `{SP : StructPB} `{MR : MapRange} `{FM : schema.Format}.

(** [m2] does what [m1] does whenever [m1] has enough fuel. *)
Definition refines {A} (m1 m2 : M A) : Prop := forall w, decided (m1 w).1 = true -> m2 w = m1 w.

Lemma refines_refl {A} (m : M A) : refines m m.
Proof. done. Qed.

Lemma refines_bind {A B} (m1 m2 : M A) (f1 f2 : A -> M B) :
  refines m1 m2 -> (forall a, refines (f1 a) (f2 a)) -> refines (m1 ≫= f1) (m2 ≫= f2).
Proof.
  intros Hm Hf w. unfold refines, mbind, M_bind in *. specialize (Hm w).
  destruct (m1 w) as [[a| | |] w1]; cbn in *; intros H; try done; rewrite Hm by done; try done.
  by apply Hf.
Qed.

Lemma refines_wrap {A} pre (m1 m2 : M A) : refines m1 m2 -> refines (wrap pre m1) (wrap pre m2).
Proof.
  intros Hm w. unfold wrap. specialize (Hm w). destruct (m1 w) as [[] w1]; cbn in *; intros H;
    try done; by rewrite Hm.
Qed.

Lemma refines_catch {A} (m1 m2 : M A) : refines m1 m2 -> refines (catch m1) (catch m2).
Proof.
  intros Hm w. unfold catch. specialize (Hm w). destruct (m1 w) as [[] w1]; cbn in *; intros H;
    try done; by rewrite Hm.
Qed.

Lemma refines_finally {A} (m1 m2 : M A) d : refines m1 m2 -> refines (finally m1 d) (finally m2 d).
Proof.
  intros Hm w. unfold finally. specialize (Hm w). destruct (m1 w) as [[] w1]; cbn in *; intros H;
    try done; by rewrite Hm.
Qed.

Lemma Fetch_mono n n' sr v : n <= n' -> refines (Fetch n sr v) (Fetch n' sr v).
Proof.
  revert n' sr. induction n as [|n IH]; intros n' sr Hn.
  - destruct sr; try (destruct n'; apply refines_refl). intros w. done.
  - destruct n' as [|n']; [lia|]. destruct sr; try apply refines_refl.
    cbn [Fetch]. repeat (apply refines_bind; [apply refines_refl|intros ?]). apply IH. lia.
Qed.

Lemma loadStep_mono n n' r sr s : n <= n' -> refines (loadStep n r sr s) (loadStep n' r sr s).
Proof.
  intros Hn. unfold loadStep. apply refines_bind; [apply refines_refl|intros w].
  apply refines_bind; [by apply refines_wrap, Fetch_mono|intros sd]. apply refines_refl.
Qed.

Lemma run_steps_mono r1 r2 steps b s :
  (forall step s, refines (r1 step s) (r2 step s)) ->
  refines (run_steps r1 steps b s) (run_steps r2 steps b s).
Proof.
  intros Hr. revert b s. induction steps as [|step steps IH]; intros b s; [apply refines_refl|].
  cbn [run_steps]. apply refines_bind; [apply Hr|]. intros [[res err] s'].
  destruct err; [apply refines_refl|apply IH].
Qed.

Lemma run_mono n n' step s : n <= n' -> refines (run n step s) (run n' step s).
Proof.
  revert n' step s. induction n as [|n IH]; intros n' step s Hn; [by intros w|].
  destruct n' as [|n']; [lia|]. assert (n <= n') as Hn' by lia. cbn [run].
  destruct step as [l p sd|l p sd steps|gc r sr]; [apply refines_refl|..].
  - unfold Sequence_Run. apply refines_bind; [apply refines_refl|]. intros [[env s']|err];
      [|apply refines_refl]. apply refines_bind; [apply refines_refl|]. intros w.
    apply refines_bind; [|intros; apply refines_refl].
    apply run_steps_mono. intros. by apply IH.
  - unfold Lazily_Run. apply refines_bind; [by apply refines_catch, loadStep_mono|].
    intros [[[step params] sd]|err]; [|apply refines_refl].
    apply refines_bind; [apply refines_refl|intros env]. apply refines_bind; [apply refines_refl|].
    intros [sc|err]; [|apply refines_refl].
    apply refines_bind; [by apply refines_finally, IH|]. intros; apply refines_refl.
Qed.

Lemma run_more n n' step s w :
  n <= n' -> decided (run n step s w).1 = true -> run n' step s w = run n step s w.
Proof. intros Hn. by apply run_mono. Qed.
End fuel.

(** ** Enough fuel *)

(** The same as [walk_decided] for calls. *)
Ltac walk_call :=
  repeat first
    [ lazymatch goal with
      | |- decided (@mbind _ M_bind _ _ _ _ _).1 = true => apply M_bind_decided; [|intros ? ? ?]
      | |- decided (@mret _ M_ret _ _ _).1 = true => reflexivity
      | |- decided (wrap _ _ _).1 = true => rewrite wrap_decided
      | |- decided (catch _ _).1 = true => rewrite catch_decided
      | |- decided (get _).1 = true => reflexivity
      | |- decided (lift (Panic _) _).1 = true => reflexivity
      | |- decided (lift _ _).1 = true => rewrite lift_decided
      | |- decided ((match ?x with _ => _ end) _).1 = true => destruct x
      end
    | progress walk_decided ].

Section enough.
  Context `{Sy : System} `{SE : StepFileEnv} `{SP : StructPB} `{MR : MapRange} `{FM : schema.Format}.

Lemma LoadSteps_decided f w : decided (LoadSteps f w).1 = true.
Proof.
  unfold LoadSteps. destruct (files w !! f); [|done]. cbn. unfold ReadSteps. walk_decided.
Qed.

Lemma stepDir_decided d p v : decided (stepDir d p v) = true.
Proof.
  unfold stepDir. pose proof (ExpandString_decided v p) as H. destruct (ExpandString v p) as [x| | |]; try done.
  by destruct (HasPrefix x "/").
Qed.

Lemma FileSystem_Fetch_decided d p f v w : decided (FileSystem_Fetch d p f v w).1 = true.
Proof.
  unfold FileSystem_Fetch. walk_call.
  - apply stepDir_decided.
  - apply LoadSteps_decided.
  - apply Spec_Compile_decided.
  - apply Compile_decided.
Qed.

(** Only dynamic references need fuel. *)
Lemma Fetch_decided_static n sr v w :
  (forall r, sr <> DynamicStepResource r) -> decided (Fetch n sr v w).1 = true.
Proof.
  intros Hd. destruct sr as [d p f|u ver p f|p f|r|sd]; [..|by destruct (Hd r)|by destruct n].
  - destruct n; apply FileSystem_Fetch_decided.
  - replace (Fetch n _ v) with (Git_Fetch u ver p f v) by (by destruct n). unfold Git_Fetch.
    walk_call; [|apply FileSystem_Fetch_decided].
    match goal with |- context [Git_Get ?a ?b ?c ?d] =>
      pose proof (Git_Get_decided a b c d) as Hg; destruct (Git_Get a b c d) as [[? ?] ?] end. exact Hg.
  - replace (Fetch n _ v) with (Dist_Fetch_resource p f) by (by destruct n). unfold Dist_Fetch_resource.
    walk_call; [|apply FileSystem_Fetch_decided].
    match goal with |- context [Dist_Fetch ?a ?b ?c] =>
      pose proof (Dist_Fetch_decided a b c) as Hg; destruct (Dist_Fetch a b c) as [[? ?] ?] end. exact Hg.
Qed.

Lemma Executable_Run_decided l p sd s w : decided (Executable_Run l p sd s w).1 = true.
Proof.
  assert (forall A (f : proto.Definition_Exec -> A), decided (exec_field f sd) = true) as Hf.
  { intros A f. unfold exec_field. by destruct (proto.Def_Exec _). }
  unfold Executable_Run. walk_call.
  - unfold Logln, Logf. by destruct (Write_stdout _ _) as [[] ?].
  - unfold ExpandAndApplyEnv. walk_call. unfold on_heap. by destruct (AddLexicalScope _ _ _).
  - unfold execCommand. walk_call.
    + apply Hf.
    + apply slice_map_decided. intros. walk_decided.
    + unfold determineWorkDir. walk_decided. apply Hf.
    + cbn. by destruct (Cmd_Run _ _ _ _ _) as [[[? ?] ?] ?].
  - unfold Executable_readOutputs. walk_call.
    + apply ReadStepResult_decided.
    + apply ReadValues_decided.
  - unfold ReadExportedEnv, on_heap_res. cbv beta.
    match goal with |- context [ReadEnvironment ?a ?b ?c] =>
      pose proof (ReadEnvironment_decided a b c) as Hr; destruct (ReadEnvironment a b c) as [[? ?]| | |] end;
      done.
Qed.

(** ** Nested definitions *)

(** The definition [sd] is nested at most [n] deep: wherever its steps lead, the
    reference settles on a definition nested less deep, whatever the world and
    the context are by then. *)
Fixpoint nested (n : nat) (sd : SpecDefinition) : Prop :=
  IsTypeSteps sd = true ->
  match n with
  | O => Steps sd = []
  | S m =>
      Forall (fun r => forall sr, parseResource (Dir sd) (proto.Step_Step r) = Ok sr ->
        forall v w, decided (Fetch n sr v w).1 = true /\
          forall sd' w', Fetch n sr v w = (Ok sd', w') -> nested m sd') (Steps sd)
  end.

(** A step whose run ends with this fuel. *)
Definition ends (fuel : nat) (step : Step) : Prop := forall s w, decided (run fuel step s w).1 = true.

Lemma ends_more n n' step : n <= n' -> ends n step -> ends n' step.
Proof. intros Hn He s w. rewrite (run_more n n') by (done || apply He). apply He. Qed.

Lemma validateInputs_decided si i : decided (validateInputs si i) = true.
Proof. unfold validateInputs. walk_decided. Qed.

Lemma parseResource_decided d r : decided (parseResource d r) = true.
Proof. unfold parseResource. walk_decided. Qed.

Lemma Parse_decided gc sd p l : decided (Parse gc sd p l) = true.
Proof.
  unfold Parse, parseStepType. walk_decided; [apply validateInputs_decided|].
  apply slice_map_decided. intros. walk_decided. apply parseResource_decided.
Qed.

Lemma buildInputVars_decided r sd : decided (buildInputVars r sd) = true.
Proof. unfold buildInputVars. walk_decided. Qed.

Lemma NewStepFileInTmp_decided w : decided (NewStepFileInTmp w).1 = true.
Proof.
  assert (forall d w, decided (NewStepFileInDir d w).1 = true) as Hd.
  { intros d w0. unfold NewStepFileInDir. destruct (Uint32 _). apply M_bind_decided; [|done].
    rewrite wrap_decided. apply os_WriteFile_decided. }
  unfold NewStepFileInTmp. destruct (String.eqb _ _); [|apply Hd].
  pose proof (MkdirTemp_decided (os w)) as H. destruct (MkdirTemp (os w)) as [[] o]; done || apply Hd.
Qed.

Lemma Cleanup_decided s w : decided (Cleanup s w).1 = true.
Proof.
  assert (forall p w, decided (Remove p w).1 = true) as Hr.
  { intros p w0. unfold Remove. by destruct (Remove_error _ _ _). }
  unfold Cleanup. walk_call; apply Hr.
Qed.

Lemma finally_decided {A} (m : M A) d w :
  decided (m w).1 = true -> (forall w1, decided (d w1).1 = true) -> decided (finally m d w).1 = true.
Proof.
  unfold finally. destruct (m w) as [[] w1]; cbn; intros H1 H2; try done;
    specialize (H2 w1); by destruct (d w1) as [[] ?].
Qed.

Lemma on_heap_decided {A} (f : env_heap -> A * env_heap) w : decided (on_heap f w).1 = true.
Proof. unfold on_heap. by destruct (f (heap w)). Qed.

Lemma context_assign_decided v x : decided (context.Assign v x) = true.
Proof. unfold context.Assign. by destruct (_ && _). Qed.

(** Loading a step is decided when fetching it is. *)
Lemma loadStep_decided n r sr s w :
  (forall v w, decided (Fetch n sr v w).1 = true) -> decided (loadStep n r sr s w).1 = true.
Proof.
  intros Hf. unfold loadStep. walk_call.
  - apply buildInputVars_decided.
  - apply context_assign_decided.
  - apply on_heap_decided.
  - apply Parse_decided.
Qed.

(** What a step that was loaded was parsed from. *)
Lemma loadStep_parsed n r sr s w step params sd w' :
  loadStep n r sr s w = (Ok (step, params, sd), w') ->
  (exists v w1, Fetch n sr v w = (Ok sd, w1)) /\
  Parse (sc_globalCtx s) sd params (NewNamedStepReference (proto.Step_Name r) (proto.Step_Step r)) = Ok step.
Proof.
  unfold loadStep. intros H.
  apply M_bind_Ok in H as (w0 & w0' & [-> ->]%get_Ok & H).
  apply M_bind_Ok in H as (sd0 & w1 & Hf & H). apply wrap_Ok in Hf.
  apply M_bind_Ok in H as (ins & ? & _ & H). apply M_bind_Ok in H as (? & ? & _ & H).
  apply M_bind_Ok in H as (ins' & ? & _ & H). apply M_bind_Ok in H as (env & ? & _ & H).
  apply M_bind_Ok in H as (e & ? & _ & H). apply M_bind_Ok in H as (? & ? & _ & H).
  apply M_bind_Ok in H as (st & ? & [Hp ->]%lift_Ok & H). apply wrap_err_Ok in Hp.
  apply ret_Ok in H as [[= <- <- <-] ->]. split; [by eexists _, _|exact Hp].
Qed.

Lemma Lazily_ends n fuel gc r sr :
  (forall v w, decided (Fetch fuel sr v w).1 = true) ->
  (forall v w sd w' gc' params l step, Fetch fuel sr v w = (Ok sd, w') ->
     Parse gc' sd params l = Ok step -> ends n step) ->
  n <= fuel -> ends (S fuel) (LazilyLoadedStep gc r sr).
Proof.
  intros Hf Hs Hn s w. cbn [run]. unfold Lazily_Run.
  apply M_bind_decided; [rewrite catch_decided; by apply loadStep_decided|].
  intros [[[step params] sd]|err] w1 Hl; [apply catch_inl in Hl|done].
  apply loadStep_parsed in Hl as ((v & w0 & Hfetch) & Hp).
  apply M_bind_decided; [apply on_heap_decided|]. intros env w2 _.
  apply M_bind_decided.
  { rewrite catch_decided. unfold NewStepsContext. walk_call; apply NewStepFileInTmp_decided. }
  intros [sc|err] w3 _; [|done]. apply M_bind_decided; [|by intros [[? ?] ?] ? _].
  apply finally_decided; [|apply Cleanup_decided].
  assert (ends fuel step) as He by (eapply ends_more; [exact Hn|]; by eapply Hs). apply He.
Qed.

Lemma run_steps_decided runf steps b s w :
  (forall step s w, step ∈ steps -> decided (runf step s w).1 = true) ->
  decided (run_steps runf steps b s w).1 = true.
Proof.
  revert b s w. induction steps as [|step steps IH]; intros b s w H; [done|]. cbn [run_steps].
  apply M_bind_decided; [apply H; left|]. intros [[r err] s'] w1 _. destruct err; [done|].
  apply IH. intros. apply H. by right.
Qed.

Lemma Sequence_ends n l p sd steps : Forall (ends n) steps -> ends (S n) (SequenceOfSteps l p sd steps).
Proof.
  intros Hs s w. cbn [run]. unfold Sequence_Run. walk_call.
  - unfold ExpandAndApplyEnv. walk_call. apply on_heap_decided.
  - apply run_steps_decided. intros step s' w' Hin. rewrite Forall_forall in Hs. by apply Hs.
  - unfold Sequence_readOutputs. destruct (IsDelegateOutputs sd).
    + match goal with |- decided (findOutputsWithName _ ?l) = true => induction l as [|r rs IH] end; [done|].
      cbn. destruct (proto.SR_Step r); [|done]. by destruct (String.eqb _ _).
    + unfold interpolateStepOutputs. walk_decided.
Qed.

Lemma nested_ends n sd gc params l step :
  nested n sd -> Parse gc sd params l = Ok step -> ends (2 * n + 1) step.
Proof.
  revert sd gc params l step. induction n as [|n IH]; intros sd gc params l step Hn Hp.
  - unfold Parse in Hp. apply bind_Ok in Hp as (_ & _ & Hp%wrap_err_Ok). unfold parseStepType in Hp.
    destruct (IsTypeExec sd); [injection Hp as <-; intros s w; apply Executable_Run_decided|].
    destruct (IsTypeSteps sd) eqn:Ht; [|done]. cbn [nested] in Hn. rewrite (Hn Ht) in Hp.
    injection Hp as <-. by apply (Sequence_ends 0).
  - unfold Parse in Hp. apply bind_Ok in Hp as (_ & _ & Hp%wrap_err_Ok). unfold parseStepType in Hp.
    destruct (IsTypeExec sd).
    { injection Hp as <-. intros s w. apply Executable_Run_decided. }
    destruct (IsTypeSteps sd) eqn:Ht; [|done]. specialize (Hn Ht).
    apply bind_Ok in Hp as (steps & Hs & [= <-]). apply slice_map_Ok in Hs.
    replace (2 * S n + 1) with (S (S (2 * n + 1))) by lia. apply Sequence_ends.
    revert Hn. generalize (Steps sd), steps, Hs. clear Hs steps. intros rs steps Hs.
    induction Hs as [|r st rs sts Hr _ IHs]; intros Hn; [constructor|].
    apply Forall_cons_1 in Hn as [Hn Hns]. constructor; [|by apply IHs].
    apply bind_Ok in Hr as (sr & Hsr & [= <-]). specialize (Hn sr Hsr).
    assert (forall v w, Fetch (2 * n + 1) sr v w = Fetch (S n) sr v w) as Hmore.
    { intros v w. destruct n as [|n]; [done|]. apply Fetch_mono; [lia|]. apply Hn. }
    apply (Lazily_ends (2 * n + 1)); [| |done].
    + intros v w. rewrite Hmore. apply Hn.
    + intros v w sd' w' gc' params' l' st' Hf. rewrite Hmore in Hf.
      apply (proj2 (Hn v w)) in Hf. intros Hp. by eapply IH.
Qed.
End enough.
