(* ===== verification/RunnerSpec.v ===== *)
(** What runs promise: the shape of the results, the order of the steps of a
    sequence, the environment and the inputs a step sees, what its exports
    reach, and when a run ends. *)

From stdpp Require Import gmap strings list fin_maps.
From S2P Require Import Prelude GoStrings GoPaths Values Expression ExpressionFacts Environment Evolution.
From S2P Require Import Proto StepFile ShortReference Schema SpecDefinition World Resources Runner.
From S2P Require Import RunnerFacts Termination.
Open Scope go_scope.
Open Scope string_scope.
Open Scope list_scope.

(** ** The shape of results *)

(** A result is a success exactly when it comes without an error, and the steps
    of a successful sequence were all successful. *)
Fixpoint wf_result (r : proto.StepResult) : Prop :=
  (proto.SR_Status r = proto.success \/ proto.SR_Status r = proto.failure) /\
  (fix all rs := match rs with
                 | [] => True
                 | r' :: rs' =>
                     (proto.SR_Status r = proto.success -> proto.SR_Status r' = proto.success) /\
                     wf_result r' /\ all rs'
                 end) (proto.SR_SubStepResults r).

(** A recorded name, status and error of a call that returned. *)
Definition wf_return (r : option proto.StepResult) (e : option error) : Prop :=
  match r, e with
  | Some r, None => wf_result r /\ proto.SR_Status r = proto.success
  | Some r, Some _ => wf_result r /\ proto.SR_Status r = proto.failure
  | None, None => False
  | None, Some _ => True
  end.

Lemma wf_result_intro r :
  (proto.SR_Status r = proto.success \/ proto.SR_Status r = proto.failure) ->
  Forall (fun r' => wf_result r' /\ (proto.SR_Status r = proto.success -> proto.SR_Status r' = proto.success))
    (proto.SR_SubStepResults r) -> wf_result r.
Proof.
  intros Hs Hall. destruct r as [st sd status outs exps env er subs]. cbn in *. split; [done|].
  induction Hall as [|r' rs [? ?] _ IH]; [done|]. done.
Qed.

Section results.
  Context `{Sy : System} `{SE : StepFileEnv} `{SP : StructPB} `{MR : MapRange} `{FM : schema.Format}.

Lemma execCommand_builder b er : b_subStepResults (ObserveExecutedCmd b er) = b_subStepResults b.
Proof. by destruct er. Qed.

Lemma Executable_Run_result l p sd s w r e s' w' :
  Executable_Run l p sd s w = (Ok (r, e, s'), w') -> wf_return r e.
Proof.
  unfold Executable_Run. intros H. apply M_bind_Ok in H as (lg & w1 & _ & H).
  destruct lg; [|by inv_M]. apply M_bind_Ok in H as (x & w2 & _ & H).
  destruct x as [[env s2]|]; [|apply ret_Ok in H as [[= <- <- <-] _]; split; [apply wf_result_intro; cbn; auto|done]].
  apply M_bind_Ok in H as (w3 & w3' & _ & H).
  apply M_bind_Ok in H as ([er [err|]] & w4 & _ & H).
  { apply ret_Ok in H as [[= <- <- <-] _]. split; [apply wf_result_intro; cbn; [auto|by destruct er]|done]. }
  apply M_bind_Ok in H as ([outs|err] & w5 & _ & H).
  2:{ apply ret_Ok in H as [[= <- <- <-] _]. split; [apply wf_result_intro; cbn; [auto|by destruct er]|done]. }
  apply M_bind_Ok in H as ([ex|err] & w6 & _ & H).
  2:{ apply ret_Ok in H as [[= <- <- <-] _]. split; [apply wf_result_intro; cbn; [auto|by destruct er]|done]. }
  apply M_bind_Ok in H as (w7 & w7' & _ & H). apply M_bind_Ok in H as (? & w8 & _ & H).
  apply ret_Ok in H as [[= <- <- <-] _]. split; [apply wf_result_intro; cbn; [auto|by destruct er]|done].
Qed.

(** ** The steps of a sequence *)

(** The runs of a sequence of steps, one after the other, each in the context
    the one before left: their results, the error of the last one, and what
    is left.  No step follows a step that failed. *)
Inductive trace (runf : Step -> StepsContext -> M outcome) :
    list Step -> StepsContext -> World -> list (option proto.StepResult) -> option error ->
    StepsContext -> World -> Prop :=
  | trace_done s w : trace runf [] s w [] None s w
  | trace_fail step steps s w r e s' w' :
      runf step s w = (Ok (r, Some e, s'), w') ->
      trace runf (step :: steps) s w [r] (Some e) (RecordResult s' r) w'
  | trace_step step steps s w r s' w' rs e s'' w'' :
      runf step s w = (Ok (r, None, s'), w') ->
      trace runf steps (RecordResult s' r) w' rs e s'' w'' ->
      trace runf (step :: steps) s w (r :: rs) e s'' w''.

(** The results a builder collects. *)
Definition observed (b : StepResultBuilder) (rs : list (option proto.StepResult)) :
    StepResultBuilder := foldl ObserveStepResult b rs.

Lemma run_steps_trace runf steps b s w b' e s' w' :
  run_steps runf steps b s w = (Ok (b', e, s'), w') <->
  exists rs, trace runf steps s w rs e s' w' /\ b' = observed b rs.
Proof.
  revert b s w. induction steps as [|step steps IH]; intros b s w; cbn [run_steps].
  - split.
    + intros [[= <- <- <-] ->]%ret_Ok. exists []. split; [constructor|done].
    + intros (rs & Ht & ->). inversion Ht; subst. done.
  - split.
    + intros ([[r err] s1] & w1 & Hr & H)%M_bind_Ok. destruct err as [err|].
      * apply ret_Ok in H as [[= <- <- <-] ->]. exists [r]. split; [by constructor|done].
      * apply IH in H as (rs & Ht & ->). exists (r :: rs). split; [by econstructor|done].
    + intros (rs & Ht & ->). inversion Ht; subst.
      * erewrite M_bind_step by eassumption. done.
      * erewrite M_bind_step by eassumption. cbv beta iota. apply IH. by eexists.
Qed.

Lemma observed_sub b rs :
  b_subStepResults (observed b rs) = b_subStepResults b ++ omap id rs.
Proof.
  revert b. induction rs as [|[r|] rs IH]; intros b; cbn.
  - by rewrite app_nil_r.
  - unfold observed in IH. rewrite IH. cbn. by rewrite <- app_assoc.
  - apply IH.
Qed.

Lemma observed_other b rs :
  b_loadedFrom (observed b rs) = b_loadedFrom b /\ b_params (observed b rs) = b_params b /\
  b_specDef (observed b rs) = b_specDef b /\ b_env (observed b rs) = b_env b /\
  b_execResult (observed b rs) = b_execResult b /\ b_exports (observed b rs) = b_exports b /\
  b_outputs (observed b rs) = b_outputs b.
Proof.
  revert b. induction rs as [|r rs IH]; intros b; [done|].
  change (observed b (r :: rs)) with (observed (ObserveStepResult b r) rs).
  destruct (IH (ObserveStepResult b r)) as (-> & -> & -> & -> & -> & -> & ->). by destruct r.
Qed.

(** In a trace whose steps return well-formed results, all but the last are
    successes, and the error is that of the last. *)
Lemma trace_results runf steps s w rs e s' w' :
  (forall step s w r e s' w', runf step s w = (Ok (r, e, s'), w') -> wf_return r e) ->
  trace runf steps s w rs e s' w' ->
  Forall wf_result (omap id rs) /\
  match e with
  | None => length rs = length steps /\
            Forall (fun r => exists x, r = Some x /\ proto.SR_Status x = proto.success) rs
  | Some err => exists ok r, rs = ok ++ [r] /\ length rs <= length steps /\ wf_return r (Some err) /\
            Forall (fun r => exists x, r = Some x /\ proto.SR_Status x = proto.success) ok
  end.
Proof.
  intros Hrun Ht. induction Ht as [s w|step steps s w r e s' w' Hr|step steps s w r s' w' rs e s'' w'' Hr Ht IH].
  - split; [constructor|]. split; [done|constructor].
  - pose proof (Hrun _ _ _ _ _ _ _ Hr) as Hw. split.
    + destruct r as [r|]; cbn; [constructor; [apply Hw|constructor]|constructor].
    + exists [], r. split; [done|]. split; [cbn; lia|]. split; [done|constructor].
  - pose proof (Hrun _ _ _ _ _ _ _ Hr) as Hw. destruct IH as [Hall IH].
    destruct r as [r|]; [|done]. destruct Hw as [Hwf Hs]. cbn. split; [by constructor|].
    destruct e as [err|].
    + destruct IH as (ok & r' & -> & Hlen & Hw' & Hok). exists (Some r :: ok), r'.
      split; [done|]. split; [cbn; lia|]. split; [done|]. constructor; [by eexists|done].
    + destruct IH as [Hlen Hok]. split; [lia|]. constructor; [by eexists|done].
Qed.

(** How a sequence returns. *)
Lemma Sequence_Run_inv runf l p sd steps s w r e s' w' :
  Sequence_Run runf l p sd steps s w = (Ok (r, e, s'), w') ->
  (exists err, ExpandAndApplyEnv s (Env sd) w = (Err err, w') /\ s' = s /\
     r = Some (BuildFailure (NewStepResultBuilder l p sd)) /\
     e = Some (WrapError "expand step env: " err "")) \/
  (exists env s1 w1 rs b,
     ExpandAndApplyEnv s (Env sd) w = (Ok (env, s1), w1) /\
     b = observed (ObserveEnv (heap w1) (NewStepResultBuilder l p sd) (Some env)) rs /\
     ((exists err, trace runf steps s1 w1 rs (Some err) s' w' /\
         r = Some (BuildFailure b) /\ e = Some err) \/
      (trace runf steps s1 w1 rs None s' w' /\
         match Sequence_readOutputs sd (View (heap w') s') (StepResults s') with
         | Ok outs => r = Some (Build (ObserveOutputs b outs)) /\ e = None
         | Err err => r = Some (BuildFailure (ObserveOutputs b ∅)) /\
                      e = Some (WrapError "outputs: " err "")
         | _ => False
         end))).
Proof.
  unfold Sequence_Run. intros H. apply M_bind_Ok in H as (x & w1 & Hx & H).
  destruct x as [[env s1]|err].
  - right. apply catch_inl in Hx. apply M_bind_Ok in H as (w2 & w2' & [-> ->]%get_Ok & H).
    apply M_bind_Ok in H as ([[b err] s2] & w3 & Hr & H).
    apply run_steps_trace in Hr as (rs & Ht & ->). exists env, s1, w1, rs. eexists.
    split; [done|]. split; [reflexivity|]. destruct err as [err|].
    + apply ret_Ok in H as [[= <- <- <-] ->]. left. by exists err.
    + right. apply M_bind_Ok in H as (w4 & w4' & [-> ->]%get_Ok & H).
      apply M_bind_Ok in H as (o & w5 & Ho & H).
      destruct o as [outs|err].
      * apply catch_inl, lift_Ok in Ho as [Ho ->]. apply ret_Ok in H as [[= <- <- <-] ->]. by rewrite Ho.
      * apply catch_inr in Ho. unfold lift in Ho. injection Ho as Ho ->.
        apply ret_Ok in H as [[= <- <- <-] ->]. by rewrite Ho.
  - left. apply catch_inr in Hx. apply ret_Ok in H as [[= <- <- <-] ->]. by exists err.
Qed.

Lemma Sequence_Run_result runf l p sd steps s w r e s' w' :
  (forall step s w r e s' w', runf step s w = (Ok (r, e, s'), w') -> wf_return r e) ->
  Sequence_Run runf l p sd steps s w = (Ok (r, e, s'), w') -> wf_return r e.
Proof.
  intros Hrun H. apply Sequence_Run_inv in H as [(err & _ & _ & -> & ->)|(env & s1 & w1 & rs & b & _ & -> & H)].
  { split; [apply wf_result_intro; cbn; auto|done]. }
  set (b := observed _ rs) in *.
  assert (b_subStepResults b = omap id rs) as Hsub by (subst b; by rewrite observed_sub).
  clearbody b. destruct H as [(err & Ht & -> & ->)|[Ht H]]; apply trace_results in Ht as [Hall Ht]; try done.
  - split; [|done]. apply wf_result_intro; [cbn; auto|]. cbn. rewrite Hsub.
    eapply Forall_impl; [exact Hall|]. by intros x Hx.
  - destruct (Sequence_readOutputs _ _ _); try done; destruct H as [-> ->]; (split; [|done]);
      apply wf_result_intro; cbn; auto; rewrite Hsub.
    + destruct Ht as [_ Hok]. clear Hsub. induction Hok as [|r rs (x & -> & Hx) _ IH]; cbn in *; [constructor|].
      apply Forall_cons_1 in Hall as [Hwf Hall]. constructor; [done|]. by apply IH.
    + eapply Forall_impl; [exact Hall|]. by intros x Hx.
Qed.

Lemma Lazily_Run_result runf fuel gc rf sr s w r e s' w' :
  (forall step s w r e s' w', runf step s w = (Ok (r, e, s'), w') -> wf_return r e) ->
  Lazily_Run runf fuel gc rf sr s w = (Ok (r, e, s'), w') -> wf_return r e.
Proof.
  intros Hrun H. unfold Lazily_Run in H. apply M_bind_Ok in H as (x & w1 & _ & H).
  destruct x as [[[step params] sd]|err]; [|apply ret_Ok in H as [[= <- <- <-] _]; done].
  apply M_bind_Ok in H as (env & w2 & _ & H). apply M_bind_Ok in H as (x & w3 & _ & H).
  destruct x as [sc|err]; [|apply ret_Ok in H as [[= <- <- <-] _]; done].
  apply M_bind_Ok in H as ([[r' e'] sc'] & w4 & Hr & H).
  apply finally_Ok in Hr as (w5 & Hr & _). apply Hrun in Hr.
  apply ret_Ok in H as [[= <- <- <-] _]. by destruct e'.
Qed.

Lemma run_result fuel step s w r e s' w' :
  run fuel step s w = (Ok (r, e, s'), w') -> wf_return r e.
Proof.
  revert step s w r e s' w'. induction fuel as [|fuel IH]; intros step s w r e s' w' H; [done|].
  cbn [run] in H. destruct step; [by eapply Executable_Run_result|by eapply Sequence_Run_result|
    by eapply Lazily_Run_result].
Qed.

(** ** Recorded results *)

(** Results are recorded under the name of their step. *)
Definition recorded (s : StepsContext) : Prop :=
  map_Forall (fun n r => exists st, proto.SR_Step r = Some st /\ proto.Step_Name st = n) (sc_steps s).

Lemma RecordResult_recorded s r : recorded s -> recorded (RecordResult s r).
Proof.
  intros H. unfold RecordResult. destruct r as [r|]; [|done].
  destruct (proto.SR_Step r) as [st|] eqn:E; [|done]. apply map_Forall_insert_2; [by exists st|done].
Qed.

(** The search for the outputs to delegate to is a lookup, in whatever order the
    results come. *)
Lemma findOutputsWithName_recorded s name :
  recorded s ->
  findOutputsWithName name (StepResults s) =
  match sc_steps s !! name with
  | Some r => Ok (proto.SR_Outputs r)
  | None => Err (NewError ("delegate: could not find step with name " +:+ quote name))
  end.
Proof.
  intros Hr. unfold StepResults.
  assert (forall k r, (k, r) ∈ map_range (sc_steps s) -> sc_steps s !! k = Some r) as Hin
    by (intros; by apply elem_of_map_range).
  assert (forall r, sc_steps s !! name = Some r -> (name, r) ∈ map_range (sc_steps s)) as Hall
    by (intros; by apply elem_of_map_range).
  revert Hin Hall. induction (map_range (sc_steps s)) as [|[k r] l IH]; intros Hin Hall; cbn.
  - destruct (sc_steps s !! name) as [r|] eqn:E; [|done]. specialize (Hall r eq_refl).
    by apply not_elem_of_nil in Hall.
  - pose proof (Hin k r ltac:(left)) as Hk. destruct (Hr k r Hk) as (st & -> & Hn).
    destruct (String.eqb_spec (proto.Step_Name st) name) as [E|E].
    + subst. by rewrite Hk.
    + apply IH; [intros; apply Hin; by right|]. intros r' Hr'. specialize (Hall r' Hr').
      apply elem_of_cons in Hall as [[= <- <-]|Hall]; [|done]. congruence.
Qed.

Lemma Lazily_Run_ctx runf fuel gc rf sr s w r e s' w' :
  Lazily_Run runf fuel gc rf sr s w = (Ok (r, e, s'), w') -> s' = s.
Proof.
  intros H. unfold Lazily_Run in H. apply M_bind_Ok in H as (x & w1 & _ & H).
  destruct x as [[[step params] sd]|err]; [|by apply ret_Ok in H as [[= <- <- <-] _]].
  apply M_bind_Ok in H as (env & w2 & _ & H). apply M_bind_Ok in H as (x & w3 & _ & H).
  destruct x as [sc|err]; [|by apply ret_Ok in H as [[= <- <- <-] _]].
  apply M_bind_Ok in H as ([[r' e'] sc'] & w4 & _ & H). by apply ret_Ok in H as [[= <- <- <-] _].
Qed.

Lemma ExpandAndApplyEnv_recorded s env w e s' w' :
  ExpandAndApplyEnv s env w = (Ok (e, s'), w') -> recorded s -> recorded s'.
Proof. by intros (_ & _ & _ & -> & _)%ExpandAndApplyEnv_Ok. Qed.

(** How an executable step returns: what it does, in order, up to the first
    failure. *)
Lemma Executable_Run_ctx l p sd s w r e s' w' :
  Executable_Run l p sd s w = (Ok (r, e, s'), w') -> s' = s \/ exists e', s' = with_env s e'.
Proof.
  unfold Executable_Run. intros H. apply M_bind_Ok in H as (lg & w1 & _ & H).
  destruct lg; [|apply ret_Ok in H as [[= <- <- <-] _]; by left].
  apply M_bind_Ok in H as (x & w2 & Hx & H).
  destruct x as [[env s2]|]; [|apply ret_Ok in H as [[= <- <- <-] _]; by left].
  apply catch_inl, ExpandAndApplyEnv_Ok in Hx as (_ & _ & _ & -> & _). right. exists env.
  apply M_bind_Ok in H as (w3 & w3' & _ & H).
  apply M_bind_Ok in H as ([er [err|]] & w4 & _ & H); [by apply ret_Ok in H as [[= <- <- <-] _]|].
  apply M_bind_Ok in H as ([outs|err] & w5 & _ & H); [|by apply ret_Ok in H as [[= <- <- <-] _]].
  apply M_bind_Ok in H as ([ex|err] & w6 & _ & H); [|by apply ret_Ok in H as [[= <- <- <-] _]].
  apply M_bind_Ok in H as (w7 & w7' & _ & H). apply M_bind_Ok in H as (? & w8 & _ & H).
  by apply ret_Ok in H as [[= <- <- <-] _].
Qed.

Lemma trace_recorded runf steps s w rs e s' w' :
  (forall step s w r e s' w', recorded s -> runf step s w = (Ok (r, e, s'), w') -> recorded s') ->
  trace runf steps s w rs e s' w' -> recorded s -> recorded s'.
Proof.
  intros Hrun Ht. induction Ht as [s w|step steps s w r e s' w' Hr|step steps s w r s' w' rs e s'' w'' Hr Ht IH];
    intros Hs; [done|..].
  - by eapply RecordResult_recorded, Hrun.
  - by eapply IH, RecordResult_recorded, Hrun.
Qed.

Lemma run_recorded fuel step s w r e s' w' :
  recorded s -> run fuel step s w = (Ok (r, e, s'), w') -> recorded s'.
Proof.
  revert step s w r e s' w'. induction fuel as [|fuel IH]; intros step s w r e s' w' Hs H; [done|].
  cbn [run] in H. destruct step.
  - by apply Executable_Run_ctx in H as [->|[e' ->]].
  - apply Sequence_Run_inv in H as [(err & _ & -> & _)|(env & s1 & w1 & rs & b & Hx & _ & H)]; [done|].
    apply ExpandAndApplyEnv_recorded in Hx; [|done].
    destruct H as [(err & Ht & _)|[Ht _]]; by eapply trace_recorded.
  - apply Lazily_Run_ctx in H as ->. done.
Qed.

(** ** The inputs of a loaded step *)

(** Everything [loadStep] returns. *)
Lemma loadStep_inv n r sr s w step params sd w' :
  loadStep n r sr s w = (Ok (step, params, sd), w') ->
  exists w1 vars env,
    Fetch n sr (Some (View (heap w) s)) w = (Ok sd, w1) /\
    buildInputVars r sd = Ok vars /\
    range_map (fun name v =>
      res ← (Expand (Some (View (heap w1) s)) (context.Variable_Value v)
               or_wrap ("failed to load: expand input " +:+ quote name +:+ ": "));
      context.Assign v res or_wrap ("failed to load: assign input " +:+ quote name +:+ ": ")) vars
      = Ok (Params_Inputs params) /\
    range_map (fun k v => ExpandString (Some (View (heap w1) s)) v
      or_wrap ("failed to load: env " +:+ quote k +:+ ": ")) (proto.Step_Env r) = Ok env /\
    (exists e, AddLexicalScope (heap w1) (sc_env s) env = (e, heap w') /\
       Params_Env params = Values (heap w') e) /\
    Parse (sc_globalCtx s) sd params
      (NewNamedStepReference (proto.Step_Name r) (proto.Step_Step r)) = Ok step.
Proof.
  unfold loadStep. intros H.
  apply M_bind_Ok in H as (w0 & w0' & [-> ->]%get_Ok & H).
  apply M_bind_Ok in H as (sd0 & w1 & Hf & H). apply wrap_Ok in Hf.
  apply M_bind_Ok in H as (vars & ? & [Hv ->]%lift_Ok & H). apply wrap_err_Ok in Hv.
  apply M_bind_Ok in H as (? & ? & [-> ->]%get_Ok & H).
  apply M_bind_Ok in H as (ins & ? & [Hi ->]%lift_Ok & H).
  apply M_bind_Ok in H as (env & ? & [He ->]%lift_Ok & H).
  apply M_bind_Ok in H as (e & w2 & [Ha _]%EnvWithLexicalScope_Ok & H).
  apply M_bind_Ok in H as (? & ? & [-> ->]%get_Ok & H).
  apply M_bind_Ok in H as (st & ? & [Hp ->]%lift_Ok & H). apply wrap_err_Ok in Hp.
  apply ret_Ok in H as [[= <- <- <-] ->]. exists w1, vars, env.
  split; [done|]. split; [done|]. split; [done|]. split; [done|]. split; [by exists e|done].
Qed.

(** The variables of a reference's inputs. *)
Lemma buildInputVars_Ok r sd vars :
  buildInputVars r sd = Ok vars <->
  forall k, match proto.Step_Inputs r !! k, vars !! k with
            | Some v, Some x => exists i, SpecInputs sd !! k = Some i /\
                x = {| context.Variable_Value := v; context.Variable_Sensitive := proto.Input_Sensitive i |}
            | None, None => True
            | _, _ => False
            end.
Proof.
  unfold buildInputVars, SpecInputWithName. rewrite range_map_Ok. split; intros H k; specialize (H k);
    destruct (proto.Step_Inputs r !! k), (vars !! k); try done; destruct (SpecInputs sd !! k);
    naive_solver.
Qed.

Lemma validateInputs_Ok si ins :
  validateInputs si ins = Ok tt <->
  map_Forall (fun k i => is_Some (ins !! k) \/ is_Some (proto.Input_Default i)) si.
Proof.
  unfold validateInputs. rewrite range_all_Ok. split; intros H k i Hi; specialize (H k i Hi); cbn in *;
    destruct (ins !! k), (proto.Input_Default i); try done; eauto.
  - by destruct H as [[? ?]|[? ?]].
Qed.

Lemma validateInputs_returns si ins :
  validateInputs si ins = Ok tt \/ exists err, validateInputs si ins = Err err.
Proof.
  unfold validateInputs, range_all. induction (map_range si) as [|[k i] l IH]; [by left|]. cbn [range_check].
  destruct (ins !! k), (proto.Input_Default i); cbn [mbind res_bind]; (exact IH || (right; by eexists)).
Qed.

Lemma Parse_inputs gc sd p l step :
  Parse gc sd p l = Ok step ->
  map_Forall (fun k i => is_Some (Params_Inputs p !! k) \/ is_Some (proto.Input_Default i)) (SpecInputs sd).
Proof. intros ([] & H%wrap_err_Ok & _)%bind_Ok. by apply validateInputs_Ok. Qed.

Lemma NewInputsWithDefault_lookup p si k :
  NewInputsWithDefault p si !! k =
  (fun i => match Params_Inputs p !! k with
            | Some x => Some (context.Variable_Value x)
            | None => proto.Input_Default i
            end) <$> si !! k.
Proof. unfold NewInputsWithDefault. rewrite map_lookup_imap. by destruct (si !! k). Qed.

(** ** A successful executable step *)

(** The command line and directory of the command. *)
Definition command_line (sd : SpecDefinition) (view : InterpolationContext) (workDir : string) :
    res (list string * string) :=
  command ← ExecCommand sd;
  cmdArgs ← slice_map (fun arg =>
    ExpandString (Some view) arg or_wrap ("interpolate command argument " +:+ quote arg +:+ ": ")) command;
  workDir ← determineWorkDir sd view workDir;
  Ok (cmdArgs, workDir).

Lemma execCommand_run sd s w er w' :
  execCommand sd s w = (Ok (er, None), w') ->
  exists c cmd d code f o,
    command_line sd (View (heap w) s) (gc_workDir (sc_globalCtx s)) = Ok (c :: cmd, d) /\
    Cmd_Run (c :: cmd) d (GetEnvList (heap w) s) (os w) (files w) = (code, None, f, o) /\
    er = Some (NewExecResult d (c :: cmd) code) /\ w' = set_os o (set_files f w).
Proof.
  unfold execCommand. intros H. apply M_bind_Ok in H as (w0 & w0' & [-> ->]%get_Ok & H).
  apply M_bind_Ok in H as (x & w1 & Hx & H). destruct x as [[[|c cmd] d]|err]; [done| |done].
  apply catch_inl, lift_Ok in Hx as [Hx ->].
  destruct (Cmd_Run _ _ _ _ _) as [[[code err] f] o] eqn:E. injection H as <- -> <-.
  by exists c, cmd, d, code, f, o.
Qed.

(** All that happens in a successful run, in order: the definition's environment
    is expanded and applied, the command runs in that environment, and the two
    files it leaves give the outputs and the exports. *)
Lemma Executable_Run_success l p sd s w r s' w' :
  Executable_Run l p sd s w = (Ok (r, None, s'), w') ->
  exists w1 env w2 c cmd d code f o w3 outs ex w4,
    heap w1 = heap w /\
    ExpandAndApplyEnv s (Env sd) w1 = (Ok (env, s'), w2) /\
    command_line sd (View (heap w2) s') (gc_workDir (sc_globalCtx s')) = Ok (c :: cmd, d) /\
    Cmd_Run (c :: cmd) d (GetEnvList (heap w2) s') (os w2) (files w2) = (code, None, f, o) /\
    w3 = set_os o (set_files f w2) /\
    Executable_readOutputs sd s' w3 = (Ok outs, w3) /\
    ReadExportedEnv s' w3 = (Ok ex, w4) /\
    w' = set_heap (Mutate (heap w4) (gc_env (sc_globalCtx s')) (Some ex)) w4 /\
    r = Some (Build (ObserveExports (heap w4)
          (ObserveOutputs (ObserveExecutedCmd (ObserveEnv (heap w2) (NewStepResultBuilder l p sd) (Some env))
             (Some (NewExecResult d (c :: cmd) code))) outs) (Some ex))).
Proof.
  unfold Executable_Run. intros H. apply M_bind_Ok in H as (lg & w1 & Hl & H).
  destruct lg; [|by inv_M]. apply catch_inl in Hl.
  apply M_bind_Ok in H as (x & w2 & Hx & H). destruct x as [[env s2]|]; [|by inv_M]. apply catch_inl in Hx.
  apply M_bind_Ok in H as (w0 & w0' & [-> ->]%get_Ok & H).
  apply M_bind_Ok in H as ([er [err|]] & w3 & Hc & H); [by inv_M|].
  apply M_bind_Ok in H as ([outs|err] & w3' & Ho & H); [|by inv_M]. apply catch_inl in Ho.
  assert (w3' = w3) as ->.
  { unfold Executable_readOutputs, ReadOutputStepResult, ReadOutputValues in Ho.
    destruct (IsDelegateOutputs sd); [|by injection Ho].
    apply M_bind_Ok in Ho as (? & ? & [= _ <-]%wrap_Ok & [_ ->]%ret_Ok). done. }
  apply M_bind_Ok in H as ([ex|err] & w4 & Hr & H); [|by inv_M]. apply catch_inl in Hr.
  apply M_bind_Ok in H as (w0 & w0' & [-> ->]%get_Ok & H).
  apply M_bind_Ok in H as ([] & w5 & Hg & H). apply ret_Ok in H as [[= <- <-] ->].
  apply execCommand_run in Hc as (c & cmd & d & code & f & o & Hcl & Hrun & -> & ->).
  exists w1, env, w2, c, cmd, d, code, f, o. eexists _, outs, ex, w4.
  split. { pose proof (Logln_heap ("Running step " +:+ quote (Describe l)) w) as Hh. by rewrite Hl in Hh. }
  split; [done|]. split; [done|]. split; [done|]. split; [reflexivity|]. split; [done|]. split; [done|].
  split; [|done]. unfold AddGlobalEnv, on_heap in Hg. by injection Hg as <-.
Qed.

(** The variables that are exported, and where they end up. *)
Lemma Executable_Run_exports g l p sd s w r s' w' :
  acyclic (heap w) -> g < length (heap w) -> ctx_ok g s w ->
  Executable_Run l p sd s w = (Ok (r, None, s'), w') ->
  exists x, r = Some x /\
    (kv ← ReadKeyValueLines (files w') (sc_exportFile s); range_map env_text kv) = Ok (proto.SR_Exports x) /\
    Values (heap w') g = proto.SR_Exports x ∪ Values (heap w) g.
Proof.
  intros Ha Hg Hs H.
  destruct (Executable_Run_success _ _ _ _ _ _ _ _ H)
    as (w1 & env & w2 & c & cmd & d & code & f & o & w3 & outs & ex & w4 & Hh & Hx & _ & _ & -> & _ & Hr & -> & ->).
  eexists. split; [done|]. cbn [proto.SR_Exports Build buildResult ObserveExports WithExports b_exports heap set_heap].
  apply ExpandAndApplyEnv_Ok in Hx as (vs & _ & He & -> & _). rewrite Hh in He.
  assert (gc_env (sc_globalCtx s) = g) as Hgc by apply Hs. cbn [sc_globalCtx with_env]. rewrite Hgc.
  apply ReadExportedEnv_Ok in Hr as (xs & Hn & Hw4 & Hkv). cbn [heap set_os set_files] in Hn.
  cbn [files set_os set_files sc_exportFile with_env] in Hkv.
  destruct Hs as [_ Hs]. set (h2 := heap w2) in *. set (h4 := heap w4) in *.
  pose proof (acyclic_AddLexicalScope (heap w) (sc_env s) vs Ha Hs) as Ha2.
  pose proof (AddLexicalScope_values (heap w) (sc_env s) vs g Ha Hs Hg) as Hv2.
  pose proof (AddLexicalScope_bound (heap w) (sc_env s) vs Hs) as [_ Hl2].
  rewrite He in Ha2, Hv2, Hl2. cbn [snd] in *.
  assert (g < length h2) as Hg2 by lia.
  pose proof (acyclic_NewEnvironment h2 xs Ha2) as Ha4. rewrite <- Hn in Ha4.
  pose proof (NewEnvironment_values h2 xs g Ha2 Hg2) as Hv4. rewrite <- Hn in Hv4.
  pose proof (Values_NewEnvironment h2 xs Ha2) as Hvx. rewrite <- Hn in Hvx. cbn [fst snd] in *.
  destruct (NewEnvironment_leaf g h2 xs ex h4 Hn Hg2) as (Hleaf & Hne & Hg4).
  rewrite (Mutate_values g h4 ex xs) by done. rewrite Hvx, Hv4, Hv2.
  split; [|done]. rewrite <- Hkv. by rewrite Hw4.
Qed.
End results.

(** ** Compiled references *)

Section compiled.
  Context `{SP : StructPB} `{MR : MapRange} `{FM : schema.Format}.

(** A reference the parser of resources accepts, in any directory. *)
Definition parses (p : proto.Step) : Prop :=
  forall dir, exists sr, parseResource dir (proto.Step_Step p) = Ok sr.

Lemma compile_short_parses v r : compile_short v = Ok r -> forall dir, exists sr, parseResource dir (Some r) = Ok sr.
Proof.
  unfold compile_short, compileLocal, compileDist, compileRemote. intros H dir.
  destruct (containsExpressionRe v); [injection H as <-; by eexists|].
  destruct (_ || _).
  { destruct (pathFilename true v). injection H as <-. by eexists. }
  destruct (HasPrefix v distPrefix); [injection H as <-; by eexists|].
  destruct (_ <? _)%nat; [done|]. destruct (Cut _ _) as [[? ?] ?]. destruct (pathFilename _ _).
  injection H as <-. by eexists.
Qed.

Lemma compileToStepProto_parses s p :
  schema.compileToStepProto s = Ok p ->
  match schema.Step_Step s with
  | schema.SVProto r => forall dir, exists sr, parseResource dir (Some r) = Ok sr
  | _ => True
  end -> parses p.
Proof.
  unfold schema.compileToStepProto. intros H Hp.
  apply bind_Ok in H as (ins & _ & H). apply bind_Ok in H as (r & Hr%wrap_err_Ok & H).
  assert (proto.Step_Step p = Some r) as Hs by (by destruct (bool_decide _); injection H as <-).
  unfold parses. rewrite Hs. clear H Hs.
  destruct (schema.Step_Step s) as [|v|v|v|v|v]; try done.
  - by eapply compile_short_parses.
  - unfold schema.Reference_compile in Hr. intros dir.
    destruct (schema.Reference_Git v), (schema.Reference_OCI v); try done; injection Hr as <-; by eexists.
  - injection Hr as <-. exact Hp.
Qed.

Lemma CompileStep_parses s p :
  schema.CompileStep s = Ok p ->
  match schema.Step_Step s with schema.SVProto _ => False | _ => True end -> parses p.
Proof.
  unfold schema.CompileStep. intros H Hno.
  apply bind_Ok in H as (s1 & H1 & H). apply bind_Ok in H as (s2 & H2 & H).
  apply (compileToStepProto_parses s2); [done|].
  unfold schema.compileScriptKeywordToStep in H1. unfold schema.compileActionKeywordToStep in H2.
  destruct (negb (schema.keyword (schema.Step_Script s))).
  - injection H1 as <-. destruct (negb (schema.keyword (schema.Step_Action s))).
    + injection H2 as <-. by destruct (schema.Step_Step s).
    + destruct (schema.has_step s); [done|]. destruct (schema.keyword _); [done|]. by injection H2 as <-.
  - destruct (schema.has_step s); [done|]. destruct (schema.keyword (schema.Step_Action s)) eqn:Ha; [done|].
    destruct (negb _) in H1; [done|]. injection H1 as <-. cbn [schema.without_script schema.with_step schema.Step_Action] in H2.
    rewrite Ha in H2. injection H2 as <-. intros dir. by eexists.
Qed.

Lemma compiled_steps st d :
  schema.Compile st = Ok d ->
  match schema.Step_Run st with
  | Some ss => Forall (fun s => match schema.Step_Step s with schema.SVProto _ => False | _ => True end) ss
  | None => True
  end ->
  proto.Def_Type d = proto.exec \/ proto.Def_Type d = proto.steps /\ Forall parses (proto.Def_Steps d).
Proof.
  unfold schema.Compile, schema.compileToDefinitionProto. intros (_ & _ & H)%bind_Ok Hno.
  destruct (schema.Step_Exec st); [injection H as <-; by left|].
  destruct (schema.Step_Run st) as [ss|]; [|done]. right.
  apply bind_Ok in H as (ps & Hps & H). apply bind_Ok in H as (outs & _ & [= <-]). split; [done|]. cbn.
  revert ps Hps. generalize 0. induction Hno as [|s ss Hs _ IH]; intros i ps Hps.
  - injection Hps as <-. constructor.
  - cbn [schema.compile_run] in Hps. apply bind_Ok in Hps as (p & Hp%wrap_err_Ok & Hps).
    apply bind_Ok in Hps as (rest & Hrest & [= <-]). constructor; [by eapply CompileStep_parses|by eapply IH].
Qed.
(** A compiled definition becomes a step. *)
Lemma compiled_parses st d spec dir gc params l :
  schema.Compile st = Ok d ->
  match schema.Step_Run st with
  | Some ss => Forall (fun s => match schema.Step_Step s with schema.SVProto _ => False | _ => True end) ss
  | None => True
  end ->
  validateInputs (SpecInputs (NewSpecDefinition spec d dir)) (Params_Inputs params) = Ok tt ->
  exists step, Parse gc (NewSpecDefinition spec d dir) params l = Ok step.
Proof.
  intros Hc Hno Hv. unfold Parse. rewrite Hv. cbn [wrap_err mbind res_bind].
  enough (exists step, parseStepType gc (NewSpecDefinition spec d dir) params l = Ok step) as [step ->]
    by (by exists step).
  unfold parseStepType, IsTypeExec, IsTypeSteps, Steps. cbn [definition NewSpecDefinition].
  destruct (compiled_steps st d Hc Hno) as [->|[-> Hall]]; [by rewrite bool_decide_true; [eexists|]|].
  rewrite bool_decide_false, bool_decide_true by done.
  enough (exists steps, slice_map (fun stepReference =>
      stepResource ← parseResource (Dir (NewSpecDefinition spec d dir)) (proto.Step_Step stepReference);
      Ok (NewLazilyLoadedStep gc stepReference stepResource)) (proto.Def_Steps d) = Ok steps)
    as [steps ->] by (by eexists).
  induction Hall as [|p ps Hp _ [steps IH]]; [by exists []|]. cbn [slice_map].
  destruct (Hp (Dir (NewSpecDefinition spec d dir))) as [sr ->]. cbn [mbind res_bind].
  rewrite IH. by eexists.
Qed.
End compiled.

(** ** Properties *)

Section properties.
  Context `{Sy : System} `{SE : StepFileEnv} `{SP : StructPB} `{MR : MapRange} `{FM : schema.Format}.

(** C3: a run returns a result exactly as good as it should be.  It never returns
    nothing at all; a result that comes without an error is a success, one that
    comes with an error is a failure, and so on down the tree of results: every
    status is one of the two, and all the steps of a successful sequence were
    successful. *)
Theorem run_results_well_formed fuel step s w r e s' w' :
  run fuel step s w = (Ok (r, e, s'), w') -> wf_return r e.
Proof. apply run_result. Qed.

(** C4: a sequence runs its steps in order and stops at the first failure.  Once
    its environment is expanded, the steps run one after the other, each in the
    context the one before left; a success ran them all, with the result of
    each, in order, in the result of the sequence; a failure ran some of them,
    all successful but the last, whose error is the error of the sequence. *)
Theorem sequence_runs_in_order n l p sd steps s w r e s' w' env s1 w1 :
  ExpandAndApplyEnv s (Env sd) w = (Ok (env, s1), w1) ->
  run (S n) (SequenceOfSteps l p sd steps) s w = (Ok (r, e, s'), w') ->
  exists rs err x, trace (run n) steps s1 w1 rs err s' w' /\
    r = Some x /\ proto.SR_SubStepResults x = omap id rs /\
    match err with
    | None => length rs = length steps /\
        Forall (fun r => exists x, r = Some x /\ proto.SR_Status x = proto.success) rs
    | Some err => e = Some err /\ exists ok last, rs = ok ++ [last] /\ length rs <= length steps /\
        wf_return last (Some err) /\
        Forall (fun r => exists x, r = Some x /\ proto.SR_Status x = proto.success) ok
    end.
Proof.
  intros Henv H. cbn [run] in H.
  apply Sequence_Run_inv in H as [(err & Herr & _)|(env' & s1' & w1' & rs & b & Hx & -> & H)].
  { by rewrite Henv in Herr. }
  rewrite Henv in Hx. simplify_eq.
  assert (forall A (x : A), b_subStepResults (observed (ObserveEnv (heap w1')
    (NewStepResultBuilder l p sd) (Some env')) rs) = omap id rs) as Hsub
    by (intros; by rewrite observed_sub).
  destruct H as [(err & Ht & -> & ->)|[Ht H]].
  - pose proof (trace_results _ _ _ _ _ _ _ _ (run_result n) Ht) as [_ Hr].
    exists rs, (Some err). eexists. split; [done|]. split; [done|]. split; [by apply (Hsub nat 0)|done].
  - pose proof (trace_results _ _ _ _ _ _ _ _ (run_result n) Ht) as [_ Hr].
    exists rs, None. destruct (Sequence_readOutputs _ _ _); try done; destruct H as [-> ->];
      (eexists; split; [done|]; split; [done|]; split; [by apply (Hsub nat 0)|done]).
Qed.

(** C8: the outputs of a sequence that delegates are those of the result recorded
    under the name it delegates to, in whatever order the recorded results are
    visited; the results recorded are always filed under the name of their
    step. *)
Theorem delegated_outputs n l p sd steps s w r s' w' :
  recorded s -> IsDelegateOutputs sd = true ->
  run (S n) (SequenceOfSteps l p sd steps) s w = (Ok (r, None, s'), w') ->
  recorded s' /\ exists x y, r = Some x /\ sc_steps s' !! DelegateTo sd = Some y /\
    proto.SR_Outputs x = proto.SR_Outputs y.
Proof.
  intros Hs Hd H. assert (recorded s') as Hs' by (by eapply run_recorded).
  split; [done|]. cbn [run] in H.
  apply Sequence_Run_inv in H as [(err & _ & _ & _ & ?)|(env & s1 & w1 & rs & b & _ & -> & H)]; [done|].
  destruct H as [(err & _ & _ & ?)|[_ H]]; [done|].
  unfold Sequence_readOutputs in H. rewrite Hd, findOutputsWithName_recorded in H by done.
  destruct (sc_steps s' !! DelegateTo sd) as [y|]; [|by destruct H].
  destruct H as [-> _]. by eexists _, y.
Qed.

(** C1: runs end.  A step whose definition is nested at most [n] deep, wherever
    its references lead, ends with fuel [2 n + 1], in every context and world,
    whatever the commands it runs do; and any more fuel gives the same result
    and the same world. *)
Theorem run_terminates n sd gc params l step :
  nested n sd -> Parse gc sd params l = Ok step ->
  forall fuel s w, 2 * n + 1 <= fuel ->
    decided (run fuel step s w).1 = true /\ run fuel step s w = run (2 * n + 1) step s w.
Proof.
  intros Hn Hp fuel s w Hf. pose proof (nested_ends n sd gc params l step Hn Hp) as He.
  rewrite (run_more (2 * n + 1) fuel) by (done || apply He). split; [apply He|done].
Qed.

(** A dynamic reference that expands to itself is never resolved: no amount
    of fuel is enough, and the program recurses without end. *)
Theorem dynamic_reference_diverges r view :
  containsExpressionRe r = true -> ExpandString view r = Ok r ->
  forall fuel w, Fetch fuel (DynamicStepResource r) view w = (OutOfFuel, w).
Proof.
  intros He Hx fuel. induction fuel as [|fuel IH]; intros w; [done|]. cbn [Fetch].
  assert (CompileShortRef r = Ok {| proto.Ref_Protocol := proto.dynamic; proto.Ref_Url := r;
      proto.Ref_Path := []; proto.Ref_Filename := ""; proto.Ref_Version := "";
      proto.Ref_SpecDef := None; proto.Ref_StepPath := None |}) as Hc.
  { unfold CompileShortRef, compile_short. by rewrite He. }
  rewrite Hx. unfold lift, mbind, M_bind. cbn [wrap_err]. rewrite Hc. apply IH.
Qed.

(** C5: the environment objects during a run.  Running a step keeps the heap of
    environments without cycles and the context good, changes no scope's own
    variables, and gives no new value to an environment that does not lead to
    the global one: the only variables that cross from one step to another are
    those exported to the global environment. *)
Theorem run_environments g fuel step s w o w' :
  acyclic (heap w) -> g < length (heap w) -> ctx_ok g s w -> step_ok g step ->
  run fuel step s w = (o, w') ->
  acyclic (heap w') /\
  (forall x, x < length (heap w) -> ~ reaches (heap w) x g -> Values (heap w') x = Values (heap w) x) /\
  (forall x n, heap w !! x = Some n -> x <> g -> mutations n = [] ->
     Values (heap w') x = vars n ∪ from_option (Values (heap w')) ∅ (parent n)) /\
  (forall r e s', o = Ok (r, e, s') -> ctx_ok g s' w' /\ same_ctx s s').
Proof.
  intros Ha Hg Hs Hstep H. destruct (run_is_ok g fuel step s w Hstep Hg Hs) as [He Hq].
  unfold effect in He. rewrite H in He. cbn in He. unfold heap_evolves in He.
  split; [by eapply evolves_acyclic|]. split; [intros x Hx Hr; by eapply evolves_other|]. split.
  - intros x n Hx Hne Hm. by eapply evolves_scope_values.
  - intros r e s' ->. apply (Hq (r, e, s') w' H).
Qed.

(** C6: the variables a successful step exports are those of the lines of its export
    file, as the command left it; they are in the result of the step, and after the
    step they override those of the global environment. *)
Theorem exports_reach_the_global_environment g n l p sd s w r s' w' :
  acyclic (heap w) -> g < length (heap w) -> ctx_ok g s w ->
  run (S n) (ExecutableStep l p sd) s w = (Ok (r, None, s'), w') ->
  exists x, r = Some x /\
    (kv ← ReadKeyValueLines (files w') (sc_exportFile s); range_map env_text kv) = Ok (proto.SR_Exports x) /\
    Values (heap w') g = proto.SR_Exports x ∪ Values (heap w) g.
Proof. intros. by eapply Executable_Run_exports. Qed.

(** A variable that is set in the scope of an enclosing sequence hides every
    export of that name: whatever step runs in the scope, the scope and what is
    opened on it keep the old value.  Since a step's scope holds a copy of all
    the variables known when it was loaded, the steps of a nested sequence never
    see a new value that one of them exports for a variable set before. *)
Theorem exports_hidden_in_nested_scope g fuel step s w o w' n k v :
  acyclic (heap w) -> g < length (heap w) -> ctx_ok g s w -> step_ok g step ->
  heap w !! sc_env s = Some n -> sc_env s <> g -> mutations n = [] -> vars n !! k = Some v ->
  run fuel step s w = (o, w') ->
  Values (heap w') (sc_env s) !! k = Some v.
Proof.
  intros Ha Hg Hs Hstep Hn Hne Hm Hk H. destruct (run_is_ok g fuel step s w Hstep Hg Hs) as [He _].
  unfold effect in He. rewrite H in He. cbn in He.
  rewrite (evolves_scope_values g (heap w) (heap w') (sc_env s) n) by done.
  apply lookup_union_Some_l. done.
Qed.

(** C7: what a step is loaded with.  The reference gives only inputs the step
    declares; every declared input has a value, the expansion of what the reference
    gives or else the declared default, so that no input is the nil pointer; and the
    scope of the step has all the variables of the context it is loaded in,
    overridden by the expansion of those the reference sets.  Everything is expanded
    in the context as it is once the step is fetched. *)
Theorem loaded_parameters n r sr s w step params sd w' :
  acyclic (heap w) -> sc_env s < length (heap w) ->
  loadStep n r sr s w = (Ok (step, params, sd), w') ->
  exists w1 env, heap_evolves (gc_env (sc_globalCtx s)) w w1 /\
    dom (proto.Step_Inputs r) ⊆ dom (SpecInputs sd) /\
    dom (NewInputsWithDefault params (SpecInputs sd)) = dom (SpecInputs sd) /\
    (forall k i, SpecInputs sd !! k = Some i ->
       exists v, NewInputsWithDefault params (SpecInputs sd) !! k = Some (Some v) /\
       match proto.Step_Inputs r !! k with
       | Some given => exists x, Expand (Some (View (heap w1) s)) given = Ok x /\ v = context.Value_Value x
       | None => proto.Input_Default i = Some v
       end) /\
    (forall k, match proto.Step_Env r !! k, env !! k with
               | Some given, Some v => ExpandString (Some (View (heap w1) s)) given = Ok v
               | None, None => True
               | _, _ => False
               end) /\
    Params_Env params = env ∪ Values (heap w1) (sc_env s).
Proof.
  intros Ha Hs H.
  apply loadStep_inv in H as (w1 & vs & env & Hf & Hv & Hi & Henv & (e & He & ->) & Hp).
  exists w1, env. assert (heap_evolves (gc_env (sc_globalCtx s)) w w1) as Hev.
  { pose proof (Fetch_effect (gc_env (sc_globalCtx s)) n sr (Some (View (heap w) s)) w) as H.
    unfold effect in H. by rewrite Hf in H. }
  split; [done|]. rewrite buildInputVars_Ok in Hv. apply Parse_inputs in Hp.
  split; [|split; [|split; [|split]]].
  - intros k [v Hk]%elem_of_dom. specialize (Hv k). rewrite Hk in Hv.
    destruct (vs !! k); [|done]. destruct Hv as (i & Hi' & _). by apply elem_of_dom; exists i.
  - apply set_eq. intros k. rewrite !elem_of_dom, NewInputsWithDefault_lookup, fmap_is_Some. done.
  - intros k i Hk. rewrite NewInputsWithDefault_lookup, Hk. cbn.
    apply (range_map_lookup _ _ _ k) in Hi. specialize (Hv k).
    destruct (vs !! k) as [x|] eqn:Hx, (Params_Inputs params !! k) as [y|] eqn:Hy; try done.
    + exists (context.Variable_Value y). split; [done|].
      destruct (proto.Step_Inputs r !! k) as [given|]; [|done]. destruct Hv as (i' & _ & ->).
      apply bind_Ok in Hi as (res & Hres%wrap_err_Ok & Has%wrap_err_Ok). cbn in Hres.
      exists res. split; [exact Hres|]. unfold context.Assign in Has.
      destruct (_ && _); [done|]. by injection Has as <-.
    + destruct (proto.Step_Inputs r !! k); [done|].
      destruct (Hp k i Hk) as [[? ?]|[d Hd]]; [congruence|]. exists d. by rewrite Hd.
  - intros k. apply (range_map_lookup _ _ _ k) in Henv.
    destruct (proto.Step_Env r !! k), (env !! k); try done. by apply wrap_err_Ok in Henv.
  - pose proof (Values_AddLexicalScope (heap w1) (sc_env s) env) as HV. rewrite He in HV.
    apply HV; [by eapply evolves_acyclic|]. apply evolves_length in Hev. lia.
Qed.

(** Without a context the first expression of a text panics, wherever it is. *)
Lemma no_context_panics segs e :
  wf_segments segs = true -> Expr e ∈ segs ->
  ExpandString None (render segs) = Panic zero_value_type.
Proof.
  intros Hwf He. unfold ExpandString. rewrite interpolateString_template by done.
  assert (slice_map (eval_segment (any_of_view None)) segs = Panic zero_value_type) as ->; [|done].
  clear Hwf. induction segs as [|[t|e'] segs IH]; [by apply not_elem_of_nil in He|..]; cbn [slice_map eval_segment].
  - apply elem_of_cons in He as [He|He]; [done|]. by rewrite IH.
  - by rewrite Evaluate_nil.
Qed.

(** C40: the step file of a Git repository is loaded without a context: a path that
    holds an expression, at any place in it, makes the program panic once the
    repository is there. *)
Theorem remote_path_expression_panics url version filename segs e view w dir f o :
  ExpandString view url = Ok url -> Git_Get url version (os w) (files w) = (Ok dir, f, o) ->
  wf_segments segs = true -> Expr e ∈ segs ->
  (Git_Fetch url version (render segs) filename view w).1 = Panic zero_value_type.
Proof.
  intros Hu Hg Hwf He. unfold Git_Fetch. rewrite Hu. cbn [wrap_err].
  unfold mbind, M_bind, lift, wrap. rewrite Hg. cbn [wrap_err].
  unfold FileSystem_Fetch, stepDir. by rewrite (no_context_panics segs e).
Qed.

(** C9: step files do not outlive their step.  Once the context of a loaded step
    is created, however the step ends (it returns, fails or panics), the clean-up is
    all that happens after it: the step's output file and its export file are tried to
    be removed, the second also when the first fails.  A step file that is still there
    is one that the system refused to remove, and no other file is touched. *)
Theorem step_files_removed n gc r sr s w step params sd w1 env w2 sc w3 :
  loadStep n r sr s w = (Ok (step, params, sd), w1) ->
  EnvWithLexicalScope s (Params_Env params) w1 = (Ok env, w2) ->
  NewStepsContext gc (Dir sd) (NewInputsWithDefault params (SpecInputs sd)) env [] w2 = (Ok sc, w3) ->
  let w4 := (run n step sc w3).2 in
  let '(o, w') := run (S n) (LazilyLoadedStep gc r sr) s w in
  decided o = true ->
    w' = set_files (files w') w4 /\
    (forall p, p <> sc_outputFile sc -> p <> sc_exportFile sc -> files w' !! p = files w4 !! p) /\
    (forall p, p = sc_outputFile sc \/ p = sc_exportFile sc ->
       files w' !! p = None \/
       exists f err, f !! p = files w4 !! p /\ files w' !! p = files w4 !! p /\
         Remove_error (os w4) f p = Some err).
Proof.
  intros Hl He Hc. cbn [run]. unfold Lazily_Run.
  assert (catch (loadStep n r sr s) w = (Ok (inl (step, params, sd)), w1)) as Hl'
    by (unfold catch; by rewrite Hl).
  rewrite (M_bind_step _ _ w _ w1 Hl'). cbv beta iota.
  rewrite (M_bind_step _ _ w1 _ w2 He). cbv beta iota zeta.
  assert (catch (NewStepsContext gc (Dir sd) (NewInputsWithDefault params (SpecInputs sd)) env []) w2
    = (Ok (inl sc), w3)) as Hc' by (unfold catch; by rewrite Hc).
  rewrite (M_bind_step _ _ w2 _ w3 Hc'). cbv beta iota.
  unfold mbind, M_bind, finally. destruct (run n step sc w3) as [[[[res err] sc']|er|p|] w4]; cbn [snd];
    rewrite ?Cleanup_spec; cbn; try done; intros _; (split; [done|apply remove_step_files_spec]).
Qed.

(** What the compiler of step files emits, the parser accepts.  The steps of a
    compiled definition are references of known protocols to definitions that
    are there, so that making a step of a definition whose inputs are valid never
    fails. *)
Theorem compiled_definition_parses st d spec dir gc params l :
  schema.Compile st = Ok d ->
  match schema.Step_Run st with
  | Some ss => Forall (fun s => match schema.Step_Step s with schema.SVProto _ => False | _ => True end) ss
  | None => True
  end ->
  validateInputs (SpecInputs (NewSpecDefinition spec d dir)) (Params_Inputs params) = Ok tt ->
  exists step, Parse gc (NewSpecDefinition spec d dir) params l = Ok step.
Proof. apply compiled_parses. Qed.
End properties.
