(* ===== verification/Fetchers.v ===== *)
(** The fetchers behind the runner.  Runner and World take what fetches a Git step
    and a distributed step as operations of the system; here these are the caches
    of DistCache.v and GitCache.v (src/pkg/runner/step_resource_parser.go gives
    them to the resources), and fetching a step by its resource is what the caches
    promise: the definition in the file of the embedded step, or of the commit the
    version names. *)

From stdpp Require Import gmap strings list fin_maps.
From S2P Require Import Prelude GoStrings GoPaths GoFiles GoFilesFacts DistCache DistCacheFacts.
From S2P Require Import GitCache GitCacheFacts.
From S2P Require Import Values Expression Environment Proto StepFile Schema SpecDefinition World Resources.
From S2P Require Import Runner RunnerFacts.
Open Scope go_scope.
Open Scope string_scope.
Open Scope list_scope.

(** ** The interface *)

Section interface.
  Context `{Sy : System} `{GL : GitLib} `{MR : MapRange}.
  Context (TempDir : string) (stepsFinder : string -> res tree) (gf : GitFetcher).

(** The files below a directory are those the runner reads. *)
Definition reads (t : tree) (dir : string) (fs : file_system) : Prop :=
  forall rel content, Forall good_elem rel ->
    fs !! path_string (resolve_from [] dir ++ rel) = Some content <-> exists mode, t !! (resolve_from [] dir ++ rel) = Some (GoFiles.File mode content).

(** A system whose fetchers are those of the program: they work on the files of a
    machine, and the runner reads the directory they return. *)
Class Fetchers := {
  machine_of : os_state -> machine;
  dist_fetcher : os_state -> Fetcher;
  Dist_Fetch_cache step o fs :
    let '(r, fs', o') := World.Dist_Fetch step o fs in
    DistCache.Fetch TempDir stepsFinder (dist_fetcher o) step (machine_of o) =
      (r, dist_fetcher o', machine_of o') /\
    forall dir, r = Ok dir -> reads (tree_of (machine_of o')) dir fs';
  Git_Get_cache url version o fs :
    let '(r, fs', o') := World.Git_Get url version o fs in
    GitCache.Get gf url version (machine_of o) = (r, machine_of o') /\ dist_fetcher o' = dist_fetcher o /\
    forall dir, r = Ok dir -> reads (tree_of (machine_of o')) dir fs'
}.
End interface.

#[global] Arguments machine_of {Sy GL MR TempDir stepsFinder gf _} _ : rename.
#[global] Arguments dist_fetcher {Sy GL MR TempDir stepsFinder gf _} _ : rename.
#[global] Arguments Dist_Fetch_cache {Sy GL MR TempDir stepsFinder gf _} _ _ _ : rename.
#[global] Arguments Git_Get_cache {Sy GL MR TempDir stepsFinder gf _} _ _ _ _ : rename.

(** ** The caches as fetchers *)

(** The files below a directory, by their names. *)
Definition files_below (dir : path) (t : tree) : file_system :=
  list_to_map (omap (fun kn : path * node =>
    match kn.2 with
    | GoFiles.File _ content =>
        if below dir kn.1 && forallb good_elemb kn.1 then Some (path_string kn.1, content) else None
    | GoFiles.Dir _ => None
    end) (map_to_list t)).

Lemma files_below_spec dir (t : tree) p content :
  Forall good_elem p ->
  files_below dir t !! path_string p = Some content <->
    below dir p = true /\ exists mode, t !! p = Some (GoFiles.File mode content).
Proof.
  intros Hp. unfold files_below.
  set (l := omap _ _).
  assert (forall q c, (q, c) ∈ l <-> exists p' mode, q = path_string p' /\ Forall good_elem p' /\
    below dir p' = true /\ t !! p' = Some (GoFiles.File mode c)) as Hl.
  { intros q c. unfold l. rewrite list_elem_of_omap. split.
    - intros ([p' [mode|mode c']] & Hin%elem_of_map_to_list & E); [done|]. cbn in E.
      destruct (below dir p' && forallb good_elemb p') eqn:Eb; [|done]. injection E as <- <-.
      apply andb_true_iff in Eb as [Eb Eg]. exists p', mode. split; [done|]. split; [|done].
      apply Forall_forall. intros x Hx. rewrite forallb_forall in Eg. by apply good_elemb_true, Eg, list_elem_of_In.
    - intros (p' & mode & -> & Hg & Hb & Ht). exists (p', GoFiles.File mode c).
      split; [by apply elem_of_map_to_list|]. cbn. rewrite Hb.
      assert (forallb good_elemb p' = true) as ->; [|done]. apply forallb_forall. intros x Hx.
      apply good_elemb_of. rewrite Forall_forall in Hg. by apply Hg, list_elem_of_In. }
  assert (forall q c c', (q, c) ∈ l -> (q, c') ∈ l -> c = c') as Huniq.
  { intros q c c' (p1 & m1 & -> & H1 & _ & E1)%Hl (p2 & m2 & E & H2 & _ & E2)%Hl.
    apply path_string_inj in E as <-; [congruence|done..]. }
  split.
  - intros (p' & mode & E & Hg & Hb & Ht)%elem_of_list_to_map_2%Hl.
    apply path_string_inj in E as <-; [eauto|done..].
  - intros (Hb & mode & Ht). assert ((path_string p, content) ∈ l) as Hin by (apply Hl; eauto 10).
    apply elem_of_list_to_map_1'; [|done]. intros c' Hc'. by eapply Huniq.
Qed.

(** The files of the runner, when what is below a directory is that of a machine. *)
Definition share (dir : path) (t : tree) (fs : file_system) : file_system :=
  files_below dir t ∪ filter (fun kv : string * string => below dir (resolve_from [] kv.1) = false) fs.

Lemma share_reads (t : tree) dir fs : reads t dir (share (resolve_from [] dir) t fs).
Proof.
  intros rel content Hrel. set (W := resolve_from [] dir).
  assert (Forall good_elem (W ++ rel)) as Hg.
  { apply Forall_app. split; [by apply resolve_from_good|done]. }
  assert (below W (W ++ rel) = true) as Hb by (apply below_spec; eauto).
  assert (filter (fun kv : string * string => below W (resolve_from [] kv.1) = false) fs !!
            path_string (W ++ rel) = None) as Hn.
  { apply map_lookup_filter_None. right. intros c _ Hc.
    change (below W (resolve_from [] (path_string (W ++ rel))) = false) in Hc.
    rewrite <- (resolve_absolute {| tree_of := ∅; cwd := []; super := false; random := []; faults := [] |}),
      resolve_path_string, Hb in Hc; [done|done|apply path_string_absolute]. }
  unfold share. rewrite lookup_union_Some_raw, Hn, files_below_spec by done. naive_solver.
Qed.

Section cached.
  Context (B : System) `{GR : GitReturns} `{MR : MapRange}.
  Context (TempDir : string) (stepsFinder : string -> res tree) (gf : GitFetcher).
  Hypothesis finder_decided : forall step, decided (stepsFinder step) = true.

(** What a fetcher returned, and the files the runner reads then. *)
Definition fetched_files (r : res string) (m : machine) (fs : file_system) : file_system :=
  match r with Ok dir => share (resolve_from [] dir) (tree_of m) fs | _ => fs end.

(** The state of the machine and of the fetcher, and that of the rest. *)
Definition cached_state : Type := machine * Fetcher * @os_state B.

Definition cached_MkdirTemp (o : cached_state) : res string * cached_state :=
  let '(r, b) := @World.MkdirTemp B o.2 in (r, (o.1, b)).

Definition cached_Git_Get (url version : string) (o : cached_state) (fs : file_system) :
    res string * file_system * cached_state :=
  let '(r, m) := GitCache.Get gf url version o.1.1 in (r, fetched_files r m fs, (m, o.1.2, o.2)).

Definition cached_Dist_Fetch (step : string) (o : cached_state) (fs : file_system) :
    res string * file_system * cached_state :=
  let '(r, f, m) := DistCache.Fetch TempDir stepsFinder o.1.2 step o.1.1 in
  (r, fetched_files r m fs, (m, f, o.2)).

Lemma cached_MkdirTemp_decided o : decided (cached_MkdirTemp o).1 = true.
Proof. unfold cached_MkdirTemp. pose proof (@MkdirTemp_decided B o.2) as H. revert H. by destruct (@World.MkdirTemp B o.2). Qed.

Lemma cached_Git_Get_decided url version o fs : decided (cached_Git_Get url version o fs).1.1 = true.
Proof.
  unfold cached_Git_Get. pose proof (Get_returns gf url version o.1.1) as H. revert H.
  by destruct (GitCache.Get gf url version o.1.1).
Qed.

Lemma cached_Dist_Fetch_decided step o fs : decided (cached_Dist_Fetch step o fs).1.1 = true.
Proof.
  unfold cached_Dist_Fetch.
  pose proof (Fetch_returns TempDir stepsFinder finder_decided o.1.2 step o.1.1) as H. revert H.
  by destruct (DistCache.Fetch TempDir stepsFinder o.1.2 step o.1.1) as [[? ?] ?].
Qed.

(** A system with the fetchers of the program and everything else of another. *)
Definition cached_system : System := {|
  os_state := cached_state;
  World.MkdirTemp := cached_MkdirTemp;
  Uint32 o := let '(n, b) := Uint32 o.2 in (n, (o.1, b));
  WriteFile_error o fs p := WriteFile_error o.2 fs p;
  Remove_error o fs p := Remove_error o.2 fs p;
  Write_stdout o text := let '(e, b) := Write_stdout o.2 text in (e, (o.1, b));
  Cmd_Run args dir env o fs :=
    let '(code, err, fs', b) := Cmd_Run args dir env o.2 fs in (code, err, fs', (o.1, b));
  Git_Get := cached_Git_Get;
  Dist_Fetch := cached_Dist_Fetch;
  World.unmarshalSchema := @World.unmarshalSchema B;
  validateSpec := @validateSpec B;
  validateStep := @validateStep B;
  MkdirTemp_decided := cached_MkdirTemp_decided;
  Git_Get_decided := cached_Git_Get_decided;
  Dist_Fetch_decided := cached_Dist_Fetch_decided;
  unmarshalSchema_decided := @unmarshalSchema_decided B
|}.

#[export] Instance cached_fetchers : Fetchers (Sy := cached_system) TempDir stepsFinder gf.
Proof.
  refine {| machine_of := fun o : @os_state cached_system => o.1.1;
            dist_fetcher := fun o : @os_state cached_system => o.1.2 |}.
  - intros step o fs. cbn. unfold cached_Dist_Fetch. destruct (DistCache.Fetch _ _ _ _ _) as [[r f] m] eqn:E. cbn. split; [done|].
    intros dir ->. apply share_reads.
  - intros url version o fs. cbn. unfold cached_Git_Get. destruct (GitCache.Get _ _ _ _) as [r m] eqn:E. cbn. split; [done|].
    split; [done|]. intros dir ->. apply share_reads.
Defined.
End cached.

(** ** Loading the file of a step *)

Section loading.
  Context `{Sy : System} `{SE : StepFileEnv} `{SP : StructPB} `{MR : MapRange} `{FM : schema.Format}.

(** The definition in a step file of the given content. *)
Definition read_definition (dir stepFile content : string) : res SpecDefinition :=
  '(spec, step) ← ReadSteps content or_wrap ("loading file " +:+ quote stepFile +:+ ": ");
  protoSpec ← (schema.Spec_Compile spec).2 or_wrap "compiling proto specification: ";
  protoDef ← schema.Compile step or_wrap "compiling proto definition: ";
  Ok (NewSpecDefinition protoSpec protoDef dir).

Lemma M_bind_lift {A B} (r : res A) (f : A -> M B) w :
  (lift r ≫= f) w = match r with
                    | Ok a => f a w
                    | Err e => (Err e, w)
                    | Panic why => (Panic why, w)
                    | OutOfFuel => (OutOfFuel, w)
                    end.
Proof. by destruct r. Qed.

Lemma FileSystem_Fetch_file wd path filename view w dir content :
  stepDir wd path view = Ok dir -> files w !! PathJoin [dir; filename] = Some content ->
  FileSystem_Fetch wd path filename view w = (read_definition dir (PathJoin [dir; filename]) content, w).
Proof.
  intros Hd Hf. unfold FileSystem_Fetch, read_definition. rewrite M_bind_lift, Hd. cbn [wrap_err].
  unfold wrap at 1, LoadSteps, mbind at 1, M_bind at 1. rewrite Hf.
  destruct (ReadSteps content) as [[spec step]|e|why|]; cbn [wrap_err]; try done.
  rewrite M_bind_lift. unfold mbind at 2, res_bind at 1. destruct (schema.Spec_Compile spec).2; cbn [wrap_err]; try done.
  rewrite M_bind_lift. by destruct (schema.Compile step).
Qed.

(** Loading a file only reads. *)
Lemma FileSystem_Fetch_reads wd path filename view w : (FileSystem_Fetch wd path filename view w).2 = w.
Proof.
  unfold FileSystem_Fetch. rewrite M_bind_lift. destruct (stepDir wd path view); cbn [wrap_err]; try done.
  unfold mbind at 1, M_bind at 1, wrap, LoadSteps. destruct (files w !! _) as [c|]; cbn [wrap_err]; [|done].
  destruct (ReadSteps c) as [[spec step]| | |]; cbn [wrap_err]; try done.
  rewrite M_bind_lift. destruct (schema.Spec_Compile spec).2; cbn [wrap_err]; try done.
  rewrite M_bind_lift. by destruct (schema.Compile step).
Qed.

Lemma FileSystem_Fetch_Ok wd path filename view w sd w' dir :
  stepDir wd path view = Ok dir -> FileSystem_Fetch wd path filename view w = (Ok sd, w') ->
  exists content, files w !! PathJoin [dir; filename] = Some content /\
    read_definition dir (PathJoin [dir; filename]) content = Ok sd.
Proof.
  intros Hd H. destruct (files w !! PathJoin [dir; filename]) as [content|] eqn:Hf.
  - exists content. split; [done|]. erewrite FileSystem_Fetch_file in H by done. by injection H.
  - exfalso. unfold FileSystem_Fetch in H. rewrite M_bind_lift, Hd in H. cbn [wrap_err] in H.
    unfold mbind at 1, M_bind at 1, wrap, LoadSteps in H. by rewrite Hf in H.
Qed.

Lemma stepDir_plain wd p :
  ExpandString None p = Ok p -> HasPrefix p "/" = false -> stepDir wd p None = Ok (PathJoin [wd; p]).
Proof. unfold stepDir. by intros -> ->. Qed.

(** The path of a file in the directory of a step. *)
Lemma step_file_path wd p filename :
  HasPrefix wd "/" = true -> Forall no_up (Split p "/") -> Forall no_up (Split filename "/") ->
  PathJoin [PathJoin [wd; p]; filename] =
    path_string (resolve_from [] wd ++ (name_elems p ++ name_elems filename)).
Proof.
  intros Hwd Hp Hf. rewrite PathJoin_absolute by by apply PathJoin_is_absolute.
  rewrite (join_name _ filename) by done.
  rewrite <- (resolve_absolute {| tree_of := ∅; cwd := []; super := false; random := []; faults := [] |})
    by by apply PathJoin_is_absolute.
  rewrite resolve_join, (join_name _ p) by done. by rewrite app_assoc.
Qed.
End loading.

(** ** Distributed steps *)

Section distributed.
  Context `{Sy : System} `{GL : GitLib} `{SE : StepFileEnv} `{SP : StructPB} `{MR : MapRange}
    `{FM : schema.Format}.
  Context {TempDir : string} {stepsFinder : string -> res tree} {gf : GitFetcher}
    `{FE : !Fetchers TempDir stepsFinder gf}.

(** The state of the fetcher: its working directory, to be made or made, and the
    steps in it. *)
Definition dist_ready (dir : string) (fetched : list string) (o : os_state) : Prop :=
  ~ faulty (machine_of o) /\
  ((dist_fetcher o = NewFetcher /\ fetched = [] /\
    dirs_to (tree_of (machine_of o)) (resolve_from [] TempDir) /\ good_names (tree_of (machine_of o)) /\
    exists name names', dir = PathJoin [TempDir; name] /\
      draw (tree_of (machine_of o)) (resolve_from [] TempDir) "" (GoFiles.random (machine_of o)) = Some (name, names')) \/
   (dist_fetcher o = {| DistCache.workDir := dir |} /\ HasPrefix dir "/" = true /\
    cache_inv stepsFinder dir fetched (tree_of (machine_of o)))).

Lemma Fetch_made dir step (m : machine) :
  dir <> "" ->
  DistCache.Fetch TempDir stepsFinder {| DistCache.workDir := dir |} step m =
    let '(r, m') := fetch_in stepsFinder dir step m in (r, {| DistCache.workDir := dir |}, m').
Proof.
  intros Hd. unfold DistCache.Fetch, createWorkDir, F_wrap. cbn [DistCache.workDir].
  destruct (String.eqb_spec dir ""); [done|]. by cbn.
Qed.

Lemma Dist_Fetch_ready dir fetched step fsys o fs :
  HasPrefix TempDir "/" = true -> dist_ready dir fetched o -> fetchable stepsFinder step fsys ->
  separate (step :: fetched) ->
  exists fs' o', World.Dist_Fetch step o fs = (Ok dir, fs', o') /\
    HasPrefix dir "/" = true /\ reads (tree_of (machine_of o')) dir fs' /\
    dist_ready dir (step :: fetched) o' /\
    cache_inv stepsFinder dir (step :: fetched) (tree_of (machine_of o')).
Proof.
  intros HT [Hf Hr] Hs Hsep. pose proof (Dist_Fetch_cache step o fs) as Hc.
  destruct (World.Dist_Fetch step o fs) as [[r fs'] o']. destruct Hc as [Hc Hreads].
  assert (exists m1, ~ faulty m1 /\ HasPrefix dir "/" = true /\ cache_inv stepsFinder dir fetched (tree_of m1) /\
    DistCache.Fetch TempDir stepsFinder (dist_fetcher o) step (machine_of o) =
    DistCache.Fetch TempDir stepsFinder {| DistCache.workDir := dir |} step m1) as (m1 & Hf1 & Hdir & HI & E).
  { destruct Hr as [(Hn & -> & Hd & Hg & name & names' & -> & Hdraw)|(Hm & Hdir & HI)].
    - destruct (cache_inv_start TempDir stepsFinder (machine_of o) name names' HT Hd Hg Hdraw Hf) as (Hdir & m1 & E & Hf1 & HI).
      exists m1. split; [done|]. split; [done|]. split; [done|]. rewrite Hn.
      apply Fetch_new; [done|]. by apply absolute_nonempty.
    - exists (machine_of o). rewrite Hm. done. }
  destruct (fetch_in_keeps stepsFinder dir fetched step fsys m1 Hdir HI Hf1 Hs Hsep) as (m2 & E2 & Hf2 & HI2).
  rewrite E, Fetch_made, E2 in Hc by by apply absolute_nonempty. injection Hc as <- Hfo Hmo.
  exists fs', o'. rewrite <- Hmo. split; [done|]. split; [done|]. split; [rewrite Hmo; by apply Hreads|].
  split; [|done]. split; [by rewrite <- Hmo|]. right. rewrite <- Hmo. done.
Qed.

(** C15: loading a distributed step.  When no system call fails, the resource of a step
    that is distributed with the program, whatever steps were fetched before it as long
    as no two of them are one in the directory of the other, is the definition in the file embedded with the step, and the directory it is
    relative to is that of the step in the cache; there each step that was
    fetched stays whole.  A step file that is no definition is the error, and the
    objects of the run are not changed. *)
Theorem distributed_step_loaded fuel step filename view dir fetched fsys mode content w :
  HasPrefix TempDir "/" = true -> dist_ready dir fetched (os w) ->
  fetchable stepsFinder step fsys -> separate (step :: fetched) ->
  ExpandString None step = Ok step -> HasPrefix step "/" = false ->
  Forall no_up (Split filename "/") -> fsys !! name_elems filename = Some (GoFiles.File mode content) ->
  exists w',
    Fetch fuel (NewDistStepResource step filename) view w =
      (read_definition (PathJoin [dir; step]) (PathJoin [PathJoin [dir; step]; filename]) content
         or_wrap "fetching dist step: ", w') /\
    heap w' = heap w /\ dist_ready dir (step :: fetched) (os w') /\
    forall s, s ∈ step :: fetched -> exists files, fetchable stepsFinder s files /\
      installed (tree_of (machine_of (os w'))) (resolve_from [] dir ++ name_elems s) files.
Proof.
  intros HT Hr Hs Hsep Hx Hrel Hup Hfile.
  destruct (Dist_Fetch_ready _ _ _ _ (os w) (files w) HT Hr Hs Hsep) as (fs' & o' & E & Hdir & Hreads & Hr' & HI).
  exists (set_os o' (set_files fs' w)). split; [|split; [done|]; split; [done|apply HI]].
  assert (Fetch fuel (NewDistStepResource step filename) view = Dist_Fetch_resource step filename) as ->
    by (by destruct fuel).
  unfold Dist_Fetch_resource, mbind, M_bind, wrap. rewrite E. cbn [wrap_err].
  erewrite FileSystem_Fetch_file; [reflexivity|by apply stepDir_plain|].
  rewrite step_file_path by (done || apply Hs). apply Hreads; [by apply Forall_app; split; apply join_elems_good|].
  destruct (cache_steps _ _ _ _ HI step ltac:(left)) as (fsys' & Hs' & Hi).
  pose proof (fetchable_found _ _ _ Hs) as F1. rewrite (fetchable_found _ _ _ Hs') in F1. injection F1 as ->.
  rewrite app_assoc, Hi, Hfile. by eexists.
Qed.
End distributed.

(** ** Git steps *)

Section git.
  Context `{Sy : System} `{GL : GitLib} `{LAWS : !GitLaws} `{SE : StepFileEnv} `{SP : StructPB}
    `{MR : MapRange} `{FM : schema.Format}.
  Context {TempDir : string} {stepsFinder : string -> res tree} {gf : GitFetcher}
    `{FE : !Fetchers TempDir stepsFinder gf}.

(** The URLs whose repository is in this directory of the cache: those of its host
    and path. *)
Definition of_repository (repoDir url : string) : Prop :=
  exists host p, NewEndpoint url = Ok (host, p) /\ EscapePath (PathJoin [host; p]) = Ok repoDir.

(** The directory of a version holds the files that some request of the repository
    asked for, of a reference with that hash. *)
Definition checked_out (t : tree) (repoDir v : string) (files : list object_File) : Prop :=
  (exists url version m repo ref, of_repository repoDir url /\
     requested gf repoDir url version m repo ref files /\ EscapeHash ref = Ok v) /\
  whole (version_dir gf repoDir v) files t.

(** The cache of a repository: each version is checked out whole, or not there. *)
Definition git_ready (repoDir : string) (o : os_state) : Prop :=
  forall v, v <> ".git" ->
    (forall rel, tree_of (machine_of o) !! (version_dir gf repoDir v ++ rel) = None) \/
    exists files, checked_out (tree_of (machine_of o)) repoDir v files.

(** What is returned is the directory of the version that was asked for. *)
Lemma Get_Ok url version (m m' : machine) host p repoDir dir :
  NewEndpoint url = Ok (host, p) -> EscapePath (PathJoin [host; p]) = Ok repoDir ->
  GitCache.Get gf url version m = (Ok dir, m') ->
  exists repo ref files v, requested gf repoDir url version m repo ref files /\ EscapeHash ref = Ok v /\
    dir = PathJoin [cacheDir gf; repoDir; v].
Proof.
  intros He Hp H. assert (clone gf repoDir url version m = (Ok dir, m')) as H'.
  { rewrite <- H. unfold GitCache.Get, mbind, F_bind, F_lift. rewrite He. cbn [wrap_err]. by rewrite Hp. }
  clear H. rename H' into H. unfold clone in H. destruct (String.eqb version ".git"); [done|].
  apply F_bind_Ok in H as ([] & m1 & Q1%F_wrap_Ok & H). apply F_bind_Ok in H as (repo & m2 & Q2%open_or_clone_opened & H).
  apply F_bind_Ok in H as ([ref|] & m3 & Q3 & H); [|done]. apply findFetchAndFindAgain_found in Q3.
  apply F_bind_Ok in H as (v & m5 & Hv & H). injection Hv as Hv%wrap_err_Ok <-.
  apply F_bind_Ok in H as (commit & m6 & Q4 & H). injection Q4 as Q4%wrap_err_Ok <-.
  apply F_bind_Ok in H as (fs & m7 & Q5 & H). injection Q5 as Q5%wrap_err_Ok <-.
  apply F_bind_Ok in H as (wt & m8 & _ & H). exists repo, ref, fs, v.
  split; [by exists m1, m2, m3, commit|]. split; [done|].
  unfold F_defer in H. destruct (install_version _ _ _ _ _ m8) as [r m9] eqn:E. injection H as -> _.
  unfold install_version in E. apply F_bind_Ok in E as ([] & m10 & _ & E).
  apply F_bind_Ok in E as ([[]|err] & m11 & _ & E); [by injection E|].
  destruct (is_ErrExist err); [by injection E|done].
Qed.

Section request.
  Context (url version host p repoDir : string) (o : os_state).
  Hypothesis (Hc : HasPrefix (cacheDir gf) "/" = true).
  Hypothesis (He : NewEndpoint url = Ok (host, p)) (Hp : EscapePath (PathJoin [host; p]) = Ok repoDir).
  Hypothesis Hnames : forall repo ref files, requested gf repoDir url version (machine_of o) repo ref files ->
    Forall well_named files /\ NoDup (name_elems ∘ f_Name <$> files).

(** A request leaves each version as it was, or makes it the one it asks for. *)
Lemma Git_Get_version fs v : v <> ".git" ->
  let o' := (World.Git_Get url version o fs).2 in
  same_below (version_dir gf repoDir v) (tree_of (machine_of o)) (tree_of (machine_of o')) \/
  exists repo ref files, requested gf repoDir url version (machine_of o) repo ref files /\ EscapeHash ref = Ok v /\
    whole (version_dir gf repoDir v) files (tree_of (machine_of o')).
Proof.
  intros Hv. pose proof (Git_Get_cache url version o fs) as Hg.
  destruct (World.Git_Get url version o fs) as [[r fs'] o']. cbn [snd]. destruct Hg as (Hg & _ & _).
  set (asked := fun ref files => exists repo, requested gf repoDir url version (machine_of o) repo ref files).
  assert (forall ref files, asked ref files -> Forall well_named files /\ NoDup (name_elems ∘ f_Name <$> files))
    as Hasked by (intros ref files [repo H]; by eapply Hnames).
  pose proof (clone_atomic gf repoDir Hc (EscapePath_good _ _ Hp) asked Hasked url version v (machine_of o) Hv) as Ha.
  assert (GitCache.Get gf url version (machine_of o) = clone gf repoDir url version (machine_of o)) as E.
  { unfold GitCache.Get, mbind, F_bind, F_lift. rewrite He. cbn [wrap_err]. by rewrite Hp. }
  unfold atomic in Ha. rewrite <- E, Hg in Ha. cbn [snd] in Ha.
  destruct Ha as [Hsame|(ref & fls & [repo H1] & H2 & H3)];
    [intros repo ref fls; by exists repo|by left|right; by exists repo, ref, fls].
Qed.

(** So it keeps the cache ready. *)
Lemma Git_Get_ready fs : git_ready repoDir o -> git_ready repoDir (World.Git_Get url version o fs).2.
Proof.
  intros Hr v Hv. destruct (Git_Get_version fs v Hv) as [Hsame|(repo & ref & fls & H1 & H2 & H3)].
  - destruct (Hr v Hv) as [Habs|(fls & Hk & Hw)]; [left|right].
    + intros rel. rewrite (Hsame rel). apply Habs.
    + exists fls. split; [done|]. by rewrite <- Hsame.
  - right. exists fls. split; [|done]. exists url, version, (machine_of o), repo, ref. split; [by exists host, p|done].
Qed.

(** The files of a version that a request asked for and that is there after it. *)
Lemma Git_Get_files fs v rel n :
  v <> ".git" -> git_ready repoDir o ->
  (exists repo ref files, requested gf repoDir url version (machine_of o) repo ref files /\ EscapeHash ref = Ok v) ->
  let o' := (World.Git_Get url version o fs).2 in
  tree_of (machine_of o') !! (version_dir gf repoDir v ++ rel) = Some n ->
  exists repo ref files commit_files,
    requested gf repoDir url version (machine_of o) repo ref files /\ EscapeHash ref = Ok v /\
    (commit_files = files \/ checked_out (tree_of (machine_of o)) repoDir v commit_files) /\
    whole (version_dir gf repoDir v) commit_files (tree_of (machine_of o')).
Proof.
  intros Hv Hr (repo & ref & files & Hq & Hh) o' Hn.
  destruct (Git_Get_version fs v Hv) as [Hsame|(repo' & ref' & fls & H1 & H2 & H3)].
  - destruct (Hr v Hv) as [Habs|(fls & Hk & Hw)].
    + unfold o' in Hn. by rewrite (Hsame rel), Habs in Hn.
    + exists repo, ref, files, fls. split; [done|]. split; [done|]. split; [by right|]. unfold o'. by rewrite <- Hsame.
  - exists repo', ref', fls, fls. by repeat (split; [by auto|]).
Qed.
End request.

(** C14: loading a Git step.  Whatever system calls fail and whatever else is in the
    repository, when the tree that is asked for names its files below its root and
    each once, each version of the repository stays whole or absent in the cache.  When
    the resource of the step is fetched, the definition is the one in the file of that
    path in the directory of the version that was asked for: the hash of the reference
    that the version names in the repository opened or cloned for the URL.  The files of
    that directory are those of the commit of that reference, unless the version was
    there before: then they are those that an earlier request of the repository asked
    for, of a reference with the same hash. *)
Theorem git_step_loaded fuel url url' version path filename view w host p repoDir :
  HasPrefix (cacheDir gf) "/" = true ->
  ExpandString view url = Ok url' ->
  NewEndpoint url' = Ok (host, p) -> EscapePath (PathJoin [host; p]) = Ok repoDir ->
  (forall repo ref files, requested gf repoDir url' version (machine_of (os w)) repo ref files ->
     Forall well_named files /\ NoDup (name_elems ∘ f_Name <$> files)) ->
  ExpandString None path = Ok path -> HasPrefix path "/" = false ->
  Forall no_up (Split path "/") -> Forall no_up (Split filename "/") -> name_elems filename <> [] ->
  git_ready repoDir (os w) ->
  let '(r, w') := Fetch fuel (NewGitStepResource url version path filename) view w in
  heap w' = heap w /\ git_ready repoDir (os w') /\
  forall sd, r = Ok sd ->
    exists repo ref files v commit_files f content dir,
      requested gf repoDir url' version (machine_of (os w)) repo ref files /\ EscapeHash ref = Ok v /\
      (commit_files = files \/ checked_out (tree_of (machine_of (os w))) repoDir v commit_files) /\
      whole (version_dir gf repoDir v) commit_files (tree_of (machine_of (os w'))) /\
      f ∈ commit_files /\ name_elems (f_Name f) = name_elems path ++ name_elems filename /\
      f_Reader f = Ok content /\ dir = PathJoin [PathJoin [cacheDir gf; repoDir; v]; path] /\
      read_definition dir (PathJoin [dir; filename]) content = Ok sd.
Proof.
  intros Hc Hx He Hp Hnames Hpath Hrel Hup Hupf Hne Hr.
  assert (Fetch fuel (NewGitStepResource url version path filename) view = Git_Fetch url version path filename view)
    as -> by (by destruct fuel).
  unfold Git_Fetch. rewrite M_bind_lift, Hx. cbn [wrap_err].
  pose proof (Git_Get_ready url' version host p repoDir (os w) Hc He Hp Hnames (files w) Hr) as Hr'.
  pose proof (Git_Get_files url' version host p repoDir (os w) Hc He Hp Hnames (files w)) as Hver.
  pose proof (Git_Get_cache url' version (os w) (files w)) as Hg. unfold mbind, M_bind, wrap. cbv beta.
  destruct (World.Git_Get url' version (os w) (files w)) as [[r fs'] o']. cbn [snd] in Hr', Hver.
  destruct Hg as (Hg & _ & Hreads). destruct r as [dir|e|why|]; cbn [wrap_err]; try done.
  destruct (Get_Ok url' version _ _ host p repoDir dir He Hp Hg) as (repo0 & ref0 & files0 & v & Hreq0 & Hv0 & ->).
  specialize (Hreads _ eq_refl). set (dir := PathJoin [cacheDir gf; repoDir; v]) in *.
  assert (HasPrefix dir "/" = true) as Hdir by by apply PathJoin3_is_absolute.
  set (w1 := set_os o' (set_files fs' w)).
  pose proof (FileSystem_Fetch_reads dir path filename None w1) as Hw2.
  destruct (FileSystem_Fetch dir path filename None w1) as [r w2] eqn:E. cbn [snd] in Hw2. subst w2.
  split; [done|]. split; [done|]. intros sd Hsd%wrap_err_Ok. subst r.
  apply (FileSystem_Fetch_Ok _ _ _ _ _ _ _ (PathJoin [dir; path])) in E as (content & Hf & Hread);
    [|by apply stepDir_plain].
  assert (good_elem v) as Hgv by (unfold EscapeHash in Hv0; destruct ref0; by eapply EscapeVersion_good).
  assert (v <> ".git") as Hng by (unfold EscapeHash in Hv0; destruct ref0; by eapply EscapeVersion_hash).
  assert (resolve_from [] dir = version_dir gf repoDir v) as Hres.
  { rewrite <- (resolve_absolute (machine_of o')) by done. apply version_dir_elems; try done.
    by eapply EscapePath_good. }
  rewrite step_file_path in Hf by done.
  apply Hreads in Hf as [mode Hf]; [|by apply Forall_app; split; apply join_elems_good]. rewrite Hres in Hf.
  destruct (Hver v _ _ Hng Hr ltac:(eauto) Hf) as (repo & ref & files' & commit_files & Hreq & Hv & Hfrom & Hw).
  destruct (name_elems path ++ name_elems filename) as [|x rel] eqn:En.
  { apply app_eq_nil in En as [_ ?]. done. }
  pose proof Hw as [Hw1 Hw2]. destruct (Hw2 x rel mode content Hf) as (f & Hin & Hname).
  destruct (Hw1 f Hin) as (mode' & content' & _ & Hc' & Ht). rewrite <- Hname, Hf in Ht. injection Ht as _ <-.
  exists repo, ref, files', v, commit_files, f, content, (PathJoin [dir; path]).
  repeat (split; [done|]). by repeat split.
Qed.
End git.
