(* ===== verification/Builders.v ===== *)
(** The builders of the messages, contexts and steps the tests of the runner start
    from (src/pkg/testutil/bldr).  A builder is a record of what was asked for; its
    methods change it and return it, and [Build] makes the value.  What a builder
    does with the test it belongs to is left out: the error of a call that must
    not fail ends the test, and is the error of the computation here. *)

From stdpp Require Import gmap strings list fin_maps.
From S2P Require Import Prelude GoStrings GoPaths Values Expression Environment Proto StepFile Schema.
From S2P Require Import SpecDefinition World Resources Runner RunnerFacts RunnerSpec Termination.
Open Scope go_scope.
Open Scope string_scope.
Open Scope list_scope.

(** ** proto_def_builder.go *)

(** [type ProtoDefinitionBuilder struct] *)
Record ProtoDefinitionBuilder := {
  pd_defType : proto.DefinitionType;
  pd_env : gmap string string;
  pd_exec : proto.Definition_Exec;
  pd_outputs : gmap string value
}.

Definition ProtoDef : ProtoDefinitionBuilder := {|
  pd_defType := proto.exec;
  pd_env := ∅;
  pd_exec := {| proto.Exec_Command := ["bash"; "-c"; "echo 'hello world'"]; proto.Exec_WorkDir := "" |};
  pd_outputs := ∅ |}.

Definition ProtoDef_WithEnvVar (b : ProtoDefinitionBuilder) (name value : string) : ProtoDefinitionBuilder := {|
  pd_defType := pd_defType b; pd_env := <[name := value]> (pd_env b); pd_exec := pd_exec b;
  pd_outputs := pd_outputs b |}.

Definition ProtoDef_WithExecType (b : ProtoDefinitionBuilder) (workDir : string) (command : list string) :
    ProtoDefinitionBuilder := {|
  pd_defType := proto.exec; pd_env := pd_env b;
  pd_exec := {| proto.Exec_Command := command; proto.Exec_WorkDir := workDir |};
  pd_outputs := pd_outputs b |}.

Definition ProtoDef_WithOutput (b : ProtoDefinitionBuilder) (name : string) (v : value) :
    ProtoDefinitionBuilder := {|
  pd_defType := pd_defType b; pd_env := pd_env b; pd_exec := pd_exec b;
  pd_outputs := <[name := v]> (pd_outputs b) |}.

Definition ProtoDef_Build (b : ProtoDefinitionBuilder) : proto.Definition_ := {|
  proto.Def_Type := pd_defType b; proto.Def_Exec := Some (pd_exec b); proto.Def_Steps := [];
  proto.Def_Outputs := pd_outputs b; proto.Def_Env := pd_env b; proto.Def_Delegate := "" |}.

(** ** proto_spec_builder.go *)

(** [type ProtoSpecBuilder struct] *)
Record ProtoSpecBuilder := {
  ps_outputMethod : proto.OutputMethod;
  ps_outputSpec : gmap string proto.Spec_Content_Output
}.

Definition ProtoSpec : ProtoSpecBuilder := {| ps_outputMethod := proto.outputs; ps_outputSpec := ∅ |}.

Definition ProtoSpec_WithOutputSpec (b : ProtoSpecBuilder) (outputSpec : gmap string proto.Spec_Content_Output) :
    ProtoSpecBuilder := {| ps_outputMethod := ps_outputMethod b; ps_outputSpec := outputSpec |}.

Definition ProtoSpec_WithOutputMethod (b : ProtoSpecBuilder) (outputMethod : proto.OutputMethod) :
    ProtoSpecBuilder := {| ps_outputMethod := outputMethod; ps_outputSpec := ps_outputSpec b |}.

Definition ProtoSpec_Build (b : ProtoSpecBuilder) : proto.Spec := {| proto.Spec_Spec := {|
  proto.Content_Inputs := ∅; proto.Content_Outputs := ps_outputSpec b;
  proto.Content_OutputMethod := ps_outputMethod b |} |}.

(** ** spec_def_builder.go *)

(** [type SpecDefinitionBuilder struct] *)
Record SpecDefinitionBuilder := {
  sd_spec : proto.Spec;
  sd_definition : proto.Definition_
}.

Definition SpecDef : SpecDefinitionBuilder :=
  {| sd_spec := ProtoSpec_Build ProtoSpec; sd_definition := ProtoDef_Build ProtoDef |}.

Definition SpecDef_WithSpec (b : SpecDefinitionBuilder) (spec : proto.Spec) : SpecDefinitionBuilder :=
  {| sd_spec := spec; sd_definition := sd_definition b |}.

Definition SpecDef_WithDefinition (b : SpecDefinitionBuilder) (definition : proto.Definition_) :
    SpecDefinitionBuilder := {| sd_spec := sd_spec b; sd_definition := definition |}.

Definition SpecDef_Build (b : SpecDefinitionBuilder) : SpecDefinition :=
  NewSpecDefinition (sd_spec b) (sd_definition b) "".

(** ** step_result_builder.go *)

(** [type StepResultBuilder struct] *)
Record TestResultBuilder := {
  sr_specDef : SpecDefinition;
  sr_status : proto.Status;
  sr_step : option proto.Step;
  sr_outputs : gmap string value
}.

Definition StepResult : TestResultBuilder := {|
  sr_specDef := SpecDef_Build SpecDef; sr_status := proto.success; sr_step := None; sr_outputs := ∅ |}.

Definition StepResult_WithOutput (b : TestResultBuilder) (name : string) (v : value) : TestResultBuilder := {|
  sr_specDef := sr_specDef b; sr_status := sr_status b; sr_step := sr_step b;
  sr_outputs := <[name := v]> (sr_outputs b) |}.

Definition StepResult_WithSpecDef (b : TestResultBuilder) (specDef : SpecDefinition) : TestResultBuilder := {|
  sr_specDef := specDef; sr_status := sr_status b; sr_step := sr_step b; sr_outputs := sr_outputs b |}.

Definition StepResult_WithFailedStatus (b : TestResultBuilder) : TestResultBuilder := {|
  sr_specDef := sr_specDef b; sr_status := proto.failure; sr_step := sr_step b; sr_outputs := sr_outputs b |}.

Definition StepResult_WithSuccessStatus (b : TestResultBuilder) : TestResultBuilder := {|
  sr_specDef := sr_specDef b; sr_status := proto.success; sr_step := sr_step b; sr_outputs := sr_outputs b |}.

(** The exec result is a message with everything unset. *)
Definition StepResult_Build (b : TestResultBuilder) : proto.StepResult := {|
  proto.SR_Step := sr_step b; proto.SR_SpecDefinition := Some (ToProto (sr_specDef b));
  proto.SR_Status := sr_status b; proto.SR_Outputs := sr_outputs b; proto.SR_Exports := ∅;
  proto.SR_Env := ∅;
  proto.SR_ExecResult := Some {| proto.ER_Command := []; proto.ER_WorkDir := ""; proto.ER_ExitCode := 0 |};
  proto.SR_SubStepResults := [] |}.

(** ** step_builder.go *)

(** [type StepBuilder struct], and [type FixedResultStep struct] with the same fields. *)
Record FixedResultStep := {
  fixed_err : option error;
  fixed_stepResult : option proto.StepResult
}.

Definition Step_ : FixedResultStep :=
  {| fixed_stepResult := Some (StepResult_Build StepResult); fixed_err := None |}.

Definition Step_WithRunReturnsStepResult (b : FixedResultStep) (stepResult : option proto.StepResult) :
    FixedResultStep := {| fixed_stepResult := stepResult; fixed_err := fixed_err b |}.

Definition Step_WithRunReturnsErr (b : FixedResultStep) (err : option error) : FixedResultStep :=
  {| fixed_stepResult := fixed_stepResult b; fixed_err := err |}.

Definition Step_Build (b : FixedResultStep) : FixedResultStep :=
  {| fixed_stepResult := fixed_stepResult b; fixed_err := fixed_err b |}.

(** The names protoc gives the statuses. *)
Definition Status_String (s : proto.Status) : string :=
  match s with
  | proto.unspecified => "unspecified"
  | proto.running => "running"
  | proto.success => "success"
  | proto.failure => "failure"
  | proto.cancelled => "cancelled"
  end.

(** [s.Describe()]: reads the field of a result that may be nil. *)
Definition FixedResultStep_Describe (s : FixedResultStep) : res string :=
  match fixed_stepResult s with
  | Some r => Ok ("fixed result step " +:+ Status_String (proto.SR_Status r))
  | None => Panic "invalid memory address or nil pointer dereference"
  end.

Section builders.
  Context `{Sy : System} `{SE : StepFileEnv} `{SP : StructPB} `{MR : MapRange} `{FM : schema.Format}.

(** [s.Run(ctx, stepsCtx)] *)
Definition FixedResultStep_Run (s : FixedResultStep) (stepsCtx : StepsContext) : M outcome :=
  mret (fixed_stepResult s, fixed_err s, stepsCtx).

(** ** global_context_builder.go *)

(** [type GlobalContextBuilder struct] *)
Record GlobalContextBuilder := { gb_job : gmap string string }.

Definition GlobalContext_ : GlobalContextBuilder := {| gb_job := ∅ |}.

Definition GlobalContext_WithJob (b : GlobalContextBuilder) (name value : string) : GlobalContextBuilder :=
  {| gb_job := <[name := value]> (gb_job b) |}.

Definition GlobalContext_Build (b : GlobalContextBuilder) : M GlobalContext :=
  env ← on_heap NewEmptyEnvironment;
  lift (NewGlobalContext "." (gb_job b) env).

(** ** environment.go *)

(** [type EnvironmentBuilder struct] *)
Record EnvironmentBuilder := { eb_env : gmap string string }.

Definition Env_ : EnvironmentBuilder := {| eb_env := ∅ |}.

Definition Env_Build (b : EnvironmentBuilder) : M loc := on_heap (fun h => NewEnvironment h (eb_env b)).

(** ** steps_context_builder.go *)

(** [type StepsContextBuilder struct]: the files by their paths. *)
Record StepsContextBuilder := {
  cb_globalCtx : GlobalContext;
  cb_env : gmap string string;
  cb_inputs : gmap string (option value);
  cb_outputFile : string;
  cb_exportFile : string;
  cb_stepResults : gmap string proto.StepResult
}.

(** [StepsContext(t)]; [t.TempDir()] makes a directory of the test. *)
Definition StepsContext_ (t_TempDir : M string) : M StepsContextBuilder :=
  d1 ← t_TempDir;
  outputFile ← NewStepFileInDir d1;
  d2 ← t_TempDir;
  exportFile ← NewStepFileInDir d2;
  globalCtx ← GlobalContext_Build GlobalContext_;
  mret {| cb_globalCtx := globalCtx; cb_env := ∅; cb_inputs := ∅; cb_outputFile := outputFile;
          cb_exportFile := exportFile; cb_stepResults := ∅ |}.

Definition StepsContext_WithGlobalContext (b : StepsContextBuilder) (globalCtx : GlobalContext) :
    StepsContextBuilder := {|
  cb_globalCtx := globalCtx; cb_env := cb_env b; cb_inputs := cb_inputs b;
  cb_outputFile := cb_outputFile b; cb_exportFile := cb_exportFile b; cb_stepResults := cb_stepResults b |}.

Definition StepsContext_WithEnv (b : StepsContextBuilder) (key value : string) : StepsContextBuilder := {|
  cb_globalCtx := cb_globalCtx b; cb_env := <[key := value]> (cb_env b); cb_inputs := cb_inputs b;
  cb_outputFile := cb_outputFile b; cb_exportFile := cb_exportFile b; cb_stepResults := cb_stepResults b |}.

Definition StepsContext_WithInput (b : StepsContextBuilder) (name : string) (v : option value) :
    StepsContextBuilder := {|
  cb_globalCtx := cb_globalCtx b; cb_env := cb_env b; cb_inputs := <[name := v]> (cb_inputs b);
  cb_outputFile := cb_outputFile b; cb_exportFile := cb_exportFile b; cb_stepResults := cb_stepResults b |}.

Definition StepsContext_WithStepResults (b : StepsContextBuilder) (stepResults : gmap string proto.StepResult) :
    StepsContextBuilder := {|
  cb_globalCtx := cb_globalCtx b; cb_env := cb_env b; cb_inputs := cb_inputs b;
  cb_outputFile := cb_outputFile b; cb_exportFile := cb_exportFile b; cb_stepResults := stepResults |}.

Definition StepsContext_Build (b : StepsContextBuilder) : M StepsContext :=
  env ← on_heap (fun h => NewEnvironment h (cb_env b));
  NewStepsContext (cb_globalCtx b) "." (cb_inputs b) env
    [WithStepsCtxOutputFile (cb_outputFile b); WithStepsCtxExportFile (cb_exportFile b);
     WithStepsCtxStepResults (cb_stepResults b)].

(** ** interpolation_context_builder.go *)

(** [type InterpolationCtxBuilder struct] *)
Record InterpolationCtxBuilder := { ib_env : gmap string string }.

Definition InterpolationCtx : InterpolationCtxBuilder := {| ib_env := ∅ |}.

Definition InterpolationCtx_WithEnvVar (b : InterpolationCtxBuilder) (name value : string) :
    InterpolationCtxBuilder := {| ib_env := <[name := value]> (ib_env b) |}.

Definition InterpolationCtx_Build (b : InterpolationCtxBuilder) : InterpolationContext := {|
  ic_Env := ib_env b; ic_ExportFile := "export_file"; ic_Inputs := ∅; ic_Job := ∅;
  ic_OutputFile := "output_file"; ic_StepDir := "step.dir"; ic_StepResults := ∅; ic_WorkDir := "work.dir" |}.

(** ** fixed_step_resource_builder.go *)

(** [type FixedStepResourceBuilder struct], and [type FixedStepResource struct]
    with the same field. *)
Record TestStepResource := { fr_specDef : SpecDefinition }.

Definition StepResource_ (specDef : SpecDefinition) : TestStepResource := {| fr_specDef := specDef |}.

Definition StepResource_Build (b : TestStepResource) : TestStepResource := {| fr_specDef := fr_specDef b |}.

Definition TestStepResource_Fetch (sr : TestStepResource) (view : option InterpolationContext) :
    M SpecDefinition := mret (fr_specDef sr).

(** ** git_step_resource_builder.go *)

(** [type GitStepResourceBuilder struct]; the fetcher is that of the system. *)
Record GitStepResourceBuilder := {
  grb_url : string;
  grb_version : string;
  grb_path : string
}.

Definition GitStepResource_ : GitStepResourceBuilder :=
  {| grb_url := "https://gitlab.com/steps/echo"; grb_version := "main"; grb_path := "" |}.

Definition GitStepResource_WithURL (b : GitStepResourceBuilder) (url : string) : GitStepResourceBuilder :=
  {| grb_url := url; grb_version := grb_version b; grb_path := grb_path b |}.

Definition GitStepResource_WithVersion (b : GitStepResourceBuilder) (version : string) : GitStepResourceBuilder :=
  {| grb_url := grb_url b; grb_version := version; grb_path := grb_path b |}.

Definition GitStepResource_WithPath (b : GitStepResourceBuilder) (path : list string) : GitStepResourceBuilder :=
  {| grb_url := grb_url b; grb_version := grb_version b; grb_path := PathJoin path |}.

Definition GitStepResource_Build (b : GitStepResourceBuilder) : StepResource :=
  NewGitStepResource (grb_url b) (grb_version b) (grb_path b) "step.yml".
End builders.

(** ** What the built values are *)

Section fixtures.
  Context `{Sy : System} `{SE : StepFileEnv} `{SP : StructPB} `{MR : MapRange} `{FM : schema.Format}.

(** The step of a built definition is executable and needs no input. *)
Lemma built_definition_parses gc p l sb db workDir command :
  let sd := SpecDef_Build (SpecDef_WithDefinition (SpecDef_WithSpec SpecDef (ProtoSpec_Build sb))
              (ProtoDef_Build (ProtoDef_WithExecType db workDir command))) in
  Parse gc sd p l = Ok (ExecutableStep l p sd) /\ ExecCommand sd = Ok command /\ ExecWorkDir sd = Ok workDir.
Proof.
  intros sd. split; [|done]. unfold Parse. replace (validateInputs _ _) with (Ok tt); [done|].
  symmetry. apply validateInputs_Ok. intros k i H. change ((∅ : gmap string proto.Spec_Content_Input) !! k = Some i) in H. by rewrite lookup_empty in H.
Qed.

Lemma NewStepFileInDir_files d w path w' :
  NewStepFileInDir d w = (Ok path, w') -> heap w' = heap w /\ files w' = <[path := ""]> (files w).
Proof.
  unfold NewStepFileInDir. destruct (Uint32 _) as [n o].
  intros ([] & w1 & ->%wrap_Ok%os_WriteFile_Ok & [<- ->]%ret_Ok)%M_bind_Ok. done.
Qed.

Lemma NewStepFileInTmp_files w path w' :
  NewStepFileInTmp w = (Ok path, w') -> heap w' = heap w /\ files w' = <[path := ""]> (files w).
Proof.
  unfold NewStepFileInTmp. destruct (String.eqb _ _); [|apply NewStepFileInDir_files].
  destruct (MkdirTemp _) as [[d| | |] o]; try done. intros H. by apply NewStepFileInDir_files in H.
Qed.

(** A built context has what it was built with.  The two step files that
    [NewStepsContext] makes before it looks at its options belong to no context,
    and stay. *)
Lemma StepsContext_Build_Ok b w sc w' :
  acyclic (heap w) -> StepsContext_Build b w = (Ok sc, w') ->
  sc_globalCtx sc = cb_globalCtx b /\ sc_inputs sc = cb_inputs b /\ sc_steps sc = cb_stepResults b /\
  sc_outputFile sc = cb_outputFile b /\ sc_exportFile sc = cb_exportFile b /\
  Values (heap w') (sc_env sc) = cb_env b /\
  exists path1 path2, files w' = <[path2 := ""]> (<[path1 := ""]> (files w)).
Proof.
  intros Ha H. unfold StepsContext_Build in H. apply M_bind_Ok in H as (env & w1 & Henv & H).
  pose proof (Values_NewEnvironment (heap w) (cb_env b) Ha) as HV.
  unfold on_heap in Henv. destruct (NewEnvironment _ _) as [e h]. injection Henv as -> <-. cbn in HV.
  unfold NewStepsContext in H.
  apply M_bind_Ok in H as (out & w2 & [Hh2 Hf2]%wrap_Ok%NewStepFileInTmp_files & H).
  apply M_bind_Ok in H as (ex & w3 & [Hh3 Hf3]%wrap_Ok%NewStepFileInTmp_files & H).
  apply M_bind_Ok in H as ([] & w4 & [_ ->]%lift_Ok & [<- ->]%ret_Ok). cbn.
  repeat (split; [done|]). split; [by rewrite Hh3, Hh2|]. exists out, ex. by rewrite Hf3, Hf2.
Qed.
End fixtures.
