(* ===== verification/OCISteps.v ===== *)
(** The OCI steps at the runner: the definitions of the step.yml files
    (src/dist/steps/step/oci), how the runner's inputs become the flags the programs
    parse, and how the outputs the programs write become the runner's; and the
    command lines of the tests (testutil/bldr/inputs_builder.go). *)

From stdpp Require Import gmap strings list fin_maps.
From S2P Require Import Prelude GoStrings GoPaths GoNumbers GoFlags GoFiles GoFilesFacts Promote OCIFetch OCIBuild.
From S2P Require Import Values Expression ExpressionFacts Environment Proto StepFile Schema SpecDefinition.
From S2P Require Import World Resources Runner RunnerFacts RunnerSpec.
Open Scope go_scope.
Open Scope string_scope.
Open Scope list_scope.

(** ** The definitions *)

(** An input or an output of a type, without or with a default. *)
Definition input (t : proto.ValueType) (default : option value) : proto.Spec_Content_Input :=
  {| proto.Input_Type := t; proto.Input_Default := default; proto.Input_Sensitive := false |}.
Definition output (t : proto.ValueType) : proto.Spec_Content_Output :=
  {| proto.Output_Type := t; proto.Output_Default := None; proto.Output_Sensitive := false |}.

(** The outputs of fetch/step.yml and of build/step.yml; promote has none. *)
Definition fetch_outputs_spec : gmap string proto.Spec_Content_Output :=
  list_to_map [("fetched_step_path", output proto.string_); ("ref", output proto.string_)].

Definition build_outputs_spec : gmap string proto.Spec_Content_Output :=
  list_to_map [("registry", output proto.string_); ("repository", output proto.string_);
               ("tag", output proto.string_); ("ref", output proto.string_); ("digest", output proto.struct)].

(** The inputs. *)
Definition fetch_inputs_spec : gmap string proto.Spec_Content_Input :=
  list_to_map [("registry", input proto.string_ None); ("repository", input proto.string_ None);
               ("tag", input proto.string_ None); ("step_path", input proto.string_ (Some (VString "")))].

Definition promote_inputs_spec : gmap string proto.Spec_Content_Input :=
  list_to_map [("from_image", input proto.string_ None); ("to_registry", input proto.string_ None);
               ("to_repository", input proto.string_ None); ("to_version", input proto.string_ None)].

Definition build_inputs_spec : gmap string proto.Spec_Content_Input :=
  list_to_map [("registry", input proto.string_ None); ("repository", input proto.string_ None);
               ("tag", input proto.string_ None);
               ("common", input proto.struct (Some (VStruct []))); ("platforms", input proto.struct (Some (VStruct [])))].

(** The commands. *)
Definition fetch_command : list string :=
  ["${{step_dir}}/run"; "--registry"; "${{inputs.registry}}"; "--repository"; "${{inputs.repository}}";
   "--tag"; "${{inputs.tag}}"; "--step_path"; "${{inputs.step_path}}"; "--tag"; "${{inputs.tag}}";
   "--output_file"; "${{output_file}}"].

Definition promote_command : list string :=
  ["${{step_dir}}/run"; "--from-image"; "${{inputs.from_image}}"; "--to-registry"; "${{inputs.to_registry}}";
   "--to-repository"; "${{inputs.to_repository}}"; "--to-version"; "${{inputs.to_version}}"].

Definition build_command : list string :=
  ["${{step_dir}}/run"; "--registry"; "${{inputs.registry}}"; "--repository"; "${{inputs.repository}}";
   "--tag"; "${{inputs.tag}}"; "--common"; "${{inputs.common}}"; "--platforms"; "${{inputs.platforms}}";
   "--output_file"; "${{output_file}}"].

(** A definition of these parts: it runs in the directory of the step. *)
Definition oci_step (inputs : gmap string proto.Spec_Content_Input)
    (outputs : gmap string proto.Spec_Content_Output) (command : list string) (dir : string) : SpecDefinition :=
  NewSpecDefinition
    {| proto.Spec_Spec := {| proto.Content_Inputs := inputs; proto.Content_Outputs := outputs;
                             proto.Content_OutputMethod := proto.outputs |} |}
    {| proto.Def_Type := proto.exec;
       proto.Def_Exec := Some {| proto.Exec_Command := command; proto.Exec_WorkDir := "${{step_dir}}" |};
       proto.Def_Steps := []; proto.Def_Outputs := ∅; proto.Def_Env := ∅; proto.Def_Delegate := "" |}
    dir.

Definition fetch_step : string -> SpecDefinition := oci_step fetch_inputs_spec fetch_outputs_spec fetch_command.
Definition promote_step : string -> SpecDefinition := oci_step promote_inputs_spec ∅ promote_command.
Definition build_step : string -> SpecDefinition := oci_step build_inputs_spec build_outputs_spec build_command.

(** ** From inputs to flags *)

(** Where the value of a flag comes from: an input, or the output file. *)
Inductive flag_source := FromInput (name : string) | FromOutputFile.

Definition source_path (s : flag_source) : list string :=
  match s with FromInput n => ["inputs"; n] | FromOutputFile => ["output_file"] end.

(** The command of a program that is given flags. *)
Definition flags_command (flags : list (string * flag_source)) : list string :=
  "${{step_dir}}/run" ::
  mjoin ((fun fs => ["--" +:+ fs.1; "${{" +:+ Join (source_path fs.2) "." +:+ "}}"]) <$> flags).

Definition fetch_flags : list (string * flag_source) :=
  [("registry", FromInput "registry"); ("repository", FromInput "repository"); ("tag", FromInput "tag");
   ("step_path", FromInput "step_path"); ("tag", FromInput "tag"); ("output_file", FromOutputFile)].
Definition promote_flags : list (string * flag_source) :=
  [("from-image", FromInput "from_image"); ("to-registry", FromInput "to_registry");
   ("to-repository", FromInput "to_repository"); ("to-version", FromInput "to_version")].
Definition build_flags : list (string * flag_source) :=
  [("registry", FromInput "registry"); ("repository", FromInput "repository"); ("tag", FromInput "tag");
   ("common", FromInput "common"); ("platforms", FromInput "platforms"); ("output_file", FromOutputFile)].

Lemma oci_commands :
  fetch_command = flags_command fetch_flags /\ promote_command = flags_command promote_flags /\
  build_command = flags_command build_flags.
Proof. done. Qed.

Section flags.
  Context `{SP : StructPB}.

(** The text of a source in a context. *)
Definition has_text (view : InterpolationContext) (s : flag_source) (text : string) : Prop :=
  match s with
  | FromInput n => is_name n = true /\ exists v, ic_Inputs view !! n = Some (Some v) /\ ValueToString v = Ok text
  | FromOutputFile => ic_OutputFile view = text /\ utf8_valid text = true
  end.

Lemma expand_path view keys v text :
  keys <> [] -> forallb is_name keys = true ->
  (r ← dig_path (Join keys ".") (any_of_context view) keys; ObjectToProtoValue r) = Ok (Some v) ->
  ValueToString v = Ok text ->
  ExpandString (Some view) ("${{" +:+ Join keys "." +:+ "}}") = Ok text.
Proof.
  intros Hne Hk Hd Ht. unfold ExpandString.
  change ("${{" +:+ Join keys "." +:+ "}}") with (render [Expr (Join keys ".")]).
  rewrite interpolateString_template by (by apply path_is_expression).
  cbn [slice_map eval_segment any_of_view]. rewrite Evaluate_path by done. by rewrite Hd.
Qed.

Lemma expand_source view s text :
  has_text view s text -> ExpandString (Some view) ("${{" +:+ Join (source_path s) "." +:+ "}}") = Ok text.
Proof.
  destruct s as [n|]; cbn [has_text source_path].
  - intros [Hn (v & Hv & Ht)]. eapply expand_path; [done|cbn [forallb]; by rewrite Hn| |exact Ht].
    cbn [dig_path]. destruct (DigObject_context view) as (_ & _ & Hi & _). rewrite Hi.
    cbn -[assoc Join]. by rewrite assoc_map, assoc_map_to_list, Hv.
  - intros [Ho Hu]. eapply (expand_path _ _ (VString text)); [done|done| |done].
    cbn. by rewrite Ho, NewValue_string.
Qed.

Lemma expand_literal view s : wf_segments [Lit s] = true -> ExpandString (Some view) s = Ok s.
Proof.
  intros Hwf. unfold ExpandString. replace s with (render [Lit s]) at 1 by (cbn; by rewrite string_app_nil_r).
  by rewrite interpolateString_template.
Qed.

Lemma expand_step_dir view :
  utf8_valid (ic_StepDir view) = true ->
  ExpandString (Some view) "${{step_dir}}" = Ok (ic_StepDir view) /\
  ExpandString (Some view) "${{step_dir}}/run" = Ok (ic_StepDir view +:+ "/run").
Proof.
  intros Hu. split.
  - apply (expand_path view ["step_dir"] (VString (ic_StepDir view))); [done|done| |done].
    cbn. by rewrite NewValue_string.
  - unfold ExpandString. change "${{step_dir}}/run" with (render [Expr "step_dir"; Lit "/run"]).
    rewrite interpolateString_template by done. cbn [slice_map eval_segment any_of_view].
    change "step_dir" with (Join ["step_dir"] "."). rewrite Evaluate_path by done.
    cbn. rewrite NewValue_string by done. cbn. by rewrite ?string_app_nil_r.
Qed.

(** The command line of a program that is given flags. *)
Lemma flags_command_line inputs outputs flags dir view workDir texts :
  forallb (fun f => wf_segments [Lit ("--" +:+ f)]) flags.*1 = true ->
  utf8_valid (ic_StepDir view) = true -> Forall2 (has_text view) flags.*2 texts ->
  command_line (oci_step inputs outputs (flags_command flags) dir) view workDir =
  Ok ((ic_StepDir view +:+ "/run") :: mjoin ((fun kv => ["--" +:+ kv.1; kv.2]) <$> zip flags.*1 texts),
      ic_StepDir view).
Proof.
  intros Hwf Hu Ht. destruct (expand_step_dir view Hu) as [Hd Hr]. unfold command_line.
  change (ExecCommand _) with (Ok (flags_command flags)). cbn [mbind res_bind].
  match goal with |- (x ← ?e; _) = _ => assert (e = Ok ((ic_StepDir view +:+ "/run") ::
    mjoin ((fun kv => ["--" +:+ kv.1; kv.2]) <$> zip flags.*1 texts))) as -> end.
  - apply slice_map_Ok. constructor; [by rewrite Hr|]. revert texts Ht Hwf.
    induction flags as [|[f s] flags IH]; intros texts Ht Hwf; inversion Ht as [|? text ? texts' Hs Hts]; subst; [constructor|].
    cbn [fmap list_fmap forallb] in Hwf. apply andb_true_iff in Hwf as [Hf Hwf].
    cbn [fmap list_fmap zip mjoin list_join app fst snd zip_with]. constructor; [|constructor]; [| |by apply IH].
    + by rewrite expand_literal.
    + by rewrite (expand_source view s text Hs).
  - assert (determineWorkDir (oci_step inputs outputs (flags_command flags) dir) view workDir =
      Ok (ic_StepDir view)) as ->; [|done].
    change (determineWorkDir _ view workDir) with
      (ExpandString (Some view) "${{step_dir}}" or_wrap ("interpolate workdir " +:+ quote "${{step_dir}}" +:+ ": ")).
    by rewrite Hd.
Qed.

(** A name of a flag that stands for itself in a command. *)
Definition plain_flag (names : list string) (f : string) : bool :=
  wf_segments [Lit ("--" +:+ f)] && existsb (String.eqb f) names && negb (bad_flag_name f) &&
  negb (Contains f "=").

Lemma plain_flag_spec names f :
  plain_flag names f = true ->
  wf_segments [Lit ("--" +:+ f)] = true /\ f ∈ names /\ bad_flag_name f = false /\ Contains f "=" = false.
Proof.
  unfold plain_flag. intros [[[Hw Hn]%andb_true_iff Hb%negb_true_iff]%andb_true_iff Hc%negb_true_iff]%andb_true_iff.
  split; [done|]. split; [|done]. apply existsb_exists in Hn as (f' & Hin & ->%String.eqb_eq). by apply list_elem_of_In.
Qed.

(** A flag's text on the command line is the value of its variable. *)
Lemma flags_arrive names inputs outputs flags dir view workDir texts :
  forallb (plain_flag names) flags.*1 = true ->
  utf8_valid (ic_StepDir view) = true -> Forall2 (has_text view) flags.*2 texts ->
  exists args,
    command_line (oci_step inputs outputs (flags_command flags) dir) view workDir =
      Ok ((ic_StepDir view +:+ "/run") :: args, ic_StepDir view) /\
    flag_parse names args ∅ = Ok (foldl (fun m kv => <[kv.1 := kv.2]> m) ∅ (zip flags.*1 texts), []).
Proof.
  intros Hwf Hu Ht. pose proof (proj1 (forallb_forall _ _) Hwf) as Hf. eexists. split.
  - apply flags_command_line; [|done|done]. apply forallb_forall. intros f Hin.
    by apply Hf, plain_flag_spec in Hin as [? _].
  - apply flag_parse_pairs. apply Forall_forall. intros [f text] Hin%elem_of_zip_l%list_elem_of_In.
    by apply Hf, plain_flag_spec in Hin as [_ ?].
Qed.
End flags.

(** ** The programs get their inputs *)

Lemma F_lift_Ok {A} (r : res A) (m : GoFiles.machine) a m' : F_lift r m = (Ok a, m') <-> r = Ok a /\ m' = m.
Proof. unfold F_lift. naive_solver. Qed.

Lemma wp_lift {A} (a : A) (m : GoFiles.machine) (Q : A -> tree -> Prop) :
  Q a (tree_of m) -> wp (F_lift (Ok a)) m Q.
Proof. done. Qed.

Lemma F_ret_Ok {A} (a b : A) (m m' : GoFiles.machine) : (mret a : F A) m = (Ok b, m') <-> a = b /\ m' = m.
Proof. unfold mret, F_ret. naive_solver. Qed.

Section programs.
  Context `{WS : WordSize} `{Sy : System} `{SP : StructPB} `{MR : MapRange} `{IN : ImageName}.

(** An input of a step that is a text. *)
Definition text_input (s : StepsContext) (name text : string) : Prop :=
  sc_inputs s !! name = Some (Some (VString text)).

(** The command of a definition is its program, in the directory of the step and in
    the environment of the context, with these arguments. *)
Definition runs_program (sd : SpecDefinition) (s : StepsContext) (w : World) (args : list string) : Prop :=
  let command := (sc_stepDir s +:+ "/run") :: args in
  execCommand sd s w =
    let '(code, err, f, o) := Cmd_Run command (sc_stepDir s) (GetEnvList (heap w) s) (os w) (files w) in
    (Ok (Some (NewExecResult (sc_stepDir s) command code), err), set_os o (set_files f w)).

Lemma text_input_text s w name text :
  is_name name = true -> text_input s name text -> has_text (View (heap w) s) (FromInput name) text.
Proof. intros Hn H. split; [done|]. by exists (VString text). Qed.

Lemma command_line_runs sd s w args :
  command_line sd (View (heap w) s) (gc_workDir (sc_globalCtx s)) =
    Ok ((sc_stepDir s +:+ "/run") :: args, sc_stepDir s) ->
  runs_program sd s w args.
Proof.
  intros H. transitivity ((r ← catch (lift (command_line sd (View (heap w) s) (gc_workDir (sc_globalCtx s))));
    match r with
    | inr err => mret (None, Some err)
    | inl ([], _) => lift (Panic "runtime error: index out of range [0] with length 0")
    | inl (cmdArgs, workDir) => fun w =>
        let '(code, err, f, o) := Cmd_Run cmdArgs workDir (GetEnvList (heap w) s) (os w) (files w) in
        (Ok (Some (NewExecResult workDir cmdArgs code), err), set_os o (set_files f w))
    end) w); [reflexivity|]. by rewrite H.
Qed.

(** What the flags of the fetch step make of their values. *)
Definition fetch_parsed (registry repository tag step_path out : string) (getenv : string -> string)
    (m : GoFiles.machine) (inputs : FetchInputs) (m' : GoFiles.machine) : Prop :=
  TrimSpace registry <> "" /\ TrimSpace repository <> "" /\ TrimSpace tag <> "" /\
  parseNamedReference (TrimSpace registry) (TrimSpace repository) (TrimSpace tag) = Ok (RemoteImageRef_ inputs) /\
  parseLogLevel (getenv "CI_STEPS_LOG_LEVEL") = Ok (FetchLogLevel inputs) /\
  StepPath inputs = TrimSpace (Clean step_path) /\ OutputFile inputs = out /\
  exists n, Stat out m = (Ok n, m').

Lemma fetch_ParseInputs_vals args vals rest getenv m inputs m' :
  flag_parse ["registry"; "repository"; "step_path"; "tag"; "output_file"] args ∅ = Ok (vals, rest) ->
  fetch_ParseInputs args getenv m = (Ok inputs, m') <->
  fetch_parsed (flag_value vals "registry") (flag_value vals "repository") (flag_value vals "tag")
    (flag_value vals "step_path") (flag_value vals "output_file") getenv m inputs m'.
Proof.
  intros Hp. unfold fetch_ParseInputs, fetch_parsed. rewrite F_bind_Ok.
  split.
  - intros ([vals' rest'] & m1 & [Hv ->]%F_lift_Ok & H). rewrite Hp in Hv. injection Hv as <- <-. revert H.
    destruct (String.eqb_spec (TrimSpace (flag_value vals "registry")) ""); [done|].
    destruct (String.eqb_spec (TrimSpace (flag_value vals "repository")) ""); [done|].
    destruct (String.eqb_spec (TrimSpace (flag_value vals "tag")) ""); [done|].
    intros (ref & m1 & [Hr%wrap_err_Ok ->]%F_lift_Ok & H)%F_bind_Ok.
    apply F_bind_Ok in H as (l & m1 & [Hl%wrap_err_Ok ->]%F_lift_Ok & H).
    apply F_bind_Ok in H as (node & m1 & Hs%F_wrap_Ok & [<- ->]%F_ret_Ok). cbn. naive_solver.
  - intros (H1 & H2 & H3 & Hr & Hl & Hsp & Ho & n & Hs). exists (vals, rest), m.
    split; [by apply F_lift_Ok|].
    apply String.eqb_neq in H1, H2, H3. rewrite H1, H2, H3.
    apply F_bind_Ok. exists (RemoteImageRef_ inputs), m. split; [apply F_lift_Ok; split; [by apply wrap_err_Ok|done]|].
    apply F_bind_Ok. exists (FetchLogLevel inputs), m. split; [apply F_lift_Ok; split; [by apply wrap_err_Ok|done]|].
    apply F_bind_Ok. exists n, m'. split; [by apply F_wrap_Ok|]. apply F_ret_Ok. split; [|done].
    destruct inputs; cbn in *; by subst.
Qed.
(** The same for the other two. *)
Definition promote_parsed (from_image to_registry to_repository to_version : string) (getenv : string -> string)
    (inputs : Inputs) : Prop :=
  parseFromImageRef from_image = Ok (FromImageRef inputs) /\
  ParseRemoteImageRef to_registry to_repository to_version = Ok (ToImageRef inputs) /\
  parseLogLevel (getenv "CI_STEPS_LOG_LEVEL") = Ok (LogLevel inputs).

Lemma promote_ParseInputs_vals args vals rest getenv inputs :
  flag_parse ["from-image"; "to-registry"; "to-repository"; "to-version"] args ∅ = Ok (vals, rest) ->
  ParseInputs args getenv = Ok inputs <->
  promote_parsed (flag_value vals "from-image") (flag_value vals "to-registry")
    (flag_value vals "to-repository") (flag_value vals "to-version") getenv inputs.
Proof.
  intros Hp. unfold ParseInputs, promote_parsed. rewrite Hp. cbn [mbind res_bind]. split.
  - intros (f & Hf%wrap_err_Ok & (to & Ht%wrap_err_Ok & (l & Hl%wrap_err_Ok & [= <-])%bind_Ok)%bind_Ok)%bind_Ok.
    by cbn.
  - intros (Hf & Ht & Hl). rewrite Hf, Ht, Hl. cbn. by destruct inputs.
Qed.

Context `{PL : Platforms} (Decode_platforms : string -> res (gmap string platform_spec))
  (Decode_common : string -> res (gmap string string)) (is_ErrUnexpectedEOF : error -> bool).

Definition build_parsed (registry repository tag common platforms out : string) (getenv : string -> string)
    (m : GoFiles.machine) (inputs : BuildInputs) (m' : GoFiles.machine) : Prop :=
  parseImageRef registry repository tag = Ok (ImageRef inputs) /\
  parseCommon Decode_common is_ErrUnexpectedEOF common = Ok (Common inputs) /\
  parsePlatforms Decode_platforms is_ErrUnexpectedEOF platforms = Ok (PlatformSpecific inputs) /\
  parseLogLevel (getenv "CI_STEPS_LOG_LEVEL") = Ok (BuildLogLevel inputs) /\
  BuildOutputFile inputs = out /\ exists n, Stat out m = (Ok n, m').

Lemma build_ParseInputs_vals args vals rest getenv m inputs m' :
  flag_parse ["registry"; "repository"; "tag"; "common"; "platforms"; "output_file"] args ∅ = Ok (vals, rest) ->
  build_ParseInputs Decode_platforms Decode_common is_ErrUnexpectedEOF args getenv m = (Ok inputs, m') <->
  build_parsed (flag_value vals "registry") (flag_value vals "repository") (flag_value vals "tag")
    (flag_value vals "common") (flag_value vals "platforms") (flag_value vals "output_file") getenv m inputs m'.
Proof.
  intros Hp. unfold build_ParseInputs, build_parsed. rewrite F_bind_Ok. split.
  - intros ([vals' rest'] & m1 & [Hv ->]%F_lift_Ok & H). rewrite Hp in Hv. injection Hv as <- <-.
    apply F_bind_Ok in H as (ref & m1 & [Hr%wrap_err_Ok ->]%F_lift_Ok & H).
    apply F_bind_Ok in H as (common & m1 & [Hc%wrap_err_Ok ->]%F_lift_Ok & H).
    apply F_bind_Ok in H as (platforms & m1 & [Hpl%wrap_err_Ok ->]%F_lift_Ok & H).
    apply F_bind_Ok in H as (l & m1 & [Hl%wrap_err_Ok ->]%F_lift_Ok & H).
    apply F_bind_Ok in H as (node & m1 & Hs%F_wrap_Ok & [<- ->]%F_ret_Ok). cbn. naive_solver.
  - intros (Hr & Hc & Hpl & Hl & Ho & node & Hs). exists (vals, rest), m. split; [by apply F_lift_Ok|].
    rewrite Hr, Hc, Hpl, Hl. apply F_bind_Ok. exists (ImageRef inputs), m. split; [done|].
    apply F_bind_Ok. exists (Common inputs), m. split; [done|].
    apply F_bind_Ok. exists (PlatformSpecific inputs), m. split; [done|].
    apply F_bind_Ok. exists (BuildLogLevel inputs), m. split; [done|].
    apply F_bind_Ok. exists node, m'. split; [by apply F_wrap_Ok|]. apply F_ret_Ok. split; [|done].
    destruct inputs; cbn in *; by subst.
Qed.

(** C22: the inputs of a step reach its program.  Whatever the inputs of an OCI step
    are - also when they begin with a minus sign, or hold an equals sign, a space or
    an expression - the command that runs is the program in the directory of the
    step, and it parses the flags the command gives it to exactly those inputs: what
    it then works with is what its checks make of them.  Structures arrive as their
    JSON. *)
Theorem inputs_reach_programs s w dir getenv :
  utf8_valid (sc_stepDir s) = true -> utf8_valid (sc_outputFile s) = true ->
  (forall registry repository tag step_path,
     text_input s "registry" registry -> text_input s "repository" repository ->
     text_input s "tag" tag -> text_input s "step_path" step_path ->
     exists args, runs_program (fetch_step dir) s w args /\
       forall m inputs m', fetch_ParseInputs args getenv m = (Ok inputs, m') <->
         fetch_parsed registry repository tag step_path (sc_outputFile s) getenv m inputs m') /\
  (forall from_image to_registry to_repository to_version,
     text_input s "from_image" from_image -> text_input s "to_registry" to_registry ->
     text_input s "to_repository" to_repository -> text_input s "to_version" to_version ->
     exists args, runs_program (promote_step dir) s w args /\
       forall inputs, ParseInputs args getenv = Ok inputs <->
         promote_parsed from_image to_registry to_repository to_version getenv inputs) /\
  (forall registry repository tag common platforms,
     text_input s "registry" registry -> text_input s "repository" repository ->
     text_input s "tag" tag -> has_text (View (heap w) s) (FromInput "common") common ->
     has_text (View (heap w) s) (FromInput "platforms") platforms ->
     exists args, runs_program (build_step dir) s w args /\
       forall m inputs m',
         build_ParseInputs Decode_platforms Decode_common is_ErrUnexpectedEOF args getenv m = (Ok inputs, m') <->
         build_parsed registry repository tag common platforms (sc_outputFile s) getenv m inputs m').
Proof.
  intros Hd Ho. set (view := View (heap w) s). set (workDir := gc_workDir (sc_globalCtx s)).
  assert (has_text view FromOutputFile (sc_outputFile s)) as Hout by done.
  pose proof (fun n text Hn => text_input_text s w n text Hn) as Htext. fold view in Htext. split; [|split].
  - intros registry repository tag step_path H1 H2 H3 H4. apply Htext in H1, H2, H3, H4; try done.
    destruct (flags_arrive ["registry"; "repository"; "step_path"; "tag"; "output_file"]
      fetch_inputs_spec fetch_outputs_spec fetch_flags dir view workDir
      [registry; repository; tag; step_path; tag; sc_outputFile s]) as (args & Hc & Hp); [done|done| |].
    { repeat (apply Forall2_cons_2; [assumption|]). constructor. }
    exists args. split; [by apply command_line_runs|]. intros m inputs m'.
    rewrite (fetch_ParseInputs_vals _ _ _ _ _ _ _ Hp). reflexivity.
  - intros from_image to_registry to_repository to_version H1 H2 H3 H4. apply Htext in H1, H2, H3, H4; try done.
    destruct (flags_arrive ["from-image"; "to-registry"; "to-repository"; "to-version"]
      promote_inputs_spec ∅ promote_flags dir view workDir
      [from_image; to_registry; to_repository; to_version]) as (args & Hc & Hp); [done|done| |].
    { repeat (apply Forall2_cons_2; [assumption|]). constructor. }
    exists args. split; [by apply command_line_runs|]. intros inputs.
    rewrite (promote_ParseInputs_vals _ _ _ _ _ Hp). reflexivity.
  - intros registry repository tag common platforms H1 H2 H3 H4 H5. apply Htext in H1, H2, H3; try done.
    destruct (flags_arrive ["registry"; "repository"; "tag"; "common"; "platforms"; "output_file"]
      build_inputs_spec build_outputs_spec build_flags dir view workDir
      [registry; repository; tag; common; platforms; sc_outputFile s]) as (args & Hc & Hp); [done|done| |].
    { repeat (apply Forall2_cons_2; [assumption|]). constructor. }
    exists args. split; [by apply command_line_runs|]. intros m inputs m'.
    rewrite (build_ParseInputs_vals _ _ _ _ _ _ _ Hp). reflexivity.
Qed.
End programs.

(** ** The runner gets the outputs *)

(** The value of an output of a program, as the runner has it. *)
Definition runner_value (v : OutputValue) : value :=
  match v with
  | OutString s => VString s
  | OutStruct fields => VStruct (prod_map id VString <$> fields)
  end.

(** All of its texts are UTF-8, so that JSON can hold them. *)
Definition json_text (v : OutputValue) : bool :=
  match v with
  | OutString s => utf8_valid s
  | OutStruct fields => forallb (fun f => utf8_valid f.1 && utf8_valid f.2) fields
  end.

(** The line [json.Marshal] makes of an output, and what the runner's decoder of
    lines reads in it. *)
Class OutputLines `{StepFileEnv} := {
  json_line : string -> OutputValue -> string;
  json_line_no_newline name v : all_bytes (fun c => negb (byte_of c =? 10)%N) (json_line name v) = true;
  json_line_ends name v : HasSuffix (json_line name v) "}" = true;
  json_line_read name v :
    utf8_valid name = true -> json_text v = true ->
    UnmarshalLine (json_line name v) =
      Ok {| line_Name := Some name; line_Value := Some (runner_value v) |}
}.

Section outputs.
  Context `{SE : StepFileEnv} `{OL : !OutputLines} `{MR : MapRange}.

(** The text of the file of outputs. *)
Definition outputs_text (outputs : list (string * OutputValue)) : string :=
  log_text ((fun nv => json_line nv.1 nv.2) <$> outputs).

Lemma outputs_text_app l1 l2 : outputs_text (l1 ++ l2) = outputs_text l1 +:+ outputs_text l2.
Proof. unfold outputs_text. by rewrite fmap_app, log_text_app. Qed.

(** The lines are short enough for the scanner. *)
Definition short_lines (outputs : list (string * OutputValue)) : Prop :=
  Forall (fun nv => N.of_nat (String.length (json_line nv.1 nv.2)) < MaxScanTokenSize)%N outputs.

Definition readable_output (nv : string * OutputValue) : Prop :=
  nv.1 <> "" /\ utf8_valid nv.1 = true /\ json_text nv.2 = true.

Lemma dropCR_suffix s c : HasSuffix s (String c "") = true -> Ascii.eqb c "013"%char = false -> dropCR s = s.
Proof.
  intros [r ->]%HasSuffix_spec Hc. unfold dropCR. rewrite rev_string_app.
  change (String.rev (String c "")) with (String c ""). cbn [String.app].
  destruct c as [[] [] [] [] [] [] [] []]; try reflexivity; by vm_compute in Hc.
Qed.

Lemma json_lines_are_text outputs :
  short_lines outputs -> Forall text_line ((fun nv => json_line nv.1 nv.2) <$> outputs).
Proof.
  intros Hs. apply Forall_fmap. eapply Forall_impl; [exact Hs|]. intros [n v] Hl. cbn in *.
  split; [apply json_line_no_newline|]. split; [|exact Hl].
  apply (dropCR_suffix _ "}"%char); [apply json_line_ends|done].
Qed.

(** Reading what was written: the last output of a name. *)
Lemma outputs_read fs path outputs :
  fs !! path = Some (outputs_text outputs) -> short_lines outputs -> Forall readable_output outputs ->
  ReadKeyValueLines fs path = Ok (last_wins (prod_map id runner_value <$> outputs) ∅).
Proof.
  intros Hf Hs Hr. unfold ReadKeyValueLines, outputs_text in *. rewrite Hf, scan_text by by apply json_lines_are_text.
  cbn [fst]. clear Hf. generalize 1%nat as i, (∅ : gmap string value) as out.
  induction Hr as [|[n v] outputs (Hn & Hu & Hj) _ IH]; intros i out; [done|]. cbn [fmap list_fmap read_lines fst snd].
  cbn [fst snd] in Hn, Hu, Hj. inversion Hs; subst.
  destruct (String.eqb_spec (json_line n v) "") as [He|_].
  { pose proof (json_line_ends n v) as Hend. by rewrite He in Hend. }
  assert (read_line i (json_line n v) = Ok (n, runner_value v)) as ->.
  { unfold read_line. rewrite json_line_read by done. cbn. by destruct n. }
  cbn [mbind res_bind]. rewrite IH by done. reflexivity.
Qed.

(** The file a program writes its outputs to: it can be replaced. *)
Definition output_file (m : GoFiles.machine) (file : string) (dir : path) (x : string) : Prop :=
  file <> "" /\ (forall m', same_process m m' -> resolve m' file = dir ++ [x]) /\ dirs_to (tree_of m) dir /\
  match tree_of m !! (dir ++ [x]) with
  | Some (File mode _) => writable (super m) mode = true
  | Some (GoFiles.Dir _) => False
  | None => True
  end.

(** A file of these contents, and nothing else changed. *)
Definition holds (p : path) (t0 : tree) (text : string) (t : tree) : Prop :=
  exists mode, t = <[p := File mode text]> t0.

Lemma wp_written (file : string) (p : path) (t0 : tree) text more (m : GoFiles.machine) :
  resolve m file = p -> holds p t0 text (tree_of m) ->
  wp (WriteTo file (text +:+ more)) m (fun _ t => holds p t0 (text +:+ more) t).
Proof.
  intros Hp [mode Ht]. eapply wp_mono.
  - apply (wp_WriteTo file p mode text); [done|by rewrite Ht, lookup_insert_eq|].
    rewrite string_length_app. lia.
  - cbn beta. intros _ t ->. exists mode. by rewrite Ht, insert_insert_eq.
Qed.

Lemma wp_write_outputs (file : string) (p : path) (t0 : tree) outputs text (m m0 : GoFiles.machine) :
  (forall m', same_process m0 m' -> resolve m' file = p) -> same_process m0 m ->
  holds p t0 text (tree_of m) ->
  wp (write_outputs (fun n v => Ok (json_line n v)) file text outputs) m
     (fun _ t => holds p t0 (text +:+ outputs_text outputs) t).
Proof.
  intros Hp. revert text m. induction outputs as [|[n v] outputs IH]; intros text m Hs Ht.
  - apply wp_ret. unfold outputs_text. cbn. by rewrite string_app_nil_r.
  - cbn [write_outputs]. apply wp_bind. apply wp_lift. intros m1 Hs1 E1.
    assert (same_process m0 m1) as Hs01 by by etrans.
    apply wp_bind, wp_wrap. eapply wp_mono; [apply (wp_written file p t0); [by apply Hp|by rewrite E1]|].
    cbn beta. intros [] t2 Ht2 m2 Hs2 E2. assert (same_process m0 m2) as Hs02 by by etrans.
    apply wp_bind, wp_wrap. eapply wp_mono.
    { replace (text +:+ json_line n v +:+ newline) with ((text +:+ json_line n v) +:+ newline)
        by apply string_app_assoc.
      apply (wp_written file p t0); [by apply Hp|by rewrite E2]. }
    cbn beta. intros [] t3 Ht3 m3 Hs3 E3. rewrite string_app_assoc in Ht3.
    eapply wp_mono; [apply IH; [by etrans|by rewrite E3]|].
    cbn beta. intros [] t4. unfold outputs_text. cbn [fmap list_fmap log_text fst snd]. by rewrite !string_app_assoc.
Qed.

Lemma last_wins_elem {A} (entries : list (string * A)) out k v :
  last_wins entries out !! k = Some v -> (k, v) ∈ entries \/ out !! k = Some v.
Proof.
  revert out. induction entries as [|[k' v'] entries IH]; intros out; [by right|]. cbn.
  intros [H|H]%IH; [left; by right|]. destruct (decide (k' = k)) as [->|Hne].
  - rewrite lookup_insert_eq in H. left. injection H as ->. by left.
  - rewrite lookup_insert_ne in H by done. by right.
Qed.

Lemma last_wins_some {A} (entries : list (string * A)) out k :
  k ∈ entries.*1 \/ is_Some (out !! k) -> is_Some (last_wins entries out !! k).
Proof.
  revert out. induction entries as [|[k' v'] entries IH]; intros out; cbn.
  - intros [H%elem_of_nil|H]; [done|exact H].
  - intros H. apply IH. destruct (decide (k' = k)) as [->|Hne].
    + right. rewrite lookup_insert_eq. by eexists.
    + rewrite lookup_insert_ne by done. destruct H as [[->|H]%elem_of_cons|H]; [done|by left|by right].
Qed.

(** Outputs that are those of a specification without defaults. *)
Definition declared_as (nv : string * OutputValue) (no : string * proto.Spec_Content_Output) : Prop :=
  nv.1 = no.1 /\ proto.ValueType_String (proto.Output_Type no.2) = structpbValueToTypeName (runner_value nv.2) /\
  proto.Output_Default no.2 = None.

Lemma declared_outputs_read fs path outputs l :
  NoDup l.*1 -> Forall2 declared_as outputs l ->
  fs !! path = Some (outputs_text outputs) -> short_lines outputs -> Forall readable_output outputs ->
  ReadValues fs path (list_to_map l) = Ok (last_wins (prod_map id runner_value <$> outputs) ∅).
Proof.
  intros Hnd Hl Hf Hs Hr. apply ReadValues_Ok. eexists. split; [by apply outputs_read|].
  assert (forall k o, (list_to_map l : gmap string _) !! k = Some o ->
    proto.Output_Default o = None /\ exists v, (k, v) ∈ outputs) as Hspec.
  { intros k o H. apply elem_of_list_to_map in H; [|done]. apply list_elem_of_lookup_1 in H as [i Hi].
    destruct (Forall2_lookup_r _ _ _ _ _ Hl Hi) as ([n v] & Hnv & Hn & _ & Hd). cbn in Hn, Hd. subst n.
    split; [done|]. exists v. by apply list_elem_of_lookup_2 in Hnv. }
  split; [split|].
  - intros k v [Hin|H]%last_wins_elem; [|by rewrite lookup_empty in H].
    apply list_elem_of_fmap in Hin as ([n u] & [= -> ->] & Hin). apply list_elem_of_lookup_1 in Hin as [i Hi].
    destruct (Forall2_lookup_l _ _ _ _ _ Hl Hi) as ([n' o] & Ho & Hn & Ht & _). cbn in Hn, Ht. subst n'.
    exists o. split; [|done]. apply elem_of_list_to_map; [done|]. by apply list_elem_of_lookup_2 in Ho.
  - intros k o H. left. apply last_wins_some. left. destruct (Hspec k o H) as [_ [v Hin]].
    apply list_elem_of_fmap. exists (k, runner_value v). split; [done|]. apply list_elem_of_fmap. by exists (k, v).
  - symmetry. apply map_eq. intros k. rewrite lookup_union, lookup_omap.
    destruct ((list_to_map l : gmap string _) !! k) as [o|] eqn:Ho; cbn.
    + destruct (Hspec k o Ho) as [-> _]. cbn. by destruct (last_wins _ _ !! k).
    + by destruct (last_wins _ _ !! k).
Qed.

(** What the two programs write. *)
Definition fetch_outputs (stepDir ref : string) : list (string * OutputValue) :=
  [("fetched_step_path", OutString stepDir); ("ref", OutString ref)].

Lemma wp_open_output file dir x (m : GoFiles.machine) perm :
  output_file m file dir x ->
  wp (OpenFile file {| O_CREATE := true; O_EXCL := false; O_TRUNC := true |} perm) m
     (fun _ t => holds (dir ++ [x]) (tree_of m) "" t).
Proof.
  intros (Hne & Hres & Hdirs & Hw). by apply wp_OpenFile_truncate; [done|apply Hres; split| |].
Qed.

Lemma wp_fetch_writeValue (file : string) (p : path) (t0 : tree) text name v (m m0 : GoFiles.machine) :
  (forall m', same_process m0 m' -> resolve m' file = p) -> same_process m0 m ->
  holds p t0 text (tree_of m) ->
  wp (fetch_writeValue (fun n s => Ok (json_line n (OutString s))) file text name v) m
     (fun r t => r = text +:+ outputs_text [(name, OutString v)] /\ holds p t0 r t).
Proof.
  intros Hp Hs Ht. unfold fetch_writeValue. apply wp_bind, wp_lift. intros m1 Hs1 E1.
  assert (same_process m0 m1) as Hs01 by by etrans.
  apply wp_bind, wp_wrap. eapply wp_mono; [apply (wp_written file p t0); [by apply Hp|by rewrite E1]|].
  cbn beta. intros [] t2 Ht2 m2 Hs2 E2. assert (same_process m0 m2) as Hs02 by by etrans.
  rewrite <- !string_app_assoc.
  apply wp_bind, wp_wrap. eapply wp_mono; [apply (wp_written file p t0); [by apply Hp|by rewrite E2]|].
  cbn beta. intros [] t3 Ht3 m3 Hs3 E3. apply wp_ret. rewrite E3. split; [|done].
  unfold outputs_text. cbn [fmap list_fmap log_text fst snd]. by rewrite string_app_nil_r, !string_app_assoc.
Qed.

Lemma wp_fetch_outputs `{IN : ImageName} m file dir x downloadDir imgRef stepPath :
  output_file m file dir x ->
  wp (fetch_Outputs_Write (fun n s => Ok (json_line n (OutString s))) file downloadDir imgRef stepPath) m
     (fun _ t => holds (dir ++ [x]) (tree_of m)
        (outputs_text (fetch_outputs (PathJoin [downloadDir; stepPath]) (ref_String imgRef))) t).
Proof.
  intros Hout. pose proof Hout as (_ & Hres & _). unfold fetch_Outputs_Write.
  apply wp_bind, wp_wrap. eapply wp_mono; [by apply wp_open_output|]. cbn beta. intros [] t1 Ht1 m1 Hs1 E1.
  apply wp_bind, wp_wrap. eapply wp_mono; [apply (wp_fetch_writeValue file (dir ++ [x]) (tree_of m) _ _ _ m1 m); [done|done|by rewrite E1]|].
  cbn beta. intros r t2 [-> Ht2] m2 Hs2 E2. assert (same_process m m2) as Hs02 by by etrans.
  apply wp_bind, wp_wrap. eapply wp_mono; [apply (wp_fetch_writeValue file (dir ++ [x]) (tree_of m) _ _ _ m2 m); [done|done|by rewrite E2]|].
  cbn beta. intros r t3 [-> Ht3] m3 Hs3 E3. cbn [String.append] in Ht3. rewrite <- outputs_text_app in Ht3.
  apply wp_wrap. eapply wp_mono; [apply wp_Close, Hout|]. intros [] t ->. by rewrite E3.
Qed.

Lemma wp_build_outputs `{IN : ImageName} `{IB : ImageBuilder} m file dir x imgRef image digest :
  output_file m file dir x -> Index_Digest image = Ok digest ->
  wp (build_Outputs_Write (fun n v => Ok (json_line n v)) file imgRef image) m
     (fun _ t => holds (dir ++ [x]) (tree_of m) (outputs_text (build_outputs imgRef digest)) t).
Proof.
  intros Hout Hd. pose proof Hout as (_ & Hres & _). unfold build_Outputs_Write. rewrite Hd.
  apply wp_bind, wp_wrap. eapply wp_mono; [by apply wp_open_output|]. cbn beta. intros [] t1 Ht1 m1 Hs1 E1.
  apply wp_bind, wp_lift. intros m2 Hs2 E2. assert (same_process m m2) as Hs02 by by etrans.
  apply wp_bind. eapply wp_mono; [apply (wp_write_outputs file (dir ++ [x]) (tree_of m) _ "" m2 m); [done|done|]; by rewrite E2, E1|].
  cbn beta. intros r t3 Ht3 m3 Hs3 E3. apply wp_wrap. eapply wp_mono; [apply wp_Close, Hout|].
  intros [] t ->. by rewrite E3.
Qed.

(** C23: the outputs of a program reach the runner.  Unless a system call fails, the
    program leaves in the output file, whatever was in it, exactly one line for each
    of its outputs and changes nothing else; and what the runner reads from a file of
    that text, against the specification in the step.yml, are the values the program
    had: the directory and the reference of the image that was fetched, and those of
    the image that was built with its digest. *)
Theorem outputs_reach_the_runner `{IN : ImageName} `{IB : ImageBuilder} m file dir x :
  output_file m file dir x ->
  (forall downloadDir imgRef stepPath,
     let outputs := fetch_outputs (PathJoin [downloadDir; stepPath]) (ref_String imgRef) in
     short_lines outputs -> Forall readable_output outputs ->
     exists text,
       wp (fetch_Outputs_Write (fun n s => Ok (json_line n (OutString s))) file downloadDir imgRef stepPath) m
          (fun _ t => holds (dir ++ [x]) (tree_of m) text t) /\
       forall fs path, fs !! path = Some text -> ReadValues fs path fetch_outputs_spec =
         Ok (<["ref" := VString (ref_String imgRef)]>
              {["fetched_step_path" := VString (PathJoin [downloadDir; stepPath])]})) /\
  (forall imgRef image digest,
     Index_Digest image = Ok digest ->
     let outputs := build_outputs imgRef digest in
     short_lines outputs -> Forall readable_output outputs ->
     exists text,
       wp (build_Outputs_Write (fun n v => Ok (json_line n v)) file imgRef image) m
          (fun _ t => holds (dir ++ [x]) (tree_of m) text t) /\
       forall fs path, fs !! path = Some text -> exists values,
         ReadValues fs path build_outputs_spec = Ok values /\
         values !! "registry" = Some (VString (ref_RegistryStr imgRef)) /\
         values !! "repository" = Some (VString (ref_RepositoryStr imgRef)) /\
         values !! "tag" = Some (VString (ref_Identifier imgRef)) /\
         values !! "ref" = Some (VString (ref_String imgRef)) /\
         values !! "digest" = Some (VStruct [("algorithm", VString digest.1); ("hash", VString digest.2);
                                             ("value", VString (digest.1 +:+ ":" +:+ digest.2))])).
Proof.
  intros Hout. split.
  - intros downloadDir imgRef stepPath outputs Hs Hr. exists (outputs_text outputs). split.
    + by apply wp_fetch_outputs.
    + intros fs path Hf. unfold fetch_outputs_spec. rewrite (declared_outputs_read _ _ outputs); try done.
      * apply (bool_decide_unpack _). vm_compute. exact I.
      * by repeat constructor.
  - intros imgRef image digest Hd outputs Hs Hr. exists (outputs_text outputs). split.
    + by apply wp_build_outputs.
    + intros fs path Hf. exists (last_wins (prod_map id runner_value <$> outputs) ∅).
      unfold build_outputs_spec. rewrite (declared_outputs_read _ _ outputs); try done.
      * apply (bool_decide_unpack _). vm_compute. exact I.
      * by repeat constructor.
Qed.
End outputs.
