(* ===== verification/OCIFixtures.v ===== *)
(** The images, the platforms and the command lines of the tests of the OCI steps
    (src/pkg/testutil/bldr/oci_*.go and the testutil/bldr of the three steps).  What
    ends a test is the error of the computation. *)

From stdpp Require Import gmap strings list.
From S2P Require Import Prelude GoStrings GoPaths GoNumbers GoFlags GoFiles GoFilesFacts Promote OCIFetch OCIBuild.
From S2P Require Import Values OCISteps.
Open Scope go_scope.
Open Scope string_scope.
Open Scope list_scope.

(** ** oci_image.go: the directories of a path *)

(** The directory of [filepath.Split(path)]: up to the last slash, which it keeps. *)
Fixpoint SplitDir (path : string) : string :=
  match path with
  | "" => ""
  | String c path' =>
      match SplitDir path' with
      | "" => if Ascii.eqb c "/" then "/" else ""
      | d => String c d
      end
  end.

(** [strings.TrimRight(s, "/")] *)
Fixpoint trim_slashes (s : string) : string :=
  match s with
  | "" => ""
  | String c s' =>
      match trim_slashes s' with
      | "" => if Ascii.eqb c "/" then "" else String c ""
      | t => String c t
      end
  end.

(** The directory that holds a directory. *)
Definition dir_above (dir : string) : string := SplitDir (trim_slashes dir).

(** Where the loop of [findUnwrittenDirsInPath] ends whatever was seen. *)
Definition no_dir (dir : string) : bool := String.eqb dir "" || String.eqb dir "/".

(** The loop: the directories found so far, innermost first, and those seen.  There
    is a result when the fuel suffices. *)
Fixpoint find_unwritten (fuel : nat) (dir : string) (dirs : list string) (dirsSeen : gset string) :
    option (list string * gset string) :=
  match fuel with
  | O => None
  | S fuel' =>
      if bool_decide (dir ∈ dirsSeen) || no_dir dir then Some (dirs, dirsSeen)
      else find_unwritten fuel' (dir_above dir) (dirs ++ [dir]) ({[dir]} ∪ dirsSeen)
  end.

(** [b.findUnwrittenDirsInPath(path, dirsSeen)] *)
Definition findUnwrittenDirsInPath (path : string) (dirsSeen : gset string) : option (list string * gset string) :=
  '(dirs, dirsSeen) ← find_unwritten (S (String.length path)) (SplitDir path) [] dirsSeen;
  Some (reverse dirs, dirsSeen).

Example dirs_of_a_file : fst <$> findUnwrittenDirsInPath "/a/b/c" ∅ = Some ["/a/"; "/a/b/"].
Proof. vm_compute. reflexivity. Qed.
Example dirs_seen : fst <$> findUnwrittenDirsInPath "a/b/c" {["a/"]} = Some ["a/b/"].
Proof. vm_compute. reflexivity. Qed.

Lemma SplitDir_length s : (String.length (SplitDir s) <= String.length s)%nat.
Proof.
  induction s as [|c s IH]; [done|]. cbn [SplitDir]. destruct (SplitDir s) as [|d0 d]; [|cbn in *; lia].
  destruct (Ascii.eqb c "/"); cbn; lia.
Qed.

Lemma trim_shortens s : SplitDir s <> "" ->
  (String.length (trim_slashes (SplitDir s)) < String.length (SplitDir s))%nat.
Proof.
  induction s as [|c s IH]; [done|]. cbn [SplitDir]. destruct (SplitDir s) as [|d0 d].
  - destruct (Ascii.eqb c "/"); cbn; [lia|done].
  - intros _. specialize (IH ltac:(done)). set (x := String d0 d) in *. cbn [trim_slashes].
    destruct (trim_slashes x); cbn [String.length] in *; [destruct (Ascii.eqb c "/"); cbn; lia|lia].
Qed.

Lemma dir_above_length s : SplitDir s <> "" ->
  (String.length (dir_above (SplitDir s)) < String.length (SplitDir s))%nat.
Proof.
  intros H. pose proof (trim_shortens s H). pose proof (SplitDir_length (trim_slashes (SplitDir s))).
  unfold dir_above. lia.
Qed.

(** Entries of an archive in an order in which each directory is written once, and
    before everything it holds. *)
Definition holder (e : tar_entry) : string :=
  match hdr_Typeflag e with TypeDir => dir_above (hdr_Name e) | _ => SplitDir (hdr_Name e) end.

Fixpoint in_order (seen : gset string) (entries : list tar_entry) : Prop :=
  match entries with
  | [] => True
  | e :: entries' =>
      (no_dir (holder e) = true \/ holder e ∈ seen) /\
      match hdr_Typeflag e with
      | TypeDir => (hdr_Name e ∉ seen) /\ in_order ({[hdr_Name e]} ∪ seen) entries'
      | _ => in_order seen entries'
      end
  end.

(** The directories of entries. *)
Fixpoint dirs_of (entries : list tar_entry) : gset string :=
  match entries with
  | [] => ∅
  | e :: entries' =>
      match hdr_Typeflag e with TypeDir => {[hdr_Name e]} ∪ dirs_of entries' | _ => dirs_of entries' end
  end.

Lemma in_order_app seen l1 l2 : in_order seen (l1 ++ l2) <-> in_order seen l1 /\ in_order (dirs_of l1 ∪ seen) l2.
Proof.
  revert seen. induction l1 as [|e l1 IH]; intros seen; cbn.
  - rewrite (left_id_L ∅ (∪)). tauto.
  - destruct (hdr_Typeflag e); rewrite IH; [|tauto..].
    rewrite (assoc_L (∪) (dirs_of l1)), (comm_L (∪) (dirs_of l1)). tauto.
Qed.

(** The entry of a directory. *)
Definition dir_entry (dir : string) : tar_entry :=
  {| hdr_Name := dir; hdr_Typeflag := TypeDir; hdr_Content := ""; hdr_Error := None |}.

Lemma dirs_of_dirs dirs : dirs_of (dir_entry <$> dirs) = list_to_set dirs.
Proof. induction dirs as [|d dirs IH]; [done|]. cbn. by rewrite IH. Qed.

(** The loop finds the directories that are missing, from the inner to the outer,
    up to one that is there; what it marks on the way is longer than what it looks
    at. *)
Lemma find_unwritten_spec fuel s dirs (marked seen : gset string) :
  (String.length (SplitDir s) < fuel)%nat ->
  (forall a, a ∈ marked -> String.length (SplitDir s) < String.length a)%nat ->
  exists found, find_unwritten fuel (SplitDir s) dirs (marked ∪ seen) =
      Some (dirs ++ found, list_to_set found ∪ (marked ∪ seen)) /\
    (forall d, d ∈ found -> (String.length d <= String.length (SplitDir s))%nat) /\
    in_order seen (dir_entry <$> reverse found) /\
    (no_dir (SplitDir s) = true \/ SplitDir s ∈ (list_to_set found ∪ seen : gset string)).
Proof.
  revert s dirs marked. induction fuel as [|fuel IH]; intros s dirs marked Hf Hm; [lia|]. cbn [find_unwritten].
  destruct (bool_decide (SplitDir s ∈ marked ∪ seen) || no_dir (SplitDir s)) eqn:E.
  { exists []. rewrite app_nil_r, list_to_set_nil, !(left_id_L ∅ (∪)). split; [done|]. split; [by intros d ?%elem_of_nil|]. split; [done|].
    apply orb_true_iff in E as [[Hin|Hin]%bool_decide_eq_true%elem_of_union|E]; [|right; set_solver|by left].
    apply Hm in Hin. lia. }
  apply orb_false_iff in E as [Hnin%bool_decide_eq_false Hn].
  assert (SplitDir s <> "") as Hne by (intros He; by rewrite He in Hn).
  pose proof (dir_above_length s Hne) as Hlt. unfold dir_above in *.
  destruct (IH (trim_slashes (SplitDir s)) (dirs ++ [SplitDir s]) ({[SplitDir s]} ∪ marked)) as (found & Hr & Hl & Ho & Hp).
  { lia. }
  { intros a [->%elem_of_singleton|Ha%Hm]%elem_of_union; lia. }
  exists (SplitDir s :: found). rewrite <- (assoc_L (∪)) in Hr. rewrite Hr, <- app_assoc. split.
  { do 2 f_equal. cbn [list_to_set]. set_solver. }
  split. { intros d [->|Hd%Hl]%elem_of_cons; lia. }
  split; [|right; cbn [list_to_set]; set_solver].
  rewrite reverse_cons, fmap_app, in_order_app, dirs_of_dirs. split; [exact Ho|]. cbn.
  assert (list_to_set (reverse found) = (list_to_set found : gset string)) as ->.
  { apply set_eq. intros d. by rewrite !elem_of_list_to_set, elem_of_reverse. }
  unfold holder. cbn. unfold dir_above. split; [exact Hp|]. split; [|done].
  intros [Hin%elem_of_list_to_set|Hin]%elem_of_union; [apply Hl in Hin; lia|set_solver].
Qed.

Lemma findUnwrittenDirsInPath_spec path seen :
  exists dirs, findUnwrittenDirsInPath path seen = Some (dirs, list_to_set dirs ∪ seen) /\
    in_order seen (dir_entry <$> dirs) /\
    (no_dir (SplitDir path) = true \/ SplitDir path ∈ (list_to_set dirs ∪ seen : gset string)).
Proof.
  unfold findUnwrittenDirsInPath. pose proof (SplitDir_length path).
  destruct (find_unwritten_spec (S (String.length path)) path [] ∅ seen) as (found & Hr & _ & Ho & Hp);
    [lia|set_solver|].
  rewrite (left_id_L ∅ (∪)) in Hr. rewrite Hr. cbn [mbind option_bind]. exists (reverse found).
  assert (list_to_set (reverse found) = (list_to_set found : gset string)) as ->; [|done].
  apply set_eq. intros d. by rewrite !elem_of_list_to_set, elem_of_reverse.
Qed.

(** ** oci_image.go: layers *)

(** [type fileInfo struct] *)
Record fileInfo := {
  fi_content : string;
  fi_perm : N
}.

(** [type OCIImageLayerBuilder struct] *)
Record OCIImageLayerBuilder := { lb_files : gmap string fileInfo }.

Definition OCIImageLayer : OCIImageLayerBuilder := {| lb_files := ∅ |}.

Definition OCIImageLayer_WithFileWithPerms (b : OCIImageLayerBuilder) (path fileContent : string) (perms : N) :
    OCIImageLayerBuilder :=
  {| lb_files := <[path := {| fi_content := fileContent; fi_perm := perms |}]> (lb_files b) |}.

Definition OCIImageLayer_WithFile (b : OCIImageLayerBuilder) (path fileContent : string) : OCIImageLayerBuilder :=
  OCIImageLayer_WithFileWithPerms b path fileContent 420.

(** The loop over the files in the order they are visited: the entries, each with
    its mode. *)
Fixpoint layer_entries (files : list (string * fileInfo)) (dirsWritten : gset string) :
    option (list (tar_entry * N)) :=
  match files with
  | [] => Some []
  | (path, info) :: files' =>
      '(dirs, dirsWritten) ← findUnwrittenDirsInPath path dirsWritten;
      entries ← layer_entries files' dirsWritten;
      Some (((fun dir => (dir_entry dir, 511%N)) <$> dirs) ++
            ({| hdr_Name := path; hdr_Typeflag := TypeReg; hdr_Content := fi_content info; hdr_Error := None |},
             fi_perm info) :: entries)
  end.

(** The regular files of entries. *)
Definition files_in (entries : list (tar_entry * N)) : list (string * fileInfo) :=
  list_omap _ _ (fun em => match hdr_Typeflag em.1 with
    | TypeReg => Some (hdr_Name em.1, {| fi_content := hdr_Content em.1; fi_perm := em.2 |})
    | _ => None end) entries.

(** A layer has the files it was built with, in the order they were visited, each
    once, and every directory above them once and before what it holds: it can be
    unpacked from its start to its end. *)
Lemma layer_entries_spec files seen :
  exists entries, layer_entries files seen = Some entries /\ in_order seen entries.*1 /\ files_in entries = files.
Proof.
  revert seen. induction files as [|[path info] files IH]; intros seen; [by exists []|]. cbn [layer_entries].
  destruct (findUnwrittenDirsInPath_spec path seen) as (dirs & -> & Ho & Hp). cbn [mbind option_bind].
  destruct (IH (list_to_set dirs ∪ seen)) as (entries & -> & Hoe & Hfe). cbn [mbind option_bind].
  eexists. split; [done|]. split.
  - rewrite fmap_app, <- list_fmap_compose. cbn [fmap list_fmap fst].
    change (fst ∘ (fun dir => (dir_entry dir, 511%N))) with dir_entry.
    apply in_order_app. rewrite dirs_of_dirs. split; [exact Ho|]. cbn. by split.
  - unfold files_in in *. induction dirs as [|d dirs IHd]; cbn in *; [by destruct info; f_equal|].
    clear -Hfe. induction dirs as [|d' dirs IHd']; cbn; [by destruct info; f_equal|exact IHd'].
Qed.

Section images.
  Context `{IB : ImageBuilder} `{MR : MapRange}.
  (** [tarball.LayerFromOpener] without options, [layer.DiffID()], [img.ConfigFile()],
      the three fields of a configuration that are set, and [mutate.ConfigFile]. *)
  Context (LayerFromOpener_plain : F string -> F LocalLayer) (DiffID : LocalLayer -> res string).
  Context (ConfigFile : Type) (img_ConfigFile : v1_Image -> res ConfigFile)
    (with_fields : ConfigFile -> string -> list string -> list string -> ConfigFile)
    (mutate_ConfigFile : v1_Image -> ConfigFile -> res v1_Image).

(** [b.Build()] of a layer: the archive is in a buffer that the opener reads. *)
Definition OCIImageLayer_Build (b : OCIImageLayerBuilder) : F LocalLayer :=
  entries ← F_lift (match layer_entries (map_range (lb_files b)) ∅ with Some es => Ok es | None => OutOfFuel end);
  let buf := archive_tar_closed entries.*1 in
  LayerFromOpener_plain (mret buf).

(** It never runs out of fuel: the archive has the files of the builder. *)
Lemma OCIImageLayer_Build_archive b :
  exists entries, in_order ∅ entries.*1 /\ files_in entries ≡ₚ map_to_list (lb_files b) /\
    forall m, OCIImageLayer_Build b m = LayerFromOpener_plain (mret (archive_tar_closed entries.*1)) m.
Proof.
  destruct (layer_entries_spec (map_range (lb_files b)) ∅) as (entries & He & Ho & Hf). exists entries.
  split; [done|]. split; [rewrite Hf; apply map_range_perm|]. intros m. unfold OCIImageLayer_Build. by rewrite He.
Qed.

(** [type OCIImageBuilder struct] *)
Record OCIImageBuilder := { imgb_layers : list LocalLayer }.

Definition OCIImage : OCIImageBuilder := {| imgb_layers := [] |}.

Definition OCIImage_WithLayer (b : OCIImageBuilder) (layer : LocalLayer) : OCIImageBuilder :=
  {| imgb_layers := imgb_layers b ++ [layer] |}.

Definition OCIImage_WithFile (b : OCIImageBuilder) (path content : string) : F OCIImageBuilder :=
  layer ← OCIImageLayer_Build (OCIImageLayer_WithFile OCIImageLayer path content);
  mret {| imgb_layers := imgb_layers b ++ [layer] |}.

Definition OCIImage_WithEmptyFile (b : OCIImageBuilder) (path : string) : F OCIImageBuilder :=
  OCIImage_WithFile b path "".

(** [b.Build()] over an image without layers. *)
Definition build_image (img : v1_Image) (b : OCIImageBuilder) : res v1_Image :=
  img ← AppendLayers img (imgb_layers b);
  diffIDs ← slice_map DiffID (imgb_layers b);
  cfg ← img_ConfigFile img;
  mutate_ConfigFile img (with_fields cfg "/" ["PATH=/usr/bin"] diffIDs).

Definition OCIImage_Build (b : OCIImageBuilder) : res v1_Image := build_image empty_Image b.

(** The builder of the tests of fetch sets the media type first. *)
Definition fetch_OCIImage_Build (b : OCIImageBuilder) : res v1_Image :=
  build_image (Image_MediaType empty_Image OCIManifestSchema1) b.

(** ** oci_image_index.go *)

(** A platform of a system and an architecture. *)
Definition plain_platform (os arch : string) : v1_Platform := {|
  v1_Architecture := arch; v1_OS := os; v1_OSVersion := ""; v1_OSFeatures := []; v1_Variant := "";
  v1_Features := [] |}.

(** [thisV1Platform] of [platforms.DefaultSpec()] *)
Definition thisV1Platform (thisPlatform : Platform) : v1_Platform := {|
  v1_Architecture := Architecture thisPlatform; v1_OS := OS thisPlatform; v1_OSVersion := OSVersion thisPlatform;
  v1_OSFeatures := OSFeatures thisPlatform; v1_Variant := Variant thisPlatform; v1_Features := [] |}.

(** [OCIPlatform] *)
Record OCIPlatforms := {
  LinuxAMD64 : v1_Platform;
  Linux386 : v1_Platform;
  LinuxARM64v8 : v1_Platform;
  LinuxARM64v7 : v1_Platform;
  LinuxARM64 : v1_Platform;
  WindowsAMD64 : v1_Platform;
  Generic : v1_Platform;
  ThisPlatform : v1_Platform
}.

Definition OCIPlatform (thisPlatform : Platform) : OCIPlatforms := {|
  LinuxAMD64 := plain_platform "linux" "amd64";
  Linux386 := plain_platform "linux" "386";
  LinuxARM64v8 := {| v1_Architecture := "arm64"; v1_OS := "linux"; v1_OSVersion := ""; v1_OSFeatures := [];
                     v1_Variant := "v8"; v1_Features := [] |};
  LinuxARM64v7 := {| v1_Architecture := "arm64"; v1_OS := "linux"; v1_OSVersion := ""; v1_OSFeatures := [];
                     v1_Variant := "v7"; v1_Features := [] |};
  LinuxARM64 := plain_platform "linux" "arm64";
  WindowsAMD64 := {| v1_Architecture := "amd64"; v1_OS := "windows"; v1_OSVersion := "10.0.26100.2894";
                     v1_OSFeatures := []; v1_Variant := ""; v1_Features := [] |};
  Generic := plain_platform "generic" "generic";
  ThisPlatform := thisV1Platform thisPlatform |}.

(** The platform of the process is found again by the fetching step. *)
Lemma this_platform_converts p : ConvertPlatformV1ToCtrd (Some (ThisPlatform (OCIPlatform p))) = Ok p.
Proof. by destruct p. Qed.

(** The generic platform of the tests is that of the artifacts without a platform. *)
Lemma generic_platforms p : Generic (OCIPlatform p) = PlatformGeneric.
Proof. done. Qed.

(** [type OCIImageIndexBuilder struct] *)
Record OCIImageIndexBuilder := { ixb_index : v1_ImageIndex }.

Definition OCIImageIndex : OCIImageIndexBuilder := {| ixb_index := empty_Index |}.

Definition OCIImageIndex_WithPlatformImage (b : OCIImageIndexBuilder) (platform : v1_Platform) (image : v1_Image) :
    OCIImageIndexBuilder := {| ixb_index := AppendManifests (ixb_index b) image OCIManifestSchema1 platform |}.

Definition OCIImageIndex_WithImageForThisPlatform (thisPlatform : Platform) (b : OCIImageIndexBuilder)
    (img : v1_Image) : OCIImageIndexBuilder :=
  OCIImageIndex_WithPlatformImage b (ThisPlatform (OCIPlatform thisPlatform)) img.

Definition OCIImageIndex_Build (b : OCIImageIndexBuilder) : v1_ImageIndex := ixb_index b.
End images.

(** ** oci_basic_auth_access.go *)

(** [type OCIBasicAuthAccess struct] *)
Record OCIBasicAuthAccess := {
  ac_user : string;
  ac_password : string
}.

(** A type assertion to a string. *)
Definition as_string (v : any) : res string :=
  match v with AString s => Ok s | _ => Panic "interface conversion: interface {} is not string" end.

Definition NewOCIBasicAuthAccess (options : gmap string any) : res OCIBasicAuthAccess :=
  match options !! "username" with
  | None => Err (NewError "user not defined for basic auth access")
  | Some user =>
      match options !! "password" with
      | None => Err (NewError "password not defined for basic auth access")
      | Some password =>
          user ← as_string user; password ← as_string password;
          Ok {| ac_user := user; ac_password := password |}
      end
  end.

(** What [Authorized] reads of a request, and what it answers: a grant, a challenge
    or [auth.ErrAuthenticationFailure]. *)
Record auth_request := {
  req_Method : string;
  req_BasicAuth : option (string * string)
}.

Inductive auth_answer := Grant | Challenge | AuthenticationFailure.

Definition Authorized (ac : OCIBasicAuthAccess) (req : auth_request) : auth_answer :=
  if String.eqb (req_Method req) "GET" || String.eqb (req_Method req) "HEAD" then Grant
  else match req_BasicAuth req with
       | None => Challenge
       | Some (username, password) =>
           if String.eqb username (ac_user ac) && String.eqb password (ac_password ac) then Grant
           else AuthenticationFailure
       end.

(** The header [SetHeaders] sets, and [Error] of the text of [auth.ErrInvalidCredential]. *)
Definition Challenge_SetHeaders (headers : gmap string string) : gmap string string :=
  <["WWW-Authenticate" := "Basic"]> headers.
Definition Challenge_Error (ErrInvalidCredential : string) : string := "basic auth challenge: " +:+ ErrInvalidCredential.

(** Only reading needs no credentials. *)
Lemma Authorized_write ac req :
  req_Method req <> "GET" -> req_Method req <> "HEAD" ->
  Authorized ac req = Grant <-> req_BasicAuth req = Some (ac_user ac, ac_password ac).
Proof.
  intros H1%String.eqb_neq H2%String.eqb_neq. unfold Authorized. rewrite H1, H2. cbn.
  destruct (req_BasicAuth req) as [[u p]|]; [|done].
  destruct (String.eqb_spec u (ac_user ac)) as [->|], (String.eqb_spec p (ac_password ac)) as [->|]; cbn; naive_solver.
Qed.

(** ** oci_registry_server.go *)

(** [type OCIRegistryServerOptions struct] *)
Record OCIRegistryServerOptions := {
  rs_port : string;
  requireAuth : bool;
  rs_user : string;
  rs_password : string
}.

Definition WithRequireAuth (user password : string) (opts : OCIRegistryServerOptions) : OCIRegistryServerOptions :=
  {| rs_port := rs_port opts; requireAuth := true; rs_user := user; rs_password := password |}.

(** The options of [StartOCIRegistryServer] at a free port. *)
Definition registry_options (port : string) (options : list (OCIRegistryServerOptions -> OCIRegistryServerOptions)) :
    OCIRegistryServerOptions :=
  foldl (fun opts option => option opts)
    {| rs_port := port; requireAuth := false; rs_user := ""; rs_password := "" |} options.

(** What is set of [configuration.Configuration]. *)
Record Configuration := {
  Storage : gmap string (gmap string any);
  Log_Level : string;
  Log_Formatter : string;
  HTTP_Secret : string;
  HTTP_Addr : string;
  Auth : gmap string (gmap string any)
}.

Definition registry_configuration (opts : OCIRegistryServerOptions) : Configuration := {|
  Storage := <["maintenance" := {["uploadpurging" := AMap [("enabled", ABool false)]]}]> {["inmemory" := ∅]};
  Log_Level := "debug";
  Log_Formatter := "text";
  HTTP_Secret := "secrety-secret";
  HTTP_Addr := ":" +:+ rs_port opts;
  Auth := if requireAuth opts
          then {["basicauth" := <["password" := AString (rs_password opts)]> {["username" := AString (rs_user opts)]}]}
          else ∅ |}.

(** A channel of errors: nil, or with what was sent. *)
Abbreviation error_channel := (option (list error)).

(** What a goroutine that sends to a channel does: a send to a nil channel blocks
    for ever. *)
Definition send (c : error_channel) (e : error) : error_channel := match c with None => None | Some l => Some (l ++ [e]) end.

(** A receive in a select with a default. *)
Definition receive_now (c : error_channel) : option error := match c with Some (e :: _) => Some e | _ => None end.

Section registry.
  (** [auth.Register], [registry.NewRegistry], and what [ListenAndServe] returned
      before the select, if it did. *)
  Context {S : Type} (Register : string -> option error) (NewRegistry : Configuration -> res S)
    (ListenAndServe : S -> option error).

(** [s.Serve(ctx)]; the channel is declared and never made. *)
Definition Registry_Serve (opts : OCIRegistryServerOptions) : res S :=
  let config := registry_configuration opts in
  _ ← match (if requireAuth opts then Register "basicauth" else None) with Some e => Err e | None => Ok tt end;
  server ← NewRegistry config;
  let errchan : error_channel := None in
  let errchan := match ListenAndServe server with Some e => send errchan e | None => errchan end in
  match receive_now errchan with
  | Some err => Err (NewError ("error serving registry: " +:+ Error err))
  | None => Ok server
  end.

(** The registry of the tests of fetch, which asks for no credentials. *)
Definition fetch_Registry_Serve (port : string) : res S := Registry_Serve (registry_options port []).

(** The registry of a test serves, as far as the test is told, even when it does not
    listen. *)
Lemma Serve_misses_the_error opts server e :
  requireAuth opts = false -> NewRegistry (registry_configuration opts) = Ok server ->
  ListenAndServe server = Some e -> Registry_Serve opts = Ok server.
Proof. intros Ha Hn Hl. unfold Registry_Serve. rewrite Ha, Hn. cbn. by rewrite Hl. Qed.

(** A registry that asks for credentials asks for those of its options. *)
Lemma registry_credentials port user password options access :
  let opts := registry_options port (options ++ [WithRequireAuth user password]) in
  (Auth (registry_configuration opts) !! "basicauth") = Some access ->
  NewOCIBasicAuthAccess access = Ok {| ac_user := user; ac_password := password |}.
Proof.
  intros opts. unfold opts, registry_options. rewrite foldl_app. cbn [foldl]. cbn [registry_configuration Auth requireAuth].
  unfold registry_configuration. cbn. rewrite lookup_singleton_eq. intros [= <-]. reflexivity.
Qed.
End registry.

(** [s.Address()] *)
Definition Address (port : string) : string := "127.0.0.1:" +:+ port.

Section references.
  Context `{IN : ImageName}.

(** [s.RefToImage(imageName, imageTag)] and, in the tests of fetch, [s.RefToImageDigest]. *)
Definition RefToImage (port imageName imageTag : string) : res Reference :=
  ParseReference (Address port +:+ "/" +:+ imageName +:+ ":" +:+ imageTag).
Definition RefToImageDigest (port imageName digest : string) : res Reference :=
  ParseReference (Address port +:+ "/" +:+ imageName +:+ "@" +:+ digest).

(** ** build/testutil/bldr/remote_image_builder.go *)

(** [type RemoteImageBuilder struct] *)
Record RemoteImageBuilder := {
  ri_registry : string;
  ri_repository : string;
  ri_tag : string
}.

Definition RemoteImage_ : RemoteImageBuilder :=
  {| ri_registry := "localhost:5000"; ri_repository := "my-image"; ri_tag := "1.0.0" |}.

Definition RemoteImage_WithRegistry (b : RemoteImageBuilder) (registry : string) : RemoteImageBuilder :=
  {| ri_registry := registry; ri_repository := ri_repository b; ri_tag := ri_tag b |}.

Definition RemoteImage_WithRepository (b : RemoteImageBuilder) (repository : string) : RemoteImageBuilder :=
  {| ri_registry := ri_registry b; ri_repository := repository; ri_tag := ri_tag b |}.

Definition RemoteImage_WithTag (b : RemoteImageBuilder) (tag : string) : RemoteImageBuilder :=
  {| ri_registry := ri_registry b; ri_repository := ri_repository b; ri_tag := tag |}.

Definition RemoteImage_WithRepositoryRef (b : RemoteImageBuilder) (imgRef : Reference) : RemoteImageBuilder :=
  {| ri_registry := ref_RegistryStr imgRef; ri_repository := ref_RepositoryStr imgRef; ri_tag := ri_tag b |}.

Definition RemoteImage_Build (b : RemoteImageBuilder) : res Reference :=
  ParseReference (PathJoin [ri_registry b; ri_repository b] +:+ ":" +:+ ri_tag b).
End references.

(** ** build/testutil/bldr/artifact.go *)

(** [type OCIArtifactBuilder struct] *)
Record OCIArtifactBuilder := {
  ab_from : string;
  ab_to : string;
  ab_platform : v1_Platform
}.

Section artifacts.
  Context (thisPlatform : Platform).

(** [OCIArtifact(t)], with the temporary directory of the test. *)
Definition OCIArtifact (tempDir : string) : OCIArtifactBuilder :=
  {| ab_from := tempDir; ab_to := "/my_step"; ab_platform := LinuxARM64 (OCIPlatform thisPlatform) |}.

Definition OCIArtifact_WithPlatform (b : OCIArtifactBuilder) (platform : v1_Platform) : OCIArtifactBuilder :=
  {| ab_from := ab_from b; ab_to := ab_to b; ab_platform := platform |}.

Definition OCIArtifact_Generic (b : OCIArtifactBuilder) : OCIArtifactBuilder :=
  OCIArtifact_WithPlatform b (Generic (OCIPlatform thisPlatform)).
Definition OCIArtifact_LinuxAMD64 (b : OCIArtifactBuilder) : OCIArtifactBuilder :=
  OCIArtifact_WithPlatform b (LinuxAMD64 (OCIPlatform thisPlatform)).
Definition OCIArtifact_LinuxARM64 (b : OCIArtifactBuilder) : OCIArtifactBuilder :=
  OCIArtifact_WithPlatform b (LinuxARM64 (OCIPlatform thisPlatform)).

Definition OCIArtifact_WithFrom (b : OCIArtifactBuilder) (from : string) : OCIArtifactBuilder :=
  {| ab_from := from; ab_to := ab_to b; ab_platform := ab_platform b |}.
Definition OCIArtifact_WithTo (b : OCIArtifactBuilder) (to : string) : OCIArtifactBuilder :=
  {| ab_from := ab_from b; ab_to := to; ab_platform := ab_platform b |}.

Definition OCIArtifact_Build (b : OCIArtifactBuilder) : Artifact := NewArtifact (ab_platform b) (ab_from b) (ab_to b).
Definition OCIArtifact_BuildArtifacts (b : OCIArtifactBuilder) : list Artifact := [OCIArtifact_Build b].
End artifacts.

(** ** inputs_builder.go *)

(** [type CLIInputsBuilder struct] of fetch. *)
Record FetchCLIBuilder := {
  fi_registry : string;
  fi_repository : string;
  fi_tag : string;
  fi_stepPath : string;
  fi_logLevel : string;
  fi_outputFile : string
}.

Definition FetchCLI (tempDir : string) : FetchCLIBuilder := {|
  fi_registry := "registry.gitlab.com";
  fi_repository := "my_group/my_project";
  fi_tag := "1.0.0";
  fi_stepPath := "";
  fi_logLevel := "info";
  fi_outputFile := PathJoin [tempDir; "output.txt"] |}.

Definition FetchCLI_WithRegistry (b : FetchCLIBuilder) (registry : string) : FetchCLIBuilder := {|
  fi_registry := registry; fi_repository := fi_repository b; fi_tag := fi_tag b;
  fi_stepPath := fi_stepPath b; fi_logLevel := fi_logLevel b; fi_outputFile := fi_outputFile b |}.

Definition FetchCLI_WithRepository (b : FetchCLIBuilder) (repository : string) : FetchCLIBuilder := {|
  fi_registry := fi_registry b; fi_repository := repository; fi_tag := fi_tag b;
  fi_stepPath := fi_stepPath b; fi_logLevel := fi_logLevel b; fi_outputFile := fi_outputFile b |}.

Definition FetchCLI_WithTag (b : FetchCLIBuilder) (tag : string) : FetchCLIBuilder := {|
  fi_registry := fi_registry b; fi_repository := fi_repository b; fi_tag := tag;
  fi_stepPath := fi_stepPath b; fi_logLevel := fi_logLevel b; fi_outputFile := fi_outputFile b |}.

Definition FetchCLI_WithStepPath (b : FetchCLIBuilder) (stepPath : string) : FetchCLIBuilder := {|
  fi_registry := fi_registry b; fi_repository := fi_repository b; fi_tag := fi_tag b;
  fi_stepPath := stepPath; fi_logLevel := fi_logLevel b; fi_outputFile := fi_outputFile b |}.

Definition FetchCLI_WithLogLevel (b : FetchCLIBuilder) (logLevel : string) : FetchCLIBuilder := {|
  fi_registry := fi_registry b; fi_repository := fi_repository b; fi_tag := fi_tag b;
  fi_stepPath := fi_stepPath b; fi_logLevel := logLevel; fi_outputFile := fi_outputFile b |}.

Definition FetchCLI_WithOutputFile (b : FetchCLIBuilder) (outputFile : string) : FetchCLIBuilder := {|
  fi_registry := fi_registry b; fi_repository := fi_repository b; fi_tag := fi_tag b;
  fi_stepPath := fi_stepPath b; fi_logLevel := fi_logLevel b; fi_outputFile := outputFile |}.

(** [type CLIInputsBuilder struct] of promote. *)
Record PromoteCLIBuilder := {
  pi_fromImage : string;
  pi_toRegistry : string;
  pi_toRepository : string;
  pi_toVersion : string;
  pi_logLevel : string
}.

Definition PromoteCLI : PromoteCLIBuilder := {|
  pi_fromImage := "registry.gitlab.com/my_group/my_project:1234";
  pi_toRegistry := "registry.gitlab.com";
  pi_toRepository := "my_group/my_project";
  pi_toVersion := "1.0.0";
  pi_logLevel := "info" |}.

Definition PromoteCLI_WithFromImage (b : PromoteCLIBuilder) (fromImage : string) : PromoteCLIBuilder := {|
  pi_fromImage := fromImage; pi_toRegistry := pi_toRegistry b; pi_toRepository := pi_toRepository b;
  pi_toVersion := pi_toVersion b; pi_logLevel := pi_logLevel b |}.

Definition PromoteCLI_WithToRegistry (b : PromoteCLIBuilder) (toRegistry : string) : PromoteCLIBuilder := {|
  pi_fromImage := pi_fromImage b; pi_toRegistry := toRegistry; pi_toRepository := pi_toRepository b;
  pi_toVersion := pi_toVersion b; pi_logLevel := pi_logLevel b |}.

Definition PromoteCLI_WithToRepository (b : PromoteCLIBuilder) (toRepository : string) : PromoteCLIBuilder := {|
  pi_fromImage := pi_fromImage b; pi_toRegistry := pi_toRegistry b; pi_toRepository := toRepository;
  pi_toVersion := pi_toVersion b; pi_logLevel := pi_logLevel b |}.

Definition PromoteCLI_WithToVersion (b : PromoteCLIBuilder) (toVersion : string) : PromoteCLIBuilder := {|
  pi_fromImage := pi_fromImage b; pi_toRegistry := pi_toRegistry b; pi_toRepository := pi_toRepository b;
  pi_toVersion := toVersion; pi_logLevel := pi_logLevel b |}.

Definition PromoteCLI_WithLogLevel (b : PromoteCLIBuilder) (logLevel : string) : PromoteCLIBuilder := {|
  pi_fromImage := pi_fromImage b; pi_toRegistry := pi_toRegistry b; pi_toRepository := pi_toRepository b;
  pi_toVersion := pi_toVersion b; pi_logLevel := logLevel |}.

(** A text whose quotes are written as backquotes. *)
Fixpoint json_quotes (s : string) : string :=
  match s with
  | "" => ""
  | String c s' => if Ascii.eqb c "`" then dquote +:+ json_quotes s' else String c (json_quotes s')
  end.

Definition default_common : string := json_quotes "{`files`: {`step.yml`: `step.yml`}}".
Definition default_platforms : string := json_quotes
  "{`linux/arm64`: {`files`: {`amd_run`: `run`}}, `linux/amd64`: {`files`: {`arm_run`: `run`}}}".

(** [type CLIInputsBuilder struct] of build. *)
Record BuildCLIBuilder := {
  bi_registry : string;
  bi_repository : string;
  bi_tag : string;
  bi_common : string;
  bi_platforms : string;
  bi_logLevel : string;
  bi_outputFile : string
}.

Definition BuildCLI (tempDir : string) : BuildCLIBuilder := {|
  bi_registry := "registry.gitlab.com";
  bi_repository := "my_group/my_project";
  bi_tag := "1.0.0";
  bi_common := default_common;
  bi_platforms := default_platforms;
  bi_logLevel := "info";
  bi_outputFile := PathJoin [tempDir; "output.txt"] |}.

Definition BuildCLI_WithRegistry (b : BuildCLIBuilder) (registry : string) : BuildCLIBuilder := {|
  bi_registry := registry; bi_repository := bi_repository b; bi_tag := bi_tag b; bi_common := bi_common b;
  bi_platforms := bi_platforms b; bi_logLevel := bi_logLevel b; bi_outputFile := bi_outputFile b |}.

Definition BuildCLI_WithRepository (b : BuildCLIBuilder) (repository : string) : BuildCLIBuilder := {|
  bi_registry := bi_registry b; bi_repository := repository; bi_tag := bi_tag b; bi_common := bi_common b;
  bi_platforms := bi_platforms b; bi_logLevel := bi_logLevel b; bi_outputFile := bi_outputFile b |}.

Definition BuildCLI_WithTag (b : BuildCLIBuilder) (tag : string) : BuildCLIBuilder := {|
  bi_registry := bi_registry b; bi_repository := bi_repository b; bi_tag := tag; bi_common := bi_common b;
  bi_platforms := bi_platforms b; bi_logLevel := bi_logLevel b; bi_outputFile := bi_outputFile b |}.

Definition BuildCLI_WithCommon (b : BuildCLIBuilder) (common : string) : BuildCLIBuilder := {|
  bi_registry := bi_registry b; bi_repository := bi_repository b; bi_tag := bi_tag b; bi_common := common;
  bi_platforms := bi_platforms b; bi_logLevel := bi_logLevel b; bi_outputFile := bi_outputFile b |}.

Definition BuildCLI_WithPlatforms (b : BuildCLIBuilder) (platforms : string) : BuildCLIBuilder := {|
  bi_registry := bi_registry b; bi_repository := bi_repository b; bi_tag := bi_tag b;
  bi_common := bi_common b; bi_platforms := platforms; bi_logLevel := bi_logLevel b;
  bi_outputFile := bi_outputFile b |}.

Definition BuildCLI_WithLogLevel (b : BuildCLIBuilder) (logLevel : string) : BuildCLIBuilder := {|
  bi_registry := bi_registry b; bi_repository := bi_repository b; bi_tag := bi_tag b;
  bi_common := bi_common b; bi_platforms := bi_platforms b; bi_logLevel := logLevel;
  bi_outputFile := bi_outputFile b |}.

Definition BuildCLI_WithOutputFile (b : BuildCLIBuilder) (outputFile : string) : BuildCLIBuilder := {|
  bi_registry := bi_registry b; bi_repository := bi_repository b; bi_tag := bi_tag b;
  bi_common := bi_common b; bi_platforms := bi_platforms b; bi_logLevel := bi_logLevel b;
  bi_outputFile := outputFile |}.

(** The environment of a built command line. *)
Definition cli_getenv (logLevel key : string) : string := if String.eqb key "CI_STEPS_LOG_LEVEL" then logLevel else "".

(** Options with their values. *)
Definition cli_options (options : list (string * string)) : list string :=
  mjoin ((fun kv => ["--" +:+ kv.1; kv.2]) <$> options).

(** [os.WriteFile(outputFile, "", 0644)] *)
Definition empty_output (outputFile : string) : F unit :=
  _ ← OpenFile outputFile {| O_CREATE := true; O_EXCL := false; O_TRUNC := true |} 420;
  WriteTo outputFile "".

Definition FetchCLI_Build (b : FetchCLIBuilder) : F (list string * (string -> string)) :=
  _ ← empty_output (fi_outputFile b);
  mret (cli_options [("registry", fi_registry b); ("repository", fi_repository b); ("tag", fi_tag b);
                     ("step_path", fi_stepPath b); ("output_file", fi_outputFile b)], cli_getenv (fi_logLevel b)).

Definition BuildCLI_Build (b : BuildCLIBuilder) : F (list string * (string -> string)) :=
  _ ← empty_output (bi_outputFile b);
  mret (cli_options [("registry", bi_registry b); ("repository", bi_repository b); ("tag", bi_tag b);
                     ("common", bi_common b); ("platforms", bi_platforms b); ("output_file", bi_outputFile b)],
        cli_getenv (bi_logLevel b)).

Definition PromoteCLI_Build (b : PromoteCLIBuilder) : list string * (string -> string) :=
  (cli_options [("from-image", pi_fromImage b); ("to-registry", pi_toRegistry b);
                ("to-repository", pi_toRepository b); ("to-version", pi_toVersion b)], cli_getenv (pi_logLevel b)).

Section inputs.
  Context `{WS : WordSize} `{IN : ImageName} `{PL : Platforms} (Decode_platforms : string -> res (gmap string platform_spec))
    (Decode_common : string -> res (gmap string string)) (is_ErrUnexpectedEOF : error -> bool).

(** [b.WithRemoteImgRef(ref)] *)
Definition FetchCLI_WithRemoteImgRef (b : FetchCLIBuilder) (ref : Reference) : FetchCLIBuilder := {|
  fi_registry := ref_RegistryStr ref; fi_repository := ref_RepositoryStr ref; fi_tag := ref_Identifier ref;
  fi_stepPath := fi_stepPath b; fi_logLevel := fi_logLevel b; fi_outputFile := fi_outputFile b |}.

Lemma cli_options_parse names (options : list (string * string)) :
  forallb (plain_flag names) options.*1 = true ->
  flag_parse names (cli_options options) ∅ = Ok (foldl (fun m kv => <[kv.1 := kv.2]> m) ∅ options, []).
Proof.
  intros H. rewrite forallb_forall in H. apply flag_parse_pairs, Forall_forall. intros kv Hin.
  assert (plain_flag names kv.1 = true) as Hp by (apply H, list_elem_of_In, list_elem_of_fmap; eauto).
  by apply plain_flag_spec.
Qed.

(** A built command line is that of the step for the same inputs: the program makes
    of it what it makes of the fields of the builder. *)
Lemma built_inputs_parse :
  (forall b m args getenv m', FetchCLI_Build b m = (Ok (args, getenv), m') ->
     forall m1 inputs m2, fetch_ParseInputs args getenv m1 = (Ok inputs, m2) <->
       fetch_parsed (fi_registry b) (fi_repository b) (fi_tag b) (fi_stepPath b) (fi_outputFile b)
         (cli_getenv (fi_logLevel b)) m1 inputs m2) /\
  (forall b m args getenv m', BuildCLI_Build b m = (Ok (args, getenv), m') ->
     forall m1 inputs m2,
       build_ParseInputs Decode_platforms Decode_common is_ErrUnexpectedEOF args getenv m1 = (Ok inputs, m2) <->
       build_parsed Decode_platforms Decode_common is_ErrUnexpectedEOF (bi_registry b) (bi_repository b) (bi_tag b)
         (bi_common b) (bi_platforms b) (bi_outputFile b) (cli_getenv (bi_logLevel b)) m1 inputs m2) /\
  (forall b inputs, ParseInputs (PromoteCLI_Build b).1 (PromoteCLI_Build b).2 = Ok inputs <->
     promote_parsed (pi_fromImage b) (pi_toRegistry b) (pi_toRepository b) (pi_toVersion b)
       (cli_getenv (pi_logLevel b)) inputs).
Proof.
  split; [|split].
  - intros b m args getenv m' (u & m0 & _ & [[= <- <-] _]%F_ret_Ok)%F_bind_Ok m1 inputs m2.
    erewrite fetch_ParseInputs_vals by (by apply cli_options_parse). reflexivity.
  - intros b m args getenv m' (u & m0 & _ & [[= <- <-] _]%F_ret_Ok)%F_bind_Ok m1 inputs m2.
    erewrite build_ParseInputs_vals by (by apply cli_options_parse). reflexivity.
  - intros b inputs. unfold PromoteCLI_Build. cbn [fst snd].
    erewrite promote_ParseInputs_vals by (by apply cli_options_parse). reflexivity.
Qed.
End inputs.
