(* ===== verification/Fixtures.v ===== *)
(** The files, the Git server and the checks of the tests
    (src/pkg/testutil/bldr/files_builder.go, git_smart_http_server.go and random.go,
    src/schema/v1/test_common.go).  What ends a test is the error of the
    computation. *)

From stdpp Require Import gmap strings list.
From S2P Require Import Prelude GoStrings GoPaths GoNumbers GoFiles GoFilesFacts ShortReference OCIFixtures.
Open Scope go_scope.
Open Scope string_scope.
Open Scope list_scope.

(** ** files_builder.go *)

(** [type FileData struct] *)
Record FileData := {
  fd_data : string;
  fd_perm : N
}.

(** [type FilesBuilder struct]: what is to be made, by its path. *)
Record FilesBuilder := {
  fb_dirs : gmap string N;
  fb_symlinks : gmap string string;
  fb_files : gmap string FileData;
  fb_baseDir : string
}.

(** What a file may be given: bytes, a string, or a value of another type. *)
Inductive file_contents := Bytes (data : string) | Text (data : string) | OtherContents (type : string).

(** [Files(t)], with a temporary directory of the test. *)
Definition Files (tempDir : string) : FilesBuilder :=
  {| fb_dirs := ∅; fb_symlinks := ∅; fb_files := ∅; fb_baseDir := tempDir |}.

(** [b.WithShortBaseDir()], with the number that was drawn. *)
Definition WithShortBaseDir (os_TempDir : string) (n : N) (b : FilesBuilder) : F FilesBuilder :=
  let baseDir := PathJoin [os_TempDir; FormatUint n] in
  _ ← MkdirAll baseDir 511;
  mret {| fb_dirs := fb_dirs b; fb_symlinks := fb_symlinks b; fb_files := fb_files b; fb_baseDir := baseDir |}.

Definition WriteDir (b : FilesBuilder) (dir : string) : FilesBuilder := {|
  fb_dirs := <[PathJoin [fb_baseDir b; dir] := 493%N]> (fb_dirs b); fb_symlinks := fb_symlinks b;
  fb_files := fb_files b; fb_baseDir := fb_baseDir b |}.

Definition WriteFileWithPerms (b : FilesBuilder) (path : string) (data : file_contents) (perm : N) :
    res FilesBuilder :=
  match data with
  | Bytes contents | Text contents => Ok {|
      fb_dirs := fb_dirs b; fb_symlinks := fb_symlinks b;
      fb_files := <[PathJoin [fb_baseDir b; path] := {| fd_data := contents; fd_perm := perm |}]> (fb_files b);
      fb_baseDir := fb_baseDir b |}
  | OtherContents type => Err (NewError ("data must be of type []byte or string, got " +:+ type))
  end.

Definition WriteFile (b : FilesBuilder) (path : string) (data : file_contents) : res FilesBuilder :=
  WriteFileWithPerms b path data 420.

Definition TouchFile (b : FilesBuilder) (path : string) : res FilesBuilder := WriteFile b path (Text "").

Definition WriteSymlink (b : FilesBuilder) (from to : string) : FilesBuilder := {|
  fb_dirs := fb_dirs b;
  fb_symlinks := <[PathJoin [fb_baseDir b; from] := PathJoin [fb_baseDir b; to]]> (fb_symlinks b);
  fb_files := fb_files b; fb_baseDir := fb_baseDir b |}.

Section files.
  Context `{MR : MapRange}.
  (** [os.Symlink(to, from)]: the trees of the file system have no links. *)
  Context (Symlink : string -> string -> F unit).

(** One file: the directories above it, and the file. *)
Definition build_file (file : string * FileData) : F unit :=
  _ ← MkdirAll (SplitDir file.1) 493;
  GoFiles.WriteFile file.1 (fd_data file.2) (fd_perm file.2).

(** [b.Build()] *)
Definition Files_Build (b : FilesBuilder) : F string :=
  _ ← F_each (fun dir => MkdirAll dir.1 dir.2) (map_range (fb_dirs b));
  _ ← F_each build_file (map_range (fb_files b));
  _ ← F_each (fun link => Symlink link.2 link.1) (map_range (fb_symlinks b));
  mret (fb_baseDir b).

(** [b.BuildFS()]: the nodes under the directory. *)
Definition Files_BuildFS (b : FilesBuilder) : F tree :=
  dir ← Files_Build b;
  F_read (fun m => Ok (subtree (tree_of m) (resolve m dir))).

(** [b.BuildPath(path)] *)
Definition Files_BuildPath (b : FilesBuilder) (path : string) : F string :=
  dir ← Files_Build b; mret (PathJoin [dir; path]).

(** A name without an element that goes up, and with one that is kept. *)
Definition inner_name (name : string) : Prop := Forall no_up (Split name "/").

(** A builder of files under its directory. *)
Definition files_under (b : FilesBuilder) : Prop :=
  let base := resolve_from [] (fb_baseDir b) in
  HasPrefix (fb_baseDir b) "/" = true /\ base <> [] /\ fb_symlinks b = ∅ /\
  (forall dir perm, fb_dirs b !! dir = Some perm -> exists rel, dir = path_string (base ++ rel) /\ Forall good_elem rel) /\
  (forall file data, fb_files b !! file = Some data ->
     exists rel x, file = path_string (base ++ rel ++ [x]) /\ Forall good_elem (rel ++ [x])).

Lemma Files_under tempDir :
  HasPrefix tempDir "/" = true -> resolve_from [] tempDir <> [] -> files_under (Files tempDir).
Proof. intros H1 H2. do 3 (split; [done|]). split; intros k v H; cbn [fb_dirs fb_files Files] in H; by rewrite lookup_empty in H. Qed.

Lemma join_inner b name :
  HasPrefix (fb_baseDir b) "/" = true -> inner_name name ->
  PathJoin [fb_baseDir b; name] = path_string (resolve_from [] (fb_baseDir b) ++ name_elems name) /\
  Forall good_elem (name_elems name).
Proof.
  intros Hb Hn. rewrite PathJoin_absolute, join_name by done. split; [done|]. by apply join_elems_good.
Qed.

Lemma WriteDir_under b dir : files_under b -> inner_name dir -> files_under (WriteDir b dir).
Proof.
  intros (H1 & H2 & H3 & H4 & H5) Hd. destruct (join_inner b dir H1 Hd) as [Hj Hg].
  do 3 (split; [done|]). split; [|done]. intros k perm Hk.
  cbn [WriteDir fb_dirs fb_baseDir] in *.
  apply lookup_insert_Some in Hk as [[<- _]|[_ Hk]]; [by eexists|by eapply H4].
Qed.

Lemma WriteFileWithPerms_under b path data perm b' :
  files_under b -> inner_name path -> name_elems path <> [] -> WriteFileWithPerms b path data perm = Ok b' ->
  files_under b'.
Proof.
  intros (H1 & H2 & H3 & H4 & H5) Hp Hne Hw. destruct (join_inner b path H1 Hp) as [Hj Hg].
  assert (exists c, b' = {| fb_dirs := fb_dirs b; fb_symlinks := fb_symlinks b;
      fb_files := <[PathJoin [fb_baseDir b; path] := {| fd_data := c; fd_perm := perm |}]> (fb_files b);
      fb_baseDir := fb_baseDir b |}) as [c ->] by (destruct data; naive_solver).
  do 3 (split; [done|]). split; [done|]. intros k d Hk. cbn [fb_files fb_baseDir] in *.
  apply lookup_insert_Some in Hk as [[<- _]|[_ Hk]]; [|by eapply H5].
  destruct (exists_last Hne) as (rel & x & E). rewrite E in Hj, Hg. by exists rel, x.
Qed.

(** The directory of a path of several elements. *)
Lemma SplitDir_last a x : Contains x "/" = false -> SplitDir (a +:+ "/" +:+ x) = a +:+ "/".
Proof.
  intros Hx. assert (SplitDir x = "") as E.
  { clear a. induction x as [|c x IH]; [done|]. cbn [Contains] in Hx. apply orb_false_iff in Hx as [Hc Hx].
    cbn [SplitDir]. rewrite IH by done. unfold HasPrefix in Hc. cbn in Hc.
    destruct (Ascii.eqb_spec c "/") as [->|]; [done|done]. }
  induction a as [|c a IH]; [cbn; by rewrite E|]. 
  change (SplitDir (String c (a +:+ "/" +:+ x)) = String c (a +:+ "/")). cbn [SplitDir]. rewrite IH. by destruct a.
Qed.

(** The directory of a file, as the tests ask for it. *)
Lemma resolve_SplitDir m p x :
  Forall good_elem p -> good_elem x ->
  SplitDir (path_string (p ++ [x])) <> "" /\ resolve m (SplitDir (path_string (p ++ [x]))) = p.
Proof.
  intros Hp (_ & _ & _ & Hx). unfold path_string. destruct (decide (p = [])) as [->|Hne].
  - assert (SplitDir ("/" +:+ Join ([] ++ [x]) "/") = "/") as -> by exact (SplitDir_last "" x Hx). done.
  - rewrite Join_app by done. change (Join [x] "/") with x. rewrite <- (string_app_assoc "/").
    rewrite SplitDir_last by done. split; [done|].
    pose proof (resolve_path_string m p Hp) as H. unfold path_string, resolve, resolve_from in *.
    change (("/" +:+ Join p "/") +:+ "/") with (("/" +:+ Join p "/") +:+ "/" +:+ "").
    rewrite split_head, foldl_app by done. exact H.
Qed.

Lemma MkdirAll_confined (dir : path) name perm :
  (forall m, exists rel, resolve m name = dir ++ rel) -> confined dir (MkdirAll name perm).
Proof.
  intros H m Hm. unfold MkdirAll. destruct (String.eqb name ""); [done|].
  destruct (H m) as [rel ->]. by apply mkdir_all_confined.
Qed.

(** Building changes nothing out of the directory of the test, whatever fails. *)
Lemma Files_Build_confined b :
  files_under b -> confined (resolve_from [] (fb_baseDir b)) (Files_Build b).
Proof.
  intros (Habs & Hne & Hsym & Hdirs & Hfiles). set (base := resolve_from [] (fb_baseDir b)) in *.
  assert (Forall good_elem base) as Hbase by (by apply resolve_from_good).
  unfold Files_Build. apply confined_bind; [|intros _; apply confined_bind; [|intros _; apply confined_bind; [|intros _; apply confined_ret]]].
  - apply confined_each. intros [dir perm] Hin%elem_of_map_range. apply MkdirAll_confined. intros m.
    destruct (Hdirs dir perm Hin) as (rel & -> & Hg). exists rel. cbn. apply resolve_path_string.
    by apply Forall_app.
  - apply confined_each. intros [file data] Hin%elem_of_map_range.
    destruct (Hfiles file data Hin) as (rel & x & -> & Hg). apply Forall_app in Hg as [Hg [Hx _]%Forall_cons].
    unfold build_file. cbn [fst snd].
    assert (Forall good_elem (base ++ rel)) as Hbr by by apply Forall_app.
    assert (forall m, resolve m (path_string (base ++ rel ++ [x])) = base ++ rel ++ [x]) as Hres.
    { intros m. apply resolve_path_string. rewrite app_assoc. apply Forall_app. split; [exact Hbr|]. apply Forall_cons. by split. }
    apply confined_bind; [|intros _; unfold GoFiles.WriteFile; apply confined_bind; [|intros _; apply confined_bind; [|intros _]]].
    + apply MkdirAll_confined. intros m. exists rel. rewrite app_assoc. by apply resolve_SplitDir.
    + intros m Hm. by eapply OpenFile_confined.
    + intros m Hm. by eapply WriteTo_confined.
    + apply Close_confined.
  - rewrite Hsym. apply confined_each. intros [k v] Hin%elem_of_map_range. by rewrite lookup_empty in Hin.
Qed.
End files.

(** ** git_smart_http_server.go *)

(** A response: its status, its headers and its body. *)
Record http_response := {
  status : Z;
  headers : list (string * string);
  body : string
}.

(** [http.Error(w, error, code)] *)
Definition http_Error (error : string) (code : Z) : http_response := {|
  status := code;
  headers := [("Content-Type", "text/plain; charset=utf-8"); ("X-Content-Type-Options", "nosniff")];
  body := error +:+ newline |}.

Section git_server.
  (** go-git: the repository and a session of its server, the references it advertises
      and their encoding after a prefix, the requests and the answers of a pack, and
      the flush packet. *)
  Context {Repository Session AdvRefs UploadRequest UploadResponse : Type}.
  Context (NewUploadPackSession : Repository -> res Session)
    (AdvertisedReferences : Session -> res AdvRefs) (Encode_refs : list string -> AdvRefs -> res string)
    (Decode_request : string -> res UploadRequest) (UploadPack : Session -> UploadRequest -> res UploadResponse)
    (Encode_pack : UploadResponse -> res string) (Flush : string).

(** What a step of a handler leaves to it: an answer when it failed. *)
Definition or_respond {A} (r : res A) (msg : string) (code : Z) (k : A -> res http_response) : res http_response :=
  match r with
  | Ok a => k a
  | Err err => Ok (http_Error (msg +:+ Error err) code)
  | Panic w => Panic w
  | OutOfFuel => OutOfFuel
  end.

(** The answer with a body of a content type, which is encoded when it is too late
    to answer something else. *)
Definition respond (content_type : string) (encoded : res string) : res http_response :=
  match encoded with
  | Ok b => Ok {| status := 200; headers := [("Content-Type", content_type); ("Cache-Control", "no-cache")]; body := b |}
  | Err err => Panic (Error err)
  | Panic w => Panic w
  | OutOfFuel => OutOfFuel
  end.

(** [type GitSmartHTTPServer struct]: the repository, and whether it serves. *)
Record GitSmartHTTPServer := {
  gs_repo : Repository;
  gs_serving : bool
}.

Definition NewGitSmartHTTPServer (repo : Repository) : GitSmartHTTPServer := {| gs_repo := repo; gs_serving := false |}.
Definition GitServer_Close (s : GitSmartHTTPServer) : GitSmartHTTPServer := {| gs_repo := gs_repo s; gs_serving := false |}.

Definition establishUploadPackSession (s : GitSmartHTTPServer) : res Session := NewUploadPackSession (gs_repo s).

(** [s.handleAdvertizedRefs(w, r)] of the parameter [service] of the query. *)
Definition handleAdvertizedRefs (s : GitSmartHTTPServer) (service : string) : res http_response :=
  if negb (String.eqb service "git-upload-pack") then
    Ok (http_Error (dquote +:+ "Dumb" +:+ dquote +:+ " HTTP Git clients are not supported") 501)
  else
    or_respond (establishUploadPackSession s) "Failed to establish git-upload-pack session: " 500 (fun session =>
    or_respond (AdvertisedReferences session) "Failed to retrieve the advertised references: " 500 (fun advRefs =>
    respond "application/x-git-upload-pack-advertisement"
      (Encode_refs ["# service=git-upload-pack"; Flush] advRefs))).

(** [s.handleUploadPack(w, r)] of the body of the request. *)
Definition handleUploadPack (s : GitSmartHTTPServer) (request : string) : res http_response :=
  or_respond (Decode_request request) "Failed to decode HTTP request body: " 400 (fun uploadReq =>
  or_respond (establishUploadPackSession s) "Failed to establish git-upload-pack session: " 500 (fun session =>
  or_respond (UploadPack session uploadReq) "Failed to upload pack: " 500 (fun uploadResponse =>
  respond "application/x-git-upload-pack-result" (Encode_pack uploadResponse)))).

(** [s.Serve()]: the routes of the server, on its listener. *)
Definition GitServer_Serve (s : GitSmartHTTPServer) : GitSmartHTTPServer := {| gs_repo := gs_repo s; gs_serving := true |}.

Definition GitServer_route (s : GitSmartHTTPServer) (path service request : string) : res http_response :=
  if String.eqb path "/info/refs" then handleAdvertizedRefs s service
  else if String.eqb path "/git-upload-pack" then handleUploadPack s request
  else Ok (http_Error "404 page not found" 404).

(** A client gets the pack of its request exactly when every step succeeds; any other
    answer says so in its status. *)
Lemma handleUploadPack_200 s request :
  (forall r, handleUploadPack s request = Ok r -> status r = 200%Z -> exists req session resp,
     Decode_request request = Ok req /\ NewUploadPackSession (gs_repo s) = Ok session /\
     UploadPack session req = Ok resp /\ Encode_pack resp = Ok (body r)) /\
  (forall req session resp b,
     Decode_request request = Ok req -> NewUploadPackSession (gs_repo s) = Ok session ->
     UploadPack session req = Ok resp -> Encode_pack resp = Ok b ->
     exists r, handleUploadPack s request = Ok r /\ status r = 200%Z /\ body r = b).
Proof.
  unfold handleUploadPack, establishUploadPackSession. split.
  - intros r. destruct (Decode_request request) as [req| | |]; cbn; [|intros [= <-] Hs; by cbn in Hs|done|done].
    destruct (NewUploadPackSession (gs_repo s)) as [session| | |]; cbn; [|intros [= <-] Hs; by cbn in Hs|done|done].
    destruct (UploadPack session req) as [resp| | |] eqn:E2; cbn; [|intros [= <-] Hs; by cbn in Hs|done|done].
    destruct (Encode_pack resp) as [b| | |] eqn:E; cbn; [|done..]. intros [= <-] _. exists req, session, resp. cbn [body]. by rewrite E.
  - intros req session resp b -> -> Hu He. cbn. rewrite Hu. cbn. rewrite He. cbn. by eexists.
Qed.
End git_server.

(** ** random.go *)

(** [hex.EncodeToString(bytes)] *)
Fixpoint hex_string (bytes : string) : string :=
  match bytes with
  | "" => ""
  | String c bytes' =>
      String (hex_digit (byte_of c / 16)) (String (hex_digit (byte_of c mod 16)) (hex_string bytes'))
  end.

(** [Random(t).String()], of the eight bytes that were read. *)
Definition Random_String (bytes : res string) : res string := b ← bytes; Ok (hex_string b).

(** Different bytes give different names, which are the elements of paths. *)
Lemma hex_string_inj a b : hex_string a = hex_string b -> a = b.
Proof.
  assert (forall c c', hex_digit (byte_of c / 16) = hex_digit (byte_of c' / 16) ->
    hex_digit (byte_of c mod 16) = hex_digit (byte_of c' mod 16) -> c = c') as Hbyte.
  { set (halves c := (hex_digit (byte_of c / 16), hex_digit (byte_of c mod 16))).
    set (back p := Ascii.ascii_of_N (let v (x : Ascii.ascii) := (if byte_of x <? 58 then byte_of x - 48 else byte_of x - 87)%N in
      (16 * v p.1 + v p.2)%N)).
    assert (forall c, back (halves c) = c) as Hback by (intros [[] [] [] [] [] [] [] []]; reflexivity).
    intros c c' H1 H2. rewrite <- (Hback c), <- (Hback c'). unfold halves. by rewrite H1, H2. }
  revert b. induction a as [|c a IH]; intros [|c' b]; [done|done|done|]. cbn. intros [= H1 H2 H3].
  f_equal; [by apply Hbyte|by apply IH].
Qed.

Lemma hex_string_length a : String.length (hex_string a) = (2 * String.length a)%nat.
Proof. induction a as [|c a IH]; [done|]. cbn. rewrite IH. lia. Qed.

(** ** schema/v1/test_common.go *)

Section check.
  (** The type that is checked, the bytes of its format, and what validation reads. *)
  Context {T Data Untyped : Type} `{EqDecision T} (marshal : T -> res Data) (unmarshal : Data -> res T)
    (unmarshal_any : Data -> res Untyped) (Validate : Untyped -> option error).

(** [require.Equal(t, want, got)] *)
Definition require_Equal (want got : T) : res unit := if decide (want = got) then Ok tt else Err (NewError "Not equal").

(** [check(t, marshal, unmarshal, data, want, schema)] *)
Definition check (data : Data) (want : T) : res unit :=
  v ← unmarshal data;
  _ ← require_Equal want v;
  roundTripData ← marshal v;
  roundTripV ← unmarshal roundTripData;
  _ ← require_Equal want roundTripV;
  stepsData ← marshal want;
  untyped ← unmarshal_any stepsData;
  match Validate untyped with Some err => Err err | None => Ok tt end.

Lemma require_Equal_Ok want got : require_Equal want got = Ok tt <-> want = got.
Proof. unfold require_Equal. by case_decide. Qed.

(** What the check of the tests of the schema asks: the data is read as the value, the
    value survives a round trip, and what it is written as is valid. *)
Lemma check_Ok data want :
  check data want = Ok tt <->
  unmarshal data = Ok want /\ exists written, marshal want = Ok written /\ unmarshal written = Ok want /\
    exists untyped, unmarshal_any written = Ok untyped /\ Validate untyped = None.
Proof.
  unfold check. split.
  - intros (v & Hv & ([] & ->%require_Equal_Ok & (d & Hd & (v2 & Hv2 & ([] & <-%require_Equal_Ok &
      (d' & Hd' & (u & Hu & HV)%bind_Ok)%bind_Ok)%bind_Ok)%bind_Ok)%bind_Ok)%bind_Ok)%bind_Ok.
    rewrite Hd in Hd'. injection Hd' as <-. split; [done|]. exists d. split; [done|]. split; [done|].
    exists u. split; [done|]. by destruct (Validate u).
  - intros (Hv & d & Hd & Hv2 & u & Hu & HV). rewrite Hv. cbn. rewrite (proj2 (require_Equal_Ok want want) eq_refl). cbn.
    rewrite Hd. cbn. rewrite Hv2. cbn. rewrite (proj2 (require_Equal_Ok want want) eq_refl). cbn.
    rewrite Hu. cbn. by rewrite HV.
Qed.
End check.
