(* ===== verification/Variables.v ===== *)
(** Job variables (src/pkg/api/internal/variables/variables.go): the values of
    plain variables, and files for the others. *)

From stdpp Require Import gmap strings list fin_maps.
From S2P Require Import Prelude GoStrings GoPaths Environment Proto StepFile Schema SpecDefinition World RunnerFacts.
Open Scope go_scope.
Open Scope string_scope.
Open Scope list_scope.

(** ** Operations *)

(** [type Variable struct] *)
Record Variable_ := {
  v : proto.Variable_;
  tmpPath : string
}.

Definition File (x : Variable_) : bool := proto.Variable_File (v x).
Definition Masked (x : Variable_) : bool := proto.Variable_Masked (v x).
Definition Key (x : Variable_) : string := proto.Variable_Key (v x).

(** [v.Value()]: the path of the file of a file variable. *)
Definition Value (x : Variable_) : string :=
  if proto.Variable_File (v x) then PathJoin [tmpPath x; proto.Variable_Key (v x)]
  else proto.Variable_Value (v x).

(** [New(vars, tmpPath)] *)
Definition New (vars : list proto.Variable_) (tmpPath : string) : list Variable_ :=
  (fun x => {| v := x; tmpPath := tmpPath |}) <$> vars.

(** [for _, v := range vs { outEnv[v.Key()] = v.Value() }] *)
Definition collect (vs : list Variable_) (outEnv : gmap string string) : gmap string string :=
  foldl (fun env x => <[Key x := Value x]> env) outEnv vs.

Section write.
  Context `{Sy : System}.

(** [v.Write()] *)
Definition Variable_Write (x : Variable_) : M unit :=
  if negb (proto.Variable_File (v x)) then
    lift (Err (NewError ("variable " +:+ quote (Key x) +:+ " is not a file variable")))
  else os_WriteFile (Value x) (proto.Variable_Value (v x)).

(** [vs.Write()] *)
Fixpoint Write (vs : list Variable_) : M unit :=
  match vs with
  | [] => mret tt
  | x :: vs' =>
      if negb (File x) then Write vs'
      else
        _ ← wrap ("writing file variable " +:+ quote (Key x) +:+ ": ") (Variable_Write x);
        Write vs'
  end.

(** [Prepare(pjob, tmpPath)] *)
Definition Prepare (pjob : option proto.Job) (tmpPath : string) : M (gmap string string) :=
  match pjob with
  | None => mret ∅
  | Some pjob =>
      let jobVars := New (proto.Job_Variables pjob) tmpPath in
      let outEnv := collect jobVars ∅ in
      _ ← wrap "preparing variables: " (Write jobVars);
      mret outEnv
  end.
End write.

(** ** Lemmas *)

(** The last of the variables that satisfy a condition. *)
Fixpoint last_such (p : Variable_ -> bool) (vs : list Variable_) : option Variable_ :=
  match vs with
  | [] => None
  | x :: vs' => match last_such p vs' with
                | Some y => Some y
                | None => if p x then Some x else None
                end
  end.

Lemma last_such_Some p vs x : last_such p vs = Some x -> x ∈ vs /\ p x = true.
Proof.
  revert x. induction vs as [|y vs IH]; cbn; intros x; [done|].
  destruct (last_such p vs) as [z|].
  - intros [= <-]. destruct (IH z eq_refl). split; [by right|done].
  - destruct (p y) eqn:E; [|done]. intros [= <-]. split; [left|done].
Qed.

Lemma last_such_None p vs : last_such p vs = None -> forall x, x ∈ vs -> p x <> true.
Proof.
  induction vs as [|y vs IH]; cbn; intros H x Hx; [by apply not_elem_of_nil in Hx|].
  destruct (last_such p vs); [done|]. apply elem_of_cons in Hx as [->|Hx]; [|by apply IH].
  by destruct (p y).
Qed.

Definition has_key (k : string) (x : Variable_) : bool := String.eqb (Key x) k.
Definition is_file_at (path : string) (x : Variable_) : bool := File x && String.eqb (Value x) path.

Lemma collect_lookup vs env k :
  collect vs env !! k =
  match last_such (has_key k) vs with Some x => Some (Value x) | None => env !! k end.
Proof.
  unfold collect. revert env. induction vs as [|x vs IH]; intros env; cbn; [done|].
  rewrite IH. destruct (last_such _ vs); [done|]. unfold has_key.
  destruct (String.eqb_spec (Key x) k) as [<-|Hne].
  - apply lookup_insert_eq.
  - by apply lookup_insert_ne.
Qed.

Lemma Write_files `{Sy : System} vs w w' :
  Write vs w = (Ok tt, w') ->
  (forall path, files w' !! path =
    match last_such (is_file_at path) vs with
    | Some x => Some (proto.Variable_Value (v x))
    | None => files w !! path
    end) /\ heap w' = heap w /\ filesDir w' = filesDir w /\ os w' = os w.
Proof.
  revert w. induction vs as [|x vs IH]; intros w; cbn [Write].
  - intros [_ ->]%ret_Ok. done.
  - destruct (File x) eqn:Hf; cbn [negb].
    + intros ([] & w1 & H1 & H2)%M_bind_Ok. apply wrap_Ok in H1.
      unfold Variable_Write in H1. unfold File in Hf. rewrite Hf in H1. cbn [negb] in H1.
      apply os_WriteFile_Ok in H1 as ->.
      apply IH in H2 as (Hp & -> & -> & ->). split; [|done].
      intros path. rewrite Hp. cbn. unfold is_file_at at 3. unfold File. rewrite Hf. cbn.
      destruct (last_such _ vs); [done|].
      destruct (String.eqb_spec (Value x) path) as [<-|Hne].
      * apply lookup_insert_eq.
      * by apply lookup_insert_ne.
    + intros H. apply IH in H as (Hp & Hh). split; [|done]. intros path. rewrite Hp. cbn.
      unfold is_file_at at 3. rewrite Hf. cbn. by destruct (last_such _ vs).
Qed.

(** ** Properties *)

(** C38: preparing the variables of a job.  The environment gives each name the
    value of the last variable of that name, and for a file variable the path of
    a file, in the temporary directory of the job, that then holds the value of
    the last file variable of that path; no other file changes. *)
Theorem Prepare_spec `{Sy : System} pjob tmp w env w' :
  Prepare pjob tmp w = (Ok env, w') ->
  let vars := New (default [] (proto.Job_Variables <$> pjob)) tmp in
  (forall k, env !! k = Value <$> last_such (has_key k) vars) /\
  (forall path, files w' !! path =
     match last_such (is_file_at path) vars with
     | Some x => Some (proto.Variable_Value (v x))
     | None => files w !! path
     end) /\
  (forall k x, last_such (has_key k) vars = Some x -> File x = true ->
     exists y, last_such (is_file_at (PathJoin [tmp; k])) vars = Some y /\
       env !! k = Some (PathJoin [tmp; k]) /\
       files w' !! PathJoin [tmp; k] = Some (proto.Variable_Value (v y))) /\
  heap w' = heap w.
Proof.
  unfold Prepare. destruct pjob as [pjob|]; cbn [fmap option_fmap option_map default id].
  - intros ([] & w1 & H1 & [<- ->]%ret_Ok)%M_bind_Ok. apply wrap_Ok in H1.
    apply Write_files in H1 as (Hp & Hh & _ & _). cbn zeta.
    set (vars := New (proto.Job_Variables pjob) tmp) in *.
    assert (forall k, collect vars ∅ !! k = Value <$> last_such (has_key k) vars) as Henv.
    { intros k. rewrite collect_lookup. by destruct (last_such _ vars). }
    split; [done|]. split; [done|]. split; [|done]. intros k x Hx Hfx.
    destruct (last_such_Some _ _ _ Hx) as [Hin Hk]. apply String.eqb_eq in Hk.
    assert (Value x = PathJoin [tmp; k]) as Hv.
    { unfold File in Hfx. unfold Value. rewrite Hfx. unfold Key in Hk. rewrite Hk.
      apply list_elem_of_fmap in Hin as (y & -> & _). done. }
    destruct (last_such (is_file_at (PathJoin [tmp; k])) vars) as [y|] eqn:Ey.
    + exists y. rewrite Hp, Ey, Henv, Hx. cbn. by rewrite Hv.
    + exfalso. apply (last_such_None _ _ Ey x Hin). unfold is_file_at. rewrite Hfx, Hv. cbn.
      apply String.eqb_refl.
  - intros [<- ->]%ret_Ok. cbn. done.
Qed.
