(* ===== verification/Streamer.v ===== *)
(** The log of a job (src/pkg/api/internal/streamer/file/file.go): a file the
    steps write to and that followers read, line by line, until the writer
    stops. *)

From stdpp Require Import gmap strings list.
From S2P Require Import Prelude GoStrings Environment StepFile.
Open Scope go_scope.
Open Scope string_scope.
Open Scope list_scope.

(** ** Writing *)

(** [type Streamer struct]: the file, the position of its handle, which [New]
    opens at 0 without truncating the file, and whether it is closed. *)
Record Streamer := {
  filename : string;
  position : nat;
  closed : bool;
  stop : bool
}.

(** Bytes written at a position, over what is there. *)
Definition write_at (content : string) (pos : nat) (p : string) : string :=
  slice content 0 pos +:+ p +:+ slice_from content (pos + String.length p).

(** [s.Write(p)]: the number of bytes written and the error. *)
Definition Write (s : Streamer) (p : string) (fs : file_system) :
    (nat * option error) * Streamer * file_system :=
  if closed s then
    ((0%nat, Some (NewError ("write " +:+ filename s +:+ ": file already closed"))), s, fs)
  else
    let content := default "" (fs !! filename s) in
    ((String.length p, None),
     {| filename := filename s; position := position s + String.length p; closed := false;
        stop := stop s |},
     <[filename s := write_at content (position s) p]> fs).

(** [s.Stop()] *)
Definition Stop (s : Streamer) : Streamer :=
  {| filename := filename s; position := position s; closed := closed s; stop := true |}.

(** [s.Close()]: closing a closed file is an error. *)
Definition Close (s : Streamer) : option error * Streamer :=
  let s := Stop s in
  if closed s then (Some (NewError ("close " +:+ filename s +:+ ": file already closed")), s)
  else (None, {| filename := filename s; position := position s; closed := true; stop := stop s |}).

(** ** Following *)

(** What the reader of a follower reads, all its chunks together, and the error
    that ended it: none when it reached the end of the file after the streamer
    was stopped. *)
Record Reads := {
  bytes : string;
  ended : option error
}.

(** The reads of a follower that is at [offset] when the streamer stops. *)
Definition stopped_reads (content : string) (offset : nat) : Reads :=
  {| bytes := slice_from content offset; ended := None |}.

Definition ErrTooLong : error := NewError "bufio.Scanner: token too long".

Section follow.
  (** The writer, with its state, and what [ctx.Err()] is after each [Scan]. *)
  Context {W : Type} (write : W -> string -> option error * W) (ctx_Err : nat -> option error).

(** The loop over the lines of the scanner, the [i]th one first. *)
Fixpoint follow_lines (i : nat) (lines : list string) (w : W) : option error * W :=
  match lines with
  | [] => (None, w)
  | data :: lines' =>
      match ctx_Err i with
      | Some err => (Some err, w)
      | None =>
          if String.eqb data "" then follow_lines (S i) lines' w
          else
            match write w data with
            | (Some err, w) => (Some (WrapError "streaming logs: " err ""), w)
            | (None, w) =>
                match write w newline with
                | (Some err, w) => (Some (WrapError "streaming logs: " err ""), w)
                | (None, w) => follow_lines (S i) lines' w
                end
            end
      end
  end.

(** [s.Follow(ctx, offset, writer)]: opening the log may fail, and seeking to a
    negative offset does.  The rest of a line that an error cuts short is still
    a line; [scanner.Err()] is the error of the reader, or that of the scanner. *)
Definition Follow (s : Streamer) (open_error : option error) (offset : Z) (reads : Reads) (w : W) :
    option error * W :=
  match open_error with
  | Some err => (Some (WrapError ("opening log file " +:+ quote (filename s) +:+ ": ") err ""), w)
  | None =>
      if (offset <? 0)%Z then
        (Some (WrapError ("seeking log file " +:+ quote (filename s) +:+ ": ")
           (NewError ("seek " +:+ filename s +:+ ": invalid argument")) ""), w)
      else
        let '(lines, too_long) := scan_lines (bytes reads) in
        match follow_lines 0 lines w with
        | (Some err, w) => (Some err, w)
        | (None, w) => (if too_long then Some ErrTooLong else ended reads, w)
        end
  end.
End follow.

(** ** Lemmas *)

(** The lines that a follower is sent. *)
Definition not_blank (l : string) : bool := negb (String.eqb l "").

(** A writer that appends and never fails, and a context that is never done. *)
Definition append (w p : string) : option error * string := (None, w +:+ p).
Definition background (i : nat) : option error := None.

(** A line the scanner gives back as it is. *)
Definition plain_line (l : string) : Prop := l <> "" /\ text_line l.

Lemma follow_lines_append i lines w :
  follow_lines append background i lines w = (None, w +:+ log_text (filter not_blank lines)).
Proof.
  revert i w. induction lines as [|l lines IH]; intros i w; cbn [follow_lines background].
  - by rewrite string_app_nil_r.
  - destruct (String.eqb l "") eqn:E.
    + rewrite filter_cons_False by (unfold not_blank; rewrite E; cbn; tauto). apply IH.
    + rewrite filter_cons_True by (unfold not_blank; rewrite E; cbn; tauto). cbn. rewrite IH.
      by rewrite !string_app_assoc.
Qed.

Lemma scan_log lines : Forall plain_line lines -> scan_lines (log_text lines) = (lines, false).
Proof. intros H. apply scan_text. eapply Forall_impl; [exact H|]. by intros l [_ Hl]. Qed.

Lemma slice_from_app a b : slice_from (a +:+ b) (String.length a) = b.
Proof.
  unfold slice_from, slice. rewrite substring_app_r, substring_full; [done|].
  rewrite string_length_app. lia.
Qed.

Lemma write_at_end content p : write_at content (String.length content) p = content +:+ p.
Proof.
  unfold write_at, slice_from, slice. rewrite Nat.sub_0_r, substring_full by lia.
  replace (String.length content - _)%nat with 0%nat by lia.
  assert (forall s n, String.substring n 0 s = "") as H0.
  { induction s as [|c s IH]; intros [|n]; cbn; auto. }
  by rewrite H0, string_app_nil_r.
Qed.

(** Writes to a new log. *)
Fixpoint write_all (s : Streamer) (ps : list string) (fs : file_system) : Streamer * file_system :=
  match ps with
  | [] => (s, fs)
  | p :: ps' => let '(_, s, fs) := Write s p fs in write_all s ps' fs
  end.

Lemma write_all_content s ps fs content :
  closed s = false -> fs !! filename s = Some content -> position s = String.length content ->
  (write_all s ps fs).2 !! filename s = Some (content +:+ String.concat "" ps) /\
  (write_all s ps fs).1 = {| filename := filename s;
    position := String.length (content +:+ String.concat "" ps); closed := false; stop := stop s |}.
Proof.
  revert s fs content. induction ps as [|p ps IH]; intros s fs content Hc Hf Hp.
  - cbn. rewrite string_app_nil_r, Hf, <- Hp. split; [done|]. destruct s; cbn in *; by subst.
  - cbn [write_all]. unfold Write. rewrite Hc, Hf. cbn [default].
    rewrite Hp, write_at_end. rewrite string_concat_cons, <- string_app_assoc.
    destruct (IH {| filename := filename s; position := String.length content + String.length p;
                    closed := false; stop := stop s |}
                 (<[filename s := content +:+ p]> fs) (content +:+ p)) as [H1 H2]; try done.
    + apply lookup_insert_eq.
    + cbn. by rewrite string_length_app.
Qed.

(** Plain lines are not blank. *)
Lemma filter_plain lines : Forall plain_line lines -> filter not_blank lines = lines.
Proof.
  induction 1 as [|l ls (Hne & _) _ IH]; [done|]. rewrite filter_cons_True, IH; [done|].
  unfold not_blank. apply String.eqb_neq in Hne. rewrite Hne. cbn. tauto.
Qed.

(** ** Properties *)

(** Following a stopped log.  A follower that is never interrupted is sent
    the lines of the log from its offset on that are not blank, each with a
    newline, and returns without an error unless a line fills the buffer of
    the scanner; when a log is made of plain lines, however it was written,
    following it again from the end of a line gives exactly the lines that were
    not sent yet, and from beyond its end nothing. *)
Theorem Follow_spec s fs ps :
  closed s = false -> position s = O -> fs !! filename s = Some "" ->
  let '(s', fs') := write_all s ps fs in
  exists content, fs' !! filename s' = Some content /\ content = String.concat "" ps /\
    (forall offset w, (0 <= offset)%Z ->
      Follow append background s' None offset (stopped_reads content (Z.to_nat offset)) w =
      let '(lines, too_long) := scan_lines (slice_from content (Z.to_nat offset)) in
      (if too_long then Some ErrTooLong else None, w +:+ log_text (filter not_blank lines))) /\
    (forall sent rest w, Forall plain_line (sent ++ rest) -> content = log_text (sent ++ rest) ->
      let offset := String.length (log_text sent) in
      Follow append background s' None (Z.of_nat offset) (stopped_reads content offset) w =
      (None, w +:+ log_text rest)).
Proof.
  intros Hc Hp Hf. destruct (write_all s ps fs) as [s' fs'] eqn:E.
  destruct (write_all_content s ps fs "" Hc Hf Hp) as [H1 H2]. rewrite E in H1, H2. cbn in H1, H2.
  exists (String.concat "" ps). rewrite H2. cbn [filename]. repeat apply conj; [done|done|..].
  - intros offset w Ho. unfold Follow. cbn [filename bytes stopped_reads ended].
    apply Z.ltb_ge in Ho. rewrite Ho. destruct (scan_lines _) as [lines too_long].
    by rewrite follow_lines_append.
  - intros sent rest w Hpl ->. cbn zeta. unfold Follow. cbn [bytes stopped_reads ended].
    replace (_ <? 0)%Z with false by (symmetry; apply Z.ltb_ge; lia).
    rewrite log_text_app, slice_from_app. apply Forall_app in Hpl as [_ Hpl].
    rewrite scan_log by done. rewrite follow_lines_append.
    by rewrite filter_plain.
Qed.

(** The number of bytes a follower was sent is not its offset in the log when
    there are blank lines: following again from it, here after [a], two blank
    lines and [b], sends [b] again. *)
Example blank_lines_shift_offsets :
  let content := "a" +:+ newline +:+ newline +:+ newline +:+ "b" +:+ newline in
  let s := {| filename := "/logs"; position := 6; closed := true; stop := true |} in
  let sent := (Follow append background s None 0 (stopped_reads content 0) "").2 in
  sent = "a" +:+ newline +:+ "b" +:+ newline /\
  let offset := String.length sent in
  Follow append background s None (Z.of_nat offset) (stopped_reads content offset) sent =
  (None, sent +:+ "b" +:+ newline).
Proof. vm_compute. done. Qed.
