(* ===== verification/Jobs.v ===== *)
(** Jobs of the step-runner service (src/pkg/api/internal/jobs/jobs.go): a job
    is run once by a goroutine and closed once by a caller, which share its
    fields under a mutex and a channel.  The two are programs over the state of
    the job, [fire] is one step of either, and an execution is any
    interleaving. *)

From stdpp Require Import gmap strings list fin_maps.
From S2P Require Import Prelude GoStrings GoPaths Environment Proto StepFile Schema SpecDefinition World.
From S2P Require Import Resources Runner RunnerFacts RunnerSpec.
Open Scope go_scope.
Open Scope string_scope.
Open Scope list_scope.

(** ** Data *)

(** [type Job struct]: the zero time is [None], [Ctx] is the error of the
    context, [finishC] counts the tokens in the buffer of the channel, whose
    capacity is 1, and [logs] is the file of the log and whether the streamer
    was closed. *)
Record Job := {
  TmpDir : string;
  WorkDir : string;
  Ctx : option sentinel;
  ID : string;
  err : option error;
  startTime : option Z;
  finishTime : option Z;
  finishC : nat;
  logs : option (string * bool);
  status : proto.Status;
  runExitWaitTime : Z
}.

Definition finishC_capacity : nat := 1.

Definition set_Ctx (c : option sentinel) (j : Job) : Job := {|
  TmpDir := TmpDir j; WorkDir := WorkDir j; Ctx := c; ID := ID j; err := err j;
  startTime := startTime j; finishTime := finishTime j; finishC := finishC j; logs := logs j;
  status := status j; runExitWaitTime := runExitWaitTime j |}.

Definition set_outcome (e : option error) (st : proto.Status) (j : Job) : Job := {|
  TmpDir := TmpDir j; WorkDir := WorkDir j; Ctx := Ctx j; ID := ID j; err := e;
  startTime := startTime j; finishTime := finishTime j; finishC := finishC j; logs := logs j;
  status := st; runExitWaitTime := runExitWaitTime j |}.

Definition set_times (start finish : option Z) (j : Job) : Job := {|
  TmpDir := TmpDir j; WorkDir := WorkDir j; Ctx := Ctx j; ID := ID j; err := err j;
  startTime := start; finishTime := finish; finishC := finishC j; logs := logs j;
  status := status j; runExitWaitTime := runExitWaitTime j |}.

Definition set_finishC (n : nat) (j : Job) : Job := {|
  TmpDir := TmpDir j; WorkDir := WorkDir j; Ctx := Ctx j; ID := ID j; err := err j;
  startTime := startTime j; finishTime := finishTime j; finishC := n; logs := logs j;
  status := status j; runExitWaitTime := runExitWaitTime j |}.

Definition set_logs (l : option (string * bool)) (tmpDir : string) (j : Job) : Job := {|
  TmpDir := tmpDir; WorkDir := WorkDir j; Ctx := Ctx j; ID := ID j; err := err j;
  startTime := startTime j; finishTime := finishTime j; finishC := finishC j; logs := l;
  status := status j; runExitWaitTime := runExitWaitTime j |}.

(** [WithRunExitWaitTime(waitTime)] and [WithLogs(logs)] *)
Definition WithRunExitWaitTime (waitTime : Z) (j : Job) : Job := {|
  TmpDir := TmpDir j; WorkDir := WorkDir j; Ctx := Ctx j; ID := ID j; err := err j;
  startTime := startTime j; finishTime := finishTime j; finishC := finishC j; logs := logs j;
  status := status j; runExitWaitTime := waitTime |}.

Definition WithLogs (filename : string) (j : Job) : Job :=
  set_logs (Some (filename, false)) (TmpDir j) j.

(** [j.Status()] *)
Definition Status (j : Job) : proto.JobStatus := {|
  proto.Status_Id := ID j;
  proto.Status_Message := match err j with Some e => Error e | None => "" end;
  proto.Status_Status := status j;
  proto.Status_StartTime := startTime j;
  proto.Status_EndTime := finishTime j |}.

(** ** Creating a job *)

(** What creating and closing a job asks of the operating system. *)
Class JobSystem `{System} := {
  Getwd : os_state -> res string;
  TempDir : string;
  MkdirAll : string -> os_state -> option error * os_state;
  RemoveAll : string -> os_state -> file_system -> file_system * os_state;
  OpenFile_error : os_state -> file_system -> string -> option error;
  Getwd_decided o : decided (Getwd o) = true
}.

Section new.
  Context `{JS : JobSystem}.

Definition mkdirAll (dir : string) : M unit := fun w =>
  let '(e, o) := MkdirAll dir (os w) in
  match e with
  | Some e => (Err e, set_os o w)
  | None => (Ok tt, set_os o w)
  end.

Definition removeAll (dir : string) : M unit := fun w =>
  let '(f, o) := RemoveAll dir (os w) (files w) in (Ok tt, set_os o (set_files f w)).

(** [file.New(filename)] (streamer/file/file.go): the file is created if it is
    not there, and not truncated if it is. *)
Definition NewStreamer (filename : string) : M string := fun w =>
  match OpenFile_error (os w) (files w) filename with
  | Some e => (Err (WrapError ("creating file " +:+ quote filename +:+ ": ") e ""), w)
  | None => (Ok filename, set_files (files w ∪ {[filename := ""]}) w)
  end.

(** [New(jobID, workDir, options...)] *)
Definition New (jobID workDir : string) (options : list (Job -> Job)) : M Job :=
  workDir ← (if String.eqb workDir "" then
               wrap "could not determine working directory: " (fun w => (Getwd (os w), w))
             else mret workDir);
  _ ← wrap ("creating workdir " +:+ quote workDir +:+ ": ") (mkdirAll workDir);
  let job := {| TmpDir := ""; WorkDir := workDir; Ctx := None; ID := jobID; err := None;
                startTime := None; finishTime := None; finishC := 0; logs := None;
                status := proto.unspecified; runExitWaitTime := 2000000000 |} in
  let job := foldl (fun j option => option j) job options in
  match logs job with
  | Some _ => mret job
  | None =>
      let tmpDir := PathJoin [TempDir; "step-runner-output-" +:+ jobID] in
      _ ← wrap ("creating tmpdir " +:+ quote tmpDir +:+ ": ") (mkdirAll tmpDir);
      created ← catch (NewStreamer (PathJoin [tmpDir; "logs"]));
      match created with
      | inr e => _ ← removeAll tmpDir; lift (Err (WrapError "creating log file: " e ""))
      | inl filename => mret (set_logs (Some (filename, false)) tmpDir job)
      end
  end.
End new.

(** ** Completion *)

(** [fmt.Errorf("pre%w", err)] of an error that may be nil. *)
Definition wrap_nillable (pre : string) (e : option error) : error :=
  match e with
  | Some e => WrapError pre e ""
  | None => NewError (pre +:+ "%!w(<nil>)")
  end.

Definition nil_dereference : string := "invalid memory address or nil pointer dereference".

(** [errors.Is(err, context.Canceled) || errors.Is(err, context.DeadlineExceeded)] *)
Definition is_context_error (e : option error) : bool :=
  match e with
  | Some e => error_is e Canceled || error_is e DeadlineExceeded
  | None => false
  end.

(** [j.onRunCompletion(stepResult, err)] at the time [now]: the fields after
    the call, which panics on a nil result, and on the text of a nil error. *)
Definition onRunCompletion (now : Z) (stepResult : option proto.StepResult) (e : option error)
    (j : Job) : Job * option string :=
  let j := set_times (startTime j) (Some now) j in
  match stepResult with
  | None => (j, Some nil_dereference)
  | Some r =>
      match proto.SR_Status r with
      | proto.unspecified =>
          (set_outcome (Some (wrap_nillable ("job " +:+ quote (ID j) +:+ " did not start running: ") e))
             proto.failure j, None)
      | proto.running =>
          (set_outcome (Some (wrap_nillable ("job " +:+ quote (ID j) +:+ " did not finish running: ") e))
             proto.failure j, None)
      | proto.failure =>
          let cancelled :=
            if is_context_error e then Some true
            else match Ctx j, e with
                 | None, _ => Some false
                 | Some _, Some e => Some (HasSuffix (Error e) "signal: killed")
                 | Some _, None => None
                 end in
          match cancelled with
          | Some true =>
              (set_outcome (Some (wrap_nillable ("job " +:+ quote (ID j) +:+ " cancelled: ") e))
                 proto.cancelled j, None)
          | Some false => (set_outcome e proto.failure j, None)
          | None => (j, Some nil_dereference)
          end
      | st => (set_outcome e st j, None)
      end
  end.

(** ** Running and closing *)

(** Where the goroutine of [Run] is: before [runOnce], inside it, in
    [step.Run], with what it returned, after [onRunCompletion], and in the
    deferred calls, with the panic that unwinds to them.  Nothing recovers a
    panic: past the deferred calls it kills the process. *)
Inductive run_pc :=
  | RunIdle
  | RunEntered
  | RunStepping
  | RunReturned (r : option proto.StepResult) (e : option error)
  | RunCompleted (e : option error)
  | RunDeferred (panic : option string)
  | RunCleanedUp (panic : option string)
  | RunLogsClosed (panic : option string)
  | RunDone (panic : option string)
  | RunCrashed (panic : string).

(** Where the caller of [Close] is: before [closeOnce], inside it, in the
    [select], before [os.RemoveAll] with or without the mutex, and out. *)
Inductive close_pc :=
  | CloseIdle
  | CloseEntered
  | CloseSelect
  | CloseRemoving (holds_mux : bool)
  | CloseDone.

(** A job with its two users. *)
Record JobState := {
  job : Job;
  runner : run_pc;
  closer : close_pc
}.

Definition started (j : Job) : JobState := {| job := j; runner := RunIdle; closer := CloseIdle |}.

(** The steps: of [Run], in the order of its body, then of [Close]. *)
Inductive event :=
  | RunEnters
  | RunStarts (now : Z)
  | StepReturns (r : option proto.StepResult) (e : option error)
  | StepPanics (p : string)
  | RunCompletes (now : Z)
  | RunLogsError
  | RunCleansUp
  | RunClosesLogs
  | RunSignals
  | ProcessDies
  | CloseEnters
  | CloseCancels
  | CloseReceives
  | CloseTimesOut
  | CloseRemoves.

(** [j.mux] is held by the caller of [Close] that timed out, until it returns. *)
Definition mux_held (s : JobState) : bool :=
  match closer s with CloseRemoving true => true | _ => false end.

(** The goroutine of the job has killed the process. *)
Definition dead (s : JobState) : bool := match runner s with RunCrashed _ => true | _ => false end.

Definition at_run (s : JobState) (j : Job) (pc : run_pc) : option JobState :=
  Some {| job := j; runner := pc; closer := closer s |}.
Definition at_close (s : JobState) (j : Job) (pc : close_pc) : option JobState :=
  Some {| job := j; runner := runner s; closer := pc |}.

(** One step of [Run] (the first ten) or of [Close]; [None] when the step is
    not the next one or is blocked, or when the process is dead. *)
Definition fire (s : JobState) (ev : event) : option JobState :=
  let j := job s in
  if dead s then None else
  match ev, runner s, closer s with
  | RunEnters, RunIdle, _ => at_run s j RunEntered
  | RunStarts now, RunEntered, _ =>
      if mux_held s then None
      else at_run s (set_outcome (err j) proto.running (set_times (Some now) (finishTime j) j)) RunStepping
  | StepReturns r e, RunStepping, _ => at_run s j (RunReturned r e)
  | StepPanics p, RunStepping, _ => at_run s j (RunDeferred (Some p))
  | RunCompletes now, RunReturned r e, _ =>
      if mux_held s then None
      else match onRunCompletion now r e j with
           | (j, None) => at_run s j (RunCompleted e)
           | (j, Some p) => at_run s j (RunDeferred (Some p))
           end
  | RunLogsError, RunCompleted e, _ =>
      match err j, e with
      | Some _, None => at_run s j (RunDeferred (Some nil_dereference))
      | _, _ => at_run s j (RunDeferred None)
      end
  | RunCleansUp, RunDeferred p, _ => at_run s j (RunCleanedUp p)
  | RunClosesLogs, RunCleanedUp p, _ =>
      at_run s (set_logs ((fun l => (l.1, true)) <$> logs j) (TmpDir j) j) (RunLogsClosed p)
  | RunSignals, RunLogsClosed p, _ =>
      if (finishC j <? finishC_capacity)%nat then at_run s (set_finishC (S (finishC j)) j) (RunDone p)
      else None
  | ProcessDies, RunDone (Some p), _ => at_run s j (RunCrashed p)
  | CloseEnters, _, CloseIdle => at_close s j CloseEntered
  | CloseCancels, _, CloseEntered =>
      at_close s (set_Ctx (Some (default Canceled (Ctx j))) j) CloseSelect
  | CloseReceives, _, CloseSelect =>
      match finishC j with
      | O => None
      | S n => at_close s (set_finishC n j) (CloseRemoving false)
      end
  | CloseTimesOut, _, CloseSelect =>
      let st := if bool_decide (status j = proto.unspecified) then proto.cancelled else status j in
      let e := match err j with None => SentinelError Canceled | Some e => e end in
      at_close s (set_outcome (Some e) st j) (CloseRemoving true)
  | CloseRemoves, _, CloseRemoving _ => at_close s j CloseDone
  | _, _, _ => None
  end.

Definition job_step (s : JobState) (ev : event) (s' : JobState) : Prop := fire s ev = Some s'.

(** The states an execution of a new job goes through. *)
Definition job_run (j : Job) (evs : list event) (s : JobState) : Prop :=
  steps job_step (started j) evs s.

(** ** Invariants *)

(** A job no one has run or closed. *)
Definition fresh (j : Job) : Prop :=
  finishC j = O /\ status j = proto.unspecified /\ err j = None /\ Ctx j = None /\
  startTime j = None /\ finishTime j = None.

(** How far [Run] and [Close] are. *)
Definition run_rank (pc : run_pc) : nat :=
  match pc with
  | RunIdle => 0 | RunEntered => 1 | RunStepping => 2 | RunReturned _ _ => 3 | RunCompleted _ => 4
  | RunDeferred _ => 5 | RunCleanedUp _ => 6 | RunLogsClosed _ => 7 | RunDone _ => 8
  | RunCrashed _ => 9
  end.

Definition close_rank (pc : close_pc) : nat :=
  match pc with
  | CloseIdle => 0 | CloseEntered => 1 | CloseSelect => 2 | CloseRemoving _ => 3 | CloseDone => 4
  end.

(** The body of [Run], its deferred calls included, is over. *)
Definition run_over (pc : run_pc) : bool :=
  match pc with RunDone _ | RunCrashed _ => true | _ => false end.

Lemma run_over_rank pc : run_over pc = true <-> (8 <= run_rank pc)%nat.
Proof. destruct pc; cbn; split; (done || lia). Qed.

(** The panic that is unwinding, if any. *)
Definition run_panic (pc : run_pc) : option string :=
  match pc with
  | RunDeferred p | RunCleanedUp p | RunLogsClosed p | RunDone p => p
  | RunCrashed p => Some p
  | _ => None
  end.

(** What [onRunCompletion] makes of a result that is not nil and its error, for
    a job whose context is [ctx]. *)
Definition cancels (ctx : option sentinel) (e : error) : bool :=
  error_is e Canceled || error_is e DeadlineExceeded ||
  (bool_decide (ctx <> None) && HasSuffix (Error e) "signal: killed").

Definition verdict (ctx : option sentinel) (e : option error) : proto.Status :=
  match e with
  | None => proto.success
  | Some e => if cancels ctx e then proto.cancelled else proto.failure
  end.

(** [e'] is [e], or [e] wrapped. *)
Definition wraps (e e' : error) : Prop := e' = e \/ exists pre post, e' = WrapError pre e post.

Lemma onRunCompletion_spec now r e j :
  wf_return (Some r) e ->
  exists e', onRunCompletion now (Some r) e j =
             (set_outcome e' (verdict (Ctx j) e) (set_times (startTime j) (Some now) j), None) /\
    match e, e' with
    | None, None => True
    | Some e, Some e' => wraps e e'
    | _, _ => False
    end.
Proof.
  unfold onRunCompletion, verdict, cancels, is_context_error. destruct e as [e|].
  - intros [_ ->]. cbn [Ctx set_times].
    destruct (error_is e Canceled || error_is e DeadlineExceeded); cbn.
    { eexists. split; [done|]. right. by eexists _, _. }
    destruct (Ctx j) as [c|]; cbn; [|eexists; split; [done|by left]].
    destruct (HasSuffix _ _); eexists; (split; [done|]); [right; by eexists _, _|by left].
  - intros [_ ->]. by eexists.
Qed.

(** Every [fire] moves one of the two users forward. *)
Lemma fire_rank s ev s' :
  fire s ev = Some s' ->
  (run_rank (runner s) + close_rank (closer s) < run_rank (runner s') + close_rank (closer s'))%nat.
Proof.
  destruct s as [j r c], ev; unfold fire; cbn [runner closer job];
    destruct r, c; cbn; try discriminate;
    repeat (case_match; try discriminate); intros [= <-]; cbn; lia.
Qed.

Lemma steps_rank s evs s' :
  steps job_step s evs s' ->
  (run_rank (runner s) + close_rank (closer s) + length evs <=
   run_rank (runner s') + close_rank (closer s'))%nat.
Proof.
  induction 1 as [s|s ev s1 evs s2 H _ IH]; cbn [length]; [lia|].
  apply fire_rank in H. lia.
Qed.

(** The only return of [step.Run] among the events. *)
Definition only_return (evs : list event) (r : option proto.StepResult) (e : option error) : Prop :=
  forall r' e', StepReturns r' e' ∈ evs <-> r' = r /\ e' = e.

(** The channel holds a token from the end of [Run] until [Close] takes it. *)
Definition token_inv (s : JobState) : Prop :=
  match closer s with
  | CloseIdle | CloseEntered | CloseSelect =>
      finishC (job s) = if run_over (runner s) then 1%nat else 0%nat
  | _ => (finishC (job s) <= if run_over (runner s) then 1 else 0)%nat
  end.

(** [Close] passed the [select] after [Run] ended, or timed out. *)
Definition received_inv (evs : list event) (s : JobState) : Prop :=
  match closer s with
  | CloseRemoving true => CloseTimesOut ∈ evs
  | CloseRemoving false => run_over (runner s) = true
  | CloseDone => run_over (runner s) = true \/ CloseTimesOut ∈ evs
  | _ => CloseTimesOut ∉ evs
  end.

(** The context is cancelled by [Close]. *)
Definition ctx_inv (evs : list event) (s : JobState) : Prop :=
  Ctx (job s) = (if (close_rank (closer s) <=? 1)%nat then None else Some Canceled) /\
  ((2 <= close_rank (closer s))%nat -> CloseCancels ∈ evs).

Definition logs_inv (s : JobState) : Prop :=
  (7 <= run_rank (runner s))%nat -> forall l, logs (job s) = Some l -> l.2 = true.

(** The steps panicked. *)
Definition panicked (evs : list event) : Prop := exists p, StepPanics p ∈ evs.

Definition times_inv (evs : list event) (s : JobState) : Prop :=
  (startTime (job s) = None <-> (run_rank (runner s) <= 1)%nat) /\
  (finishTime (job s) = None <-> (run_rank (runner s) <= 3)%nat \/ panicked evs).

(** Until the steps return, only a [Close] that timed out records an outcome. *)
Definition before_inv (evs : list event) (s : JobState) : Prop :=
  (finishTime (job s) = None -> err (job s) = None \/ CloseTimesOut ∈ evs) /\
  match startTime (job s) with
  | None => status (job s) = proto.unspecified \/
            (status (job s) = proto.cancelled /\ CloseTimesOut ∈ evs)
  | Some _ => finishTime (job s) = None -> status (job s) = proto.running
  end.

(** [step.Run] returns or panics, once. *)
Definition returns_inv (evs : list event) (s : JobState) : Prop :=
  match runner s with
  | RunIdle | RunEntered | RunStepping => (forall r e, StepReturns r e ∉ evs) /\ ~ panicked evs
  | RunReturned r e => only_return evs r e /\ ~ panicked evs
  | RunCompleted e => (exists r, only_return evs r e) /\ ~ panicked evs
  | pc => ((exists r e, only_return evs r e) /\ ~ panicked evs) \/
          ((forall r e, StepReturns r e ∉ evs) /\ panicked evs /\ run_panic pc <> None)
  end.

(** What holds along every execution of a fresh job, after the events [evs]. *)
Definition job_inv (evs : list event) (s : JobState) : Prop :=
  token_inv s /\ received_inv evs s /\ ctx_inv evs s /\ logs_inv s /\ times_inv evs s /\
  before_inv evs s /\ returns_inv evs s.

Lemma fresh_inv j : fresh j -> job_inv [] (started j).
Proof.
  intros (Ht & Hs & He & Hc & Hst & Hf).
  assert (~ panicked []) as Hp by (intros [p Hp]; by apply not_elem_of_nil in Hp).
  repeat split; cbn; rewrite ?Hst, ?Hf; auto; try lia; try set_solver; try tauto; intros ?; cbn in *; lia.
Qed.

Lemma elem_snoc {A} (x y : A) l : x ∈ l ++ [y] <-> x ∈ l \/ x = y.
Proof. rewrite elem_of_app, list_elem_of_singleton. done. Qed.

Lemma only_return_snoc evs r e ev :
  only_return evs r e -> (forall r' e', ev <> StepReturns r' e') -> only_return (evs ++ [ev]) r e.
Proof.
  intros H Hne r' e'. rewrite elem_snoc. rewrite <- (H r' e'). split; [|by left].
  intros [Hin|Heq]; [done|]. by destruct (Hne r' e').
Qed.

Lemma no_return_snoc evs ev :
  (forall r e, StepReturns r e ∉ evs) -> (forall r' e', ev <> StepReturns r' e') ->
  forall r e, StepReturns r e ∉ evs ++ [ev].
Proof. intros H Hne r e [Hin|Heq]%elem_snoc; [by apply (H r e)|by destruct (Hne r e)]. Qed.

Lemma first_return evs r e :
  (forall r e, StepReturns r e ∉ evs) -> only_return (evs ++ [StepReturns r e]) r e.
Proof.
  intros H r' e'. rewrite elem_snoc. split.
  - intros [Hin|[= <- <-]]; [by destruct (H r' e')|done].
  - intros [-> ->]. by right.
Qed.

(** Completion changes the outcome of the job and the time it finished. *)
Lemma onRunCompletion_frame now r e j j' p :
  onRunCompletion now r e j = (j', p) ->
  Ctx j' = Ctx j /\ finishC j' = finishC j /\ logs j' = logs j /\ TmpDir j' = TmpDir j /\
  startTime j' = startTime j /\ finishTime j' = Some now /\
  (p = None \/ (p = Some nil_dereference /\ status j' = status j)).
Proof.
  unfold onRunCompletion. intros H.
  repeat (case_match; simplify_eq/=); naive_solver.
Qed.

(** Splits a step by its event, the place of the user that makes it and the
    conditions of the code. *)
Ltac step_cases H :=
  unfold job_step, fire, at_run, at_close in H; cbn [job runner closer] in H;
  repeat match type of H with
         | context [match ?x with _ => _ end] =>
             first [is_var x; destruct x | let E := fresh "E" in destruct x eqn:E];
             try discriminate H
         end;
  injection H as <-; cbn [job runner closer run_rank close_rank] in *.

(** The same for what completion leaves as it was. *)
Ltac completion :=
  try match goal with E : onRunCompletion _ _ _ _ = _ |- _ =>
    apply onRunCompletion_frame in E as (Ec & Ef & El & Etd & Est & Eft & Ep) end.

Lemma token_inv_step s ev s' : token_inv s -> job_step s ev s' -> token_inv s'.
Proof.
  destruct s as [j rn c]. unfold token_inv. intros H Hst. step_cases Hst; completion;
    cbn in *; rewrite ?Ef; try lia; destruct c; try discriminate; try lia.
Qed.

Lemma received_inv_step evs s ev s' :
  token_inv s -> received_inv evs s -> job_step s ev s' -> received_inv (evs ++ [ev]) s'.
Proof.
  destruct s as [j rn c]. unfold token_inv, received_inv. intros Ht H Hst. step_cases Hst;
    try destruct c as [| | |[]|]; cbn in *; rewrite ?elem_snoc; try naive_solver lia.
  - destruct (run_over rn); [done|congruence].
  - destruct holds_mux; auto.
Qed.

Lemma ctx_inv_step evs s ev s' :
  ctx_inv evs s -> job_step s ev s' -> ctx_inv (evs ++ [ev]) s'.
Proof.
  destruct s as [j rn c]. unfold ctx_inv. intros [H1 H2] Hst. step_cases Hst; completion;
    cbn in *; rewrite ?Ec, ?H1, ?elem_snoc; split; try done; intros; try lia; auto with lia.
Qed.

Lemma logs_inv_step s ev s' : logs_inv s -> job_step s ev s' -> logs_inv s'.
Proof.
  destruct s as [j rn c]. unfold logs_inv. intros H Hst. step_cases Hst;
    cbn in *; intros Hr l; try lia; try (apply H; lia).
  intros (l' & _ & ->)%fmap_Some. done.
Qed.

Lemma panicked_snoc evs ev : panicked (evs ++ [ev]) <-> panicked evs \/ exists p, ev = StepPanics p.
Proof.
  unfold panicked. split.
  - intros [p [H|H]%elem_snoc]; [left|right]; by exists p.
  - intros [[p H]|[p ->]]; exists p; apply elem_snoc; auto.
Qed.

Lemma times_inv_step evs s ev s' :
  returns_inv evs s -> times_inv evs s -> job_step s ev s' -> times_inv (evs ++ [ev]) s'.
Proof.
  destruct s as [j rn c]. unfold times_inv, returns_inv. intros Hp [H1 H2] Hst. step_cases Hst; completion;
    cbn in *; rewrite panicked_snoc, ?Est, ?Eft, ?H1, ?H2; split; split; intros; (discriminate || naive_solver lia).
Qed.

Lemma before_inv_step evs s ev s' :
  times_inv evs s -> before_inv evs s -> job_step s ev s' -> before_inv (evs ++ [ev]) s'.
Proof.
  destruct s as [j rn c]. unfold before_inv, times_inv. intros [Ht _] [H1 H2] Hst. step_cases Hst; completion;
    cbn in *; rewrite ?elem_snoc, ?Est, ?Eft; split; try done; try naive_solver;
    destruct (startTime j); rewrite ?elem_snoc; try naive_solver.
  all: try (exfalso; assert (3 <= 1)%nat by (by apply Ht); lia).
  all: match goal with E : bool_decide _ = true |- _ => apply bool_decide_eq_true in E end; intros Hf;
    specialize (H2 Hf); congruence.
Qed.

Lemma no_panic_snoc evs ev :
  ~ panicked evs -> (forall p, ev <> StepPanics p) -> ~ panicked (evs ++ [ev]).
Proof. rewrite panicked_snoc. intros H Hne [?|[p ->]]; [done|by apply (Hne p)]. Qed.

Lemma returns_inv_step evs s ev s' :
  returns_inv evs s -> job_step s ev s' -> returns_inv (evs ++ [ev]) s'.
Proof.
  destruct s as [j rn c]. unfold returns_inv. intros H Hst. step_cases Hst; try destruct rn; try discriminate; destruct_and?;
    repeat match goal with H : _ \/ _ |- _ => destruct H end; destruct_and?;
    repeat match goal with H : exists _, _ |- _ => destruct H end;
    try first [ split; [by apply no_return_snoc|by apply no_panic_snoc]
          | split; [by apply first_return|by apply no_panic_snoc]
          | split; [by apply only_return_snoc|by apply no_panic_snoc]
          | split; [eexists; by apply only_return_snoc|by apply no_panic_snoc]
          | left; split; [eexists _, _; by apply only_return_snoc|by apply no_panic_snoc]
          | right; split; [by apply no_return_snoc|split; [apply panicked_snoc; eauto|done]] ].
Qed.

Lemma job_inv_step evs s ev s' : job_inv evs s -> job_step s ev s' -> job_inv (evs ++ [ev]) s'.
Proof.
  intros (?&?&?&?&?&?&?) Hev.
  refine (conj _ (conj _ (conj _ (conj _ (conj _ (conj _ _))))));
    eauto using token_inv_step, received_inv_step, ctx_inv_step, logs_inv_step, times_inv_step,
      before_inv_step, returns_inv_step.
Qed.

Lemma job_run_inv j evs s : fresh j -> job_run j evs s -> job_inv evs s.
Proof.
  intros Hf. apply (steps_trace_invariant job_step job_inv); [exact job_inv_step|by apply fresh_inv].
Qed.

(** ** Outcomes *)

Definition wf_returns (evs : list event) : Prop :=
  forall r e, StepReturns r e ∈ evs -> wf_return r e.

(** The outcome of a job whose steps returned [r] and [e]. *)
Definition outcome (evs : list event) (s : JobState) (r : option proto.StepResult)
    (e : option error) : Prop :=
  match r with
  | None => status (job s) = proto.running /\ run_panic (runner s) = Some nil_dereference
  | Some _ =>
      (exists ctx, status (job s) = verdict ctx e /\
                   (ctx = None \/ (ctx = Some Canceled /\ CloseCancels ∈ evs))) /\
      match e with
      | None => (err (job s) = None /\ run_panic (runner s) = None) \/ CloseTimesOut ∈ evs
      | Some e => run_panic (runner s) = None /\
                  exists e', err (job s) = Some e' /\ wraps e e'
      end
  end.

Definition outcome_inv (evs : list event) (s : JobState) : Prop :=
  (4 <= run_rank (runner s))%nat ->
  forall r e, StepReturns r e ∈ evs -> outcome evs s r e.

Lemma verdict_not_unspecified ctx e : verdict ctx e <> proto.unspecified.
Proof. unfold verdict. destruct e as [e|]; [by destruct (cancels ctx e)|done]. Qed.

(** While the steps run the job is running. *)
Lemma stepping_status evs s :
  times_inv evs s -> before_inv evs s -> (2 <= run_rank (runner s) <= 3)%nat -> status (job s) = proto.running.
Proof.
  intros [H1 H2] [_ Hb] Hr. destruct (startTime (job s)); [apply Hb, H2; left; lia|].
  assert (run_rank (runner s) <= 1)%nat by (by apply H1). lia.
Qed.

Lemma outcome_completes evs s now r e s' :
  ctx_inv evs s -> times_inv evs s -> before_inv evs s -> wf_return r e ->
  runner s = RunReturned r e -> job_step s (RunCompletes now) s' ->
  outcome (evs ++ [RunCompletes now]) s' r e.
Proof.
  destruct s as [j rn c]. intros [Hctx Hcc] Ht Hb Hwf Hrn H. cbn in Hrn. subst rn.
  pose proof (stepping_status _ _ Ht Hb ltac:(cbn; lia)) as Hrunning. cbn in Hctx, Hcc, Hrunning.
  unfold job_step, fire in H. cbn in H.
  destruct (mux_held _); [discriminate|]. destruct r as [r|].
  - destruct (onRunCompletion_spec now r e j Hwf) as (e' & Heq & He). rewrite Heq in H.
    injection H as <-. cbn. split.
    + exists (Ctx j). split; [done|]. rewrite Hctx. destruct (close_rank c <=? 1)%nat eqn:Ec; [by left|].
      right. split; [done|]. apply elem_snoc. left. apply Hcc. apply Nat.leb_gt in Ec. lia.
    + destruct e, e'; try done; [|by left]. split; [done|]. by eexists.
  - injection H as <-. cbn in *. done.
Qed.

(** The steps after completion leave the outcome. *)
Lemma outcome_snoc evs s ev r e :
  outcome evs s r e -> outcome (evs ++ [ev]) s r e.
Proof.
  unfold outcome. destruct r as [r|]; [|done]. intros [(ctx & Hs & Hc) He]. split.
  - exists ctx. split; [done|]. destruct Hc as [Hc|[Hc Hin]]; [by left|right].
    split; [done|]. apply elem_snoc. by left.
  - destruct e; [done|]. destruct He as [He|Hin]; [by left|right]. apply elem_snoc. by left.
Qed.

Lemma outcome_status evs s r e : outcome evs s r e -> status (job s) <> proto.unspecified.
Proof.
  unfold outcome. destruct r as [r|].
  - intros [(ctx & -> & _) _]. apply verdict_not_unspecified.
  - intros [-> _]. done.
Qed.

Lemma outcome_times_out evs j rn c r e e1 c' :
  outcome (evs ++ [CloseTimesOut]) {| job := j; runner := rn; closer := c |} r e ->
  (forall e0, err j = Some e0 -> e1 = e0) ->
  outcome (evs ++ [CloseTimesOut])
    {| job := set_outcome (Some e1) (status j) j; runner := rn; closer := c' |} r e.
Proof.
  unfold outcome. cbn. intros Ho He1. destruct r as [r|]; [|done].
  destruct Ho as [Hs He]. split; [exact Hs|].
  destruct e; [|right; apply elem_snoc; by right]. destruct He as [Hp (e' & He & Hw)].
  split; [done|]. exists e'. split; [|done]. f_equal. by apply He1.
Qed.

Lemma outcome_step evs s ev s' r e :
  returns_inv evs s -> StepReturns r e ∈ evs -> (4 <= run_rank (runner s))%nat ->
  outcome evs s r e -> job_step s ev s' -> outcome (evs ++ [ev]) s' r e.
Proof.
  intros Hret Hin Hrank Ho Hstep. pose proof (outcome_status _ _ _ _ Ho) as Hun.
  apply (outcome_snoc _ _ ev) in Ho. destruct s as [j rn c].
  unfold outcome in Ho |- *. unfold returns_inv in Hret. cbn in Hret.
  step_cases Hstep; try lia; try exact Ho; try (by destruct c).
  - destruct r as [r|]; [|by destruct Ho]. destruct Hret as [[r0 Hret] _].
    apply Hret in Hin as [_ ->]. destruct Ho as [Hs He]. split; [exact Hs|].
    destruct He as [[He _]|Ht]; [cbn in He; congruence|by right].
  - by apply bool_decide_eq_true in E1.
  - apply (fun H => outcome_times_out evs j rn CloseSelect r e e0 (CloseRemoving true) Ho H).
    rewrite E0. congruence.
  - by apply bool_decide_eq_true in E1.
  - apply (fun H => outcome_times_out evs j rn CloseSelect r e (SentinelError Canceled)
                      (CloseRemoving true) Ho H). rewrite E0. done.
Qed.

Lemma job_run_outcome j evs s :
  fresh j -> wf_returns evs -> job_run j evs s -> outcome_inv evs s.
Proof.
  intros Hf Hwf Hrun.
  cut (job_inv evs s /\ (wf_returns evs -> outcome_inv evs s)); [tauto|].
  revert Hrun. clear Hwf.
  apply (steps_trace_invariant job_step (fun evs s => job_inv evs s /\ (wf_returns evs -> outcome_inv evs s))).
  - clear evs s. intros evs s ev s' [Hinv IH] Hstep. pose proof (job_inv_step _ _ _ _ Hinv Hstep) as Hinv'.
    split; [done|]. intros Hwf Hrank r e Hin.
    assert (wf_returns evs) as Hwf' by (intros r' e' ?; apply Hwf, elem_snoc; by left).
    destruct Hinv as (_&_&Hctx&_&Htimes&Hbefore&Hret).
    destruct (decide (4 <= run_rank (runner s))%nat) as [Hr|Hr].
    + apply elem_snoc in Hin as [Hin|<-].
      * exact (outcome_step evs s ev s' r e Hret Hin Hr (IH Hwf' Hr r e Hin) Hstep).
      * destruct s as [j0 rn c]. exfalso. step_cases Hstep. lia.
    + destruct s as [j0 rn c]. pose proof Hstep as Hs. cbn in Hr. step_cases Hs; try lia.
      all: apply elem_snoc in Hin as [Hin|Hev]; [|discriminate].
      all: unfold returns_inv in Hret; cbn in Hret; destruct Hret as [Hret _].
      1: by destruct (Hret r e).
      all: apply Hret in Hin as Heq; destruct Heq as [-> ->].
      all: apply (fun H => outcome_completes evs _ now _ _ _ Hctx Htimes Hbefore H eq_refl Hstep).
      all: by apply Hwf'.
  - split; [by apply fresh_inv|]. intros _ H. cbn in H. lia.
Qed.

(** A new job is fresh, whatever the options of this package that made it. *)
Inductive job_option : (Job -> Job) -> Prop :=
  | option_wait t : job_option (WithRunExitWaitTime t)
  | option_logs filename : job_option (WithLogs filename).

Lemma options_fresh options j :
  Forall job_option options -> fresh j ->
  fresh (foldl (fun j option => option j) j options) /\
  ID (foldl (fun j option => option j) j options) = ID j /\
  WorkDir (foldl (fun j option => option j) j options) = WorkDir j.
Proof.
  intros Ho. revert j. induction Ho as [|o options Ho _ IH]; intros j Hj; cbn; [done|].
  destruct (IH (o j)) as (H1 & H2 & H3); [by destruct Ho|]. rewrite H2, H3. by destruct Ho.
Qed.

Lemma New_fresh `{JS : JobSystem} jobID workDir options w j w' :
  Forall job_option options -> New jobID workDir options w = (Ok j, w') ->
  fresh j /\ ID j = jobID /\ (workDir <> "" -> WorkDir j = workDir).
Proof.
  intros Ho. unfold New. intros Hn. apply M_bind_Ok in Hn as (dir & w1 & Hdir & Hn).
  apply M_bind_Ok in Hn as ([] & w2 & _ & Hn).
  set (j0 := {| TmpDir := ""; WorkDir := dir; Ctx := None; ID := jobID; err := None;
                startTime := None; finishTime := None; finishC := 0; logs := None;
                status := proto.unspecified; runExitWaitTime := 2000000000 |}) in Hn.
  destruct (options_fresh options j0 Ho) as (Hf & Hid & Hwd); [done|].
  assert (workDir <> "" -> dir = workDir) as Hd.
  { intros Hne%String.eqb_neq. rewrite Hne in Hdir. by inv_M. }
  set (j1 := foldl _ j0 options) in *. destruct (logs j1) as [l|].
  - inv_M. split; [done|]. split; [done|]. intros Hne. rewrite Hwd. by apply Hd.
  - apply M_bind_Ok in Hn as ([] & w3 & _ & Hn). apply M_bind_Ok in Hn as ([filename|e] & w4 & _ & Hn).
    + inv_M. split; [by destruct Hf as (?&?&?&?&?&?)|]. split; [done|]. intros Hne. cbn.
      rewrite Hwd. by apply Hd.
    + apply M_bind_Ok in Hn as ([] & w5 & _ & Hn). by inv_M.
Qed.

(** Past the steps, they have returned or have panicked. *)
Lemma returned_once evs s :
  returns_inv evs s -> (4 <= run_rank (runner s))%nat ->
  (exists r e, StepReturns r e ∈ evs) /\ ~ panicked evs \/ panicked evs.
Proof.
  unfold returns_inv. destruct (runner s); cbn; try lia; intros H _.
  { destruct H as [[r H] Hp]. left. split; [|done]. exists r, e. by apply H. }
  all: destruct H as [[(r & e & H) Hp]|(_ & Hp & _)]; [left; split; [|done]; exists r, e; by apply H|by right].
Qed.

(** The outcome in the words of the status message. *)
Lemma verdict_spec ctx e :
  verdict ctx (Some e) = proto.failure \/
  (verdict ctx (Some e) = proto.cancelled /\
   (error_is e Canceled = true \/ error_is e DeadlineExceeded = true \/
    (ctx <> None /\ HasSuffix (Error e) "signal: killed" = true))).
Proof.
  unfold verdict, cancels. destruct (error_is e Canceled); [by right; auto|].
  destruct (error_is e DeadlineExceeded); [by right; auto|]. cbn.
  destruct (bool_decide (ctx <> None)) eqn:Ec; cbn; [|by left].
  destruct (HasSuffix _ _); [|by left]. right. apply bool_decide_eq_true in Ec. auto.
Qed.

Lemma wraps_text e e' : wraps e e' -> exists pre post, Error e' = pre +:+ Error e +:+ post.
Proof.
  intros [->|(pre & post & ->)]; [|by eexists _, _]. exists "", "". cbn. by rewrite string_app_nil_r.
Qed.

(** ** Properties *)

(** What a client sees of a job that finished is what its steps returned.
    When the steps return the result and the error of a run of the step
    runner, a result that is not nil becomes success without a message exactly
    when there was no error, and otherwise failure, or cancelled when the error
    is one of the context or says the process was killed after the job was
    closed; the message is the error, or an error that wraps it.  The goroutine
    panics, with the job said to be running, when the steps returned no
    result, and else only if a [Close] timed out. *)
Lemma job_outcome `{Sy : System} `{SE : StepFileEnv} `{SP : Values.StructPB} `{MR : MapRange}
    `{FM : schema.Format} j evs s :
  fresh j -> job_run j evs s ->
  (forall r e, StepReturns r e ∈ evs ->
    exists fuel step sc w sc' w', run fuel step sc w = (Ok (r, e, sc'), w')) ->
  proto.Status_EndTime (Status (job s)) <> None ->
  exists r e, StepReturns r e ∈ evs /\
    match r, e with
    | None, _ => proto.Status_Status (Status (job s)) = proto.running /\
                 run_panic (runner s) = Some nil_dereference
    | Some _, None =>
        proto.Status_Status (Status (job s)) = proto.success /\
        ((proto.Status_Message (Status (job s)) = "" /\ run_panic (runner s) = None) \/
         CloseTimesOut ∈ evs)
    | Some _, Some e =>
        run_panic (runner s) = None /\
        (proto.Status_Status (Status (job s)) = proto.failure \/
         (proto.Status_Status (Status (job s)) = proto.cancelled /\
          (error_is e Canceled = true \/ error_is e DeadlineExceeded = true \/
           (CloseCancels ∈ evs /\ HasSuffix (Error e) "signal: killed" = true)))) /\
        (error_is e Canceled = true -> proto.Status_Status (Status (job s)) = proto.cancelled) /\
        exists pre post, proto.Status_Message (Status (job s)) = pre +:+ Error e +:+ post
    end.
Proof.
  intros Hf Hrun Hret Hfin.
  assert (wf_returns evs) as Hwf.
  { intros r e Hin. destruct (Hret r e Hin) as (fuel & step & sc & w & sc' & w' & Hr).
    by eapply run_result. }
  destruct (job_run_inv j evs s Hf Hrun) as (_ & _ & _ & _ & [_ Htimes] & _ & Hone).
  cbn in Hfin. rewrite Htimes in Hfin. assert (4 <= run_rank (runner s))%nat as Hrank by lia.
  destruct (returned_once _ _ Hone Hrank) as [[(r & e & Hin) _]|?]; [|tauto]. exists r, e. split; [done|].
  pose proof (job_run_outcome j evs s Hf Hwf Hrun Hrank r e Hin) as Ho.
  unfold outcome in Ho. cbn. destruct r as [r|]; [|done].
  destruct Ho as [(ctx & Hs & Hc) He]. rewrite Hs. destruct e as [e|].
  - destruct He as (Hp & e' & -> & Hw). split; [done|]. repeat apply conj; [|intros He|by apply wraps_text].
    + destruct (verdict_spec ctx e) as [Hv|[Hv Hcause]]; rewrite Hv; [by left|right].
      split; [done|]. destruct Hcause as [?|[?|[Hctx Hk]]]; auto.
      destruct Hc as [->|[_ ?]]; auto; done.
    + unfold verdict, cancels. by rewrite He.
  - split; [done|]. destruct He as [[-> Hp]|Ht]; auto.
Qed.

(** C24: closing a job waits for its steps.  Past the [select] of [Close] the
    context of the job is cancelled, and unless [Close] timed out the steps
    have returned, the goroutine is over and the log is closed: the temporary
    directory is not removed under a running step.  Steps that panic are over too:
    the panic is past the deferred calls and about to kill the process. *)
Theorem close_waits_for_run j evs s :
  fresh j -> job_run j evs s -> (3 <= close_rank (closer s))%nat ->
  Ctx (job s) = Some Canceled /\
  (CloseTimesOut ∈ evs \/
   run_over (runner s) = true /\ (forall l, logs (job s) = Some l -> l.2 = true) /\
   ((exists r e, StepReturns r e ∈ evs) /\ proto.Status_EndTime (Status (job s)) <> None \/
    panicked evs /\ run_panic (runner s) <> None)).
Proof.
  intros Hf Hrun Hc.
  destruct (job_run_inv j evs s Hf Hrun) as (_ & Hrec & [Hctx _] & Hlogs & [_ Htimes] & _ & Hone).
  split.
  { rewrite Hctx. destruct (close_rank (closer s) <=? 1)%nat eqn:E; [|done]. apply Nat.leb_le in E. lia. }
  assert (CloseTimesOut ∈ evs \/ run_over (runner s) = true) as [Ht|Hover].
  { unfold received_inv in Hrec. destruct (closer s) as [| | |[]|]; cbn in Hc; try lia; tauto. }
  { by left. }
  assert (8 <= run_rank (runner s))%nat as Hr by (by apply run_over_rank).
  right. split; [done|]. split; [apply Hlogs; lia|].
  destruct (returned_once _ _ Hone) as [[Hret Hp]|Hp]; [lia|left|right].
  - split; [done|]. cbn. rewrite Htimes. intros [?|?]; [lia|done].
  - split; [done|]. unfold returns_inv in Hone. destruct (runner s); try done; naive_solver.
Qed.

(** The steps a blocked user waits for are those of the other user, and the
    return of the steps of the job. *)
Definition internal (ev : event) : bool :=
  match ev with RunEnters | CloseEnters | StepReturns _ _ | StepPanics _ => false | _ => true end.

(** C25: running and closing a job end.  No execution is longer than twelve
    steps, but for the death of the process after a panic; and when none of the
    steps of [Run] and [Close] is possible, the process is dead, or [Run] was
    not called, or its steps have not returned, or it has returned, and [Close]
    was not called or has returned: neither waits for ever on the mutex or on
    the channel. *)
Theorem job_ends j evs s :
  fresh j -> job_run j evs s ->
  (length evs <= if dead s then 13 else 12)%nat /\
  ((forall ev, internal ev = true -> fire s ev = None) ->
   dead s = true \/
   (runner s = RunIdle \/ runner s = RunStepping \/ runner s = RunDone None) /\
   (closer s = CloseIdle \/ closer s = CloseDone)).
Proof.
  intros Hf Hrun. split.
  - apply steps_rank in Hrun. cbn in Hrun.
    destruct s as [j0 rn c]. cbn in *. destruct rn, c; cbn in *; lia.
  - intros Hstuck. destruct (job_run_inv j evs s Hf Hrun) as (Htok & _).
    destruct s as [j0 rn c]. destruct (dead _) eqn:Hd; [by left|right].
    unfold token_inv in Htok. unfold fire in Hstuck. rewrite Hd in Hstuck. fold fire in Hstuck. cbn in *.
    assert (c = CloseIdle \/ c = CloseDone) as Hc.
    { pose proof (Hstuck CloseCancels eq_refl). pose proof (Hstuck CloseTimesOut eq_refl).
      pose proof (Hstuck CloseRemoves eq_refl). destruct c; cbn in *; auto; discriminate. }
    split; [|done].
    assert (mux_held {| job := j0; runner := rn; closer := c |} = false) as Hmux
      by (by destruct Hc as [-> | ->]).
    destruct rn as [| | | | | | | |[p|]|]; auto; exfalso.
    + specialize (Hstuck (RunStarts 0) eq_refl). cbn in Hstuck.
      by rewrite Hmux in Hstuck.
    + specialize (Hstuck (RunCompletes 0) eq_refl). cbn in Hstuck.
      rewrite Hmux in Hstuck. by destruct (onRunCompletion _ _ _ _) as [? []].
    + specialize (Hstuck RunLogsError eq_refl). cbn in Hstuck. by destruct (err j0), e.
    + by specialize (Hstuck RunCleansUp eq_refl).
    + by specialize (Hstuck RunClosesLogs eq_refl).
    + specialize (Hstuck RunSignals eq_refl). cbn in Hstuck, Htok.
      assert (finishC j0 = O) as Hz by (destruct c; lia). by rewrite Hz in Hstuck.
    + by specialize (Hstuck ProcessDies eq_refl).
    + done.
Qed.

(** The status a client sees while a job is not finished.  Without a start
    time it is unspecified, or cancelled after a [Close] that timed out; with
    one it is running; and there is no message unless [Close] timed out. *)
Theorem unfinished_job_status j evs s :
  fresh j -> job_run j evs s -> proto.Status_EndTime (Status (job s)) = None ->
  (proto.Status_Message (Status (job s)) = "" \/ CloseTimesOut ∈ evs) /\
  match proto.Status_StartTime (Status (job s)) with
  | None => proto.Status_Status (Status (job s)) = proto.unspecified \/
            (proto.Status_Status (Status (job s)) = proto.cancelled /\ CloseTimesOut ∈ evs)
  | Some _ => proto.Status_Status (Status (job s)) = proto.running
  end.
Proof.
  intros Hf Hrun Hfin. cbn in *.
  destruct (job_run_inv j evs s Hf Hrun) as (_ & _ & _ & _ & _ & [Herr Hstat] & _). split.
  - destruct (Herr Hfin) as [-> |]; auto.
  - destruct (startTime (job s)); auto.
Qed.

(** ** Two interleavings *)

(** A job that was closed before its goroutine began is cancelled, and then
    runs. *)
Example closed_job_runs j :
  fresh j ->
  exists s s', job_run j [CloseEnters; CloseCancels; CloseTimesOut] s /\
    status (job s) = proto.cancelled /\
    steps job_step s [CloseRemoves; RunEnters; RunStarts 1] s' /\ status (job s') = proto.running.
Proof.
  intros (Ht & Hs & He & Hc & Hst & Hf). eexists _, _. repeat apply conj.
  - apply (run_labels_steps fire). cbn. rewrite Hs. reflexivity.
  - reflexivity.
  - apply (run_labels_steps fire). reflexivity.
  - reflexivity.
Qed.

(** A [Close] that times out while the goroutine of a successful run is between
    [onRunCompletion] and the test of [j.err] makes it panic. *)
Example success_panics j r :
  fresh j -> proto.SR_Status r = proto.success ->
  exists s, job_run j [RunEnters; RunStarts 1; StepReturns (Some r) None; CloseEnters; CloseCancels;
                       RunCompletes 2; CloseTimesOut; RunLogsError] s /\
    runner s = RunDeferred (Some nil_dereference).
Proof.
  intros (Ht & Hs & He & Hc & Hst & Hf) Hr. eexists. split.
  - apply (run_labels_steps fire). unfold run_labels, fire, onRunCompletion. cbn. rewrite Hr. reflexivity.
  - reflexivity.
Qed.
