(* ===== verification/Service.v ===== *)
(** The gRPC service (src/pkg/api/service/service.go) over the map of its jobs
    (src/pkg/internal/syncmap/syncmap.go): what a run request is turned into,
    and the requests the service serves concurrently, until a panic kills the
    process. *)

From stdpp Require Import gmap strings list fin_maps.
From S2P Require Import Prelude GoStrings GoPaths Values Expression Environment Evolution Proto StepFile.
From S2P Require Import ShortReference Schema SpecDefinition World Resources Runner RunnerFacts RunnerSpec.
From S2P Require Import Decoding Termination RunnerSpec Variables Streamer Jobs.
Open Scope go_scope.
Open Scope string_scope.
Open Scope list_scope.

(** ** syncmap.go *)

(** Every method holds the lock of the map for its whole body, so each is one
    step of an interleaving. *)
Module SyncMap.

Record SyncMap (V : Type) := { data : gmap string V }.
Arguments data {V} _.

Definition New {V} : SyncMap V := {| data := ∅ |}.
Definition Put {V} (c : SyncMap V) (key : string) (value : V) : SyncMap V :=
  {| data := <[key := value]> (data c) |}.
Definition Get {V} (c : SyncMap V) (key : string) : option V := data c !! key.
Definition Remove {V} (c : SyncMap V) (key : string) : SyncMap V :=
  {| data := delete key (data c) |}.
Definition Keys `{MapRange} {V} (c : SyncMap V) : list string := fst <$> map_range (data c).

(** [c.ForEach(f)] of a body that appends what it computes. *)
Definition ForEach `{MapRange} {V A} (c : SyncMap V) (f : string -> V -> A) : list A :=
  (fun '(k, v) => f k v) <$> map_range (data c).

End SyncMap.

(** ** Preparing a job *)

(** [&errBadJobID{id}] *)
Definition errBadJobID (id : string) : error := NewError ("no job with id " +:+ quote id).

Section prepare.
  Context `{Sy : System} `{JS : !JobSystem} `{SE : StepFileEnv} `{SP : StructPB} `{MR : MapRange}
    `{FM : schema.Format}.

(** [s.loadSteps(stepsStr, request)] *)
Definition loadSteps (stepsStr : string) (request : proto.RunRequest) : res SpecDefinition :=
  '(spec, step) ← ReadSteps stepsStr or_wrap ("reading steps " +:+ quote stepsStr +:+ ": ");
  protoSpec ← (schema.Spec_Compile spec).2 or_wrap "compiling steps: ";
  protoDef ← schema.Compile step or_wrap "compiling steps: ";
  let dir :=
    match proto.Request_Job request with
    | Some job => if String.eqb (proto.Job_BuildDir job) "" then proto.Request_WorkDir request
                  else proto.Job_BuildDir job
    | None => proto.Request_WorkDir request
    end in
  Ok (NewSpecDefinition protoSpec protoDef dir).

(** [defer func() { if err != nil { job.Close() } }()]: closing a job that was
    never run waits for [runExitWaitTime] and removes its temporary directory. *)
Definition close_on_error {A} (job : Job) (m : M A) : M A := fun w =>
  match m w with
  | (Err e, w') => (Err e, (removeAll (TmpDir job) w').2)
  | r => r
  end.

(** [StepRunnerService.Run], from the load of the steps to the job, the context
    and the step that are executed. *)
Definition prepare (env : loc) (runExitWaitTime : Z) (request : proto.RunRequest) :
    M (Job * StepsContext * Step) :=
  specDef ← wrap "loading step: " (lift (loadSteps (proto.Request_Steps request) request));
  let jobOpts := if (runExitWaitTime =? 0)%Z then [] else [WithRunExitWaitTime runExitWaitTime] in
  job ← wrap "initializing request: " (Jobs.New (proto.Request_Id request) (Dir specDef) jobOpts);
  close_on_error job (
    jobVars ← wrap "preparing environment: " (Prepare (proto.Request_Job request) (TmpDir job));
    env ← wrap "initializing global environment: "
            (on_heap_res (fun h => GlobalEnvironment h env jobVars));
    globalCtxEnv ← on_heap (fun h => AddLexicalScope h env (proto.Request_Env request));
    globCtx ← lift (NewGlobalContext (WorkDir job) jobVars globalCtxEnv);
    let params := {| Params_Inputs := ∅; Params_Env := ∅ |} in
    step ← lift (Parse globCtx specDef params StepDefinedInGitLabJob
                   or_wrap "failed to start step runner service: ");
    let inputs := NewInputsWithDefault params (SpecInputs specDef) in
    stepsCtx ← NewStepsContext globCtx (Dir specDef) inputs (gc_env globCtx) [];
    mret (job, stepsCtx, step)).
End prepare.

(** ** Serving requests *)

(** [type StepRunnerService struct]: the jobs by their identifier, the jobs that
    were made, and the requests being served: the [Run]s that found no job of
    their identifier, and the [Close]s that found a job. *)
Record StepRunnerService := {
  jobs : SyncMap.SyncMap nat;
  store : list JobState;
  running : list string;
  closing : list (string * nat)
}.

(** [New(stepParser, env, options...)], before any request. *)
Definition NewService : StepRunnerService :=
  {| jobs := SyncMap.New; store := []; running := []; closing := [] |}.

(** The steps of the requests, and those of the jobs. *)
Inductive request :=
  | RunGets (id : string)
  | RunFails (id : string)
  | RunPuts (id : string) (j : Job)
  | CloseGets (id : string)
  | CloseRemovesEntry (id : string) (l : nat)
  | JobEvent (l : nat) (ev : event).

Fixpoint remove_one {A} `{EqDecision A} (x : A) (l : list A) : list A :=
  match l with
  | [] => []
  | y :: l' => if decide (x = y) then l' else y :: remove_one x l'
  end.

(** No goroutine of a job has killed the process with its panic. *)
Definition alive (s : StepRunnerService) : bool := forallb (fun js => negb (dead js)) (store s).

(** One step: a [Run] looks its identifier up, and then either fails or puts its
    job in the map and executes it; a [Close] looks its identifier up, closes
    the job it found (the steps of the job) and then removes the identifier.  A dead
    process serves nothing. *)
Definition serve (s : StepRunnerService) (r : request) : option StepRunnerService :=
  if negb (alive s) then None else
  match r with
  | RunGets id =>
      match SyncMap.Get (jobs s) id with
      | Some _ => Some s
      | None => Some {| jobs := jobs s; store := store s; running := id :: running s;
                        closing := closing s |}
      end
  | RunFails id =>
      if decide (id ∈ running s) then
        Some {| jobs := jobs s; store := store s; running := remove_one id (running s);
                closing := closing s |}
      else None
  | RunPuts id j =>
      if decide (id ∈ running s) then
        Some {| jobs := SyncMap.Put (jobs s) id (length (store s)); store := store s ++ [started j];
                running := remove_one id (running s); closing := closing s |}
      else None
  | CloseGets id =>
      match SyncMap.Get (jobs s) id with
      | None => Some s
      | Some l => Some {| jobs := jobs s; store := store s; running := running s;
                          closing := (id, l) :: closing s |}
      end
  | CloseRemovesEntry id l =>
      if decide ((id, l) ∈ closing s) then
        match store s !! l with
        | Some js =>
            match closer js with
            | CloseDone => Some {| jobs := SyncMap.Remove (jobs s) id; store := store s;
                                   running := running s; closing := remove_one (id, l) (closing s) |}
            | _ => None
            end
        | None => None
        end
      else None
  | JobEvent l ev =>
      js ← (store s !! l);
      js' ← fire js ev;
      Some {| jobs := jobs s; store := <[l := js']> (store s); running := running s;
              closing := closing s |}
  end.

Definition service_step (s : StepRunnerService) (r : request) (s' : StepRunnerService) : Prop :=
  serve s r = Some s'.

(** [s.Status(ctx, request)] *)
Definition Service_Status `{MapRange} (s : StepRunnerService) (id : string) :
    res (list proto.JobStatus) :=
  let status_of l := match store s !! l with Some js => [Status (job js)] | None => [] end in
  if negb (String.eqb id "") then
    match SyncMap.Get (jobs s) id with
    | None => Err (errBadJobID id)
    | Some l => Ok (status_of l)
    end
  else Ok (mjoin (SyncMap.ForEach (jobs s) (fun _ => status_of))).

(** [j.FollowLogs(ctx, offset, writer)] (jobs.go) of the job [id]. *)
Definition Job_FollowLogs {W} (write : W -> string -> option error * W) (ctx_Err : nat -> option error)
    (id : string) (logs : Streamer) (open_error : option error) (offset : Z) (reads : Reads) (w : W) :
    option error * W :=
  match Follow write ctx_Err logs open_error offset reads w with
  | (Some err, w) => (Some (WrapError ("following logs for job " +:+ quote id +:+ ": ") err ""), w)
  | (None, w) => (None, w)
  end.

(** [s.FollowLogs(request, writer)]: what is sent to the client, one message per
    write, or the error. *)
Definition Service_FollowLogs {W} (send : W -> string -> option error * W)
    (s : StepRunnerService) (ctx_Err : nat -> option error) (id : string) (offset : Z)
    (streamer_of : nat -> Streamer) (open_error : option error) (reads : Reads) (w : W) :
    option error * W :=
  match SyncMap.Get (jobs s) id with
  | None => (Some (errBadJobID id), w)
  | Some l => Job_FollowLogs send ctx_Err id (streamer_of l) open_error offset reads w
  end.

(** ** Invariants *)

(** A request that is not for an identifier being served: a [Run] while no
    other [Run] and no [Close] of its identifier is under way; the jobs are
    those the service makes. *)
Definition exclusive (s : StepRunnerService) (r : request) : Prop :=
  match r with
  | RunGets id => (id ∉ running s) /\ (id ∉ (closing s).*1)
  | RunPuts id j => fresh j /\ ID j = id
  | _ => True
  end.

Definition exclusive_step (s : StepRunnerService) (r : request) (s' : StepRunnerService) : Prop :=
  service_step s r s' /\ exclusive s r.

Lemma fire_ID s ev s' : fire s ev = Some s' -> ID (job s') = ID (job s).
Proof.
  destruct s as [j rn c]. intros H. step_cases H; try reflexivity;
    unfold onRunCompletion in *; repeat (case_match; simplify_eq/=); done.
Qed.

Lemma job_run_ID j evs s : job_run j evs s -> ID (job s) = ID j.
Proof.
  apply (steps_invariant job_step (fun s => ID (job s) = ID j)); [|done].
  intros s0 ev s1 <- H. by eapply fire_ID.
Qed.

Lemma fire_CloseDone s ev s' : fire s ev = Some s' -> closer s = CloseDone -> closer s' = CloseDone.
Proof. destruct s as [j rn c]. intros H Hc. cbn in Hc. subst c. by step_cases H. Qed.

Lemma remove_one_subset {A} `{EqDecision A} (x y : A) l : y ∈ remove_one x l -> y ∈ l.
Proof.
  induction l as [|z l IH]; cbn; [done|]. destruct (decide (x = z)).
  - intros H. by right.
  - intros [->|H]%elem_of_cons; [left|right]. by apply IH.
Qed.

Lemma remove_one_NoDup {A} `{EqDecision A} (x : A) l :
  NoDup l -> NoDup (remove_one x l) /\ x ∉ remove_one x l.
Proof.
  induction 1 as [|y l Hy Hl [IH1 IH2]]; cbn.
  - split; [constructor|apply not_elem_of_nil].
  - destruct (decide (x = y)) as [->|Hne]; [done|]. split.
    + constructor; [|done]. intros H. by apply remove_one_subset in H.
    + by apply not_elem_of_cons.
Qed.

Record service_inv (s : StepRunnerService) : Prop := {
  inv_entry id l : SyncMap.data (jobs s) !! id = Some l ->
    exists js, store s !! l = Some js /\ ID (job js) = id;
  inv_job l js : store s !! l = Some js ->
    closer js = CloseDone \/ SyncMap.data (jobs s) !! ID (job js) = Some l;
  inv_running_once : NoDup (running s);
  inv_running id : id ∈ running s ->
    SyncMap.data (jobs s) !! id = None /\ id ∉ (closing s).*1;
  inv_closing id l : (id, l) ∈ closing s ->
    SyncMap.data (jobs s) !! id = Some l \/ SyncMap.data (jobs s) !! id = None
}.

Lemma NewService_inv : service_inv NewService.
Proof.
  split; cbn.
  - intros id l. by rewrite lookup_empty.
  - done.
  - constructor.
  - intros id H. by apply not_elem_of_nil in H.
  - intros id l H. by apply not_elem_of_nil in H.
Qed.

Lemma RunPuts_inv s id j :
  service_inv s -> id ∈ running s -> ID j = id ->
  service_inv {| jobs := SyncMap.Put (jobs s) id (length (store s)); store := store s ++ [started j];
                 running := remove_one id (running s); closing := closing s |}.
Proof.
  intros [He Hj Hn Hr Hc] Hin Hid. destruct (Hr id Hin) as [Hnone Hncl].
  destruct (remove_one_NoDup id _ Hn) as [Hn' Hnin]. split; cbn.
  - intros id' l. destruct (decide (id' = id)) as [->|Hne].
    + rewrite lookup_insert_eq. intros [= <-]. exists (started j).
      split; [by apply list_lookup_middle|done].
    + rewrite lookup_insert_ne by done. intros Hl. destruct (He id' l Hl) as (js & Hs & Hjs).
      exists js. split; [by apply lookup_app_l_Some|done].
  - intros l js Hl. apply lookup_app_Some in Hl as [Hl|[Hge Hl]].
    + destruct (Hj l js Hl) as [Hd|Hm]; [by left|right].
      rewrite lookup_insert_ne; [done|]. intros Heq. rewrite <- Heq in Hm. congruence.
    + apply list_lookup_singleton_Some in Hl as [Hz <-]. right. cbn. rewrite Hid, lookup_insert_eq.
      f_equal. lia.
  - done.
  - intros id' Hin'. assert (id' <> id) by (intros ->; done).
    rewrite lookup_insert_ne by done. apply Hr. by eapply remove_one_subset.
  - intros id' l Hin'. destruct (decide (id' = id)) as [->|Hne].
    + destruct Hncl. by apply (list_elem_of_fmap_2 fst) in Hin'.
    + rewrite lookup_insert_ne by done. by apply Hc.
Qed.

Lemma CloseRemovesEntry_inv s id l js :
  service_inv s -> (id, l) ∈ closing s -> store s !! l = Some js -> closer js = CloseDone ->
  service_inv {| jobs := SyncMap.Remove (jobs s) id; store := store s;
                 running := running s; closing := remove_one (id, l) (closing s) |}.
Proof.
  intros [He Hj Hn Hr Hc] Hin Hl Hd. split; cbn.
  - intros id' l' (_ & Hm)%lookup_delete_Some. by apply He.
  - intros l' js' Hl'. destruct (Hj l' js' Hl') as [Hd'|Hm]; [by left|].
    destruct (decide (id = ID (job js'))) as [->|Hne].
    + left. destruct (Hc _ _ Hin) as [Heq|Heq]; congruence.
    + right. by rewrite lookup_delete_ne.
  - done.
  - intros id' Hin'. destruct (Hr id' Hin') as [H1 H2]. split.
    + apply lookup_delete_None. by right.
    + intros ([id2 l2] & -> & H)%list_elem_of_fmap. apply H2. apply list_elem_of_fmap.
      exists (id2, l2). split; [done|]. by eapply remove_one_subset.
  - intros id' l' Hin'. apply remove_one_subset in Hin'.
    destruct (decide (id = id')) as [->|Hne]; [right; apply lookup_delete_eq|].
    rewrite lookup_delete_ne by done. by apply Hc.
Qed.

Lemma JobEvent_inv s l ev js js' :
  service_inv s -> store s !! l = Some js -> fire js ev = Some js' ->
  service_inv {| jobs := jobs s; store := <[l := js']> (store s); running := running s;
                 closing := closing s |}.
Proof.
  intros [He Hj Hn Hr Hc] Hl Hf. pose proof (fire_ID _ _ _ Hf) as Hid. split; cbn; auto.
  - intros id l' Hm. destruct (He id l' Hm) as (js0 & Hs & Hi).
    destruct (decide (l' = l)) as [->|Hne].
    + exists js'. rewrite list_lookup_insert_eq by (by eapply lookup_lt_Some).
      split; [done|]. congruence.
    + exists js0. by rewrite list_lookup_insert_ne.
  - intros l' js0 Hl0. apply list_lookup_insert_Some in Hl0 as [(<- & <- & _)|[Hne Hl0]]; [|by apply Hj].
    destruct (Hj l js Hl) as [Hd|Hm]; [left; by eapply fire_CloseDone|right; by rewrite Hid].
Qed.

Lemma service_inv_step s r s' : service_inv s -> exclusive_step s r s' -> service_inv s'.
Proof.
  intros Hinv [Hstep Hex]. unfold service_step, serve, SyncMap.Get in Hstep.
  destruct (negb (alive s)); [done|].
  pose proof Hinv as [He Hj Hn Hr Hc]. destruct r as [id|id|id j|id|id l|l ev]; cbn in Hex.
  - destruct (SyncMap.data (jobs s) !! id) eqn:Hg; injection Hstep as <-; [done|].
    destruct Hex as [Hex1 Hex2]. split; cbn; auto; [by constructor|].
    intros id' [->|Hin]%elem_of_cons; auto.
  - destruct (decide _); [|done]. injection Hstep as <-.
    destruct (remove_one_NoDup id _ Hn) as [Hn' Hnin]. split; cbn; auto.
    intros id' Hin. apply Hr. by eapply remove_one_subset.
  - destruct (decide _) as [Hin|]; [|done]. injection Hstep as <-. apply RunPuts_inv; tauto.
  - destruct (SyncMap.data (jobs s) !! id) as [l|] eqn:Hg; injection Hstep as <-; [|done].
    split; cbn; auto.
    + intros id' Hin. destruct (Hr id' Hin) as [H1 H2]. split; [done|].
      apply not_elem_of_cons. split; [|done]. intros ->. congruence.
    + intros id' l' [[= -> ->]|Hin]%elem_of_cons; auto.
  - destruct (decide _) as [Hin|]; [|done]. destruct (store s !! l) as [js|] eqn:Hl; [|done].
    destruct (closer js) eqn:Hd; try done. injection Hstep as <-.
    by eapply CloseRemovesEntry_inv.
  - apply bind_Some in Hstep as (js & Hl & (js' & Hf & [= <-])%bind_Some).
    by eapply JobEvent_inv.
Qed.

Lemma service_invariant rs s :
  steps exclusive_step NewService rs s -> service_inv s.
Proof. apply (steps_invariant exclusive_step service_inv service_inv_step), NewService_inv. Qed.

(** A job that was not closed is the one of its identifier. *)
Lemma open_job_status `{MR : MapRange} rs s l js :
  steps exclusive_step NewService rs s -> store s !! l = Some js ->
  ID (job js) <> "" -> closer js <> CloseDone ->
  Service_Status s (ID (job js)) = Ok [Status (job js)] /\
  SyncMap.Get (jobs s) (ID (job js)) = Some l.
Proof.
  intros Hrun Hl Hid Hc. destruct (service_invariant rs s Hrun) as [He Hj _ _ _].
  unfold Service_Status, SyncMap.Get. destruct (Hj l js Hl) as [Hd|Hm]; [done|].
  apply String.eqb_neq in Hid. rewrite Hid. cbn. by rewrite Hm, Hl.
Qed.

(** ** Lemmas on the preparation *)

Definition same_heap `{System} (w w' : World) : Prop := heap w' = heap w.
#[global] Instance same_heap_preorder `{System} : PreOrder same_heap.
Proof. split; [done|]. intros w1 w2 w3 H1 H2. unfold same_heap in *. congruence. Qed.

Section prepare_facts.
  Context `{Sy : System} `{JS : !JobSystem} `{SE : StepFileEnv} `{SP : StructPB} `{MR : MapRange}
    `{FM : schema.Format}.

Lemma New_same_heap id dir opts w : effect same_heap (Jobs.New id dir opts) w.
Proof.
  unfold Jobs.New. apply effect_bind; [apply _|destruct (String.eqb dir ""); reflexivity|].
  intros d w1 _ _. apply effect_bind; [apply _|apply effect_wrap|].
  { unfold effect, mkdirAll, same_heap. destruct (MkdirAll _ _) as [[]]; done. }
  intros [] w2 _ _. destruct (logs _); [apply effect_ret; apply _|].
  apply effect_bind; [apply _|apply effect_wrap|].
  { unfold effect, mkdirAll, same_heap. destruct (MkdirAll _ _) as [[]]; done. }
  intros [] w3 _ _. apply effect_bind; [apply _|apply effect_catch|].
  { unfold effect, NewStreamer, same_heap. destruct (OpenFile_error _ _ _); done. }
  intros [f|e] w4 _ _; [apply effect_ret; apply _|].
  apply effect_bind; [apply _| |intros [] w5 _ _; apply effect_lift; apply _].
  unfold effect, removeAll, same_heap. destruct (RemoveAll _ _ _); done.
Qed.

Lemma Prepare_heap pjob tmp w env w' : Prepare pjob tmp w = (Ok env, w') -> heap w' = heap w.
Proof.
  unfold Prepare. destruct pjob as [pjob|]; [|by intros [_ ->]%ret_Ok].
  intros ([] & w1 & H1 & [_ ->]%ret_Ok)%M_bind_Ok. apply wrap_Ok in H1.
  by apply Write_files in H1 as (_ & Hh & _).
Qed.

Lemma NewStepsContext_heap gc d i e w s w' :
  NewStepsContext gc d i e [] w = (Ok s, w') -> heap w' = heap w.
Proof.
  intros H. unfold NewStepsContext in H.
  apply M_bind_Ok in H as (out & w1 & H1 & H). apply M_bind_Ok in H as (ex & w2 & H2 & H).
  inv_M. rewrite <- (NewStepFileInTmp_heap w), H1. cbn. rewrite <- (NewStepFileInTmp_heap w1), H2.
  done.
Qed.

Lemma close_on_error_Ok {A} job (m : M A) w a w' :
  close_on_error job m w = (Ok a, w') -> m w = (Ok a, w').
Proof. unfold close_on_error. destruct (m w) as [[]]; naive_solver. Qed.

(** The step of a parsed definition is loaded, and returns no result only when
    the log cannot be written. *)
Lemma Parse_loaded gc sd p l step :
  Parse gc sd p l = Ok step ->
  forall fuel s w e s' w', run fuel step s w = (Ok (None, e, s'), w') ->
    exists err, e = Some (WrapError "writing to stdout: " err "").
Proof.
  unfold Parse. intros H. apply bind_Ok in H as ([] & _ & H). apply wrap_err_Ok in H.
  unfold parseStepType in H. destruct (IsTypeExec sd).
  - injection H as <-. intros [|fuel] s w e s' w' Hr; [done|]. cbn [run] in Hr.
    unfold Executable_Run in Hr. apply M_bind_Ok in Hr as ([[]|err] & w1 & Hl & Hr).
    + exfalso. apply M_bind_Ok in Hr as ([[env s2]|] & w2 & _ & Hr); [|by inv_M].
      apply M_bind_Ok in Hr as (? & ? & _ & Hr).
      apply M_bind_Ok in Hr as ([er [|]] & ? & _ & Hr); [by inv_M|].
      apply M_bind_Ok in Hr as ([|] & ? & _ & Hr); [|by inv_M].
      apply M_bind_Ok in Hr as ([|] & ? & _ & Hr); [|by inv_M].
      apply M_bind_Ok in Hr as (? & ? & _ & Hr). apply M_bind_Ok in Hr as (? & ? & _ & Hr). by inv_M.
    + apply catch_inr in Hl. unfold Logln, Logf in Hl.
      destruct (Write_stdout _ _) as [[e0|] o]; [|done]. injection Hl as <- _. inv_M. by eexists.
  - destruct (IsTypeSteps sd); [|done]. apply bind_Ok in H as (steps & _ & [= <-]).
    intros [|fuel] s w e s' w' Hr; [done|]. cbn [run] in Hr. exfalso.
    unfold Sequence_Run in Hr. apply M_bind_Ok in Hr as ([[env s2]|] & w2 & _ & Hr); [|by inv_M].
    apply M_bind_Ok in Hr as (? & ? & _ & Hr).
    apply M_bind_Ok in Hr as ([[? [|]] ?] & ? & _ & Hr); [by inv_M|].
    apply M_bind_Ok in Hr as (? & ? & _ & Hr).
    apply M_bind_Ok in Hr as ([|] & ? & _ & Hr); by inv_M.
Qed.
End prepare_facts.

(** ** Properties *)

(** C26: no job is lost.  When requests for one identifier are served one after
    the other, a job that was not closed is the one of its identifier: its status can be
    asked for, and it can be closed; an identifier without an open job is
    unknown, or that of a job [Close] is done with. *)
Theorem no_job_is_lost `{MR : MapRange} rs s :
  steps exclusive_step NewService rs s ->
  (forall l js, store s !! l = Some js -> ID (job js) <> "" -> closer js <> CloseDone ->
    Service_Status s (ID (job js)) = Ok [Status (job js)] /\
    SyncMap.Get (jobs s) (ID (job js)) = Some l) /\
  (forall id, id <> "" ->
    (Service_Status s id = Err (errBadJobID id) /\
     forall l js, store s !! l = Some js -> ID (job js) = id -> closer js = CloseDone) \/
    exists l js, store s !! l = Some js /\ ID (job js) = id /\
      Service_Status s id = Ok [Status (job js)]).
Proof.
  intros Hrun. split; [intros l js; by apply (open_job_status rs)|].
  destruct (service_invariant rs s Hrun) as [He Hj _ _ _]. unfold Service_Status, SyncMap.Get.
  intros id Hid. apply String.eqb_neq in Hid. rewrite Hid. cbn.
  destruct (SyncMap.data (jobs s) !! id) as [l|] eqn:Hm.
  - right. destruct (He id l Hm) as (js & Hl & Hi). exists l, js. by rewrite Hl.
  - left. split; [done|]. intros l js Hl Hi. destruct (Hj l js Hl) as [Hd|Hm']; [done|].
    rewrite Hi in Hm'. congruence.
Qed.

(** C27: a run request that is accepted.  The job is new and has the identifier
    of the request; its steps are the compiled steps of the request, in its
    build or work directory; they see the variables of the request over the
    environment of the service with the requested log level, the job
    variables, and no input but the defaults of their specification; and they
    return no result only when the log cannot be written. *)
Theorem accepted_request `{Sy : System} `{JS : !JobSystem} `{SE : StepFileEnv} `{SP : StructPB}
    `{MR : MapRange} `{FM : schema.Format} env wait request w j sc step w' :
  acyclic (heap w) -> env < length (heap w) ->
  prepare env wait request w = (Ok (j, sc, step), w') ->
  fresh j /\ ID j = proto.Request_Id request /\
  exists specDef jobVars, loadSteps (proto.Request_Steps request) request = Ok specDef /\
    (Dir specDef <> "" -> WorkDir j = Dir specDef) /\
    sc_stepDir sc = Dir specDef /\
    gc_workDir (sc_globalCtx sc) = WorkDir j /\ gc_job (sc_globalCtx sc) = jobVars /\
    gc_env (sc_globalCtx sc) = sc_env sc /\
    (exists w1 w2, Prepare (proto.Request_Job request) (TmpDir j) w1 = (Ok jobVars, w2)) /\
    Values (heap w') (sc_env sc) =
      proto.Request_Env request ∪
      <[LogLevelEnvName := requested_level (heap w) env jobVars]> (Values (heap w) env) /\
    sc_inputs sc = proto.Input_Default <$> SpecInputs specDef /\
    map_Forall (fun k i => is_Some i) (sc_inputs sc) /\
    forall fuel w1 e s' w2, run fuel step sc w1 = (Ok (None, e, s'), w2) ->
      exists err, e = Some (WrapError "writing to stdout: " err "").
Proof.
  intros Ha Henv H. unfold prepare in H.
  apply M_bind_Ok in H as (sd & w0 & H0 & H). apply wrap_Ok, lift_Ok in H0 as [Hload ->].
  apply M_bind_Ok in H as (job & w1 & Hnew & H). apply wrap_Ok in Hnew.
  pose proof (New_same_heap (proto.Request_Id request) (Dir sd)
    (if (wait =? 0)%Z then [] else [WithRunExitWaitTime wait]) w) as Hh1.
  unfold effect, same_heap in Hh1. rewrite Hnew in Hh1. cbn in Hh1.
  apply New_fresh in Hnew as (Hfresh & Hid & Hwd);
    [|destruct (wait =? 0)%Z; repeat constructor].
  apply close_on_error_Ok in H.
  apply M_bind_Ok in H as (jobVars & w3 & Hprep & H). apply wrap_Ok in Hprep.
  pose proof (Prepare_heap _ _ _ _ _ Hprep) as Hh3. rewrite Hh1 in Hh3.
  apply M_bind_Ok in H as (genv & w4 & Hg & H). apply wrap_Ok in Hg.
  unfold on_heap_res in Hg. destruct (GlobalEnvironment _ _ _) as [[ge h4]| | |] eqn:Hglob; try done.
  injection Hg as <- <-. rewrite Hh3 in Hglob.
  apply GlobalEnvironment_Ok in Hglob as (Hlev & Ha4 & -> & Hlen & _ & _ & HV); [|done..].
  apply M_bind_Ok in H as (ce & w5 & Hadd & H). unfold on_heap in Hadd. cbn in Hadd.
  pose proof (Values_AddLexicalScope h4 (S (length (heap w))) (proto.Request_Env request) Ha4 ltac:(lia)) as HV5.
  destruct (AddLexicalScope h4 _ _) as [ce' h5] eqn:Hadd5. injection Hadd as -> <-.
  cbn [fst snd] in HV5. rewrite HV in HV5.
  apply M_bind_Ok in H as (gc & w6 & Hgc & H). apply lift_Ok in Hgc as [Hgc ->]. injection Hgc as <-.
  apply M_bind_Ok in H as (st & w7 & Hst & H). apply lift_Ok in Hst as [Hst ->].
  apply wrap_err_Ok in Hst.
  apply M_bind_Ok in H as (sc0 & w8 & Hsc & H). apply ret_Ok in H as [[= <- <- <-] <-].
  pose proof (NewStepsContext_heap _ _ _ _ _ _ _ Hsc) as Hh8.
  apply NewStepsContext_Ok in Hsc as (out & ex & ->); [|done]. cbn in *.
  split; [done|]. split; [done|]. exists sd, jobVars. repeat apply conj; try done.
  - by eexists _, _.
  - rewrite Hh8. exact HV5.
  - apply map_eq. intros k. rewrite NewInputsWithDefault_lookup, lookup_fmap. cbn.
    by rewrite lookup_empty.
  - intros k i. rewrite NewInputsWithDefault_lookup. cbn. rewrite lookup_empty.
    intros (si & Hsi & ->)%fmap_Some. apply Parse_inputs in Hst.
    destruct (Hst k si Hsi) as [Hx|]; [|done]. cbn in Hx. rewrite lookup_empty in Hx. by destruct Hx.
  - intros fuel w1' e s' w2'. by apply (Parse_loaded _ _ _ _ _ Hst).
Qed.

(** ** Two interleavings *)

(** Two concurrent [Run]s of one identifier both find no job: both jobs are
    executed, and only the second can be asked for or closed. *)
Example concurrent_runs_lose_a_job j1 j2 :
  exists s, steps service_step NewService
      [RunGets "1"; RunGets "1"; RunPuts "1" j1; RunPuts "1" j2] s /\
    store s = [started j1; started j2] /\ SyncMap.Get (jobs s) "1" = Some 1%nat.
Proof.
  eexists. split.
  - apply (run_labels_steps serve). vm_compute. reflexivity.
  - split; reflexivity.
Qed.

(** The steps of one job panic: after its deferred calls the process is dead, and no
    request is served any more, whatever job it is for. *)
Example panic_kills_service j1 j2 p :
  finishC j1 = 0%nat ->
  exists s, steps service_step NewService
      [RunGets "1"; RunPuts "1" j1; RunGets "2"; RunPuts "2" j2;
       JobEvent 0 RunEnters; JobEvent 0 (RunStarts 1); JobEvent 0 (StepPanics p);
       JobEvent 0 RunCleansUp; JobEvent 0 RunClosesLogs; JobEvent 0 RunSignals; JobEvent 0 ProcessDies] s /\
    alive s = false /\ forall r, serve s r = None.
Proof.
  intros Hf. destruct j1 as [? ? ? ? ? ? ? n]. cbn in Hf. subst n. eexists. split; [|split].
  - apply (run_labels_steps serve). vm_compute. reflexivity.
  - reflexivity.
  - intros r. reflexivity.
Qed.

(** Of two [Close]s of one job, the one that is late removes the identifier of
    the job that was run in between. *)
Example late_close_loses_a_job j1 j2 :
  exists s, steps service_step NewService
      [RunGets "1"; RunPuts "1" j1; CloseGets "1"; CloseGets "1";
       JobEvent 0 CloseEnters; JobEvent 0 CloseCancels; JobEvent 0 CloseTimesOut; JobEvent 0 CloseRemoves;
       CloseRemovesEntry "1" 0; RunGets "1"; RunPuts "1" j2; CloseRemovesEntry "1" 0] s /\
    (exists js, store s = [js; started j2]) /\ SyncMap.Get (jobs s) "1" = None.
Proof.
  eexists. split.
  - apply (run_labels_steps serve). vm_compute. reflexivity.
  - split; [eexists|]; reflexivity.
Qed.

(** C20: the steps of a job, from text to step.  When the files are decoded by the
    schema's hooks over any YAML decoder, a request whose steps are read, and which
    the compiler accepts, always becomes a step, in any context: the parser knows
    every form of reference the compiler emits, and what can be missing is only an
    input that has no default.  The compiler does not accept all that is decoded: a
    reference that is null, or that is two references at once, is decoded. *)
Theorem loaded_steps_parse `{Sy : System} `{SP : StructPB} `{MR : MapRange} `{FM : schema.Format}
    `{JN : JSON} decode content request sd gc :
  (forall text, unmarshalSchema text = decoding.unmarshalSchema decode text) ->
  loadSteps content request = Ok sd ->
  match Parse gc sd {| Params_Inputs := ∅; Params_Env := ∅ |} StepDefinedInGitLabJob with
  | Ok step => map_Forall (fun _ i => is_Some (proto.Input_Default i)) (SpecInputs sd)
  | Err err => exists k i, SpecInputs sd !! k = Some i /\ proto.Input_Default i = None
  | _ => False
  end.
Proof.
  intros Hdec H. unfold loadSteps in H. apply bind_Ok in H as ([spec st] & Hr%wrap_err_Ok & H).
  apply bind_Ok in H as (pspec & _ & H). apply bind_Ok in H as (def & Hc%wrap_err_Ok & [= <-]).
  unfold ReadSteps in Hr. rewrite Hdec in Hr. apply bind_Ok in Hr as ([spec' st'] & Hu%wrap_err_Ok & Hr).
  destruct (validateSpec spec'); [done|]. destruct (validateStep st'); [done|]. injection Hr as -> ->.
  apply decoding.unmarshalSchema_Ok in Hu as (_ & _ & Hrun).
  set (dir := match proto.Request_Job request with Some _ => _ | None => _ end).
  set (sd := NewSpecDefinition pspec def dir). set (params := {| Params_Inputs := ∅; Params_Env := ∅ |}).
  destruct (decide (map_Forall (fun _ i => is_Some (proto.Input_Default i)) (SpecInputs sd))) as [Hd|Hd].
  - assert (validateInputs (SpecInputs sd) (Params_Inputs params) = Ok tt) as Hv.
    { apply validateInputs_Ok. intros k i Hi. right. by eapply Hd. }
    assert (exists step, Parse gc sd params StepDefinedInGitLabJob = Ok step) as [step ->]; [|done].
    apply compiled_parses with (st := st); [exact Hc| |exact Hv].
    destruct (schema.Step_Run st) as [ss|]; [|done]. eapply Forall_impl; [exact Hrun|].
    intros s. unfold decoding.typed_value. by destruct (schema.Step_Step s).
  - unfold Parse. destruct (validateInputs_returns (SpecInputs sd) (Params_Inputs params)) as [Hv|[err Hv]].
    + exfalso. apply Hd. apply validateInputs_Ok in Hv. intros k i Hi.
      specialize (Hv k i Hi) as [[x Hx]|He]; [by cbn in Hx; rewrite lookup_empty in Hx|done].
    + rewrite Hv. cbn. apply map_not_Forall in Hd as (k & i & Hi & Hn); [|apply _].
      exists k, i. split; [done|]. destruct (proto.Input_Default i); [|done]. by destruct Hn.
Qed.
