(* ===== verification/Commands.v ===== *)
(** The commands that run steps: [step-runner run] (src/cmd/run/run.go) and
    [step-runner ci] (src/cmd/ci/ci.go), the report they write
    (src/pkg/report/step_result_report.go) and the container that builds their
    parser (src/pkg/di/container.go), as far as the definition of the flags, which
    is the command-line library's.  They are calls of the monad of World.v,
    composed of the schema's compiler, the parser and the runner. *)

From stdpp Require Import gmap strings list fin_maps.
From S2P Require Import Prelude GoStrings GoPaths Values Environment Proto StepFile Schema.
From S2P Require Import SpecDefinition World Resources Runner Jobs.
Open Scope go_scope.
Open Scope string_scope.
Open Scope list_scope.

(** What the commands ask of the operating system and of the libraries. *)
Class CommandSystem `{JobSystem} := {
  (** [os.Environ()] *)
  Environ : os_state -> list string;
  (** [yaml.Unmarshal(text, &def.Run)] into a new step *)
  UnmarshalRun : string -> res (option (list schema.Step));
  (** [prototext.Unmarshal(data, defn)] into a new definition *)
  UnmarshalDefinition : string -> res proto.Definition_;
  (** [protojson.Marshal] and [prototext.Marshal]; the result may be nil *)
  MarshalJSON : option proto.StepResult -> string + error;
  MarshalText : option proto.StepResult -> string + error;
  UnmarshalRun_decided text : decided (UnmarshalRun text) = true;
  UnmarshalDefinition_decided data : decided (UnmarshalDefinition data) = true
}.

(** [os.Getenv(key)]: the first entry of the name; the empty string without one. *)
Fixpoint getenv (environ : list string) (key : string) : string :=
  match environ with
  | [] => ""
  | e :: environ' =>
      let '(k, v, ok) := Cut e "=" in
      if ok && String.eqb k key then v else getenv environ' key
  end.

(** [&proto.Spec{Spec: &proto.Spec_Content{}}] *)
Definition empty_spec : proto.Spec := {| proto.Spec_Spec := {|
  proto.Content_Inputs := ∅; proto.Content_Outputs := ∅; proto.Content_OutputMethod := proto.outputs |} |}.

(** [&schema.Step{}] with its field [Run]. *)
Definition run_only (r : option (list schema.Step)) : schema.Step := {|
  schema.Step_Action := None; schema.Step_Delegate := None; schema.Step_Env := ∅;
  schema.Step_Exec := None; schema.Step_Inputs := ∅; schema.Step_Name := None;
  schema.Step_Outputs := ∅; schema.Step_Script := None; schema.Step_Step := schema.SVNil;
  schema.Step_Run := r |}.

(** [&runner.Params{}] *)
Definition empty_params : Params := {| Params_Inputs := ∅; Params_Env := ∅ |}.

(** ** Reports (step_result_report.go) *)

(** [type Format string], by its constants. *)
Definition FormatJSON : string := "json".
Definition FormatProtoText : string := "prototext".

(** [type StepResultReport struct] *)
Record StepResultReport := { filename : string; format : string }.

Definition NewStepResultReport (filename format : string) : StepResultReport :=
  {| filename := filename; format := format |}.

(** The file of the report. *)
Definition report_file (r : StepResultReport) : string :=
  if String.eqb (filename r) "" && String.eqb (format r) FormatJSON then "step-results.json"
  else if String.eqb (filename r) "" && String.eqb (format r) FormatProtoText then "step-results.txtpb"
  else filename r.

Section report.
  Context `{CS : CommandSystem}.

(** The function the format selects. *)
Definition marshaller (format : string) : option (option proto.StepResult -> string + error) :=
  if String.eqb format FormatJSON then Some MarshalJSON
  else if String.eqb format FormatProtoText then Some MarshalText
  else None.

(** [r.Write(result)] *)
Definition Write (r : StepResultReport) (result : option proto.StepResult) : M unit :=
  match marshaller (format r) with
  | None => lift (Err (NewError ("unsupported format: " +:+ format r)))
  | Some marshal =>
      wrap "failed to write step results report: "
        (match marshal result with
         | inr err => lift (Err err)
         | inl data => os_WriteFile (report_file r) data
         end)
  end.

(** [fmt.Println(text)]: its error is dropped. *)
Definition Println (text : string) : M unit := fun w =>
  (Ok tt, set_os (Write_stdout (os w) (text +:+ newline)).2 w).

(** The report of a command: an error of the report is only printed. *)
Definition report_result (enabled : bool) (r : StepResultReport) (result : option proto.StepResult) :
    M unit :=
  if enabled then
    reptErr ← catch (Write r result);
    match reptErr with
    | inr reptErr => Println (Error reptErr)
    | inl _ => mret tt
    end
  else mret tt.

(** ** The container (container.go) *)

(** [c.CacheDir()] *)
Definition CacheDir : M string :=
  let cacheDir := PathJoin [TempDir; "step-runner-cache"] in
  _ ← wrap ("creating cache dir " +:+ quote cacheDir +:+ ": ") (mkdirAll cacheDir);
  mret cacheDir.

(** [c.GitFetcher()], [c.StepResourceParser()] and [c.StepParser()]: the parser,
    whose fetchers are those of the system, by the directory of its Git cache. *)
Definition GitFetcher : M string := wrap "creating git fetcher: " CacheDir.
Definition StepResourceParser : M string := wrap "creating step resource parser: " GitFetcher.
Definition StepParser : M string := wrap "creating step parser: " StepResourceParser.

(** [c.StepRunnerService()]: what a new service holds, the environment of the
    process and the parser. *)
Definition StepRunnerService : M (loc * string) :=
  w ← get;
  env ← wrap "creating step runner service: "
          (on_heap_res (fun h => NewEnvironmentFromOS h (Environ (os w)) []));
  stepParser ← wrap "creating step runner service: " StepParser;
  mret (env, stepParser).
End report.

(** ** Running a step (package [run]) *)

Module run.

(** [type Options struct] *)
Record Options := {
  Opt_Step : string;
  OCIRegistry : string;
  OCIRepository : string;
  OCITag : string;
  OCIDir : string;
  OCIFilename : string;
  GitURL : string;
  GitRev : string;
  GitDir : string;
  Inputs : gmap string string;
  Env : gmap string string;
  Opt_Job : gmap string string;
  TextProtoStepFile : string;
  WriteStepResults : bool;
  StepResultsFile : string;
  StepResultsFormat : string
}.

(** [excludeJobVars(envName)] *)
Definition excludeJobVars (envName : string) : bool :=
  HasPrefix envName "CI_" || HasPrefix envName "GITLAB_" || HasPrefix envName "FF_" ||
  HasPrefix envName "DOCKER_ENV_".

Section run.
  Context `{CS : CommandSystem} `{SE : StepFileEnv} `{SP : StructPB} `{MR : MapRange}
    `{FM : schema.Format}.

(** [yamlObject(name, values)]: the entries in the order the map is ranged. *)
Definition yamlObject (name : string) (values : gmap string string) : string :=
  if decide (values = ∅) then ""
  else "  " +:+ name +:+ ":" +:+ newline +:+
       String.concat "" ((fun '(name, value) => "    " +:+ name +:+ ": " +:+ value +:+ newline)
                           <$> map_range values).

(** A line that is written unless its value is empty. *)
Definition optional_line (name value : string) : string :=
  if String.eqb value "" then "" else "      " +:+ name +:+ ": " +:+ value +:+ newline.

(** [yamlStep(options)] *)
Definition yamlStep (options : Options) : res string :=
  yml ← (if HasPrefix (Opt_Step options) "step:" then Ok ("- " +:+ Opt_Step options +:+ newline)
         else if negb (String.eqb (Opt_Step options) "") then
           Ok ("- step: " +:+ Opt_Step options +:+ newline)
         else if negb (String.eqb (GitURL options) "") then
           Ok ("- step:" +:+ newline +:+ "    git:" +:+ newline +:+
               "      url: " +:+ GitURL options +:+ newline +:+
               optional_line "rev" (GitRev options) +:+ optional_line "dir" (GitDir options))
         else if negb (String.eqb (OCIRegistry options) "") then
           Ok ("- step:" +:+ newline +:+ "    oci:" +:+ newline +:+
               "      registry: " +:+ OCIRegistry options +:+ newline +:+
               "      repository: " +:+ OCIRepository options +:+ newline +:+
               "      tag: " +:+ OCITag options +:+ newline +:+
               optional_line "dir" (OCIDir options) +:+ optional_line "file" (OCIFilename options))
         else Err (NewError "no step specified"));
  Ok (yml +:+ yamlObject "inputs" (Inputs options) +:+ yamlObject "env" (Env options)).

(** [wrapStepsInSingleStep(ymlSteps)] *)
Definition wrapStepsInSingleStep (ymlSteps : string) : res schema.Step :=
  r ← UnmarshalRun ymlSteps or_wrap "failed to unmarshal step: ";
  Ok (run_only r).

(** The definition to run: that of a text file, or the one the options make. *)
Definition load_definition (options : Options) : M SpecDefinition :=
  if negb (String.eqb (TextProtoStepFile options) "") then
    w ← get;
    data ← lift (match files w !! TextProtoStepFile options with
                 | Some data => Ok data
                 | None => Err (open_error (TextProtoStepFile options))
                 end);
    defn ← lift (UnmarshalDefinition data);
    mret (NewSpecDefinition empty_spec defn (PathDir (TextProtoStepFile options)))
  else
    yml ← lift (yamlStep options);
    def ← lift (wrapStepsInSingleStep yml);
    protoDef ← lift (schema.Compile def);
    mret (NewSpecDefinition empty_spec protoDef "").

(** [createGlobalCtx(options)] *)
Definition createGlobalCtx (options : Options) : M GlobalContext :=
  w ← get;
  env ← on_heap_res (fun h => NewEnvironmentFromOS h (Environ (os w)) [excludeJobVars]);
  env ← on_heap_res (fun h => GlobalEnvironment h env (Opt_Job options));
  workDir ← wrap "failed to create work dir: " (fun w => (Getwd (os w), w));
  lift (NewGlobalContext workDir (Opt_Job options) env).

(** What [run] does once the context of the step is made, the deferred clean-up
    included: the step, the report of its result, and the error of the step. *)
Definition run_in_context (fuel : nat) (options : Options) (step : Step) (stepsCtx : StepsContext) : M unit :=
  finally
    ('(result, err, _) ← Runner.run fuel step stepsCtx;
     _ ← report_result (WriteStepResults options || negb (String.eqb (StepResultsFile options) ""))
           (NewStepResultReport (StepResultsFile options) (StepResultsFormat options)) result;
     match err with Some err => lift (Err err) | None => mret tt end)
    (Cleanup stepsCtx).

(** [run(options)]; [fuel] bounds the depth of the definitions that are run. *)
Definition run (fuel : nat) (options : Options) : M unit :=
  specDef ← load_definition options;
  globalCtx ← createGlobalCtx options;
  _ ← StepParser;
  step ← lift (Parse globalCtx specDef empty_params StepDefinedInGitLabJob);
  let inputs := NewInputsWithDefault empty_params (SpecInputs specDef) in
  stepsCtx ← NewStepsContext globalCtx (Dir specDef) inputs (gc_env globalCtx) [];
  run_in_context fuel options step stepsCtx.
End run.

End run.

(** ** Running the steps of a job (package [ci]) *)

Module ci.

(** [type Options struct] *)
Record Options := {
  WriteStepResultsFile : bool;
  Opt_Steps : string;
  Opt_WorkDir : string;
  JobVariables : gmap string string
}.

Definition prefixes : list string := ["CI_"; "GITLAB_"; "DOCKER_"].

(** [findJobVariables()], of the entries of [os.Environ()]. *)
Fixpoint job_variables (environ : list string) (variables : gmap string string) : gmap string string :=
  match environ with
  | [] => variables
  | e :: environ' =>
      let '(k, v, ok) := Cut e "=" in
      if negb ok || negb (existsb (HasPrefix k) prefixes) then job_variables environ' variables
      else job_variables environ' (<[k := v]> variables)
  end.

Section ci.
  Context `{CS : CommandSystem} `{SE : StepFileEnv} `{SP : StructPB} `{MR : MapRange}
    `{FM : schema.Format}.

Definition findJobVariables (w : World) : gmap string string := job_variables (Environ (os w)) ∅.

(** [findWorkDir()]: the error of [os.Getwd] is dropped. *)
Definition findWorkDir (w : World) : string :=
  let workDir := getenv (Environ (os w)) "CI_PROJECT_DIR" in
  if String.eqb workDir "" then match Getwd (os w) with Ok d => d | _ => "" end else workDir.

(** The options [NewCmd] starts from; [debug] is the default of the flag. *)
Definition NewCmd_options (debug : bool) (w : World) : Options := {|
  WriteStepResultsFile := debug;
  Opt_Steps := getenv (Environ (os w)) "STEPS";
  Opt_WorkDir := findWorkDir w;
  JobVariables := findJobVariables w |}.

(** [wrapStepsInSpecDef(steps)] *)
Definition wrapStepsInSpecDef (steps : string) : res schema.Step :=
  r ← UnmarshalRun steps or_wrap "unmarshalling steps: ";
  Ok (run_only r).

Definition warning : list string :=
  ["***** WARNING *****";
   "As of GitLab Runner 17.11, the legacy step-runner image registry.gitlab.com/gitlab-org/step-runner:v0 is replaced by the image defined by the job.";
   "The legacy step-runner image will be supported until GitLab 18.0.";
   "See https://docs.gitlab.com/ci/steps/ for information on how to configure CI/CD Steps.";
   "***** END WARNING *****"].

Fixpoint print_lines (lines : list string) : M unit :=
  match lines with
  | [] => mret tt
  | l :: lines' => _ ← Println l; print_lines lines'
  end.

Definition load_definition (options : Options) : res SpecDefinition :=
  def ← wrapStepsInSpecDef (Opt_Steps options)
          or_wrap ("reading STEPS " +:+ quote (Opt_Steps options) +:+ ": ");
  protoDef ← schema.Compile def or_wrap "compiling STEPS: ";
  Ok (NewSpecDefinition empty_spec protoDef "").

(** The global context of the job. *)
Definition job_context (options : Options) : M GlobalContext :=
  w ← get;
  osEnv ← on_heap_res (fun h => NewEnvironmentFromOSWithKnownVars h (Environ (os w)));
  globalEnv ← on_heap_res (fun h => GlobalEnvironment h osEnv (JobVariables options));
  lift (NewGlobalContext (Opt_WorkDir options) (JobVariables options) globalEnv).

(** The steps, the report and the deferred clean-up. *)
Definition run_in_context (fuel : nat) (options : Options) (step : Step) (stepsCtx : StepsContext) : M unit :=
  finally
    ('(result, err, _) ← Runner.run fuel step stepsCtx;
     _ ← report_result (WriteStepResultsFile options) (NewStepResultReport "" FormatJSON) result;
     match err with
     | Some err => lift (Err (WrapError "failed to run steps: " err ""))
     | None => mret tt
     end)
    (Cleanup stepsCtx).

(** [run(options)] *)
Definition run (fuel : nat) (options : Options) : M unit :=
  _ ← print_lines warning;
  specDef ← lift (load_definition options);
  globalCtx ← job_context options;
  _ ← StepParser;
  step ← wrap "failed to run steps: "
           (lift (Parse globalCtx specDef empty_params StepDefinedInGitLabJob));
  env ← on_heap (fun h => AddLexicalScope h (gc_env globalCtx) (Params_Env empty_params));
  let inputs := NewInputsWithDefault empty_params (SpecInputs specDef) in
  stepsCtx ← wrap "creating steps context: "
               (NewStepsContext globalCtx (Dir specDef) inputs env []);
  run_in_context fuel options step stepsCtx.
End ci.

End ci.
