(* ===== verification/CommandsFacts.v ===== *)
(** What the commands of Commands.v guarantee: the environment they give the
    steps, that they end, and what is left of a run when they return. *)

From stdpp Require Import gmap strings list fin_maps.
From S2P Require Import Prelude GoStrings GoPaths Values Environment Proto StepFile Schema.
From S2P Require Import SpecDefinition World Resources Runner RunnerFacts Termination Jobs Commands.
Open Scope go_scope.
Open Scope string_scope.
Open Scope list_scope.

(** ** The environment of the operating system *)

(** The last value the entries give a name. *)
Definition last_value (environ : list string) (key : string) : option string :=
  foldl (fun acc e => let '(k, v, ok) := Cut e "=" in
                      if ok && String.eqb k key then Some v else acc) None environ.

Lemma last_value_acc environ key acc :
  foldl (fun acc e => let '(k, v, ok) := Cut e "=" in
                      if ok && String.eqb k key then Some v else acc) acc environ =
  match last_value environ key with Some v => Some v | None => acc end.
Proof.
  unfold last_value. revert acc. induction environ as [|e environ IH]; intros acc; cbn; [done|].
  destruct (Cut e "=") as [[k v] ok]. destruct (ok && String.eqb k key); [|apply IH].
  rewrite (IH (Some v)). by destruct (foldl _ None environ).
Qed.

Lemma os_vars_lookup reject environ vs m k :
  os_vars reject environ vs = Ok m ->
  m !! k = match last_value environ k with
           | Some v => if acceptEnvName k reject then Some v else vs !! k
           | None => vs !! k
           end.
Proof.
  revert vs. induction environ as [|e environ IH]; cbn [os_vars]; intros vs; [by intros [= ->]|].
  unfold last_value. cbn [foldl]. destruct (Cut e "=") as [[name v] ok]. destruct ok; [|done].
  intros H. rewrite (IH _ H), last_value_acc. cbn [andb].
  destruct (last_value environ k) as [v'|].
  - destruct (acceptEnvName k reject) eqn:Hk; [done|].
    destruct (acceptEnvName name reject) eqn:Hn; [|done].
    apply lookup_insert_ne. congruence.
  - destruct (String.eqb_spec name k) as [->|Hne].
    + destruct (acceptEnvName k reject); [apply lookup_insert_eq|done].
    + destruct (acceptEnvName name reject); [by apply lookup_insert_ne|done].
Qed.

(** The variables of a new environment made of the entries, but those rejected. *)
Lemma NewEnvironmentFromOS_Ok h environ reject e h' :
  acyclic h -> NewEnvironmentFromOS h environ reject = Ok (e, h') ->
  acyclic h' /\ e < length h' /\ length h <= length h' /\
  (forall x, x < length h -> Values h' x = Values h x) /\
  (forall k, Values h' e !! k =
     if acceptEnvName k reject then last_value environ k else None).
Proof.
  intros Ha. unfold NewEnvironmentFromOS. intros (vs & Hvs & [= <- <-])%bind_Ok.
  pose proof (Values_NewEnvironment h vs Ha) as HV.
  pose proof (acyclic_NewEnvironment h vs Ha) as Ha'. cbn [NewEnvironment alloc fst snd] in HV, Ha'.
  rewrite length_app. cbn [length]. repeat (split; [done || lia|]). split.
  - intros x Hx. by apply Values_alloc.
  - intros k. rewrite HV, (os_vars_lookup _ _ _ _ k Hvs), lookup_empty.
    by destruct (acceptEnvName k reject), (last_value environ k).
Qed.

(** The global environment on top of it. *)
Lemma GlobalEnvironmentFromOS_Ok h environ reject jobVars p h1 e h2 :
  acyclic h -> NewEnvironmentFromOS h environ reject = Ok (p, h1) ->
  GlobalEnvironment h1 p jobVars = Ok (e, h2) ->
  acyclic h2 /\ e < length h2 /\ (forall x, x < length h -> Values h2 x = Values h x) /\
  requested_level h1 p jobVars ∈ log_levels /\
  (forall k, Values h2 e !! k =
     if String.eqb k LogLevelEnvName then Some (requested_level h1 p jobVars)
     else if acceptEnvName k reject then last_value environ k else None) /\
  ValueOf h1 p LogLevelEnvName =
    default "" (if acceptEnvName LogLevelEnvName reject then last_value environ LogLevelEnvName else None).
Proof.
  intros Ha Hp He. apply NewEnvironmentFromOS_Ok in Hp as (Ha1 & Hpl & Hlen & Hold & HV); [|done].
  apply GlobalEnvironment_Ok in He as (Hl & Ha2 & -> & Hlen2 & _ & Hobj & HV2); [|done..].
  split; [done|]. split; [lia|]. split.
  { intros x Hx. rewrite <-Hold by done. apply Values_agree; [done|done|lia|]. intros y Hy.
    apply Hobj. apply (reaches_below h1 x y); [done|lia|done]. }
  split; [done|]. split.
  - intros k. rewrite HV2. destruct (String.eqb_spec k LogLevelEnvName) as [->|Hne].
    + apply lookup_insert_eq.
    + rewrite lookup_insert_ne by done. apply HV.
  - unfold ValueOf. by rewrite HV.
Qed.

(** ** The global context of a command *)

Section commands.
  Context `{CS : CommandSystem} `{SE : StepFileEnv} `{SP : StructPB} `{MR : MapRange}
    `{FM : schema.Format}.

(** The level a command gives its steps: that of the job variables, whatever the
    process was given. *)
Definition job_level (jobVars : gmap string string) : string :=
  let l := ToLower (TrimSpace (default "" (jobVars !! LogLevelEnvName))) in
  if String.eqb l "" then "info" else l.

(** A global environment whose log level is [l] and whose other variables are
    those of the entries that are kept. *)
Definition os_environment (w : World) (keep : string -> bool) (l : string) (g : GlobalContext)
    (w' : World) : Prop :=
  acyclic (heap w') /\ gc_env g < length (heap w') /\
  (forall x, x < length (heap w) -> Values (heap w') x = Values (heap w) x) /\
  l ∈ log_levels /\
  forall k, Values (heap w') (gc_env g) !! k =
    if String.eqb k LogLevelEnvName then Some l
    else if keep k then last_value (Environ (os w)) k else None.

Lemma on_heap_res_Ok {A} (f : env_heap -> res (A * env_heap)) w a w' :
  on_heap_res f w = (Ok a, w') -> f (heap w) = Ok (a, heap w') /\ w' = set_heap (heap w') w.
Proof.
  unfold on_heap_res. destruct (f (heap w)) as [[a' h']| | |] eqn:E; try done. by intros [= <- <-].
Qed.

(** The two steps the commands make their environment in. *)
Lemma command_environment (reject : list (string -> bool)) (jobVars : gmap string string) w p w1 e w2 :
  acyclic (heap w) ->
  on_heap_res (fun h => NewEnvironmentFromOS h (Environ (os w)) reject) w = (Ok p, w1) ->
  on_heap_res (fun h => GlobalEnvironment h p jobVars) w1 = (Ok e, w2) ->
  acceptEnvName LogLevelEnvName reject = false ->
  os w2 = os w /\ files w2 = files w /\ filesDir w2 = filesDir w /\
  forall d, os_environment w (fun k => acceptEnvName k reject) (job_level jobVars)
    {| gc_workDir := d; gc_job := jobVars; gc_env := e |} w2.
Proof.
  intros Ha [Hp ->]%on_heap_res_Ok [He ->]%on_heap_res_Ok Hr. cbn in *.
  destruct (GlobalEnvironmentFromOS_Ok _ _ _ _ _ _ _ _ Ha Hp He) as (Ha2 & Hlen & Hold & Hl & HV & Hn).
  repeat (split; [done|]). rewrite Hr in Hn.
  assert (requested_level (heap w1) p jobVars = job_level jobVars) as Heq.
  { unfold requested_level, job_level. cbv zeta. rewrite Hn.
    destruct (String.eqb (ToLower (TrimSpace (default _ (jobVars !! _)))) _) eqn:E; [reflexivity|by rewrite E]. }
  rewrite Heq in Hl, HV. repeat (split; [done|]). exact HV.
Qed.

Lemma known_vars_keep k :
  acceptEnvName k [fun envName => negb (existsb (String.eqb envName) knownVars)] =
  existsb (String.eqb k) knownVars.
Proof. cbn [acceptEnvName]. by destruct (existsb _ _). Qed.

(** The names of CI, by their prefixes. *)
Definition ci_prefixes : list string := ["CI_"; "GITLAB_"; "FF_"; "DOCKER_ENV_"].

Lemma excludeJobVars_spec k : run.excludeJobVars k = existsb (HasPrefix k) ci_prefixes.
Proof. unfold run.excludeJobVars, ci_prefixes. cbn [existsb]. by rewrite orb_false_r, !orb_assoc. Qed.

(** C11: the variables a command hands its steps.  A step run from the command line
    sees the variables of the process but those of CI (CI_, GITLAB_, FF_,
    DOCKER_ENV_); the steps of a job see only the well-known ones; and both see the
    log level that the job variables ask for, whatever the process was given.
    The context has the job variables, and no other environment is changed. *)
Theorem command_environments w :
  acyclic (heap w) ->
  (forall options g w', run.createGlobalCtx options w = (Ok g, w') ->
     gc_job g = run.Opt_Job options /\ Getwd (os w) = Ok (gc_workDir g) /\
     os_environment w (fun k => negb (existsb (HasPrefix k) ci_prefixes)) (job_level (run.Opt_Job options)) g w') /\
  (forall options g w', ci.job_context options w = (Ok g, w') ->
     gc_job g = ci.JobVariables options /\ gc_workDir g = ci.Opt_WorkDir options /\
     os_environment w (fun k => existsb (String.eqb k) knownVars) (job_level (ci.JobVariables options)) g w').
Proof.
  intros Ha. split; intros options g w' Hr; [unfold run.createGlobalCtx in Hr|unfold ci.job_context in Hr];
    apply M_bind_Ok in Hr as (w0 & w0' & [-> ->]%get_Ok & Hr);
    apply M_bind_Ok in Hr as (p & w1 & Hp & Hr); apply M_bind_Ok in Hr as (e & w2 & He & Hr).
  - apply M_bind_Ok in Hr as (d & w3 & [= Hd <-]%wrap_Ok & [Hg ->]%lift_Ok). injection Hg as <-.
    destruct (command_environment _ _ _ _ _ _ _ Ha Hp He eq_refl) as (Hos & _ & _ & Henv).
    rewrite Hos in Hd. split; [done|]. split; [done|].
    destruct (Henv d) as (He1 & He2 & He3 & He4 & He5). repeat (split; [done|]). intros k. rewrite He5.
    cbn [acceptEnvName]. rewrite excludeJobVars_spec. by destruct (existsb _ _).
  - apply lift_Ok in Hr as [Hg ->]. injection Hg as <-. unfold NewEnvironmentFromOSWithKnownVars in Hp.
    destruct (command_environment _ _ _ _ _ _ _ Ha Hp He eq_refl) as (_ & _ & _ & Henv).
    split; [done|]. split; [done|].
    destruct (Henv (ci.Opt_WorkDir options)) as (He1 & He2 & He3 & He4 & He5).
    repeat (split; [done|]). intros k. by rewrite He5, known_vars_keep.
Qed.

(** ** What is left of a run *)

(** The files after a report: the one of the report when it is asked for, or the
    part of it that is left when it cannot be written. *)
Definition reported (enabled : bool) (r : StepResultReport) (result : option proto.StepResult) (w : World) :
    file_system :=
  if enabled then
    match marshaller (format r) with
    | Some marshal =>
        match marshal result, WriteFile_error (os w) (files w) (report_file r) with
        | inl data, None => <[report_file r := data]> (files w)
        | inl data, Some (_, Some n) => <[report_file r := slice data 0 n]> (files w)
        | _, _ => files w
        end
    | None => files w
    end
  else files w.

Lemma report_result_spec enabled r result w :
  exists o, report_result enabled r result w = (Ok tt, set_os o (set_files (reported enabled r result w) w)).
Proof.
  unfold report_result, reported.
  destruct enabled; [|exists (os w); destruct w; reflexivity].
  unfold Write, Println, mbind at 1, M_bind at 1, catch.
  destruct (marshaller (format r)) as [marshal|]; [|eexists; destruct w; reflexivity].
  unfold wrap, os_WriteFile, lift. destruct (marshal result) as [data|err]; [|eexists; destruct w; reflexivity].
  destruct (WriteFile_error _ _ _) as [[err [n|]]|]; [eexists; destruct w; reflexivity..|].
  exists (os w). destruct w; reflexivity.
Qed.

(** C10: the end of a run.  When the step returns, the command returns the error of
    the step and nothing else: an error of the report is only printed.  The
    report of the result, also of a failed step, is the one file that is written, in
    full unless the write fails; then the output and the export file of the step are
    removed, each of them unless the system refuses to remove it. *)
Theorem command_returns fuel step s w result err s' w1 :
  Runner.run fuel step s w = (Ok (result, err, s'), w1) ->
  (forall options, exists w2,
     run.run_in_context fuel options step s w =
       (match err with Some err => Err err | None => Ok tt end, w2) /\
     heap w2 = heap w1 /\ filesDir w2 = filesDir w1 /\
     files w2 = remove_step_files (os w2) s
       (reported (run.WriteStepResults options || negb (String.eqb (run.StepResultsFile options) ""))
          (NewStepResultReport (run.StepResultsFile options) (run.StepResultsFormat options)) result w1)) /\
  (forall options, exists w2,
     ci.run_in_context fuel options step s w =
       (match err with Some err => Err (WrapError "failed to run steps: " err "") | None => Ok tt end, w2) /\
     heap w2 = heap w1 /\ filesDir w2 = filesDir w1 /\
     files w2 = remove_step_files (os w2) s
       (reported (ci.WriteStepResultsFile options) (NewStepResultReport "" FormatJSON) result w1)).
Proof.
  intros Hrun. split; intros options; [unfold run.run_in_context|unfold ci.run_in_context];
    unfold finally; rewrite (M_bind_step _ _ w _ w1 Hrun); cbv beta iota;
    (match goal with |- context [report_result ?b ?r ?x] =>
       destruct (report_result_spec b r x w1) as [o Ho] end);
    rewrite (M_bind_step _ _ w1 _ _ Ho); destruct err as [err|]; cbn [lift mret M_ret];
    rewrite Cleanup_spec; eexists; (split; [reflexivity|by destruct w1]).
Qed.

(** ** Commands end *)

Lemma M_bind_ext {A B} (m : M A) (f g : A -> M B) w :
  (forall a w1, m w = (Ok a, w1) -> f a w1 = g a w1) -> (m ≫= f) w = (m ≫= g) w.
Proof. unfold mbind, M_bind. destruct (m w) as [[a| | |] w1]; intros Hfg; [by apply Hfg|done..]. Qed.

Lemma finally_ext {A} (m m' : M A) d w : m w = m' w -> finally m d w = finally m' d w.
Proof. unfold finally. by intros ->. Qed.

Lemma M_bind_ext_l {A B} (m m' : M A) (f : A -> M B) w : m w = m' w -> (m ≫= f) w = (m' ≫= f) w.
Proof. unfold mbind, M_bind. by intros ->. Qed.

Lemma Write_decided r result w : decided (Write r result w).1 = true.
Proof.
  unfold Write. destruct (marshaller _) as [marshal|]; [|done]. rewrite wrap_decided.
  destruct (marshal result); [apply os_WriteFile_decided|done].
Qed.

Lemma report_result_decided enabled r result w : decided (report_result enabled r result w).1 = true.
Proof. destruct (report_result_spec enabled r result w) as [o ->]. done. Qed.

Lemma on_heap_res_decided {A} (f : env_heap -> res (A * env_heap)) w :
  decided (f (heap w)) = true -> decided (on_heap_res f w).1 = true.
Proof. unfold on_heap_res. by destruct (f (heap w)) as [[]| | |]. Qed.

Lemma NewEnvironmentFromOS_decided h environ reject :
  decided (NewEnvironmentFromOS h environ reject) = true.
Proof.
  unfold NewEnvironmentFromOS. apply bind_decided; [|done]. generalize (∅ : gmap string string).
  induction environ as [|e environ IH]; intros vs; [done|]. cbn [os_vars].
  destruct (Cut e "=") as [[k v] []]; [apply IH|done].
Qed.

Lemma GlobalEnvironment_decided h p jobVars : decided (GlobalEnvironment h p jobVars) = true.
Proof.
  unfold GlobalEnvironment. apply bind_decided; [|done]. rewrite logLevel_spec. cbv zeta.
  by destruct (existsb _ _).
Qed.

Lemma StepParser_decided w : decided (StepParser w).1 = true.
Proof.
  unfold StepParser, StepResourceParser, GitFetcher, CacheDir. rewrite !wrap_decided.
  apply M_bind_decided; [|done]. rewrite wrap_decided. unfold mkdirAll. by destruct (MkdirAll _ _) as [[] ?].
Qed.

Lemma NewStepsContext_decided gc d i e os w : decided (NewStepsContext gc d i e os w).1 = true.
Proof. unfold NewStepsContext. walk_call; apply NewStepFileInTmp_decided. Qed.

Lemma print_lines_decided lines w : decided (ci.print_lines lines w).1 = true.
Proof. revert w. induction lines as [|l lines IH]; intros w; [done|]. apply M_bind_decided; [done|]. intros. apply IH. Qed.

Lemma run_load_decided options w : decided (run.load_definition options w).1 = true.
Proof.
  unfold run.load_definition, run.yamlStep, run.wrapStepsInSingleStep. walk_call;
    apply UnmarshalDefinition_decided || apply UnmarshalRun_decided || apply Compile_decided.
Qed.

Lemma createGlobalCtx_decided options w : decided (run.createGlobalCtx options w).1 = true.
Proof.
  unfold run.createGlobalCtx. walk_call.
  - apply on_heap_res_decided, NewEnvironmentFromOS_decided.
  - apply on_heap_res_decided, GlobalEnvironment_decided.
  - apply Getwd_decided.
Qed.

Lemma job_context_decided options w : decided (ci.job_context options w).1 = true.
Proof.
  unfold ci.job_context. walk_call.
  - apply on_heap_res_decided, NewEnvironmentFromOS_decided.
  - apply on_heap_res_decided, GlobalEnvironment_decided.
Qed.

(** The deferred part of a command, for a step that ends. *)
Lemma run_in_context_ends n fuel (enabled : bool) r (fail : error -> error) step s w :
  ends n step -> n <= fuel ->
  let body k := finally
    ('(result, err, _) ← Runner.run k step s; _ ← report_result enabled r result;
     match err with Some err => lift (Err (fail err)) | None => mret tt end) (Cleanup s) in
  decided (body fuel w).1 = true /\ body fuel w = body n w.
Proof.
  intros He Hf body. subst body. cbv beta. split.
  - apply finally_decided; [|apply Cleanup_decided].
    apply M_bind_decided; [by apply (ends_more n fuel)|]. intros [[result err] s'] w1 _.
    apply M_bind_decided; [apply report_result_decided|]. intros [] w2 _. by destruct err.
  - apply finally_ext, M_bind_ext_l. apply run_more; [done|apply He].
Qed.

(** Commands end.  When the definition a command loads is nested at most [n]
    deep, wherever its references lead, the command ends with fuel [2 n + 1]: it
    succeeds, fails or panics, whatever the steps it runs do; and more fuel gives
    the same result and the same world. *)
Theorem commands_end n fuel w :
  2 * n + 1 <= fuel ->
  (forall options, (forall sd w1, run.load_definition options w = (Ok sd, w1) -> nested n sd) ->
     decided (run.run fuel options w).1 = true /\ run.run fuel options w = run.run (2 * n + 1) options w) /\
  (forall options, (forall sd, ci.load_definition options = Ok sd -> nested n sd) ->
     decided (ci.run fuel options w).1 = true /\ ci.run fuel options w = ci.run (2 * n + 1) options w).
Proof.
  intros Hf. split; intros options Hn.
  - unfold run.run. split.
    + apply M_bind_decided; [apply run_load_decided|]. intros sd w1 Hl. apply Hn in Hl.
      apply M_bind_decided; [apply createGlobalCtx_decided|]. intros gc w2 _.
      apply M_bind_decided; [apply StepParser_decided|]. intros _ w3 _.
      apply M_bind_decided; [apply Parse_decided|]. intros step w4 [Hp _]%lift_Ok.
      apply M_bind_decided; [apply NewStepsContext_decided|]. intros sc w5 _.
      by eapply (run_in_context_ends _ _ _ _ id); [eapply nested_ends|].
    + apply M_bind_ext. intros sd w1 Hl. apply Hn in Hl. apply M_bind_ext. intros gc w2 _.
      apply M_bind_ext. intros _ w3 _. apply M_bind_ext. intros step w4 [Hp _]%lift_Ok.
      apply M_bind_ext. intros sc w5 _.
      by eapply (run_in_context_ends _ _ _ _ id); [eapply nested_ends|].
  - unfold ci.run. split.
    + apply M_bind_decided; [apply print_lines_decided|]. intros _ w0 _.
      apply M_bind_decided; [unfold ci.load_definition, ci.wrapStepsInSpecDef; walk_call;
        apply UnmarshalRun_decided || apply Compile_decided|]. intros sd w1 [Hl _]%lift_Ok. apply Hn in Hl.
      apply M_bind_decided; [apply job_context_decided|]. intros gc w2 _.
      apply M_bind_decided; [apply StepParser_decided|]. intros _ w3 _.
      apply M_bind_decided; [rewrite wrap_decided; apply Parse_decided|].
      intros step w4 [Hp _]%wrap_Ok%lift_Ok.
      apply M_bind_decided; [apply on_heap_decided|]. intros env w5 _.
      apply M_bind_decided; [rewrite wrap_decided; apply NewStepsContext_decided|]. intros sc w6 _.
      by eapply (run_in_context_ends _ _ _ _ (fun err => WrapError _ err _)); [eapply nested_ends|].
    + apply M_bind_ext. intros _ w0 _. apply M_bind_ext. intros sd w1 [Hl _]%lift_Ok. apply Hn in Hl.
      apply M_bind_ext. intros gc w2 _. apply M_bind_ext. intros _ w3 _.
      apply M_bind_ext. intros step w4 [Hp _]%wrap_Ok%lift_Ok.
      apply M_bind_ext. intros env w5 _. apply M_bind_ext. intros sc w6 _.
      by eapply (run_in_context_ends _ _ _ _ (fun err => WrapError _ err _)); [eapply nested_ends|].
Qed.
End commands.
