(* ===== verification/Program.v ===== *)
(** The program as a whole: the root command and its five commands (src/main.go,
    src/cmd/root.go), what each is built from (the [NewCmd] functions under src/cmd)
    and what it runs.  The command-line library, the sockets and gRPC are
    parameters. *)

From stdpp Require Import gmap strings list fin_maps.
From S2P Require Import Prelude GoStrings GoPaths GoFiles Bootstrap.
From S2P Require Import Values Environment Proto StepFile Schema SpecDefinition World Resources Runner.
From S2P Require Import RunnerFacts Jobs Commands.
Open Scope go_scope.
Open Scope string_scope.
Open Scope list_scope.

(** ** Commands of the command line *)

(** The value of a flag. *)
Inductive flag_value :=
  | StringValue (s : string)
  | MapValue (m : gmap string string)
  | BoolValue (b : bool).

(** [cmd.Flags().StringVar(&v, name, value, usage)] and its like. *)
Record Flag := { flag_name : string; flag_default : flag_value }.

Abbreviation flag_values := (gmap string flag_value).

Definition defaults (flags : list Flag) : flag_values :=
  list_to_map ((fun f => (flag_name f, flag_default f)) <$> flags).

(** What a variable that is bound to a flag holds. *)
Definition string_flag (vals : flag_values) (name : string) : string :=
  match vals !! name with Some (StringValue s) => s | _ => "" end.
Definition map_flag (vals : flag_values) (name : string) : gmap string string :=
  match vals !! name with Some (MapValue m) => m | _ => ∅ end.
Definition bool_flag (vals : flag_values) (name : string) : bool :=
  match vals !! name with Some (BoolValue b) => b | _ => false end.

(** [cobra.Command], as far as the program fills it in; [RunE] is given what the
    flags of the command hold, and the arguments. *)
Record Command `{System} := {
  Use : string;
  Annotations : gmap string string;
  Args : option (list string -> option error);
  Flags : list Flag;
  RunE : flag_values -> list string -> M unit
}.

(** The root: it runs nothing itself. *)
Record RootCommand `{System} := {
  Root_Use : string;
  SilenceUsage : bool;
  PersistentPreRun : Command -> M unit;
  SubCommands : list Command
}.

(** The name of a command: the first word of its use. *)
Definition command_name `{System} (c : Command) : string :=
  match cut_at " " (Use c) with Some (name, _) => name | None => Use c end.

(** What the program calls: [os.Executable], the calls of package os on the files
    of the machine, sockets, the gRPC server with the service registered, the
    tunnel of Proxy.v, [strconv.ParseBool], and the library's [ExactArgs],
    [MaximumNArgs], [ParseFlags] and [Execute].  [Execute] runs the command the
    first argument names: it parses the flags, validates the arguments, and runs
    the hook of the root and the command. *)
Class CommandLine `{CommandSystem} := {
  Executable : M string;
  on_files : forall {A}, GoFiles.F A -> M A;
  Listener : Type;
  ListenUnix : string -> M Listener;
  grpc_Serve : loc * string -> Listener -> M unit;
  UnixConn : Type;
  DialUnix : string -> M UnixConn;
  Proxy : UnixConn -> M unit;
  ParseBool : string -> option bool;
  ExactArgs : nat -> list string -> option error;
  MaximumNArgs : nat -> list string -> option error;
  ParseFlags : list Flag -> list string -> res (flag_values * list string);
  Execute : RootCommand -> list string -> M unit;
  ExactArgs_spec n args : ExactArgs n args = None <-> length args = n;
  MaximumNArgs_spec n args : MaximumNArgs n args = None <-> length args <= n;
  Execute_command root c args vals rest :
    c ∈ SubCommands root ->
    (forall c', c' ∈ SubCommands root -> command_name c' = command_name c -> c' = c) ->
    ParseFlags (Flags c) args = Ok (vals, rest) ->
    match Args c with Some valid => valid rest = None | None => True end ->
    forall w, Execute root (command_name c :: args) w = (_ ← PersistentPreRun root c; RunE c vals rest) w
}.

Section program.
  Context `{CL : CommandLine} `{SE : StepFileEnv} `{SP : StructPB} `{MR : MapRange}
    `{FM : schema.Format}.
  Context (stepRunnerVersion : string).

(** ** root.go *)

Definition suppressWelcomeKey : string := "suppress-welcome".
Definition SuppressWelcomeCmdAnnotation : gmap string string := {[suppressWelcomeKey := "y"]}.

(** [shouldPrintWelcome(cmd)] *)
Definition shouldPrintWelcome (cmd : Command) : bool :=
  match Annotations cmd !! suppressWelcomeKey with Some _ => false | None => true end.

(** [fmt.Printf(text)]: its error is dropped. *)
Definition Printf (text : string) : M unit := fun w => (Ok tt, set_os (Write_stdout (os w) text).2 w).

Definition print_welcome : M unit :=
  _ ← Printf (newline +:+ "Step Runner version: " +:+ stepRunnerVersion +:+ newline);
  Printf ("See https://gitlab.com/gitlab-org/step-runner/-/blob/main/CHANGELOG.md for changes." +:+
          newline +:+ newline).

(** [NewRootCmd()], and the commands that are added to it. *)
Definition NewRootCmd (commands : list Command) : RootCommand := {|
  Root_Use := "step-runner";
  SilenceUsage := true;
  PersistentPreRun cmd := if shouldPrintWelcome cmd then print_welcome else mret tt;
  SubCommands := commands |}.

(** ** The commands *)

(** The flags of [run], and the options they are bound to. *)
Definition run_flags (environ : list string) : list Flag := [
  {| flag_name := "oci-registry"; flag_default := StringValue "" |};
  {| flag_name := "oci-repository"; flag_default := StringValue "" |};
  {| flag_name := "oci-tag"; flag_default := StringValue "" |};
  {| flag_name := "oci-dir"; flag_default := StringValue "" |};
  {| flag_name := "oci-filename"; flag_default := StringValue "" |};
  {| flag_name := "git-url"; flag_default := StringValue "" |};
  {| flag_name := "git-rev"; flag_default := StringValue "" |};
  {| flag_name := "git-dir"; flag_default := StringValue "" |};
  {| flag_name := "inputs"; flag_default := MapValue ∅ |};
  {| flag_name := "env"; flag_default := MapValue ∅ |};
  {| flag_name := "job"; flag_default := MapValue ∅ |};
  {| flag_name := "text-proto-step-file"; flag_default := StringValue "" |};
  {| flag_name := "write-steps-results";
     flag_default := BoolValue (default false (ParseBool (getenv environ "CI_STEPS_DEBUG"))) |};
  {| flag_name := "step-results-file"; flag_default := StringValue "" |};
  {| flag_name := "step-results-format"; flag_default := StringValue "json" |}
].

Definition run_options (vals : flag_values) (args : list string) : run.Options := {|
  run.Opt_Step := match args with step :: _ => step | [] => "" end;
  run.OCIRegistry := string_flag vals "oci-registry";
  run.OCIRepository := string_flag vals "oci-repository";
  run.OCITag := string_flag vals "oci-tag";
  run.OCIDir := string_flag vals "oci-dir";
  run.OCIFilename := string_flag vals "oci-filename";
  run.GitURL := string_flag vals "git-url";
  run.GitRev := string_flag vals "git-rev";
  run.GitDir := string_flag vals "git-dir";
  run.Inputs := map_flag vals "inputs";
  run.Env := map_flag vals "env";
  run.Opt_Job := map_flag vals "job";
  run.TextProtoStepFile := string_flag vals "text-proto-step-file";
  run.WriteStepResults := bool_flag vals "write-steps-results";
  run.StepResultsFile := string_flag vals "step-results-file";
  run.StepResultsFormat := string_flag vals "step-results-format"
|}.

(** [run.NewCmd()]; [fuel] bounds the depth of the definitions that are run. *)
Definition run_NewCmd (fuel : nat) (environ : list string) : Command := {|
  Use := "run [local or remote step, step starting with 'step: [location]', or omit if using git flags]";
  Annotations := ∅;
  Args := None;
  Flags := run_flags environ;
  RunE vals args := run.run fuel (run_options vals args)
|}.

(** [ci.NewCmd()]: the options are found when the command is made. *)
Definition ci_NewCmd (fuel : nat) (w : World) : Command := {|
  Use := "ci";
  Annotations := ∅;
  Args := None;
  Flags := [{| flag_name := "write-steps-results"; flag_default := BoolValue RunningInDebugMode |}];
  RunE vals args := ci.run fuel (ci.NewCmd_options (bool_flag vals "write-steps-results") w)
|}.

(** [type ServeCmd struct]; the server and the channel of the signals are the
    libraries'. *)
Record ServeCmd := {
  sc_stepRunnerService : loc * string;
  sc_socketAddr : string
}.

Definition NewServeCmd (stepRunnerService : loc * string) (socketAddr : string) : ServeCmd :=
  {| sc_stepRunnerService := stepRunnerService; sc_socketAddr := socketAddr |}.

(** [sc.Listen()]; the goroutine it starts stops the server at a signal, which is
    one of the causes for [Serve] to return. *)
Definition ServeCmd_Listen (sc : ServeCmd) : M Listener :=
  wrap "opening socket: " (ListenUnix (sc_socketAddr sc)).

(** [sc.Serve(listener)] *)
Definition ServeCmd_Serve (sc : ServeCmd) (listener : Listener) : M unit :=
  grpc_Serve (sc_stepRunnerService sc) listener.

(** [sc.Run()] *)
Definition ServeCmd_Run (sc : ServeCmd) : M unit :=
  listener ← ServeCmd_Listen sc;
  ServeCmd_Serve sc listener.

(** [serve.NewCmd()] *)
Definition serve_NewCmd : Command := {|
  Use := "serve";
  Annotations := ∅;
  Args := Some (MaximumNArgs 1);
  Flags := [];
  RunE _ args :=
    stepRunnerService ← wrap "initializing step-runner: " StepRunnerService;
    socketAddr ← wrap "initializing step-runner: " (on_files (GetSocketAddr TempDir args));
    wrap "serving step-runner: " (ServeCmd_Run (NewServeCmd stepRunnerService socketAddr))
|}.

(** [run(cmd, args)] of package [proxy] *)
Definition proxy_run : M unit :=
  conn ← wrap "dialing: " (DialUnix (DefaultSocketPath TempDir));
  Proxy conn.

(** [proxy.NewCmd()] *)
Definition proxy_NewCmd : Command := {|
  Use := "proxy";
  Annotations := SuppressWelcomeCmdAnnotation;
  Args := Some (ExactArgs 0);
  Flags := [];
  RunE _ _ := proxy_run
|}.

(** [bootstrap.NewCmd()] *)
Definition bootstrap_NewCmd : Command := {|
  Use := "bootstrap <destination>";
  Annotations := SuppressWelcomeCmdAnnotation;
  Args := Some (ExactArgs 1);
  Flags := [];
  RunE _ args :=
    source ← wrap "failed to get source path: " Executable;
    match args with
    | destination :: _ => on_files (bootstrap_run source destination)
    | [] => lift (Panic "index out of range [0] with length 0")
    end
|}.

(** ** main.go *)

Definition step_runner (fuel : nat) (w : World) : RootCommand :=
  NewRootCmd [ci_NewCmd fuel w; run_NewCmd fuel (Environ (os w)); serve_NewCmd; proxy_NewCmd; bootstrap_NewCmd].

(** The status the process exits with. *)
Definition exit_status (c : M unit) : M Z :=
  r ← catch c;
  mret (match r with inl _ => 0%Z | inr _ => 1%Z end).

(** [main()], given the arguments of the process. *)
Definition main (fuel : nat) (args : list string) : M Z :=
  w ← get;
  exit_status (Execute (step_runner fuel w) args).

(** ** What the program runs *)

Lemma M_ret_bind {A} (a : unit) (m : M A) w : (_ ← mret a; m) w = m w.
Proof. by destruct a. Qed.

Lemma exit_status_ext (m m' : M unit) w : m w = m' w -> exit_status m w = exit_status m' w.
Proof. unfold exit_status, catch, mbind, M_bind. by intros ->. Qed.

(** The names of the commands are different. *)
Lemma step_runner_names fuel w c c' :
  c ∈ SubCommands (step_runner fuel w) -> c' ∈ SubCommands (step_runner fuel w) ->
  command_name c' = command_name c -> c' = c.
Proof.
  cbn [step_runner NewRootCmd SubCommands]. rewrite !elem_of_cons, !elem_of_nil.
  intros [->|[->|[->|[->|[->|[]]]]]] [->|[->|[->|[->|[->|[]]]]]] E; try reflexivity; discriminate E.
Qed.

Lemma main_command fuel w c args vals rest :
  c ∈ SubCommands (step_runner fuel w) -> ParseFlags (Flags c) args = Ok (vals, rest) ->
  match Args c with Some valid => valid rest = None | None => True end ->
  main fuel (command_name c :: args) w =
    exit_status (if shouldPrintWelcome c then _ ← print_welcome; RunE c vals rest else RunE c vals rest) w.
Proof.
  intros Hc Hp Ha. unfold main. rewrite (M_bind_step _ _ w w w) by done. apply exit_status_ext.
  rewrite (Execute_command _ c args vals rest) by (try done; intros c' Hc' E; by eapply step_runner_names).
  cbn [PersistentPreRun step_runner NewRootCmd]. by destruct (shouldPrintWelcome c).
Qed.

(** The commands of the program.  [run] and [ci] print the welcome and run their
    steps, [serve] prints it and serves, with at most one argument; [proxy] and
    [bootstrap] print nothing of their own, so what [proxy] writes to the standard
    output is only what comes from the connection.  The status is 1 exactly when
    the command fails. *)
Theorem main_runs fuel w args vals rest :
  (ParseFlags (run_flags (Environ (os w))) args = Ok (vals, rest) ->
   main fuel ("run" :: args) w = exit_status (_ ← print_welcome; run.run fuel (run_options vals rest)) w) /\
  (ParseFlags (Flags (ci_NewCmd fuel w)) args = Ok (vals, rest) ->
   main fuel ("ci" :: args) w = exit_status (_ ← print_welcome;
     ci.run fuel (ci.NewCmd_options (bool_flag vals "write-steps-results") w)) w) /\
  (ParseFlags [] args = Ok (vals, rest) -> length rest <= 1 ->
   main fuel ("serve" :: args) w = exit_status (_ ← print_welcome; RunE serve_NewCmd vals rest) w) /\
  (ParseFlags [] args = Ok (vals, []) ->
   main fuel ("proxy" :: args) w = exit_status proxy_run w) /\
  (forall destination, ParseFlags [] args = Ok (vals, [destination]) ->
   main fuel ("bootstrap" :: args) w =
     exit_status (source ← wrap "failed to get source path: " Executable;
                  on_files (bootstrap_run source destination)) w).
Proof.
  split; [|split; [|split; [|split]]].
  - intros Hp. apply (main_command fuel w (run_NewCmd fuel (Environ (os w))) args vals rest); [|done|done].
    cbn. right. left.
  - intros Hp. apply (main_command fuel w (ci_NewCmd fuel w) args vals rest); [|done|done]. cbn. left.
  - intros Hp Hl. apply (main_command fuel w serve_NewCmd args vals rest); [cbn; do 2 right; left|done|].
    by apply MaximumNArgs_spec.
  - intros Hp. apply (main_command fuel w proxy_NewCmd args vals []); [cbn; do 3 right; left|done|].
    by apply ExactArgs_spec.
  - intros d Hp. apply (main_command fuel w bootstrap_NewCmd args vals [d]); [cbn; do 4 right; left|done|].
    by apply ExactArgs_spec.
Qed.
End program.
