(* ===== verification/Client.v ===== *)
(** The clients of the service (src/pkg/api/client): the messages of the basic
    client and how it follows logs (basic/client.go), and the client that
    resumes (extended/client.go). *)

From stdpp Require Import gmap strings list.
From S2P Require Import Prelude GoStrings Proto.
Open Scope go_scope.
Open Scope string_scope.
Open Scope list_scope.

(** ** client.go *)

(** [type State int32]: any 32-bit integer. *)
Definition State := Z.
Definition StateUnspecified : State := 0%Z.
Definition StateRunning : State := 1%Z.
Definition StateSuccess : State := 2%Z.
Definition StateFailure : State := 3%Z.
Definition StateCancelled : State := 4%Z.

(** [s.String()]: a state that is not in the map is the empty string. *)
Definition State_String (s : State) : string :=
  if (s =? StateUnspecified)%Z then "unspecified"
  else if (s =? StateRunning)%Z then "running"
  else if (s =? StateSuccess)%Z then "success"
  else if (s =? StateFailure)%Z then "failure"
  else if (s =? StateCancelled)%Z then "cancelled"
  else "".

(** [type Status struct]; the zero time is [None]. *)
Record Status := {
  Id : string;
  Message : string;
  st_State : State;
  StartTime : option Z;
  EndTime : option Z
}.

Record Variable_ := {
  Key : string;
  Value : string;
  File : bool;
  Masked : bool
}.

Record RunRequest := {
  r_Id : string;
  r_WorkDir : string;
  r_Env : gmap string string;
  r_Steps : string;
  r_Variables : list Variable_;
  r_BuildDir : string
}.

(** ** basic/client.go *)

(** [toProto(r)] *)
Definition toProto (r : RunRequest) : proto.RunRequest := {|
  proto.Request_Id := r_Id r;
  proto.Request_WorkDir := r_WorkDir r;
  proto.Request_Env := r_Env r;
  proto.Request_Steps := r_Steps r;
  proto.Request_Job := Some {|
    proto.Job_BuildDir := r_WorkDir r;
    proto.Job_Variables :=
      (fun v => {| proto.Variable_Key := Key v; proto.Variable_Value := Value v;
                   proto.Variable_File := File v; proto.Variable_Masked := Masked v |})
        <$> r_Variables r |} |}.

(** The numbers of [enum StepResult.Status]. *)
Definition status_number (s : proto.Status) : Z :=
  match s with
  | proto.unspecified => 0 | proto.running => 1 | proto.success => 2
  | proto.failure => 3 | proto.cancelled => 4
  end%Z.

(** [AsTime()] of a timestamp: the Unix epoch, at 0 nanoseconds, for the nil
    pointer. *)
Definition AsTime (t : option Z) : Z := default 0%Z t.

(** [fromProto(statuses)] *)
Definition fromProto (statuses : list proto.JobStatus) : list Status :=
  (fun st => {|
     Id := proto.Status_Id st;
     Message := proto.Status_Message st;
     st_State := status_number (proto.Status_Status st);
     StartTime := Some (AsTime (proto.Status_StartTime st));
     EndTime := match proto.Status_EndTime st with
                | Some t => Some (AsTime (Some t))
                | None => None
                end |}) <$> statuses.

(** What [Recv] of the log stream gives: a message, the end, or an error. *)
Inductive received := Data (data : string) | EOF | RecvError (err : error).

(** The calls of the generated gRPC client. *)
Record StepRunnerClient := {
  rpc_Run : proto.RunRequest -> option error;
  rpc_Close : string -> option error;
  rpc_Status : string -> res (list proto.JobStatus);
  rpc_FollowLogs : string -> Z -> res (list received)
}.

(** [c.Run(ctx, runRequest)] *)
Definition Run (c : StepRunnerClient) (runRequest : RunRequest) : option error :=
  match rpc_Run c (toProto runRequest) with
  | Some err => Some (WrapError ("running run request for job " +:+ quote (r_Id runRequest) +:+ ": ") err "")
  | None => None
  end.

(** [c.Close(ctx, jobID)] *)
Definition Close (c : StepRunnerClient) (jobID : string) : option error :=
  match rpc_Close c jobID with
  | Some err => Some (WrapError ("closing job " +:+ quote jobID +:+ ": ") err "")
  | None => None
  end.

(** [c.Status(ctx, jobID)] *)
Definition Client_Status (c : StepRunnerClient) (jobID : string) : res Status :=
  jobs ← rpc_Status c jobID or_wrap ("getting status for job " +:+ quote jobID +:+ ": ");
  match fromProto jobs with
  | st :: _ => Ok st
  | [] => Panic "runtime error: index out of range [0] with length 0"
  end.

(** [c.ListJobs(ctx)] *)
Definition ListJobs (c : StepRunnerClient) : res (list Status) :=
  jobs ← rpc_Status c "" or_wrap "listing jobs: ";
  Ok (fromProto jobs).

Section follow.
  (** The log sink: the bytes it took and its error, and its state after; and
      [ctx.Err()] before each receive. *)
  Context {W : Type} (write : W -> string -> (Z * option error) * W) (ctx_Err : nat -> option error).

(** The loop of [FollowLogs]; a stream without an end does not return. *)
Fixpoint receive (i : nat) (stream : list received) (written : Z) (w : W) :
    res (Z * option error * W) :=
  match ctx_Err i with
  | Some err => Ok (-1, Some err, w)%Z
  | None =>
      match stream with
      | [] => OutOfFuel
      | EOF :: _ => Ok (written, None, w)
      | RecvError err :: _ => Ok (written, Some (WrapError "following logs: " err ""), w)
      | Data data :: stream' =>
          let '((n, e), w) := write w data in
          let written := (written + n)%Z in
          match e with
          | Some err => Ok (written, Some (WrapError "writing to log sink: " err ""), w)
          | None => receive (S i) stream' written w
          end
      end
  end.

(** [c.FollowLogs(ctx, jobID, offset, writer)]; [None] is the nil writer. *)
Definition FollowLogs (c : StepRunnerClient) (jobID : string) (offset : Z) (writer : option W) :
    res (Z * option error * option W) :=
  match writer with
  | None => Ok (-1, Some (NewError "nil io.Writer"), None)%Z
  | Some w =>
      match rpc_FollowLogs c jobID offset with
      | Err err => Ok (-1, Some (WrapError ("following logs for job " +:+ quote jobID +:+ ": ") err ""),
                       Some w)%Z
      | Ok stream =>
          '(n, e, w) ← receive 0 stream offset w;
          Ok (n, e, Some w)
      | Panic p => Panic p
      | OutOfFuel => OutOfFuel
      end
  end.

(** ** extended/client.go *)

(** [New(dialer)]: the basic client of the connection, and the connection. *)
Definition New {Conn} (basic_New : Conn -> StepRunnerClient) (Dial : res Conn) :
    res (StepRunnerClient * Conn) :=
  conn ← Dial or_wrap "dialing: ";
  Ok (basic_New conn, conn).

(** [c.CloseConn()]; the connection may be nil. *)
Definition CloseConn {Conn} (close : Conn -> option error) (conn : option Conn) : option error :=
  match conn with Some conn => close conn | None => None end.

(** [type FollowOutput struct] *)
Record FollowOutput := {
  Logs : option W;
  readLogs : Z
}.

(** The text of [errors.Join(errs...)] of two errors, of which the second is not nil. *)
Definition join_errors (e1 : option error) (e2 : error) : error :=
  match e1 with
  | Some e1 => NewError (Error e1 +:+ newline +:+ Error e2)
  | None => NewError (Error e2)
  end.

(** [c.Follow(ctx, jobID, out)]: the status, the error, and the output after. *)
Definition Follow (c : StepRunnerClient) (jobID : string) (out : FollowOutput) :
    res (option Status * option error * FollowOutput) :=
  match Logs out with
  | None => Ok (None, Some (NewError "at least one stream sink must be specified"), out)
  | Some w =>
      '(n, err, w) ← FollowLogs c jobID (readLogs out) (Some w);
      let out := {| Logs := w; readLogs := readLogs out + n |} in
      let followErr := (fun e => WrapError ("following job " +:+ quote jobID +:+ ": ") e "") <$> err in
      match Client_Status c jobID with
      | Err statErr => Ok (None, Some (join_errors followErr statErr), out)
      | Ok status => Ok (Some status, followErr, out)
      | Panic p => Panic p
      | OutOfFuel => OutOfFuel
      end
  end.

(** [c.RunAndFollow(ctx, runRequest, out)]: whether the job was closed, too. *)
Definition RunAndFollow (c : StepRunnerClient) (runRequest : RunRequest) (out : FollowOutput) :
    res (option Status * option error * FollowOutput * bool) :=
  match Run c runRequest with
  | Some err => Ok (None, Some err, out, false)
  | None =>
      '(st, err, out) ← Follow c (r_Id runRequest) out;
      Ok (st, err, out, true)
  end.
End follow.

(** ** Properties *)

Definition sent (data : list string) : Z := foldr (fun d n => Z.of_nat (String.length d) + n)%Z 0%Z data.

(** A sink that takes everything, and a context that is never done. *)
Definition take_all (w p : string) : (Z * option error) * string :=
  ((Z.of_nat (String.length p), None), w +:+ p).
Definition background (i : nat) : option error := None.

Lemma receive_all i data written w :
  receive take_all background i ((Data <$> data) ++ [EOF]) written w =
  Ok (written + sent data, None, w +:+ String.concat "" data)%Z.
Proof.
  unfold sent. revert i written w. induction data as [|d data IH]; intros i written w; cbn.
  - by rewrite Z.add_0_r, string_app_nil_r.
  - unfold background at 1. cbn. rewrite IH. f_equal. f_equal; [f_equal; cbn; lia|].
    destruct data as [|d' data]; cbn; [by rewrite !string_app_nil_r|].
    by rewrite string_app_assoc.
Qed.

(** What following the logs of a job records.  The sink gets what was sent,
    in order, and the status of the job is returned; [readLogs] becomes the
    number of bytes sent for an output that starts at 0, and in general twice
    the offset it had, plus that number, since [FollowLogs] counts from the
    offset and [Follow] adds its count to the offset again. *)
Theorem Follow_reads c jobID w n data st sts :
  rpc_FollowLogs c jobID n = Ok ((Data <$> data) ++ [EOF]) ->
  rpc_Status c jobID = Ok (st :: sts) ->
  exists status, fromProto [st] = [status] /\
    Follow take_all background c jobID {| Logs := Some w; readLogs := n |} =
    Ok (Some status, None,
        {| Logs := Some (w +:+ String.concat "" data); readLogs := n + (n + sent data) |})%Z /\
    (n = 0%Z -> (n + (n + sent data) = sent data)%Z).
Proof.
  intros Hf Hs. eexists. split; [reflexivity|]. split; [|lia].
  unfold Follow, FollowLogs, Client_Status. cbn [Logs readLogs]. rewrite Hf, receive_all.
  cbn. by rewrite Hs.
Qed.
