(* ===== verification/Session.v ===== *)
(** A client at the service: the calls of the clients of Client.v answered by the
    handlers of Service.v, message by message. *)

From stdpp Require Import gmap strings list.
From S2P Require Import Prelude GoStrings Proto Streamer Jobs Service Client.
Open Scope go_scope.
Open Scope string_scope.
Open Scope list_scope.

Section session.
  Context `{MR : MapRange}.
  (** The service, the log of each job and what is in it, the error a client
      gets for an error of a handler, and the one it gets from a dead process. *)
  Context (s : StepRunnerService) (streamer_of : nat -> Streamer) (log_of : nat -> string)
    (rpc_error : error -> error) (unavailable : error).

(** [writer.Send]: the messages in order. *)
Definition collect_message (messages : list string) (data : string) : option error * list string :=
  (None, messages ++ [data]).

(** What a follower reads of a log that is not written any more. *)
Definition reads_of (id : string) (offset : Z) : Reads :=
  match SyncMap.Get (jobs s) id with
  | Some l => stopped_reads (log_of l) (Z.to_nat offset)
  | None => stopped_reads "" 0
  end.

(** The stream the client receives: the messages, and the end or the error. *)
Definition log_stream (id : string) (offset : Z) : list received :=
  match Service_FollowLogs collect_message s Streamer.background id offset streamer_of None (reads_of id offset) [] with
  | (None, messages) => (Data <$> messages) ++ [EOF]
  | (Some err, messages) => (Data <$> messages) ++ [RecvError (rpc_error err)]
  end.

(** A client that is connected to the service, once its jobs were run. *)
Definition connected : StepRunnerClient := {|
  rpc_Run _ := if alive s then None else Some unavailable;
  rpc_Close _ := if alive s then None else Some unavailable;
  rpc_Status id :=
    if alive s then match Service_Status s id with Err err => Err (rpc_error err) | r => r end
    else Err unavailable;
  rpc_FollowLogs id offset := if alive s then Ok (log_stream id offset) else Err unavailable
|}.

(** The messages of a line. *)
Lemma follow_lines_collect i lines messages :
  follow_lines collect_message Streamer.background i lines messages =
  (None, messages ++ concat ((fun l => [l; newline]) <$> filter not_blank lines)).
Proof.
  revert i messages. induction lines as [|l lines IH]; intros i messages; cbn [follow_lines].
  - by rewrite app_nil_r.
  - unfold Streamer.background at 1. destruct (String.eqb l "") eqn:E.
    + rewrite filter_cons_False by (unfold not_blank; rewrite E; cbn; tauto). apply IH.
    + rewrite filter_cons_True by (unfold not_blank; rewrite E; cbn; tauto).
      unfold collect_message. rewrite IH, <- !app_assoc. done.
Qed.

Lemma concat_lines lines : String.concat "" (concat ((fun l => [l; newline]) <$> lines)) = log_text lines.
Proof.
  induction lines as [|l lines IH]; [done|]. rewrite fmap_cons. cbn [concat app].
  by rewrite !string_concat_cons, IH.
Qed.

Lemma sent_length data : sent data = Z.of_nat (String.length (String.concat "" data)).
Proof.
  unfold sent. induction data as [|d data IH]; [done|]. cbn [foldr].
  rewrite IH, string_concat_cons, string_length_app. lia.
Qed.

(** The stream of a job whose log is a text. *)
Lemma log_stream_lines id l before lines :
  SyncMap.Get (jobs s) id = Some l -> log_of l = log_text (before ++ lines) -> Forall text_line lines ->
  log_stream id (Z.of_nat (String.length (log_text before))) =
    (Data <$> concat ((fun l => [l; newline]) <$> filter not_blank lines)) ++ [EOF].
Proof.
  intros Hg Hlog Ht. unfold log_stream, Service_FollowLogs, Job_FollowLogs, reads_of. rewrite Hg.
  unfold Streamer.Follow. cbn [bytes stopped_reads ended].
  replace (_ <? 0)%Z with false by (symmetry; apply Z.ltb_ge; lia).
  rewrite Nat2Z.id, Hlog, log_text_app, slice_from_app, scan_text by done.
  by rewrite follow_lines_collect.
Qed.

(** C28: what a client sees of a job that has run, while the process of the service is
    there.  Following the job from the start, the sink gets the lines of the log that are
    not blank, the count is the number of bytes it got, and the status is that of the job;
    a client that lost the connection at the end of a line, when no line of the log is
    blank, gets exactly the lines it had not seen by asking again from what it has.  A job
    that the service does not know is an error, and the sink gets nothing. *)
Theorem client_sees_job id l js lines w :
  alive s = true -> id <> "" -> SyncMap.Get (jobs s) id = Some l -> store s !! l = Some js ->
  log_of l = log_text lines -> Forall text_line lines ->
  (exists status, fromProto [Jobs.Status (job js)] = [status] /\
     Client.Follow take_all Client.background connected id {| Logs := Some w; readLogs := 0 |} =
     Ok (Some status, None,
         {| Logs := Some (w +:+ log_text (filter not_blank lines));
            readLogs := Z.of_nat (String.length (log_text (filter not_blank lines))) |})) /\
  (forall seen rest, lines = seen ++ rest -> Forall plain_line lines ->
     Client.FollowLogs take_all Client.background connected id
       (Z.of_nat (String.length (log_text seen))) (Some (log_text seen)) =
     Ok (Z.of_nat (String.length (log_text lines)), None, Some (log_text lines))) /\
  (forall id' out, SyncMap.Get (jobs s) id' = None -> id' <> "" -> Logs out = Some w ->
     exists err out', Client.Follow take_all Client.background connected id' out = Ok (None, Some err, out') /\
       Logs out' = Some w).
Proof.
  intros Ha Hid Hg Hs Hlog Ht. split; [|split].
  - eexists. split; [reflexivity|]. unfold Client.Follow, FollowLogs, Client_Status. cbn [Logs readLogs].
    cbn [rpc_FollowLogs rpc_Status connected]. rewrite Ha.
    rewrite (log_stream_lines id l [] lines Hg Hlog Ht : log_stream id 0 = _), receive_all.
    unfold Service_Status. rewrite Hg, Hs. apply String.eqb_neq in Hid. rewrite Hid.
    rewrite sent_length, concat_lines. done.
  - intros seen rest -> Hpl. unfold FollowLogs. cbn [rpc_FollowLogs connected]. rewrite Ha.
    apply Forall_app in Ht as [_ Ht]. rewrite (log_stream_lines id l seen rest Hg Hlog Ht), receive_all.
    rewrite sent_length, concat_lines.
    apply Forall_app in Hpl as [_ Hpl]. rewrite filter_plain by done.
    cbn [mbind res_bind]. rewrite log_text_app, string_length_app. do 3 f_equal. lia.
  - intros id' out Hn Hid' Hw. unfold Client.Follow. rewrite Hw. unfold FollowLogs.
    cbn [rpc_FollowLogs connected]. rewrite Ha. unfold log_stream, Service_FollowLogs. rewrite Hn. cbn.
    unfold Client_Status. cbn [rpc_Status connected]. rewrite Ha. unfold Service_Status. rewrite Hn.
    apply String.eqb_neq in Hid'. rewrite Hid'. cbn. eexists _, _. split; [reflexivity|done].
Qed.
End session.
