(* ===== verification/Request.v ===== *)
(** A request from the client that makes it to the status the client sees: the
    preparation of Service.v, the jobs of Jobs.v inside the interleavings of the
    service, the run of Runner.v, and the status of Client.v. *)

From stdpp Require Import gmap strings list.
From S2P Require Import Prelude GoStrings Values Environment Evolution Proto StepFile Schema SpecDefinition.
From S2P Require Import World Resources Runner RunnerFacts RunnerSpec Variables Streamer Jobs Service Client Session.
Open Scope go_scope.
Open Scope string_scope.
Open Scope list_scope.

(** ** The jobs of a service *)

(** The jobs that were put in the map, in order: the job [l] of the store is the
    [l]th of them. *)
Definition jobs_put (rs : list request) : list Job :=
  omap (fun r => match r with RunPuts _ j => Some j | _ => None end) rs.

(** The steps of one job among those of the service. *)
Definition job_events (l : nat) (rs : list request) : list event :=
  omap (fun r => match r with JobEvent l' ev => if decide (l' = l) then Some ev else None | _ => None end) rs.

Definition store_runs (rs : list request) (s : StepRunnerService) : Prop :=
  length (store s) = length (jobs_put rs) /\
  (forall l, store s !! l = None -> job_events l rs = []) /\
  forall l js, store s !! l = Some js ->
    exists j, jobs_put rs !! l = Some j /\ job_run j (job_events l rs) js.

Lemma jobs_put_snoc rs r :
  jobs_put (rs ++ [r]) = jobs_put rs ++ match r with RunPuts _ j => [j] | _ => [] end.
Proof. unfold jobs_put. rewrite omap_app. by destruct r. Qed.

Lemma job_events_snoc l rs r :
  job_events l (rs ++ [r]) =
  job_events l rs ++ match r with JobEvent l' ev => if decide (l' = l) then [ev] else [] | _ => [] end.
Proof. unfold job_events. rewrite omap_app. destruct r; try done. cbn. by destruct (decide _). Qed.

(** A request that leaves the jobs alone. *)
Lemma store_runs_same rs s r s' :
  store_runs rs s -> store s' = store s ->
  match r with RunPuts _ _ | JobEvent _ _ => False | _ => True end -> store_runs (rs ++ [r]) s'.
Proof.
  intros (Hlen & Hnone & Hrun) Hs Hr. unfold store_runs. rewrite Hs, jobs_put_snoc.
  split; [|split].
  - destruct r; try done; by rewrite app_nil_r.
  - intros l Hl. rewrite job_events_snoc, (Hnone l Hl). by destruct r.
  - intros l js Hl. destruct (Hrun l js Hl) as (j & Hj & Hjr). exists j.
    rewrite job_events_snoc. destruct r; try done; by rewrite !app_nil_r.
Qed.

Lemma store_runs_put rs s id j s' :
  store_runs rs s -> store s' = store s ++ [started j] -> store_runs (rs ++ [RunPuts id j]) s'.
Proof.
  intros (Hlen & Hnone & Hrun) Hs. unfold store_runs. rewrite Hs, jobs_put_snoc, !length_app, Hlen.
  split; [done|]. split.
  - intros l Hl. rewrite job_events_snoc, app_nil_r. apply Hnone.
    apply lookup_ge_None in Hl. rewrite length_app in Hl. apply lookup_ge_None. lia.
  - intros l js Hl. rewrite job_events_snoc, app_nil_r.
    apply lookup_app_Some in Hl as [Hl|[Hge Hl]].
    + destruct (Hrun l js Hl) as (j' & Hj & Hjr). exists j'. split; [by apply lookup_app_l_Some|done].
    + apply list_lookup_singleton_Some in Hl as [Hz <-]. exists j. split.
      * apply lookup_app_Some. right. rewrite <- Hlen. split; [done|]. by rewrite Hz.
      * rewrite Hnone; [constructor|]. by apply lookup_ge_None.
Qed.

Lemma store_runs_event rs s l ev js js' s' :
  store_runs rs s -> store s !! l = Some js -> fire js ev = Some js' ->
  store s' = <[l := js']> (store s) -> store_runs (rs ++ [JobEvent l ev]) s'.
Proof.
  intros (Hlen & Hnone & Hrun) Hl Hf Hs. unfold store_runs.
  rewrite Hs, jobs_put_snoc, app_nil_r, length_insert. split; [done|]. split.
  - intros l' Hl'. assert (store s !! l' = None) as Hn.
    { apply lookup_ge_None in Hl'. rewrite length_insert in Hl'. by apply lookup_ge_None. }
    rewrite job_events_snoc, (Hnone l' Hn). destruct (decide (l = l')) as [<-|]; [congruence|done].
  - intros l' js0 Hl'. rewrite job_events_snoc.
    apply list_lookup_insert_Some in Hl' as [(<- & <- & _)|[Hne Hl']].
    + destruct (Hrun l js Hl) as (j & Hj & Hjr). exists j. split; [done|]. rewrite decide_True by done.
      eapply steps_app; [exact Hjr|]. econstructor; [exact Hf|constructor].
    + rewrite decide_False, app_nil_r by done. by apply Hrun.
Qed.

(** The service refines its jobs: each job in the store is in a state that its
    own steps lead to, whatever was served in between. *)
Lemma service_runs_jobs rs s : steps service_step NewService rs s -> store_runs rs s.
Proof.
  apply steps_trace_invariant.
  2: { split; [done|]. split; [done|]. intros l js Hl. by destruct l. }
  clear rs s. intros rs s r s' Hs Hstep. unfold service_step, serve in Hstep.
  destruct (negb (alive s)); [done|].
  destruct r as [id|id|id j|id|id l|l ev].
  - apply (store_runs_same _ s); [done| |done]. destruct (SyncMap.Get _ _); by injection Hstep as <-.
  - apply (store_runs_same _ s); [done| |done]. destruct (decide _); [|done]. by injection Hstep as <-.
  - destruct (decide _); [|done]. injection Hstep as <-. by eapply store_runs_put.
  - apply (store_runs_same _ s); [done| |done]. destruct (SyncMap.Get _ _); by injection Hstep as <-.
  - apply (store_runs_same _ s); [done| |done]. destruct (decide _); [|done].
    destruct (store s !! l) as [js|]; [|done]. destruct (closer js); try done. by injection Hstep as <-.
  - apply bind_Some in Hstep as (js & Hl & (js' & Hf & [= <-])%bind_Some).
    by eapply store_runs_event.
Qed.

Lemma exclusive_steps rs s s' : steps exclusive_step s rs s' -> steps service_step s rs s'.
Proof. induction 1 as [|s r s1 rs s2 [H1 _] _ IH]; econstructor; eauto. Qed.

(** ** The outcome of a request *)

Section request.
  Context `{Sy : System} `{JS : !JobSystem} `{SE : StepFileEnv} `{SP : StructPB} `{MR : MapRange}
    `{FM : schema.Format}.

(** The job and the step of a request. *)
Lemma prepared_job env wait rq w j sc step w' :
  prepare env wait rq w = (Ok (j, sc, step), w') ->
  fresh j /\ ID j = proto.Request_Id rq /\
  forall fuel w1 e s' w2, run fuel step sc w1 = (Ok (None, e, s'), w2) ->
    exists err, e = Some (WrapError "writing to stdout: " err "").
Proof.
  unfold prepare. intros H. apply M_bind_Ok in H as (sd & w0 & _ & H).
  apply M_bind_Ok in H as (job & w1 & Hnew & H). apply wrap_Ok in Hnew.
  apply New_fresh in Hnew as (Hfresh & Hid & _); [|destruct (wait =? 0)%Z; repeat constructor].
  apply close_on_error_Ok in H.
  apply M_bind_Ok in H as (jobVars & w3 & _ & H). apply M_bind_Ok in H as (genv & w4 & _ & H).
  apply M_bind_Ok in H as (ce & w5 & _ & H). apply M_bind_Ok in H as (gc & w6 & _ & H).
  apply M_bind_Ok in H as (st & w7 & Hst & H). apply lift_Ok in Hst as [Hst _]. apply wrap_err_Ok in Hst.
  apply M_bind_Ok in H as (sc0 & w8 & _ & H). apply ret_Ok in H as [[= <- <- <-] <-].
  split; [done|]. split; [done|]. intros fuel w1' e s' w2'. by apply (Parse_loaded _ _ _ _ _ Hst).
Qed.

(** What the steps of a job return is what running a step in a context returns. *)
Definition returns_of (step : Step) (sc : StepsContext) (evs : list event) : Prop :=
  forall r e, StepReturns r e ∈ evs ->
    exists fuel w1 sc' w2, run fuel step sc w1 = (Ok (r, e, sc'), w2).

(** What a client is told of a job whose steps returned a result, or no
    result, and an error. *)
Definition told (evs : list event) (r : option proto.StepResult) (e : option error) (st : Client.Status) : Prop :=
  match r, e with
  | None, _ => st_State st = StateRunning /\ exists err, e = Some (WrapError "writing to stdout: " err "")
  | Some _, None => st_State st = StateSuccess /\ (Message st = "" \/ CloseTimesOut ∈ evs)
  | Some _, Some e =>
      (st_State st = StateFailure \/
       (st_State st = StateCancelled /\
        (error_is e Canceled = true \/ error_is e DeadlineExceeded = true \/
         (CloseCancels ∈ evs /\ HasSuffix (Error e) "signal: killed" = true)))) /\
      (error_is e Canceled = true -> st_State st = StateCancelled) /\
      exists pre post, Message st = pre +:+ Error e +:+ post
  end.

(** What a client is told of a job whose steps have not returned. *)
Definition told_unfinished (evs : list event) (st : Client.Status) : Prop :=
  (Message st = "" \/ CloseTimesOut ∈ evs) /\
  (st_State st = StateUnspecified \/ st_State st = StateRunning \/
   (st_State st = StateCancelled /\ CloseTimesOut ∈ evs)).

Lemma finished_job_told step sc j evs s :
  fresh j -> job_run j evs s -> returns_of step sc evs ->
  (forall fuel w1 e s' w2, run fuel step sc w1 = (Ok (None, e, s'), w2) ->
     exists err, e = Some (WrapError "writing to stdout: " err "")) ->
  finishTime (job s) <> None ->
  exists r e st, StepReturns r e ∈ evs /\ (exists fuel w1 sc' w2, run fuel step sc w1 = (Ok (r, e, sc'), w2)) /\
    fromProto [Jobs.Status (job s)] = [st] /\ told evs r e st.
Proof.
  intros Hf Hrun Hret Hnil Hfin.
  destruct (job_outcome j evs s Hf Hrun) as (r & e & Hin & Ho); [|done|].
  { intros r e Hin. destruct (Hret r e Hin) as (fuel & w1 & sc' & w2 & Hr). by eexists _, _, _, _, _, _. }
  destruct (Hret r e Hin) as (fuel & w1 & sc' & w2 & Hr).
  eexists r, e, _. split; [done|]. split; [by eexists _, _, _, _|]. split; [reflexivity|].
  unfold told. cbn in *. destruct r as [r|].
  - destruct e as [e|].
    + destruct Ho as (_ & Hs & Hc & Hm). split; [|split; [|done]].
      * destruct Hs as [->|[-> Hs]]; [by left|right]. by split.
      * intros H. by rewrite (Hc H).
    + destruct Ho as [-> Ho]. split; [done|]. destruct Ho as [[? _]|?]; auto.
  - destruct Ho as [-> _]. split; [done|]. by eapply Hnil.
Qed.

Lemma unfinished_job_told j evs s :
  fresh j -> job_run j evs s -> finishTime (job s) = None ->
  exists st, fromProto [Jobs.Status (job s)] = [st] /\ told_unfinished evs st.
Proof.
  intros Hf Hrun Hfin. destruct (unfinished_job_status j evs s Hf Hrun Hfin) as [Hm Hs].
  eexists. split; [reflexivity|]. unfold told_unfinished. cbn in *. split; [done|].
  destruct (startTime (job s)); [rewrite Hs; tauto|]. destruct Hs as [->|[-> Ht]]; tauto.
Qed.

(** C21: a request, from the client that makes it to the status the client is told.
    Whatever other requests the service serves and however the run and the close of
    the jobs interleave, as long as requests for one identifier do not overlap, the
    job of an accepted request is there until it is closed, and asking for its
    identifier gives its status, unless a panic of some job has killed the process:
    then the client is told that the service is unavailable.  While the steps have not
    returned, the status is unspecified or running.  Then it is what a run of the step of the request, in the
    context the request was given, returned: success exactly when there was no error,
    and otherwise failure, or cancelled when the error is that of a context or says
    the process of a closed job was killed, with a message that has the text of the
    error.  Only a run that could not write its log has no result: its job is said to
    be running, and its goroutine is about to kill the process. *)
Theorem request_outcome env wait r w j sc step w' rs s l streamer_of log_of rpc_error
    unavailable :
  r_Id r <> "" ->
  prepare env wait (toProto r) w = (Ok (j, sc, step), w') ->
  steps exclusive_step NewService rs s -> jobs_put rs !! l = Some j ->
  returns_of step sc (job_events l rs) ->
  exists js, store s !! l = Some js /\ job_run j (job_events l rs) js /\
    (alive s = false ->
     Client_Status (connected s streamer_of log_of rpc_error unavailable) (r_Id r) =
     Err (WrapError ("getting status for job " +:+ quote (r_Id r) +:+ ": ") unavailable "")) /\
    (alive s = true -> closer js <> CloseDone ->
     exists st, Client_Status (connected s streamer_of log_of rpc_error unavailable) (r_Id r) = Ok st /\
       fromProto [Jobs.Status (job js)] = [st] /\ Id st = r_Id r /\
       match EndTime st with
       | None => told_unfinished (job_events l rs) st
       | Some _ => exists result e, StepReturns result e ∈ job_events l rs /\
           (exists fuel w1 sc' w2, run fuel step sc w1 = (Ok (result, e, sc'), w2)) /\
           told (job_events l rs) result e st
       end).
Proof.
  intros Hne Hp Hs Hl Hret. apply prepared_job in Hp as (Hf & Hid & Hnil). cbn in Hid.
  destruct (service_runs_jobs rs s (exclusive_steps _ _ _ Hs)) as (Hlen & _ & Hruns).
  destruct (lookup_lt_is_Some_2 (store s) l) as [js Hjs].
  { rewrite Hlen. by apply lookup_lt_Some in Hl. }
  destruct (Hruns l js Hjs) as (j' & Hj' & Hrun). simplify_eq. exists js. do 2 (split; [done|]).
  split; [intros Ha; unfold Client_Status; cbn [rpc_Status connected]; by rewrite Ha|].
  intros Ha Hopen. assert (ID (job js) = ID j) as Hjid by (by eapply job_run_ID).
  destruct (open_job_status rs s l js Hs Hjs) as [Hst _]; [by rewrite Hjid, Hid|done|].
  rewrite Hjid, Hid in Hst.
  assert (forall st, fromProto [Jobs.Status (job js)] = [st] ->
    Client_Status (connected s streamer_of log_of rpc_error unavailable) (r_Id r) = Ok st /\ Id st = r_Id r /\
    (EndTime st = None <-> finishTime (job js) = None)) as Hst'.
  { intros st Heq. unfold Client_Status. cbn [rpc_Status connected]. rewrite Ha, Hst. cbn [mbind res_bind wrap_err].
    rewrite Heq. split; [done|]. injection Heq as <-. cbn. rewrite Hjid, Hid. split; [done|].
    by destruct (finishTime (job js)). }
  destruct (decide (finishTime (job js) = None)) as [Hfin|Hfin].
  - destruct (unfinished_job_told j _ js Hf Hrun Hfin) as (st & Heq & Ht). exists st.
    destruct (Hst' st Heq) as (H1 & H2 & H3). do 3 (split; [done|]). by rewrite (proj2 H3 Hfin).
  - destruct (finished_job_told step sc j _ js Hf Hrun Hret Hnil Hfin)
      as (result & e & st & Hin & Hr & Heq & Ht). exists st.
    destruct (Hst' st Heq) as (H1 & H2 & H3). do 3 (split; [done|]).
    destruct (EndTime st); [by exists result, e|by destruct Hfin; apply H3].
Qed.
End request.
