(* ===== verification/Harness.v ===== *)
(** How the tests run steps and the service: the step runner of the tests
    (src/pkg/testutil/step_runner.go), their requests
    (src/pkg/api/internal/test/test.go) and their server
    (src/pkg/api/internal/test/server/server.go).  An error that must not be there
    ends the test, and is the error of the computation; what the code under test
    returned is in the result. *)

From stdpp Require Import gmap strings list fin_maps.
From S2P Require Import Prelude GoStrings GoPaths Values Environment Proto StepFile Schema SpecDefinition.
From S2P Require Import World Resources Runner RunnerFacts Termination RunnerSpec Jobs Service Commands.
From S2P Require Import CommandsFacts Client Builders.
Open Scope go_scope.
Open Scope string_scope.
Open Scope list_scope.

(** ** step_runner.go *)

(** [type StepRunnerBuilder struct]; the map of the environment may be nil. *)
Record StepRunnerBuilder := {
  globalEnv : option (gmap string string);
  globalCtxJob : gmap string string;
  timeout : Z
}.

Definition StepRunner : StepRunnerBuilder :=
  {| globalEnv := Some ∅; globalCtxJob := ∅; timeout := 20000000000 |}.

Definition WithGlobalCtxEnv (b : StepRunnerBuilder) (env : option (gmap string string)) : StepRunnerBuilder :=
  {| globalEnv := env; globalCtxJob := globalCtxJob b; timeout := timeout b |}.

(** Writing to a nil map panics. *)
Definition WithEnvKeyVal (b : StepRunnerBuilder) (key value : string) : res StepRunnerBuilder :=
  match globalEnv b with
  | Some env => Ok {| globalEnv := Some (<[key := value]> env); globalCtxJob := globalCtxJob b;
                      timeout := timeout b |}
  | None => Panic "assignment to entry in nil map"
  end.

Definition WithGlobalCtxJob (b : StepRunnerBuilder) (key value : string) : StepRunnerBuilder :=
  {| globalEnv := globalEnv b; globalCtxJob := <[key := value]> (globalCtxJob b); timeout := timeout b |}.

Definition WithDebugLogs (b : StepRunnerBuilder) : StepRunnerBuilder :=
  WithGlobalCtxJob b LogLevelEnvName "debug".

Section run.
  Context `{CS : CommandSystem} `{SE : StepFileEnv} `{SP : StructPB} `{MR : MapRange}
    `{FM : schema.Format}.
  (** [os.UserHomeDir()], and the bytes the buffer of the log has got. *)
  Context (UserHomeDir : os_state -> res string) (logged : os_state -> string).

(** [os.Getwd()] and [os.UserHomeDir()] *)
Definition current_dir : M string := fun w => (Getwd (os w), w).
Definition home_dir : M string := fun w => (UserHomeDir (os w), w).

(** The definition of the YAML, in the current directory. *)
Definition test_definition (yaml : string) : M SpecDefinition :=
  '(schemaSpec, schemaStep) ← lift (ReadSteps yaml);
  protoSpec ← lift (schema.Spec_Compile schemaSpec).2;
  protoDef ← lift (schema.Compile schemaStep);
  dir ← current_dir;
  mret (NewSpecDefinition protoSpec protoDef dir).

(** The global context, whose log is the buffer of the builder. *)
Definition test_context (b : StepRunnerBuilder) : M GlobalContext :=
  w ← get;
  osEnv ← on_heap_res (fun h => NewEnvironmentFromOS h (Environ (os w)) []);
  env ← on_heap_res (fun h => GlobalEnvironment h osEnv (globalCtxJob b));
  env ← match globalEnv b with
        | Some vars => on_heap (fun h => AddLexicalScope h env vars)
        | None => mret env
        end;
  workDir ← home_dir;
  lift (NewGlobalContext workDir (globalCtxJob b) env).

(** [b.Run(yaml)], without the deadline of the context; [fuel] bounds the depth of
    the definitions. *)
Definition test_Run (fuel : nat) (b : StepRunnerBuilder) (yaml : string) :
    M (option proto.StepResult * string * option error) :=
  specDef ← test_definition yaml;
  globalCtx ← test_context b;
  _ ← StepParser;
  step ← lift (Parse globalCtx specDef empty_params StepDefinedInGitLabJob);
  let inputs := NewInputsWithDefault empty_params (SpecInputs specDef) in
  env ← on_heap (fun h => AddLexicalScope h (gc_env globalCtx) (Params_Env empty_params));
  stepsCtx ← NewStepsContext globalCtx (Dir specDef) inputs env [];
  '(result, err, _) ← Runner.run fuel step stepsCtx;
  w ← get;
  mret (result, logged (os w), err).

(** ** Facts *)

Lemma test_definition_decided yaml w : decided (test_definition yaml w).1 = true.
Proof.
  unfold test_definition, ReadSteps. walk_call;
    apply unmarshalSchema_decided || apply Spec_Compile_decided || apply Compile_decided || apply Getwd_decided.
Qed.
End run.

Section run_facts.
  Context `{CS : CommandSystem} `{SE : StepFileEnv} `{SP : StructPB} `{MR : MapRange}
    `{FM : schema.Format}.
  Context (UserHomeDir : os_state -> res string) (logged : os_state -> string).

Lemma StepParser_heap w d w' : StepParser w = (Ok d, w') -> heap w' = heap w.
Proof.
  unfold StepParser, StepResourceParser, GitFetcher, CacheDir. intros Hr.
  apply wrap_Ok, wrap_Ok, wrap_Ok in Hr. apply M_bind_Ok in Hr as ([] & w1 & Hm%wrap_Ok & [_ ->]%ret_Ok).
  unfold mkdirAll in Hm. destruct (MkdirAll _ _) as [[e|] o]; [done|]. by injection Hm as <-.
Qed.

(** A scope without variables is the environment itself. *)
Lemma on_heap_empty_scope e w e' w' :
  on_heap (fun h => AddLexicalScope h e (Params_Env empty_params)) w = (Ok e', w') ->
  e' = e /\ heap w' = heap w.
Proof.
  unfold on_heap, AddLexicalScope. rewrite decide_True by done. by intros [= <- <-].
Qed.

Lemma test_definition_Ok yaml w sd w' :
  test_definition yaml w = (Ok sd, w') -> w' = w /\ Getwd (os w) = Ok (Dir sd).
Proof.
  unfold test_definition. intros Hr. apply M_bind_Ok in Hr as ([spec st] & w1 & [_ ->]%lift_Ok & Hr).
  apply M_bind_Ok in Hr as (pspec & w1 & [_ ->]%lift_Ok & Hr).
  apply M_bind_Ok in Hr as (pdef & w1 & [_ ->]%lift_Ok & Hr).
  apply M_bind_Ok in Hr as (d & w1 & Hd & [<- ->]%ret_Ok). unfold current_dir in Hd.
  injection Hd as Hd <-. by split.
Qed.

(** The variables of the steps of a test: what was asked for over the log level
    over the process. *)
Definition test_variables (b : StepRunnerBuilder) (level : string) (environ : list string) (k : string) :
    option string :=
  match default ∅ (globalEnv b) !! k with
  | Some v => Some v
  | None => if String.eqb k LogLevelEnvName then Some level else last_value environ k
  end.

Lemma test_context_Ok b w g w' :
  acyclic (heap w) -> test_context UserHomeDir b w = (Ok g, w') ->
  gc_job g = globalCtxJob b /\ UserHomeDir (os w) = Ok (gc_workDir g) /\ os w' = os w /\
  acyclic (heap w') /\ gc_env g < length (heap w') /\
  exists level, level ∈ log_levels /\
    forall k, Values (heap w') (gc_env g) !! k = test_variables b level (Environ (os w)) k.
Proof.
  intros Ha Hr. unfold test_context in Hr. apply M_bind_Ok in Hr as (w0 & w0' & [-> ->]%get_Ok & Hr).
  apply M_bind_Ok in Hr as (p & w1 & [Hp ->]%on_heap_res_Ok & Hr).
  apply M_bind_Ok in Hr as (e & w2 & [He ->]%on_heap_res_Ok & Hr). cbn in Hp, He.
  destruct (GlobalEnvironmentFromOS_Ok _ _ _ _ _ _ _ _ Ha Hp He) as (Ha2 & Hlen & _ & Hl & HV & _).
  apply M_bind_Ok in Hr as (e' & w3 & He' & Hr). apply M_bind_Ok in Hr as (d & w4 & Hd & Hr).
  unfold home_dir in Hd. injection Hd as Hd <-. apply lift_Ok in Hr as [[= <-] ->]. cbn.
  unfold test_variables. destruct (globalEnv b) as [vs|]; cbn [default].
  - unfold on_heap in He'. pose proof (Values_AddLexicalScope (heap w2) e vs Ha2 Hlen) as HV'.
    pose proof (acyclic_AddLexicalScope (heap w2) e vs Ha2 Hlen) as Ha3.
    pose proof (AddLexicalScope_bound (heap w2) e vs Hlen) as [Hb _].
    destruct (AddLexicalScope _ _ _) as [x h]. injection He' as <- <-. cbn in *.
    repeat (split; [done|]). eexists. split; [exact Hl|]. intros k. rewrite HV', lookup_union.
    rewrite HV. by destruct (vs !! k), (if String.eqb k _ then _ else _).
  - apply ret_Ok in He' as [<- ->]. cbn in *. repeat (split; [done|]). eexists. split; [exact Hl|].
    intros k. rewrite lookup_empty. apply HV.
Qed.

Lemma home_decided : (forall o, decided (UserHomeDir o) = true) ->
  forall b w, decided (test_context UserHomeDir b w).1 = true.
Proof.
  intros Hh b w. unfold test_context. walk_call.
  - apply on_heap_res_decided, NewEnvironmentFromOS_decided.
  - apply on_heap_res_decided, GlobalEnvironment_decided.
  - apply on_heap_decided.
  - apply Hh.
Qed.

(** What a test observes is a run.  When the runner of the tests returns, the
    result and the error are those of running the parsed definition, from the
    current directory, in a context with the variables the test asked for and the
    defaults of the inputs; the result has the shape of a result, and there is
    none only when the log could not be written.  And it returns, or ends the
    test, with a fuel that is twice the depth of the definition plus one. *)
Theorem tests_observe_runs fuel b yaml w :
  acyclic (heap w) ->
  (forall result log err w',
     test_Run UserHomeDir logged fuel b yaml w = (Ok (result, log, err), w') ->
     exists specDef gc step sc w1 sc',
       test_definition yaml w = (Ok specDef, w) /\ Getwd (os w) = Ok (sc_stepDir sc) /\
       Parse gc specDef empty_params StepDefinedInGitLabJob = Ok step /\
       Runner.run fuel step sc w1 = (Ok (result, err, sc'), w') /\ log = logged (os w') /\
       wf_return result err /\
       (result = None -> exists e, err = Some (WrapError "writing to stdout: " e "")) /\
       gc_job (sc_globalCtx sc) = globalCtxJob b /\
       sc_inputs sc = proto.Input_Default <$> SpecInputs specDef /\
       exists level, level ∈ log_levels /\
         forall k, Values (heap w1) (sc_env sc) !! k = test_variables b level (Environ (os w)) k) /\
  (forall n, (forall o, decided (UserHomeDir o) = true) -> 2 * n + 1 <= fuel ->
     (forall specDef, test_definition yaml w = (Ok specDef, w) -> nested n specDef) ->
     decided (test_Run UserHomeDir logged fuel b yaml w).1 = true).
Proof.
  intros Ha. split.
  - intros result log err w' Hr. unfold test_Run in Hr.
    apply M_bind_Ok in Hr as (sd & w0 & Hd & Hr). destruct (test_definition_Ok _ _ _ _ Hd) as [-> Hcwd].
    apply M_bind_Ok in Hr as (gc & w2 & Hg & Hr).
    destruct (test_context_Ok _ _ _ _ Ha Hg) as (Hjob & _ & Hos & Ha2 & Hlen & level & Hlevel & HV).
    apply M_bind_Ok in Hr as (cache & w3 & Hsp & Hr).
    apply StepParser_heap in Hsp.
    apply M_bind_Ok in Hr as (step & w4 & [Hp ->]%lift_Ok & Hr).
    apply M_bind_Ok in Hr as (env & w5 & [Henv Hw5]%on_heap_empty_scope & Hr).
    apply M_bind_Ok in Hr as (sc & w6 & Hsc & Hr).
    pose proof (NewStepsContext_heap _ _ _ _ _ _ _ Hsc) as Hh6.
    apply NewStepsContext_Ok in Hsc as (out & ex & ->); [|done].
    apply M_bind_Ok in Hr as ([[r e] sc'] & w7 & Hrun & Hr).
    apply M_bind_Ok in Hr as (w8 & w8' & [-> ->]%get_Ok & [[= <- <- <-] <-]%ret_Ok).
    match type of Hrun with Runner.run _ _ ?sc _ = _ => exists sd, gc, step, sc, w6, sc' end.
    do 5 (split; [done|]). split; [by eapply run_result|].
    split. { intros ->. by eapply Parse_loaded. }
    split; [done|]. cbn. split.
    { apply map_eq. intros k. rewrite NewInputsWithDefault_lookup, lookup_fmap. cbn. by rewrite lookup_empty. }
    exists level. split; [done|]. intros k. by rewrite Hh6, Hw5, Henv, Hsp.
  - intros n Hh Hf Hn. unfold test_Run. apply M_bind_decided; [apply test_definition_decided|].
    intros sd w1 Hd. pose proof (test_definition_Ok _ _ _ _ Hd) as [-> _]. apply Hn in Hd.
    apply M_bind_decided; [by apply home_decided|]. intros gc w2 _.
    apply M_bind_decided; [apply StepParser_decided|]. intros _ w3 _.
    apply M_bind_decided; [apply Parse_decided|]. intros step w4 [Hp _]%lift_Ok.
    apply M_bind_decided; [apply on_heap_decided|]. intros env w5 _.
    apply M_bind_decided; [apply NewStepsContext_decided|]. intros sc w6 _.
    apply M_bind_decided; [|by intros [[? ?] ?] ? _].
    eapply (ends_more (2 * n + 1)); [done|]. by eapply nested_ends.
Qed.
End run_facts.

(** ** The options of the service (service.go) *)

Section server.
(** The ways to execute a job: [executeAsync], which starts a goroutine, and the
    one of the tests, which calls it. *)
Inductive Executor := executeAsync | executeNow.

(** The fields of [StepRunnerService] that its options set. *)
Record ServiceOptions := {
  execute : Executor;
  runExitWaitTime : Z
}.

Definition WithExecutor (executor : Executor) (s : ServiceOptions) : ServiceOptions :=
  {| execute := executor; runExitWaitTime := runExitWaitTime s |}.

Definition WithJobRunExitWaitTime (waitTime : Z) (s : ServiceOptions) : ServiceOptions :=
  {| execute := execute s; runExitWaitTime := waitTime |}.

(** The options over the defaults of [New]. *)
Definition service_options (options : list (ServiceOptions -> ServiceOptions)) : ServiceOptions :=
  foldl (fun s option => option s) {| execute := executeAsync; runExitWaitTime := 0 |} options.

(** ** server.go *)

(** [type TestStepRunnerServer struct], while it serves the options of its service. *)
Record TestStepRunnerServer := {
  server : option ServiceOptions;
  port : string;
  executor : Executor;
  jobRunExitWaitTime : Z
}.

(** [New(t, options...)], with a free port. *)
Definition TestServer_New (port : string) (options : list (TestStepRunnerServer -> TestStepRunnerServer)) :
    TestStepRunnerServer :=
  foldl (fun s opt => opt s)
    {| server := None; port := port; executor := executeNow; jobRunExitWaitTime := 500000000 |} options.

Definition TestServer_WithExecutor (e : Executor) (s : TestStepRunnerServer) : TestStepRunnerServer :=
  {| server := server s; port := port s; executor := e; jobRunExitWaitTime := jobRunExitWaitTime s |}.

Definition TestServer_WithJobRunExitWaitTime (waitTime : Z) (s : TestStepRunnerServer) : TestStepRunnerServer :=
  {| server := server s; port := port s; executor := executor s; jobRunExitWaitTime := waitTime |}.

(** [s.Serve()]; the listener and the goroutine of gRPC are the library's. *)
Definition TestServer_Serve `{CS : CommandSystem} (s : TestStepRunnerServer) :
    M (TestStepRunnerServer * loc) :=
  _ ← StepParser;
  env ← on_heap NewEmptyEnvironment;
  let svc := service_options [WithExecutor (executor s); WithJobRunExitWaitTime (jobRunExitWaitTime s)] in
  mret ({| server := Some svc; port := port s; executor := executor s;
           jobRunExitWaitTime := jobRunExitWaitTime s |}, env).

(** The address [s.NewConnection()] connects to. *)
Definition TestServer_address (s : TestStepRunnerServer) : string := "localhost:" +:+ port s.

Definition TestServer_Stop (s : TestStepRunnerServer) : TestStepRunnerServer :=
  match server s with
  | Some _ => {| server := None; port := port s; executor := executor s;
                 jobRunExitWaitTime := jobRunExitWaitTime s |}
  | None => s
  end.
End server.

(** A job that is executed now: the steps of [Run], one after the other, of a job
    no one closes meanwhile. *)
Definition run_now (j : Job) (t0 t1 : Z) (r : option proto.StepResult) (e : option error) : list event :=
  [RunEnters; RunStarts t0; StepReturns r e; RunCompletes t1] ++
  (match (onRunCompletion t1 r e (set_outcome (err j) proto.running (set_times (Some t0) (finishTime j) j))).2 with
   | None => [RunLogsError]
   | Some _ => []
   end) ++ [RunCleansUp; RunClosesLogs; RunSignals].

(** A request to a server of the tests returns when its job has run. *)
Lemma run_now_completes j t0 t1 r e :
  fresh j -> exists s p, job_run j (run_now j t0 t1 r e) s /\ Jobs.runner s = RunDone p /\
    proto.Status_EndTime (Jobs.Status (job s)) = Some t1.
Proof.
  intros (Hf & _). unfold run_now. set (j1 := set_outcome _ _ _).
  pose proof (onRunCompletion_frame t1 r e j1) as Hframe.
  destruct (onRunCompletion t1 r e j1) as [j2 [p|]] eqn:E;
    destruct (Hframe _ _ eq_refl) as (_ & Hf2 & _ & _ & _ & Hft & _); change (finishC j1) with (finishC j) in Hf2.
  - eexists _, (Some p). split; [|split].
    + apply (run_labels_steps fire). cbn. fold j1. rewrite E. cbn. rewrite Hf2, Hf. reflexivity.
    + reflexivity.
    + exact Hft.
  - assert (exists p, fire {| job := j2; Jobs.runner := RunCompleted e; closer := CloseIdle |} RunLogsError =
      Some {| job := j2; Jobs.runner := RunDeferred p; closer := CloseIdle |}) as [p Hp].
    { cbn. destruct (err j2), e; by eexists. }
    eexists _, p. split; [|split].
    + do 3 (econstructor; [reflexivity|]).
      econstructor; [unfold job_step; cbn; fold j1; rewrite E; reflexivity|].
      econstructor; [exact Hp|]. do 2 (econstructor; [reflexivity|]).
      econstructor; [unfold job_step; cbn; rewrite Hf2, Hf; reflexivity|constructor].
    + reflexivity.
    + exact Hft.
Qed.

(** ** test.go *)

(** [strings.ReplaceAll] of one byte by another. *)
Fixpoint replace_byte (old new : ascii) (s : string) : string :=
  match s with
  | "" => ""
  | String c s' => String (if Ascii.eqb c old then new else c) (replace_byte old new s')
  end.

(** [TestDirName(t)] of the name of the test. *)
Definition TestDirName (tempDir name : string) : string :=
  PathJoin [tempDir; replace_byte "/" "-" name].

(** [RandJobID()] of the number that was drawn. *)
Definition RandJobID (n : Z) : string := itoa n.

(** [ProtoRunRequest(t, step, withJob)], with the temporary directory of the test. *)
Definition ProtoRunRequest (n : Z) (tempDir step : string) (withJob : bool) : proto.RunRequest := {|
  proto.Request_Id := RandJobID n;
  proto.Request_WorkDir := tempDir;
  proto.Request_Env := ∅;
  proto.Request_Job :=
    if withJob then Some {| proto.Job_Variables := []; proto.Job_BuildDir := tempDir |} else None;
  proto.Request_Steps := step |}.

(** [RunRequest(t, step, env, vars)] *)
Definition RunRequest_ (n : Z) (step : string) (env : gmap string string) (vars : list Client.Variable_) :
    Client.RunRequest := {|
  r_Id := RandJobID n;
  r_WorkDir := "";
  r_Env := env;
  r_Steps := "spec: {}" +:+ newline +:+ "---" +:+ newline +:+ step;
  r_Variables := vars;
  r_BuildDir := "" |}.

(** [type SyncBuff struct]: every method holds the lock of the buffer, so each is
    one step. *)
Record SyncBuff := { sync_b : string }.

Definition SyncBuff_Write (b : SyncBuff) (p : string) : (Z * option error) * SyncBuff :=
  ((Z.of_nat (String.length p), None), {| sync_b := sync_b b +:+ p |}).

Definition SyncBuff_Len (b : SyncBuff) : Z := Z.of_nat (String.length (sync_b b)).

Definition SyncBuff_String (b : SyncBuff) : string := sync_b b.

(** [type ClosableBuf struct] *)
Definition ClosableBuf_Close (b : SyncBuff) : option error := None.

(** ** integration_test/steps/greeting/main.go *)

(** A write whose error panics. *)
Definition must_write `{CS : CommandSystem} (filename data : string) : M unit := fun w =>
  match os_WriteFile filename data w with
  | (Err err, w') => (Panic (Error err), w')
  | r => r
  end.

(** A line with a name and a value, which is quoted as Go quotes it. *)
Definition quoted_line (name value : string) : string :=
  "{" +:+ dquote +:+ "name" +:+ dquote +:+ ":" +:+ dquote +:+ name +:+ dquote +:+ ", " +:+
  dquote +:+ "value" +:+ dquote +:+ ":" +:+ quote value +:+ "}".

(** [main()] of the step of the integration tests, after its two flags are parsed: it
    prints the greeting, and writes an output and a variable. *)
Definition greeting_main `{CS : CommandSystem} (name greeting : string) : M unit :=
  _ ← Println greeting;
  w ← get;
  _ ← must_write (getenv (Environ (os w)) "STEP_RUNNER_OUTPUT") (quoted_line "name" name);
  must_write (getenv (Environ (os w)) "STEP_RUNNER_ENV") (quoted_line "NAME" name).
