(* ===== verification/Proxy.v ===== *)
(** The tunnel of [step-runner proxy] (src/pkg/api/proxy/proxy.go): two goroutines
    that copy the input of the process to a connection, and the connection to its
    output, as a transition system whose events are what the input, the connection
    and the scheduler do.

    The bytes of each direction arrive in order, and the call returns once the
    input ends.  It does not return before, although the comment in the code says
    that it returns as soon as either loop is done. *)

From stdpp Require Import gmap strings list.
From S2P Require Import Prelude GoStrings.
Open Scope go_scope.
Open Scope string_scope.
Open Scope list_scope.

(** ** The goroutines *)

(** [io.Copy] is running, has returned its error, and the deferred call is done:
    the function has returned. *)
Inductive pc := Copying | Copied (err : option error) | Returned (err : option error).

(** The two goroutines, what each closed, what was read on each side and what was
    written, and the error of the group. *)
Record proxy := {
  writer : pc;
  reader : pc;
  read_closed : bool;
  write_closed : bool;
  taken : string;
  sent : string;
  received : string;
  printed : string;
  first_err : option error
}.

(** [Proxy(source, sink, conn)] when both goroutines are started. *)
Definition start : proxy := {|
  writer := Copying; reader := Copying; read_closed := false; write_closed := false;
  taken := ""; sent := ""; received := ""; printed := ""; first_err := None |}.

(** What a write does: it writes everything, or a part and fails. *)
Definition write_result (data : string) (fails : option (nat * error)) : string * option error :=
  match fails with
  | None => (data, None)
  | Some (n, err) => (slice data 0 n, Some err)
  end.

(** The events: data, the end or an error of the input; the same of the
    connection; and the deferred calls, with what they return. *)
Inductive event :=
  | SourceYields (data : string) (fails : option (nat * error))
  | SourceEnds (err : option error)
  | ConnYields (data : string) (fails : option (nat * error))
  | ConnEnds (err : option error)
  | ConnIsShut
  | WriterCloses (err : option error)
  | ReaderCloses (err : option error).

Definition broken_pipe : error := NewError "broken pipe".

(** [errors.Join(err, closeErr)] *)
Definition Join_errors (a b : option error) : option error :=
  match a, b with
  | Some a, Some b => Some (NewError (Error a +:+ newline +:+ Error b))
  | Some a, None => Some a
  | None, b => b
  end.

Definition first_of (a b : option error) : option error := match a with Some _ => a | None => b end.

Section proxy.
  Context (addr : string).

Definition write_error (err : error) : error := WrapError ("proxying stdin to " +:+ quote addr +:+ ": ") err "".
Definition read_error (err : error) : error := WrapError ("proxying " +:+ quote addr +:+ " to stdout: ") err "".

Definition with_writer (p : pc) (taken sent : string) (s : proxy) : proxy := {|
  writer := p; reader := reader s; read_closed := read_closed s; write_closed := write_closed s;
  taken := taken; sent := sent; received := received s; printed := printed s; first_err := first_err s |}.
Definition with_reader (p : pc) (received printed : string) (s : proxy) : proxy := {|
  writer := writer s; reader := p; read_closed := read_closed s; write_closed := write_closed s;
  taken := taken s; sent := sent s; received := received; printed := printed; first_err := first_err s |}.

(** One event; [None] when it is not the next of its goroutine. *)
Definition fire (s : proxy) (ev : event) : option proxy :=
  match ev, writer s, reader s with
  | SourceYields data fails, Copying, _ =>
      let '(written, err) := write_result data (if write_closed s then Some (0%nat, broken_pipe) else fails) in
      Some (with_writer (match err with Some err => Copied (Some (write_error err)) | None => Copying end)
              (taken s +:+ data) (sent s +:+ written) s)
  | SourceEnds err, Copying, _ =>
      Some (with_writer (Copied (write_error <$> err)) (taken s) (sent s) s)
  | ConnYields data fails, _, Copying =>
      let '(written, err) := write_result data fails in
      Some (with_reader (match err with Some err => Copied (Some (read_error err)) | None => Copying end)
              (received s +:+ data) (printed s +:+ written) s)
  | ConnEnds err, _, Copying =>
      Some (with_reader (Copied (read_error <$> err)) (received s) (printed s) s)
  | ConnIsShut, _, Copying =>
      if read_closed s then Some (with_reader (Copied None) (received s) (printed s) s) else None
  | WriterCloses e, Copied err, _ =>
      let err := Join_errors err e in
      Some {| writer := Returned err; reader := reader s; read_closed := true;
              write_closed := write_closed s; taken := taken s; sent := sent s;
              received := received s; printed := printed s; first_err := first_of (first_err s) err |}
  | ReaderCloses e, _, Copied err =>
      let err := Join_errors err e in
      Some {| writer := writer s; reader := Returned err; read_closed := read_closed s;
              write_closed := true; taken := taken s; sent := sent s;
              received := received s; printed := printed s; first_err := first_of (first_err s) err |}
  | _, _, _ => None
  end.

Definition proxy_step (s : proxy) (ev : event) (s' : proxy) : Prop := fire s ev = Some s'.

Definition is_returned (p : pc) : bool := match p with Returned _ => true | _ => false end.

(** [eg.Wait()]: what [Proxy] returns, when it does. *)
Definition Wait (s : proxy) : option (option error) :=
  if is_returned (writer s) && is_returned (reader s) then Some (first_err s) else None.
End proxy.

(** ** Properties *)

Section proxy_facts.
  Context (addr : string).

(** The events of the input. *)
Definition from_source (ev : event) : bool :=
  match ev with SourceYields _ _ | SourceEnds _ => true | _ => false end.

Definition carries (p : pc) (taken sent : string) : Prop :=
  match p with
  | Copying => sent = taken
  | Copied None | Returned None => sent = taken
  | _ => exists rest, taken = sent +:+ rest
  end.

(** The first [n] bytes and the others. *)
Lemma slice_prefix s n : exists rest, s = slice s 0 n +:+ rest.
Proof.
  unfold slice. rewrite Nat.sub_0_r. revert n. induction s as [|c s IH]; intros [|n]; cbn; try by eexists.
  destruct (IH n) as [rest E]. exists rest. by rewrite <- E.
Qed.

Lemma write_result_spec data fails :
  match write_result data fails with
  | (written, None) => written = data
  | (written, Some _) => exists rest, data = written +:+ rest
  end.
Proof. destruct fails as [[n e]|]; [apply slice_prefix|done]. Qed.

Lemma carries_write (err : error -> error) taken sent data fails :
  carries Copying taken sent ->
  let '(written, e) := write_result data fails in
  carries (match e with Some e => Copied (Some (err e)) | None => Copying end)
    (taken +:+ data) (sent +:+ written).
Proof.
  cbn. intros ->. pose proof (write_result_spec data fails) as Hw.
  destruct (write_result data fails) as [written [e|]]; cbn; [|by subst].
  destruct Hw as [rest ->]. exists rest. by rewrite string_app_assoc.
Qed.

Lemma carries_prefix p taken sent : carries p taken sent -> exists rest, taken = sent +:+ rest.
Proof.
  destruct p as [|[e|]|[e|]]; cbn; try done; intros ->; exists ""; by rewrite string_app_nil_r.
Qed.

Lemma carries_end (f : error -> error) err taken sent :
  carries Copying taken sent -> carries (Copied (f <$> err)) taken sent.
Proof. destruct err as [e|]; cbn; [|done]. intros ->. exists "". by rewrite string_app_nil_r. Qed.

(** Closing keeps what was carried: without an error everything was. *)
Lemma carries_close err e taken sent :
  carries (Copied err) taken sent -> carries (Returned (Join_errors err e)) taken sent.
Proof.
  destruct err as [err|], e as [e|]; cbn; try done. intros ->. exists "". by rewrite string_app_nil_r.
Qed.

(** An error of a goroutine is the error of the group, or came after it. *)
Definition accounted (p : pc) (first : option error) : Prop :=
  match p with Returned (Some _) => is_Some first | _ => True end.

Definition proxy_inv (s : proxy) : Prop :=
  carries (writer s) (taken s) (sent s) /\ carries (reader s) (received s) (printed s) /\
  accounted (writer s) (first_err s) /\ accounted (reader s) (first_err s) /\
  (is_returned (writer s) = true -> read_closed s = true).

Lemma accounted_first p first err : accounted p first -> accounted p (first_of first err).
Proof. destruct p as [| |[e|]]; cbn; try done. intros [e' ->]. by eexists. Qed.

Lemma accounted_returned err first : accounted (Returned err) (first_of first err).
Proof. destruct err, first; cbn; by eauto. Qed.

Lemma fire_inv s ev s' : proxy_inv s -> fire addr s ev = Some s' -> proxy_inv s'.
Proof.
  intros (Hw & Hr & Aw & Ar & Hc). unfold fire.
  destruct ev as [data fails|err|data fails|err| |e|e].
  - destruct (writer s) eqn:Ew; try done.
    pose proof (carries_write (write_error addr) _ _ data
      (if write_closed s then Some (0%nat, broken_pipe) else fails) Hw) as H.
    destruct (write_result _ _) as [written [e|]]; intros [= <-]; by repeat split.
  - destruct (writer s) eqn:Ew; try done. intros [= <-]. split; [by apply carries_end|]. by repeat split.
  - destruct (writer s) eqn:Ew, (reader s) eqn:Er; try done;
      pose proof (carries_write (read_error addr) _ _ data fails Hr) as H;
      destruct (write_result _ _) as [written [e|]]; intros [= <-];
      unfold proxy_inv; cbn [writer reader with_reader]; rewrite Ew; by repeat split.
  - destruct (writer s) eqn:Ew, (reader s) eqn:Er; try done; intros [= <-];
      unfold proxy_inv; cbn [writer reader with_reader]; rewrite Ew;
      (split; [done|]); (split; [by apply carries_end|]); by repeat split.
  - destruct (writer s) eqn:Ew, (reader s) eqn:Er, (read_closed s) eqn:Ec; try done; intros [= <-];
      unfold proxy_inv; cbn [writer reader with_reader read_closed]; rewrite Ew, ?Ec; by repeat split.
  - destruct (writer s) eqn:Ew; try done. intros [= <-]. split; [by apply carries_close|].
    split; [done|]. split; [apply accounted_returned|]. split; [by apply accounted_first|done].
  - destruct (writer s) eqn:Ew, (reader s) eqn:Er; try done; intros [= <-];
      unfold proxy_inv; cbn [writer reader first_err read_closed taken sent received printed]; rewrite ?Ew;
      (split; [done|]); (split; [by apply carries_close|]);
      (split; [by apply accounted_first|]); (split; [apply accounted_returned|done]).
Qed.

Lemma reachable_inv evs s : steps (proxy_step addr) start evs s -> proxy_inv s.
Proof.
  apply steps_invariant; [intros x ev y; apply fire_inv|]. by repeat split.
Qed.

(** What the tunnel carries.  At any moment what was written to the connection
    begins what was read from the input, and what was printed begins what was
    read from the connection; when the call returns without an error, each is the
    whole. *)
Theorem proxy_carries evs s :
  steps (proxy_step addr) start evs s ->
  (exists rest, taken s = sent s +:+ rest) /\ (exists rest, received s = printed s +:+ rest) /\
  (Wait s = Some None -> sent s = taken s /\ printed s = received s).
Proof.
  intros (Hw & Hr & Aw & Ar & _)%reachable_inv. split; [by eapply carries_prefix|].
  split; [by eapply carries_prefix|]. unfold Wait.
  destruct (writer s) as [| |[e|]], (reader s) as [| |[e'|]]; try done; intros [= Hf]; rewrite Hf in *;
    try (by destruct Aw); by destruct Ar.
Qed.

(** The events that are left to the scheduler: no data and no end comes. *)
Definition of_scheduler (ev : event) : bool :=
  match ev with ConnIsShut | WriterCloses _ | ReaderCloses _ => true | _ => false end.

(** C31: when the tunnel returns.  It never returns before the input yields data
    or ends, even when the connection ended long before; and from the moment the
    copy of the input is over, the scheduler alone makes it return in at most
    four steps, whatever the connection does. *)
Theorem proxy_waits_for_input evs s :
  steps (proxy_step addr) start evs s ->
  (is_Some (Wait s) -> exists ev, ev ∈ evs /\ from_source ev = true) /\
  (writer s <> Copying ->
   exists evs' s', steps (proxy_step addr) s evs' s' /\ length evs' <= 4 /\
     Forall (fun ev => of_scheduler ev = true) evs' /\ is_Some (Wait s')).
Proof.
  intros H. split.
  - enough (writer s = Copying \/ exists ev, ev ∈ evs /\ from_source ev = true) as [Hc|Hc]; [|done|].
    { unfold Wait. rewrite Hc. by intros [? ?]. }
    refine (steps_trace_invariant (proxy_step addr)
      (fun ls s => writer s = Copying \/ exists ev, ev ∈ ls /\ from_source ev = true) _ _ _ _ _ H); [|by left].
    intros ls x ev y [Hc|(ev' & Hin & Hs)] Hstep;
      [|right; exists ev'; split; [set_solver|done]].
    destruct (from_source ev) eqn:Es; [right; exists ev; split; [set_solver|done]|].
    left. unfold proxy_step, fire in Hstep. rewrite Hc in Hstep.
    destruct ev; try done; destruct (reader x); try done.
    + destruct (write_result _ _) as [? [|]]; by injection Hstep as <-.
    + by injection Hstep as <-.
    + destruct (read_closed x); [|done]. by injection Hstep as <-.
    + by injection Hstep as <-.
  - intros Hc. apply reachable_inv in H as (_ & _ & _ & _ & Hclosed).
    assert (exists evs1 s1, steps (proxy_step addr) s evs1 s1 /\ length evs1 <= 1 /\
      Forall (fun ev => of_scheduler ev = true) evs1 /\ is_returned (writer s1) = true /\
      read_closed s1 = true /\ reader s1 = reader s) as (evs1 & s1 & H1 & Hl & Hf & Hw & Hr & Hrd).
    { destruct (writer s) as [|err|err] eqn:Ew; [done|..].
      - eexists [WriterCloses None], _. split.
        { econstructor; [|constructor]. unfold proxy_step, fire. by rewrite Ew. }
        split; [done|]. split; [by apply Forall_singleton|done].
      - exists [], s. rewrite Ew. split; [constructor|]. cbn. split; [lia|]. split; [done|]. auto. }
    assert (forall s2 err, is_returned (writer s2) = true -> reader s2 = Copied err ->
      exists s3, fire addr s2 (ReaderCloses None) = Some s3 /\ is_Some (Wait s3)) as Hlast.
    { intros s2 err Hw2 Hr2. unfold fire. rewrite Hr2. destruct (writer s2) eqn:E2; try done.
      eexists. split; [reflexivity|]. unfold Wait. cbn [writer reader is_returned]. by rewrite ?E2. }
    destruct (reader s1) as [|err|err] eqn:Er.
    + destruct (Hlast (with_reader (Copied None) (received s1) (printed s1) s1) None Hw eq_refl) as (s3 & H3 & Hw3).
      exists (evs1 ++ [ConnIsShut; ReaderCloses None]), s3. split.
      { eapply steps_app; [exact H1|]. econstructor; [|econstructor; [exact H3|constructor]].
        unfold proxy_step, fire. rewrite Er, Hr. by destruct (writer s1). }
      rewrite length_app. cbn. split; [lia|]. split; [|done]. apply Forall_app. by repeat constructor.
    + destruct (Hlast s1 err Hw Er) as (s3 & H3 & Hw3). exists (evs1 ++ [ReaderCloses None]), s3. split.
      { eapply steps_app; [exact H1|]. econstructor; [exact H3|constructor]. }
      rewrite length_app. cbn. split; [lia|]. split; [|done]. apply Forall_app. by repeat constructor.
    + exists evs1, s1. split; [done|]. split; [lia|]. split; [done|]. unfold Wait. by rewrite Hw, Er.
Qed.
End proxy_facts.
