(* ===== verification/Witnesses.v ===== *)
(** Concrete inputs for the properties of expressions, environments and step
    files: each applied where its hypotheses hold. *)

From stdpp Require Import gmap strings list.
From S2P Require Import Prelude GoStrings Values Expression ExpressionFacts Environment Proto StepFile.
Open Scope go_scope.
Open Scope string_scope.
Open Scope list_scope.

(** ** Expressions *)

Definition sample_context : InterpolationContext := {|
  ic_Env := {["HOME" := "/root"]};
  ic_ExportFile := "/tmp/export"; ic_OutputFile := "/tmp/output";
  ic_Inputs := {["name" := Some (VString "world")]};
  ic_Job := {["CI_JOB_ID" := "7"]};
  ic_StepDir := "/steps/hello";
  ic_StepResults := {["build" := {| srv_Outputs := {["image" := VBool true]} |}]};
  ic_WorkDir := "/work" |}.

Definition sample_template : list segment := [Lit "hello "; Expr "inputs.name"; Lit "!"].

Lemma interpolateString_of_template_witness :
  wf_segments sample_template = true /\
  @interpolateString ref_structpb (Some sample_context) (render sample_template) =
  Ok {| context.Value_Value := VString "hello world!"; context.Value_Sensitive := false;
        context.Value_SensitiveReason := "" |}.
Proof.
  split; [vm_compute; reflexivity|].
  rewrite (@interpolateString_of_template ref_structpb (Some sample_context) sample_template)
    by (vm_compute; reflexivity).
  vm_compute. reflexivity.
Defined.

Lemma Expand_never_sensitive_witness :
  context.Assign {| context.Variable_Value := VNull; context.Variable_Sensitive := false |}
    {| context.Value_Value := VString "world"; context.Value_Sensitive := false;
       context.Value_SensitiveReason := "" |} =
  Ok {| context.Variable_Value := VString "world"; context.Variable_Sensitive := false |}.
Proof.
  exact (proj2 (@Expand_never_sensitive ref_structpb (Some sample_context)
    (VString "${{ inputs.name }}") _
    {| context.Variable_Value := VNull; context.Variable_Sensitive := false |}
    ltac:(vm_compute; reflexivity))).
Defined.

Lemma Expand_identity_on_plain_witness :
  exists x, @Expand ref_structpb None (VList [VString "${ {"; VNull]) = Ok x /\
    context.Value_Value x = VList [VString "${ {"; VNull].
Proof. apply Expand_identity_on_plain. vm_compute. reflexivity. Defined.

Lemma expression_namespaces_witness :
  @Evaluate ref_structpb (any_of_context sample_context) "steps.build.outputs.image" =
  Ok {| context.Value_Value := VBool true; context.Value_Sensitive := false;
        context.Value_SensitiveReason := "steps.build.outputs.image" |}.
Proof.
  refine (proj2 (proj2 (proj2 (@expression_namespaces ref_structpb sample_context "build" "image"
    _ _ _ _))) {| srv_Outputs := {["image" := VBool true]} |} _); try (vm_compute; reflexivity);
    apply map_Forall_singleton; vm_compute; reflexivity.
Defined.

Lemma exports_not_addressable_witness :
  is_ok (@Evaluate ref_structpb (any_of_context sample_context) "steps.build.exports.image") = false.
Proof.
  change "steps.build.exports.image" with (Join ["steps"; "build"; "exports"; "image"] ".").
  rewrite (@exports_not_addressable ref_structpb sample_context "build" "image"
    {| srv_Outputs := {["image" := VBool true]} |}) by (vm_compute; reflexivity).
  reflexivity.
Defined.

(** ** Environments *)

(** A base environment, a scope opened on it, and a separate environment of
    exported variables. *)
Definition sample_heap : env_heap := [
  {| vars := {["PATH" := "/bin"]}; parent := None; mutations := [] |};
  {| vars := {["HOME" := "/root"]}; parent := Some 0; mutations := [] |};
  {| vars := {["PATH" := "/usr/bin"]}; parent := None; mutations := [] |}
].

Lemma sample_edge x y : edge sample_heap x y -> x = 1 /\ y = 0.
Proof.
  intros (n & Hn & He). destruct x as [|[|[|x]]]; cbn in Hn; simplify_eq; cbn in He;
    destruct He as [[=]|He]; try (by apply not_elem_of_nil in He); by simplify_eq.
Qed.

Lemma sample_acyclic : acyclic sample_heap.
Proof.
  apply (acyclic_of_rank sample_heap id). intros x y [-> ->]%sample_edge. cbn. lia.
Qed.

Lemma sample_not_reaches : ~ reaches sample_heap 2 0.
Proof.
  intros H. inversion H as [|x y z Hxy Hyz]; subst. by apply sample_edge in Hxy as [? _].
Qed.

Lemma Values_terminates_witness : values_fuel 4 sample_heap 1 = Some (Values sample_heap 1).
Proof. apply (Values_terminates sample_heap 1 sample_acyclic); cbn; lia. Defined.

Lemma Values_precedence_witness : Values sample_heap 1 !! "PATH" = Some "/bin".
Proof.
  rewrite (Values_precedence sample_heap 1
    {| vars := {["HOME" := "/root"]}; parent := Some 0; mutations := [] |} "PATH" sample_acyclic)
    by reflexivity.
  vm_compute. reflexivity.
Defined.

Lemma Mutate_spec_witness :
  Values (Mutate sample_heap 0 (Some 2)) 0 = {["PATH" := "/usr/bin"]}.
Proof.
  refine (eq_trans (proj1 (proj2 (Mutate_spec sample_heap 0 2 sample_acyclic _ _
    sample_not_reaches _))) _); [cbn; lia|cbn; lia|by vm_compute|vm_compute; reflexivity].
Defined.

Lemma AddLexicalScope_spec_witness :
  Values (AddLexicalScope sample_heap 2 {["HOME" := "/"]}).2 0 = {["PATH" := "/bin"]}.
Proof.
  pose proof (AddLexicalScope_spec sample_heap 2 {["HOME" := "/"]} sample_acyclic ltac:(cbn; lia)) as H.
  destruct (AddLexicalScope _ _ _) as [s h'] eqn:E. destruct H as (_ & _ & _ & H).
  cbn [snd]. rewrite H by (cbn; lia). vm_compute. reflexivity.
Defined.

Lemma GlobalEnvironment_spec_witness :
  match GlobalEnvironment sample_heap 0 {[LogLevelEnvName := " DEBUG "]} with
  | Ok (e, h') => Values h' e !! LogLevelEnvName = Some "debug"
  | _ => False
  end.
Proof.
  pose proof (GlobalEnvironment_spec sample_heap 0 {[LogLevelEnvName := " DEBUG "]}
    sample_acyclic ltac:(cbn; lia)) as H.
  destruct (GlobalEnvironment _ _ _) as [[e h']|err| |] eqn:E; try done.
  destruct H as (_ & _ & -> & _). vm_compute. reflexivity.
Defined.

(** ** Step files *)

(** Decoders that know two lines. *)
Definition sample_decode (line : string) : res StepFileLine :=
  if String.eqb line "a1" then Ok {| line_Name := Some "a"; line_Value := Some (VBool true) |}
  else if String.eqb line "a2" then Ok {| line_Name := Some "a"; line_Value := Some (VString "x") |}
  else Err (NewError "invalid line").

Lemma sample_decode_decided line : decided (sample_decode line) = true.
Proof. unfold sample_decode. by repeat destruct (String.eqb _ _). Qed.

Definition sample_files : StepFileEnv := {|
  UnmarshalLine := sample_decode;
  UnmarshalStepResult data := Err (NewError "invalid step result");
  UnmarshalLine_decided := sample_decode_decided;
  UnmarshalStepResult_decided data := eq_refl;
  open_error path := NewError "no such file or directory";
  RunningInDebugMode := false
|}.

(** A file system of one file, [f]. *)
Definition one_file (content : string) : file_system := {["f" := content]}.

Definition two_lines : string := "a1" +:+ newline +:+ newline +:+ "a2" +:+ newline.

Lemma ReadKeyValueLines_spec_witness :
  exists out, @ReadKeyValueLines sample_files (one_file two_lines) "f" = Ok out /\
    out !! "a" = Some (VString "x").
Proof.
  pose proof (@ReadKeyValueLines_spec sample_files (one_file two_lines) "f" two_lines
    ltac:(vm_compute; reflexivity)) as H.
  replace (line_entries 1 (scan_lines two_lines).1) with (Ok [("a", VBool true); ("a", VString "x")])
    in H by (vm_compute; reflexivity).
  destruct H as (out & H & _ & Hl). exists out. split; [exact H|].
  rewrite Hl. vm_compute. reflexivity.
Defined.

(** 65536 bytes without a newline. *)
Definition long_line : string := doubled 16 "x".

Lemma doubled_length n s : String.length (doubled n s) = 2 ^ n * String.length s.
Proof. induction n as [|n IH]; cbn; [lia|]. rewrite string_length_app, IH. lia. Qed.

Lemma doubled_bytes f n s : all_bytes f s = true -> all_bytes f (doubled n s) = true.
Proof. intros Hs. induction n as [|n IH]; cbn; [done|]. by rewrite all_bytes_app, IH. Qed.

Lemma long_line_cuts : cut_short "a1" long_line.
Proof.
  split; [vm_compute; reflexivity|]. split; [by apply doubled_bytes|].
  unfold long_line. rewrite doubled_length, Nat2N.inj_mul, Nat2N.inj_pow. vm_compute. by inversion 1.
Qed.

Lemma long_line_drops_the_rest_witness :
  @ReadKeyValueLines sample_files
    (one_file ("a1" +:+ newline +:+ long_line +:+ (newline +:+ "a2"))) "f" =
  Ok {["a" := VBool true]}.
Proof.
  rewrite (proj1 (@long_line_drops_the_rest sample_files
    (one_file ("a1" +:+ newline +:+ long_line +:+ (newline +:+ "a2")))
    (one_file ("a1" +:+ newline)) "f" "a1" long_line (newline +:+ "a2")
    (lookup_insert_eq _ _ _) (lookup_insert_eq _ _ _) long_line_cuts)).
  vm_compute. reflexivity.
Defined.

Lemma ReadEnvironment_spec_witness :
  is_ok (@ReadEnvironment sample_files canonical_range (one_file "a2") "f" sample_heap) = true.
Proof.
  refine (proj2 (proj1 (@ReadEnvironment_spec sample_files canonical_range (one_file "a2") "f"
    sample_heap {["a" := VString "x"]} sample_acyclic _)) _).
  - vm_compute. reflexivity.
  - apply map_Forall_singleton. reflexivity.
Defined.
