(* ===== verification/SchemaWitnesses.v ===== *)
(** Concrete inputs for the properties of references and of the compiler of step
    files: each applied where its hypotheses hold. *)

From stdpp Require Import gmap strings list.
From S2P Require Import Prelude GoStrings GoPaths Values Expression ExpressionFacts Proto StepFile.
From S2P Require Import ShortReference Schema SchemaFacts.
Open Scope go_scope.
Open Scope string_scope.
Open Scope list_scope.

(** ** References *)

Lemma local_reference_denotes_witness :
  exists ref, CompileShortRef "./a//b/my.yml" = Ok ref /\ proto.Ref_Protocol ref = proto.local /\
    Forall (fun x => x <> "") (proto.Ref_Path ref) /\ proto.Ref_Filename ref <> "" /\
    PathJoin (proto.Ref_Path ref ++ [proto.Ref_Filename ref]) = "a/b/my.yml".
Proof. apply (local_reference_denotes "./a//b/my.yml"); vm_compute; reflexivity. Defined.

Lemma remote_reference_roundtrip_witness :
  CompileShortRef "gitlab.com/x/y/-/a/b.yml@v1" = Ok {|
    proto.Ref_Protocol := proto.git; proto.Ref_Url := "https://gitlab.com/x/y";
    proto.Ref_Path := ["steps"; "a"]; proto.Ref_Filename := "b.yml";
    proto.Ref_Version := "v1"; proto.Ref_SpecDef := None; proto.Ref_StepPath := None |}.
Proof.
  refine (remote_reference_roundtrip "gitlab.com/x/y" ["a"; "b.yml"] "v1" _ _ _ _ _ _);
    try (vm_compute; reflexivity).
  repeat constructor; done.
Defined.

(** ** Schemas *)

(** A formatter that prints nothing. *)
Definition sample_format : schema.Format := {|
  schema.format_any v := ""; schema.format_input i := ""; schema.format_output o := "";
  schema.format_pointer s := "" |}.

Definition sample_schema_step (action script : option string) (v : schema.StepValue) : schema.Step := {|
  schema.Step_Action := action; schema.Step_Delegate := None; schema.Step_Env := ∅;
  schema.Step_Exec := None; schema.Step_Inputs := ∅; schema.Step_Name := Some "one";
  schema.Step_Outputs := ∅; schema.Step_Script := script; schema.Step_Step := v;
  schema.Step_Run := None |}.

Definition sample_definition : schema.Step := {|
  schema.Step_Action := None; schema.Step_Delegate := None; schema.Step_Env := ∅;
  schema.Step_Exec := None; schema.Step_Inputs := ∅; schema.Step_Name := None;
  schema.Step_Outputs := ∅; schema.Step_Script := None; schema.Step_Step := schema.SVNil;
  schema.Step_Run := Some [sample_schema_step None None (schema.SVString "./a")] |}.

Definition sample_spec : schema.Spec := {| schema.Spec_Spec := Some {|
  schema.Signature_Inputs := {["name" := {|
    schema.Input_AdditionalProperties := ANil; schema.Input_Default := AString "world";
    schema.Input_Sensitive := None; schema.Input_Type := Some "string" |}]};
  schema.Signature_Outputs := schema.SONil |} |}.

Lemma Spec_Compile_well_typed_witness :
  exists p, (@schema.Spec_Compile ref_structpb canonical_range sample_format sample_spec).2 = Ok p /\
    map_Forall (fun _ i => well_typed (proto.Input_Type i) (proto.Input_Default i))
      (proto.Content_Inputs (proto.Spec_Spec p)).
Proof.
  eexists. split; [vm_compute; reflexivity|].
  apply (proj1 (proj2 (@Spec_Compile_well_typed ref_structpb canonical_range sample_format sample_spec _)
    ltac:(vm_compute; reflexivity))).
Defined.

Lemma script_keyword_witness :
  @schema.CompileStep ref_structpb canonical_range (sample_schema_step None (Some "ls") schema.SVNil) =
  Ok {| proto.Step_Name := "one"; proto.Step_Step := Some script_reference;
        proto.Step_Env := ∅; proto.Step_Inputs := {["script" := VString "ls"]} |}.
Proof.
  exact (@script_keyword ref_structpb canonical_range (sample_schema_step None (Some "ls") schema.SVNil)
    "ls" eq_refl ltac:(done) eq_refl).
Defined.

Lemma action_keyword_witness :
  @schema.CompileStep ref_structpb canonical_range (sample_schema_step (Some "a/b@v1") None schema.SVNil) =
  Ok {| proto.Step_Name := "one"; proto.Step_Step := Some action_reference; proto.Step_Env := ∅;
        proto.Step_Inputs := <["action" := VString "a/b@v1"]> {["inputs" := VStruct []]} |}.
Proof.
  exact (@action_keyword ref_structpb canonical_range
    (sample_schema_step (Some "a/b@v1") None schema.SVNil) "a/b@v1" (VStruct [])
    eq_refl ltac:(done) eq_refl eq_refl).
Defined.

Definition sample_oci : schema.OCIReference := schema.NewOCIReference "registry.example" "steps" "".

Definition fetched_result : StepResultView :=
  {| srv_Outputs := {["fetched_step_path" := VString "/oci/step"]} |}.

Definition fetched_context : InterpolationContext := {|
  ic_Env := ∅; ic_ExportFile := ""; ic_OutputFile := ""; ic_Inputs := ∅; ic_Job := ∅; ic_StepDir := "";
  ic_StepResults := {["fetch_step_one" := fetched_result]};
  ic_WorkDir := "" |}.

Lemma oci_reference_path_witness :
  exists p, @schema.CompileStep ref_structpb canonical_range
    (sample_schema_step None None (schema.SVReference
      {| schema.Reference_Git := None; schema.Reference_OCI := Some sample_oci |})) = Ok p /\
    proto.Step_Inputs p = ∅.
Proof.
  eexists. split; [vm_compute; reflexivity|].
  destruct (@oci_reference_path ref_structpb canonical_range
    (sample_schema_step None None (schema.SVReference
      {| schema.Reference_Git := None; schema.Reference_OCI := Some sample_oci |}))
    sample_oci fetched_context fetched_result "/oci/step" eq_refl eq_refl eq_refl eq_refl ltac:(vm_compute; reflexivity)
    ltac:(vm_compute; reflexivity) _ ltac:(vm_compute; reflexivity))
    as (? & ? & ? & ? & ? & _ & H & _).
  exact H.
Defined.
