(* ===== verification/RunnerWitnesses.v ===== *)
(** A small system on which the runner evaluates, and concrete inputs for the
    properties of runs: each applied where its hypotheses hold. *)

From stdpp Require Import gmap strings list.
From S2P Require Import Prelude GoStrings GoPaths Values Expression ExpressionFacts Environment Evolution.
From S2P Require Import Proto StepFile ShortReference Schema SpecDefinition World Resources Runner.
From S2P Require Import RunnerFacts Termination RunnerSpec.
Open Scope go_scope.
Open Scope string_scope.
Open Scope list_scope.

(** ** A system *)

(** Lines [name=value] instead of JSON. *)
Definition demo_decode (line : string) : res StepFileLine :=
  let '(n, v, ok) := Cut line "=" in
  if ok then Ok {| line_Name := Some n; line_Value := Some (VString v) |}
  else Err (NewError "invalid line").

Lemma demo_decode_decided line : decided (demo_decode line) = true.
Proof. unfold demo_decode. destruct (Cut line "=") as [[? ?] []]; done. Qed.

Definition demo_files : StepFileEnv := {|
  UnmarshalLine := demo_decode;
  UnmarshalStepResult data := Err (NewError "invalid step result");
  UnmarshalLine_decided := demo_decode_decided;
  UnmarshalStepResult_decided data := eq_refl;
  open_error path := NewError "no such file or directory";
  RunningInDebugMode := false
|}.

(** The commands: [write path text] writes a file, [fail] fails, any other does
    nothing.  The state counts the random numbers. *)
Definition demo_run (args : list string) (dir : string) (env : list string) (o : nat) (f : file_system) :
    Z * option error * file_system * nat :=
  match args with
  | ["write"; path; text] => (0%Z, None, <[path := text]> f, o)
  | ["fail"] => (1%Z, Some (NewError "exit status 1"), f, o)
  | _ => (0%Z, None, f, o)
  end.

Definition demo_system : System := {|
  os_state := nat;
  MkdirTemp o := (Ok "/tmp/step-runner-1", o);
  Uint32 o := (N.of_nat o, S o);
  WriteFile_error _ _ _ := None;
  Remove_error _ f p := match f !! p with Some _ => None | None => Some (NewError "no such file") end;
  Write_stdout o _ := (None, o);
  Cmd_Run := demo_run;
  Git_Get url version o f := (Ok "/git", f, o);
  Dist_Fetch dir o f := (Ok "/dist", f, o);
  unmarshalSchema content := Err (NewError "not YAML");
  validateSpec _ := None;
  validateStep _ := None;
  MkdirTemp_decided o := eq_refl;
  Git_Get_decided url version o f := eq_refl;
  Dist_Fetch_decided dir o f := eq_refl;
  unmarshalSchema_decided content := eq_refl
|}.

Definition demo_format : schema.Format := {|
  schema.format_any v := ""; schema.format_input i := ""; schema.format_output o := "";
  schema.format_pointer s := "" |}.

#[local] Existing Instance demo_system.
#[local] Existing Instance demo_files.
#[local] Existing Instance demo_format.
#[local] Existing Instance canonical_range.
#[local] Existing Instance ref_structpb.

(** ** A job *)

(** The global environment, and the scope of a nested sequence. *)
Definition demo_world : World := {|
  heap := [{| vars := {["FOO" := "old"]}; parent := None; mutations := [] |};
           {| vars := {["FOO" := "old"]}; parent := Some 0; mutations := [] |}];
  files := {["/out" := ""]} ∪ {["/export" := ""]};
  filesDir := "/tmp/d"; os := 7 |}.

Definition demo_global : GlobalContext :=
  {| gc_workDir := "/work"; gc_job := ∅; gc_env := 0 |}.

Definition demo_context (env : loc) : StepsContext := {|
  sc_globalCtx := demo_global; sc_stepDir := "/steps"; sc_outputFile := "/out";
  sc_exportFile := "/export"; sc_env := env; sc_inputs := ∅; sc_steps := ∅ |}.

Definition demo_spec (m : proto.OutputMethod) : proto.Spec := {| proto.Spec_Spec := {|
  proto.Content_Inputs := ∅; proto.Content_Outputs := ∅; proto.Content_OutputMethod := m |} |}.

(** A definition that exports FOO. *)
Definition export_def : proto.Definition_ := {|
  proto.Def_Type := proto.exec;
  proto.Def_Exec := Some {| proto.Exec_Command := ["write"; "${{export_file}}"; "FOO=new"];
                            proto.Exec_WorkDir := "" |};
  proto.Def_Steps := []; proto.Def_Outputs := ∅; proto.Def_Env := {["BAR" := "${{env.FOO}}!"]};
  proto.Def_Delegate := "" |}.

Definition export_specdef : SpecDefinition := NewSpecDefinition (demo_spec proto.outputs) export_def "".

Definition no_params : Params := {| Params_Inputs := ∅; Params_Env := ∅ |}.
Definition demo_name : NamedStepReference := NewNamedStepReference "one" None.

Definition export_step : Step := ExecutableStep demo_name no_params export_specdef.

(** A sequence of two references to that definition, which delegates to the
    first. *)
Definition export_reference : proto.Step := {|
  proto.Step_Name := "first";
  proto.Step_Step := Some {|
    proto.Ref_Protocol := proto.spec_def; proto.Ref_Url := ""; proto.Ref_Path := [];
    proto.Ref_Filename := ""; proto.Ref_Version := "";
    proto.Ref_SpecDef := Some {| proto.SpecDef_Spec := Some (demo_spec proto.outputs);
                                 proto.SpecDef_Definition := Some export_def |};
    proto.Ref_StepPath := None |};
  proto.Step_Env := {["FOO" := "mine"]}; proto.Step_Inputs := ∅ |}.

Definition sequence_def : proto.Definition_ := {|
  proto.Def_Type := proto.steps; proto.Def_Exec := None;
  proto.Def_Steps := [export_reference; export_reference];
  proto.Def_Outputs := ∅; proto.Def_Env := ∅; proto.Def_Delegate := "first" |}.

Definition sequence_specdef : SpecDefinition :=
  NewSpecDefinition (demo_spec proto.delegate) sequence_def "/steps".

Definition export_resource : StepResource := FixedStepResource export_specdef.

Definition lazy_steps : list Step :=
  [LazilyLoadedStep demo_global export_reference export_resource;
   LazilyLoadedStep demo_global export_reference export_resource].

Definition sequence_step : Step := SequenceOfSteps demo_name no_params sequence_specdef lazy_steps.

(** ** What running them gives *)

(** A run that returned a result without an error, and one that returned. *)
Definition succeeded {Sy : System} (o : res outcome * @World Sy) : bool :=
  match o.1 with Ok (Some _, None, _) => true | _ => false end.

Lemma succeeded_inv {Sy : System} o (w : @World Sy) :
  succeeded (o, w) = true -> exists x s', o = Ok (Some x, None, s').
Proof. destruct o as [[[[x|] [e|]] s']| | |]; try done. by exists x, s'. Qed.

Lemma export_run : succeeded (run 1 export_step (demo_context 0) demo_world) = true.
Proof. vm_compute. reflexivity. Qed.
Lemma sequence_run : succeeded (run 3 sequence_step (demo_context 0) demo_world) = true.
Proof. vm_compute. reflexivity. Qed.
Lemma loaded_step :
  is_ok (loadStep 0 export_reference export_resource (demo_context 0) demo_world).1 = true.
Proof. vm_compute. reflexivity. Qed.
Lemma applied_env :
  is_ok (ExpandAndApplyEnv (demo_context 0) (Env sequence_specdef) demo_world).1 = true.
Proof. vm_compute. reflexivity. Qed.

(** The context of a loaded step. *)
Definition created : M StepsContext :=
  '(_, params, sd) ← loadStep 1 export_reference export_resource (demo_context 0);
  env ← EnvWithLexicalScope (demo_context 0) (Params_Env params);
  NewStepsContext demo_global (Dir sd) (NewInputsWithDefault params (SpecInputs sd)) env [].
Lemma created_context : is_ok (created demo_world).1 = true.
Proof. vm_compute. reflexivity. Qed.

Lemma demo_acyclic : acyclic (heap demo_world).
Proof.
  apply (acyclic_of_rank _ id). intros x y (n & Hn & He).
  destruct x as [|[|x]]; cbn in Hn; simplify_eq; cbn in He; destruct He as [[=]|He];
    try (by apply not_elem_of_nil in He); subst; cbn; lia.
Qed.

Lemma demo_ctx_ok env : env < 2 -> ctx_ok 0 (demo_context env) demo_world.
Proof. intros H. split; [done|exact H]. Qed.

(** ** The properties there *)

Lemma run_results_well_formed_witness :
  exists x, wf_result x /\ proto.SR_Status x = proto.success.
Proof.
  pose proof sequence_run as H. destruct (run 3 _ _ _) as [o w'] eqn:E.
  apply succeeded_inv in H as (x & s' & ->). exists x.
  exact (run_results_well_formed 3 _ _ _ _ _ _ _ E).
Defined.

Lemma sequence_runs_in_order_witness :
  exists x, length (proto.SR_SubStepResults x) <= 2 /\ wf_result x.
Proof.
  pose proof sequence_run as H. destruct (run 3 _ _ _) as [o w'] eqn:E.
  apply succeeded_inv in H as (x & s' & ->).
  pose proof applied_env as Ha.
  destruct (ExpandAndApplyEnv _ _ _) as [oe w1] eqn:Ee. apply is_ok_true in Ha as [[env s1] Ha].
  cbn in Ha. subst oe.
  destruct (sequence_runs_in_order 2 demo_name no_params sequence_specdef lazy_steps _ _ _ _ _ _ _ _ _ Ee E)
    as (rs & err & y & _ & [= <-] & Hsub & Hr).
  exists x. rewrite Hsub. split.
  - assert (length (omap id rs) <= length rs) as Hl.
    { clear. induction rs as [|[r|] rs IH]; cbn; lia. }
    destruct err as [err|]; [destruct Hr as (_ & ? & ? & _ & Hr & _)|destruct Hr as [Hr _]];
      cbn in Hr; lia.
  - apply (run_result 3 _ _ _ _ _ _ _ E).
Defined.

Lemma delegated_outputs_witness :
  exists x y, proto.SR_Outputs x = proto.SR_Outputs y.
Proof.
  pose proof sequence_run as H. destruct (run 3 _ _ _) as [o w'] eqn:E.
  apply succeeded_inv in H as (x & s' & ->).
  destruct (delegated_outputs 2 demo_name no_params sequence_specdef lazy_steps _ _ _ _ _
    (map_Forall_empty _) eq_refl E) as (_ & x' & y & _ & _ & Hxy).
  exists x', y. exact Hxy.
Defined.

Lemma export_nested : nested 1 sequence_specdef.
Proof.
  intros _. lazymatch goal with |- Forall ?P _ => assert (P export_reference) as Hone end.
  - intros sr Hsr v w.
    assert (sr = FixedStepResource export_specdef) as -> by (vm_compute in Hsr; by injection Hsr).
    split; [done|]. intros sd' w' [= <- _]. by intros Hd.
  - apply Forall_cons; split; [exact Hone|]. apply Forall_cons; split; [exact Hone|constructor].
Qed.

Lemma run_terminates_witness :
  decided (run 100 sequence_step (demo_context 0) demo_world).1 = true.
Proof.
  assert (Parse demo_global sequence_specdef no_params demo_name = Ok sequence_step) as Hp
    by (vm_compute; reflexivity).
  apply (run_terminates 1 sequence_specdef demo_global no_params demo_name sequence_step
    export_nested Hp 100). lia.
Defined.

(** A variable whose value names itself. *)
Definition selfish_context : InterpolationContext := {|
  ic_Env := {["X" := "${{env.X}}"]}; ic_ExportFile := ""; ic_OutputFile := ""; ic_Inputs := ∅;
  ic_Job := ∅; ic_StepDir := ""; ic_StepResults := ∅; ic_WorkDir := "" |}.

Lemma dynamic_reference_diverges_witness :
  Fetch 50 (DynamicStepResource "${{env.X}}") (Some selfish_context) demo_world = (OutOfFuel, demo_world).
Proof. apply dynamic_reference_diverges; vm_compute; reflexivity. Defined.

Lemma run_environments_witness :
  acyclic (heap (run 1 export_step (demo_context 1) demo_world).2).
Proof.
  destruct (run 1 _ _ _) as [o w'] eqn:E.
  apply (run_environments 0 1 export_step (demo_context 1) demo_world o w' demo_acyclic
    ltac:(cbn; lia) (demo_ctx_ok 1 ltac:(lia)) I E).
Defined.

Lemma exports_reach_the_global_environment_witness :
  exists x w', (kv ← ReadKeyValueLines (files w') "/export"; range_map env_text kv) = Ok (proto.SR_Exports x) /\
    Values (heap w') 0 = proto.SR_Exports x ∪ {["FOO" := "old"]}.
Proof.
  pose proof export_run as H. destruct (run 1 _ _ _) as [o w'] eqn:E.
  apply succeeded_inv in H as (x & s' & ->).
  destruct (exports_reach_the_global_environment 0 0 _ _ _ _ _ _ _ _ demo_acyclic
    ltac:(cbn; lia) (demo_ctx_ok 0 ltac:(lia)) E) as (y & _ & Hkv & Hy).
  exists y, w'. split; [exact Hkv|]. rewrite Hy. f_equal.
Defined.

Lemma exports_hidden_in_nested_scope_witness :
  Values (heap (run 1 export_step (demo_context 1) demo_world).2) 1 !! "FOO" = Some "old".
Proof.
  destruct (run 1 _ _ _) as [o w'] eqn:E.
  apply (exports_hidden_in_nested_scope 0 1 export_step (demo_context 1) demo_world o w'
    {| vars := {["FOO" := "old"]}; parent := Some 0; mutations := [] |} "FOO" "old" demo_acyclic
    ltac:(cbn; lia) (demo_ctx_ok 1 ltac:(lia)) I eq_refl ltac:(done) eq_refl
    ltac:(vm_compute; reflexivity) E).
Defined.

Lemma loaded_parameters_witness :
  exists env w1 params sd, heap_evolves 0 demo_world w1 /\
    dom (proto.Step_Inputs export_reference) ⊆ dom (SpecInputs sd) /\
    Params_Env params = env ∪ Values (heap w1) 0.
Proof.
  pose proof loaded_step as H. destruct (loadStep _ _ _ _ _) as [o w'] eqn:E.
  apply is_ok_true in H as [[[step params] sd] H]. cbn in H. subst o.
  destruct (loaded_parameters 0 _ _ (demo_context 0) demo_world _ _ _ _ demo_acyclic
    ltac:(cbn; lia) E) as (w1 & env & Hev & Hd & _ & _ & _ & Hp).
  exists env, w1, params, sd. split; [exact Hev|]. split; [exact Hd|exact Hp].
Defined.

Lemma remote_path_expression_panics_witness :
  (Git_Fetch "https://example.com/r" "v1" "steps/${{env.X}}" "step.yml" None demo_world).1 =
  Panic zero_value_type.
Proof.
  exact (remote_path_expression_panics "https://example.com/r" "v1" "step.yml" [Lit "steps/"; Expr "env.X"]
    "env.X" None demo_world "/git" (files demo_world) (os demo_world) ltac:(vm_compute; reflexivity)
    eq_refl eq_refl ltac:(set_solver)).
Defined.

Lemma step_files_removed_witness :
  exists sc, files (run 2 (LazilyLoadedStep demo_global export_reference export_resource)
    (demo_context 0) demo_world).2 !! sc_outputFile sc = None.
Proof.
  pose proof created_context as H. destruct (created demo_world) as [o w3] eqn:E.
  apply is_ok_true in H as [sc H]. cbn in H. subst o. unfold created in E.
  apply M_bind_Ok in E as ([[step params] sd] & w1 & Hl & E).
  apply M_bind_Ok in E as (env & w2 & He & Hc). exists sc.
  pose proof (step_files_removed 1 demo_global export_reference export_resource (demo_context 0)
    demo_world step params sd w1 env w2 sc w3 Hl He Hc) as H. cbv zeta in H.
  assert (decided (run 2 (LazilyLoadedStep demo_global export_reference export_resource)
    (demo_context 0) demo_world).1 = true) as Hd by (vm_compute; reflexivity).
  destruct (run 2 _ _ _) as [o w']. destruct (H Hd) as (_ & _ & Hf).
  change (files w' !! sc_outputFile sc = None).
  destruct (Hf (sc_outputFile sc) ltac:(by left)) as [Hn|(f & err & Hf1 & -> & Herr)]; [exact Hn|].
  cbn in Herr. rewrite <- Hf1. by destruct (f !! sc_outputFile sc).
Defined.

Lemma compiled_definition_parses_witness :
  exists step, Parse demo_global (NewSpecDefinition (demo_spec proto.outputs)
    {| proto.Def_Type := proto.exec;
       proto.Def_Exec := Some {| proto.Exec_Command := ["ls"]; proto.Exec_WorkDir := "" |};
       proto.Def_Steps := []; proto.Def_Outputs := ∅; proto.Def_Env := ∅; proto.Def_Delegate := "" |} "")
    no_params demo_name = Ok step.
Proof.
  apply (compiled_definition_parses {|
    schema.Step_Action := None; schema.Step_Delegate := None; schema.Step_Env := ∅;
    schema.Step_Exec := Some {| schema.Exec_Command := ["ls"]; schema.Exec_WorkDir := None |};
    schema.Step_Inputs := ∅; schema.Step_Name := None; schema.Step_Outputs := ∅;
    schema.Step_Script := None; schema.Step_Step := schema.SVNil; schema.Step_Run := None |});
    [vm_compute; reflexivity|exact I|vm_compute; reflexivity].
Defined.
