(* ===== verification/ServiceWitnesses.v ===== *)
(** Concrete inputs for the properties of jobs, the service and its clients:
    each applied where its hypotheses hold. *)

From stdpp Require Import gmap strings list.
From S2P Require Import Prelude GoStrings GoPaths Values Expression Environment Evolution Proto StepFile.
From S2P Require Import ShortReference Schema SpecDefinition World Resources Runner RunnerFacts RunnerSpec.
From S2P Require Import Variables Streamer Jobs Service Client Session Request.
From S2P Require Import SchemaWitnesses RunnerWitnesses.
Open Scope go_scope.
Open Scope string_scope.
Open Scope list_scope.

(** ** A system with files for jobs, whose step files decode to one definition *)

Definition service_system_of (definition : schema.Step) : System := {|
  os_state := nat;
  MkdirTemp o := (Ok "/tmp/step-runner-1", o);
  Uint32 o := (N.of_nat o, S o);
  WriteFile_error _ _ _ := None;
  Remove_error _ f p := match f !! p with Some _ => None | None => Some (NewError "no such file") end;
  Write_stdout o _ := (None, o);
  Cmd_Run := demo_run;
  Git_Get url version o f := (Ok "/git", f, o);
  Dist_Fetch dir o f := (Ok "/dist", f, o);
  unmarshalSchema content := Ok (sample_spec, definition);
  validateSpec _ := None;
  validateStep _ := None;
  MkdirTemp_decided o := eq_refl;
  Git_Get_decided url version o f := eq_refl;
  Dist_Fetch_decided dir o f := eq_refl;
  unmarshalSchema_decided content := eq_refl
|}.

Definition service_system : System := service_system_of sample_definition.

#[local] Existing Instance service_system.

Definition service_jobs_of definition : @JobSystem (service_system_of definition) := {|
  Getwd o := Ok "/cwd";
  TempDir := "/tmp";
  MkdirAll _ o := (None, o);
  RemoveAll _ o f := (f, o);
  OpenFile_error _ _ _ := None;
  Getwd_decided o := eq_refl
|}.

Definition service_jobs : @JobSystem service_system := service_jobs_of sample_definition.

Definition service_world_of definition : @World (service_system_of definition) := {|
  heap := [{| vars := {["HOME" := "/root"]}; parent := None; mutations := [] |}];
  files := ∅; filesDir := ""; os := (7 : @os_state (service_system_of definition)) |}.

Definition service_world : @World service_system := service_world_of sample_definition.

Definition service_request : proto.RunRequest := {|
  proto.Request_Id := "1"; proto.Request_WorkDir := "/builds"; proto.Request_Env := {["A" := "b"]};
  proto.Request_Job := Some {|
    proto.Job_Variables := [{| proto.Variable_Key := "CERT"; proto.Variable_Value := "pem";
                               proto.Variable_File := true; proto.Variable_Masked := false |}];
    proto.Job_BuildDir := "" |};
  proto.Request_Steps := "" |}.

Lemma service_acyclic : acyclic (heap service_world).
Proof.
  apply (acyclic_of_rank _ id). intros x y (n & Hn & He).
  destruct x as [|x]; cbn in Hn; simplify_eq; cbn in He; destruct He as [[=]|He].
  by apply not_elem_of_nil in He.
Qed.

Definition service_prepare :=
  @prepare service_system service_jobs ref_structpb canonical_range sample_format
    0 5 service_request service_world.

Lemma service_prepares : is_ok service_prepare.1 = true.
Proof. vm_compute. reflexivity. Qed.

Lemma accepted_request_witness :
  exists j sc w', service_prepare.1 = Ok (j, sc, w') /\ fresh j /\ ID j = "1".
Proof.
  pose proof service_prepares as H. unfold service_prepare in *.
  destruct (prepare _ _ _ _) as [o w'] eqn:E. apply is_ok_true in H as [[[j sc] step] H].
  cbn in H. subst o.
  destruct (@accepted_request service_system service_jobs demo_files ref_structpb canonical_range
    sample_format 0 5 service_request service_world j sc step w' service_acyclic ltac:(cbn; lia) E)
    as (Hf & Hid & _).
  exists j, sc, step. split; [reflexivity|]. split; [exact Hf|exact Hid].
Defined.

Lemma Prepare_spec_witness :
  exists env w', @Prepare service_system (proto.Request_Job service_request) "/tmp/job" service_world
                 = (Ok env, w') /\
    env !! "CERT" = Some "/tmp/job/CERT" /\ files w' !! "/tmp/job/CERT" = Some "pem".
Proof.
  assert (is_ok (@Prepare service_system (proto.Request_Job service_request) "/tmp/job"
                   service_world).1 = true) as H by (vm_compute; reflexivity).
  destruct (Prepare _ _ _) as [o w'] eqn:E. apply is_ok_true in H as [env H]. cbn in H. subst o.
  exists env, w'. split; [reflexivity|].
  destruct (@Prepare_spec service_system (proto.Request_Job service_request) "/tmp/job"
    service_world env w' E) as (He & Hf & _).
  rewrite He, Hf. split; vm_compute; reflexivity.
Defined.

(** ** Jobs *)

Definition demo_job : Job := {|
  TmpDir := "/tmp/j"; WorkDir := "/w"; Ctx := None; ID := "1"; Jobs.err := None; startTime := None;
  finishTime := None; finishC := 0; logs := Some ("/tmp/j/logs", false); status := proto.unspecified;
  runExitWaitTime := 2 |}.

Lemma demo_job_fresh : fresh demo_job.
Proof. done. Qed.

(** A result of a run of the step runner. *)
Lemma demo_result :
  exists r w', @run demo_system demo_files ref_structpb canonical_range demo_format
                 1 export_step (demo_context 0) demo_world = (Ok (Some r, None, w'.1), w'.2) /\
    proto.SR_Status r = proto.success.
Proof.
  pose proof export_run as H. destruct (run 1 _ _ _) as [o w'] eqn:E.
  apply succeeded_inv in H as (x & s' & ->). exists x, (s', w'). split; [reflexivity|].
  apply (run_result 1 _ _ _ _ _ _ _ E).
Qed.

Definition finished_events (r : proto.StepResult) : list event :=
  [RunEnters; RunStarts 1; StepReturns (Some r) None; RunCompletes 2; RunLogsError].

Lemma finished_run r :
  proto.SR_Status r = proto.success ->
  exists s, job_run demo_job (finished_events r) s /\ proto.Status_EndTime (Jobs.Status (job s)) = Some 2%Z.
Proof.
  intros Hr. eexists. split.
  - apply (run_labels_steps fire). unfold run_labels, finished_events, fire, onRunCompletion.
    cbn. rewrite Hr. reflexivity.
  - reflexivity.
Qed.

Lemma finished_returns r r' e :
  StepReturns r' e ∈ finished_events r -> r' = Some r /\ e = None.
Proof. unfold finished_events. rewrite !elem_of_cons, elem_of_nil. naive_solver. Qed.

Lemma finished_in_time r : CloseTimesOut ∉ finished_events r.
Proof. unfold finished_events. rewrite !elem_of_cons, elem_of_nil. naive_solver. Qed.

Definition closed_events : list event :=
  [RunEnters; RunStarts 1; CloseEnters; CloseCancels; StepReturns None None; RunCompletes 2;
   RunCleansUp; RunClosesLogs; RunSignals; CloseReceives].

Lemma closed_run : exists s, job_run demo_job closed_events s /\ 3 <= close_rank (closer s).
Proof.
  eexists. split; [apply (run_labels_steps fire); vm_compute; reflexivity|]. cbn. lia.
Qed.

Lemma close_waits_for_run_witness :
  exists s, job_run demo_job closed_events s /\ Ctx (job s) = Some Canceled.
Proof.
  destruct closed_run as (s & Hs & Hc).
  exists s. split; [exact Hs|].
  apply (close_waits_for_run demo_job closed_events s demo_job_fresh Hs Hc).
Defined.

Lemma job_ends_witness :
  exists s, job_run demo_job closed_events s /\ length closed_events <= if dead s then 13 else 12.
Proof.
  destruct closed_run as (s & Hs & _). exists s. split; [exact Hs|].
  apply (job_ends demo_job closed_events s demo_job_fresh Hs).
Defined.

Lemma unfinished_job_status_witness :
  exists s, job_run demo_job [RunEnters; RunStarts 1] s /\
    proto.Status_Status (Jobs.Status (job s)) = proto.running.
Proof.
  assert (exists s, job_run demo_job [RunEnters; RunStarts 1] s /\
    proto.Status_EndTime (Jobs.Status (job s)) = None /\
    proto.Status_StartTime (Jobs.Status (job s)) = Some 1%Z) as (s & Hs & He & Hst).
  { eexists. split; [apply (run_labels_steps fire); reflexivity|split; reflexivity]. }
  exists s. split; [exact Hs|].
  destruct (unfinished_job_status demo_job _ s demo_job_fresh Hs He) as [_ Hstat].
  rewrite Hst in Hstat. exact Hstat.
Defined.

(** ** Logs *)

Definition demo_log : Streamer :=
  {| filename := "/logs"; position := 0; closed := false; stop := false |}.

Lemma Follow_spec_witness :
  exists content, (write_all demo_log ["a" +:+ newline; "b" +:+ newline] {["/logs" := ""]}).2
                    !! "/logs" = Some content.
Proof.
  pose proof (Follow_spec demo_log {["/logs" := ""]} ["a" +:+ newline; "b" +:+ newline]
    eq_refl eq_refl (lookup_singleton_eq _ _)) as H.
  destruct (write_all _ _ _) as [s' fs'] eqn:E. destruct H as (content & Hc & _). exists content.
  assert (filename s' = "/logs") as Hn.
  { change s' with ((s', fs').1). rewrite <- E. reflexivity. }
  rewrite Hn in Hc. exact Hc.
Defined.

(** ** The service and its client *)

Lemma no_job_is_lost_witness :
  exists s, steps exclusive_step NewService [RunGets "1"; RunPuts "1" demo_job] s /\
    @Service_Status canonical_range s "1" = Ok [Jobs.Status demo_job].
Proof.
  assert (exists s, steps exclusive_step NewService [RunGets "1"; RunPuts "1" demo_job] s /\
    store s !! 0%nat = Some (started demo_job)) as (s & Hs & Hl).
  { eexists. split.
    - econstructor; [split; [reflexivity|split; apply not_elem_of_nil]|].
      econstructor; [split; [vm_compute; reflexivity|split; [exact demo_job_fresh|reflexivity]]|].
      constructor.
    - reflexivity. }
  exists s. split; [exact Hs|].
  apply (@no_job_is_lost canonical_range _ s Hs) in Hl as [Hst _]; [exact Hst|discriminate|discriminate].
Defined.

Definition demo_client : StepRunnerClient := {|
  rpc_Run _ := None; rpc_Close _ := None;
  rpc_Status id := Ok [Jobs.Status demo_job];
  rpc_FollowLogs id offset := Ok ((Data <$> ["a" +:+ newline; "b" +:+ newline]) ++ [EOF]) |}.

Lemma Follow_reads_witness :
  exists status, Client.Follow take_all Client.background demo_client "1" {| Logs := Some ""; readLogs := 0 |} =
    Ok (Some status, None,
        {| Logs := Some ("a" +:+ newline +:+ "b" +:+ newline); readLogs := 4 |}).
Proof.
  destruct (Follow_reads demo_client "1" "" 0 ["a" +:+ newline; "b" +:+ newline] _ [] eq_refl eq_refl)
    as (status & _ & H & _).
  exists status. exact H.
Defined.

(** ** A client at the service *)

Definition one_job : StepRunnerService := {|
  jobs := SyncMap.Put SyncMap.New "1" 0; store := [started demo_job]; running := []; closing := [] |}.

Definition one_log (l : nat) : string := log_text ["a"; ""; "b"].

Definition unavailable : error := NewError "unavailable".

Definition one_client : StepRunnerClient :=
  connected (MR := canonical_range) one_job (fun _ => demo_log) one_log (fun e => e)
    unavailable.

Lemma client_sees_job_witness :
  exists status, fromProto [Jobs.Status demo_job] = [status] /\
    Client.Follow take_all Client.background one_client "1" {| Logs := Some ""; readLogs := 0 |} =
    Ok (Some status, None, {| Logs := Some (log_text ["a"; "b"]); readLogs := 4 |}).
Proof.
  apply (client_sees_job (MR := canonical_range) one_job (fun _ => demo_log) one_log (fun e => e)
    unavailable "1" 0 (started demo_job) ["a"; ""; "b"] "").
  - reflexivity.
  - discriminate.
  - reflexivity.
  - reflexivity.
  - reflexivity.
  - repeat constructor; vm_compute; reflexivity || lia.
Defined.

(** ** A request, from the client to its status *)

(** A job that runs one command. *)
Definition command_definition : schema.Step := {|
  schema.Step_Action := None; schema.Step_Delegate := None; schema.Step_Env := ∅;
  schema.Step_Exec := Some {| schema.Exec_Command := ["true"]; schema.Exec_WorkDir := None |};
  schema.Step_Inputs := ∅; schema.Step_Name := None;
  schema.Step_Outputs := ∅; schema.Step_Script := None; schema.Step_Step := schema.SVNil;
  schema.Step_Run := None |}.

Definition client_request : RunRequest := {|
  r_Id := "1"; r_WorkDir := "/builds"; r_Env := {["A" := "b"]}; r_Steps := "exec"; r_Variables := [];
  r_BuildDir := "" |}.

Definition command_prepare :=
  @prepare (service_system_of command_definition) (service_jobs_of command_definition) ref_structpb
    canonical_range sample_format 0 5 (toProto client_request) (service_world_of command_definition).

Definition command_run step sc w :=
  @run (service_system_of command_definition) demo_files ref_structpb canonical_range sample_format 1 step sc w.

Lemma command_succeeds :
  match command_prepare with
  | (Ok (j, sc, step), w') => succeeded (command_run step sc w')
  | _ => false
  end = true.
Proof. vm_compute. reflexivity. Qed.

Definition job_requests (j : Job) (evs : list event) : list request :=
  [RunGets "1"; RunPuts "1" j] ++ (JobEvent 0 <$> evs).

Lemma job_requests_events j evs : job_events 0 (job_requests j evs) = evs.
Proof.
  unfold job_events, job_requests. cbn. induction evs as [|ev evs IH]; [done|]. cbn. by rewrite IH.
Qed.

Lemma finished_requests j r :
  fresh j -> ID j = "1" -> proto.SR_Status r = proto.success ->
  exists s js, steps exclusive_step NewService (job_requests j (finished_events r)) s /\
    store s !! 0%nat = Some js /\ alive s = true /\ closer js = CloseIdle /\ Jobs.finishTime (job js) = Some 2%Z.
Proof.
  intros Hf Hid Hr. pose proof Hf as (? & ? & Herr & _). eexists _, _. split.
  - econstructor; [split; [reflexivity|split; apply not_elem_of_nil]|].
    econstructor; [split; [vm_compute; reflexivity|by split]|].
    do 3 (econstructor; [split; [reflexivity|exact I]|]).
    econstructor; [split; [|exact I]|].
    { unfold service_step, serve. cbn. unfold onRunCompletion. rewrite Hr. reflexivity. }
    econstructor; [split; [reflexivity|exact I]|]. constructor.
  - split; [reflexivity|]. split; [reflexivity|]. split; reflexivity.
Qed.

Lemma request_outcome_witness :
  exists s st,
    Client_Status (connected (MR := canonical_range) s (fun _ => demo_log) one_log (fun e => e)
      unavailable) "1" = Ok st /\
    st_State st = StateSuccess /\ Message st = "".
Proof.
  pose proof command_succeeds as H. destruct command_prepare as [o w'] eqn:Hp.
  destruct o as [[[j sc] step]| | |]; [|discriminate H|discriminate H|discriminate H].
  destruct (command_run step sc w') as [o1 w1] eqn:Hr. apply succeeded_inv in H as (x & sc' & ->).
  destruct (@prepared_job (service_system_of command_definition) (service_jobs_of command_definition)
    demo_files ref_structpb canonical_range sample_format 0 5 (toProto client_request) _ j sc step w' Hp) as (Hf & Hid & _).
  destruct (@run_result (service_system_of command_definition) demo_files ref_structpb canonical_range
    sample_format 1 step sc w' _ _ _ _ Hr) as [_ Hx].
  destruct (finished_requests j x Hf Hid Hx) as (s & js & Hs & Hjs & Halive & Hc & Hfin).
  destruct (@request_outcome (service_system_of command_definition) (service_jobs_of command_definition)
    demo_files ref_structpb canonical_range sample_format 0 5 client_request _ j sc step w'
    (job_requests j (finished_events x)) s 0 (fun _ => demo_log) one_log (fun e => e)
    unavailable ltac:(discriminate) Hp Hs eq_refl) as (js' & Hjs' & _ & _ & Hst).
  - rewrite job_requests_events. intros r e Hin. destruct (finished_returns x r e Hin) as [-> ->].
    by exists 1, w', sc', w1.
  - rewrite Hjs in Hjs'. injection Hjs' as <-. destruct Hst as (st & Hcs & Hst & Hi & Ho).
    { exact Halive. }
    { rewrite Hc. discriminate. }
    exists s, st. split; [exact Hcs|].
    assert (EndTime st = Some 2%Z) as He by (injection Hst as <-; cbn; by rewrite Hfin).
    rewrite He in Ho. destruct Ho as (result & e & Hin & _ & Ho).
    rewrite job_requests_events in Hin, Ho. destruct (finished_returns x result e Hin) as [-> ->].
    destruct Ho as [Hstate [Hm|Ht]]; [by split|]. destruct (finished_in_time x Ht).
Defined.
