(* ===== verification/DecodingWitnesses.v ===== *)
(** A JSON library on which decoding evaluates, concrete inputs for the properties
    of decoding, and files the decoder lets through. *)

From Stdlib Require Import SpecFloat.
From stdpp Require Import gmap strings list fin_maps.
From S2P Require Import Prelude GoStrings Values Environment Proto StepFile ShortReference Schema Decoding.
From S2P Require Import SpecDefinition World Resources Runner RunnerSpec Jobs Service.
From S2P Require Import SchemaWitnesses RunnerWitnesses ServiceWitnesses.
Open Scope go_scope.
Open Scope string_scope.
Open Scope list_scope.

Fixpoint json_of_any (v : any) : json :=
  match v with
  | ABool b => JBool b
  | AFloat f => JNumber f
  | AString s => JString s
  | ASlice l => JArray (json_of_any <$> l)
  | AMap m => JObject ((fun kv => (kv.1, json_of_any kv.2)) <$> m)
  | _ => JNull
  end.

Definition sample_json : JSON := {|
  type_error k t := NewError ("json: cannot unmarshal " +:+ k +:+ " into Go value of type " +:+ t);
  MarshalMap m := Ok (JObject ((fun kv => (kv.1, json_of_any kv.2)) <$> map_to_list m));
  MarshalMap_decided m := eq_refl
|}.

#[local] Existing Instance sample_json.
#[local] Existing Instance canonical_range.
#[local] Existing Instance ref_structpb.
#[local] Existing Instance sample_format.

(** ** A file with a reference that is a map *)

Definition git_value : schema.StepValue :=
  schema.SVMap {["git" := AMap [("rev", AString "v1"); ("url", AString "gitlab.com/steps/echo")]]}.

Definition raw_definition : schema.Step := {|
  schema.Step_Action := None; schema.Step_Delegate := None; schema.Step_Env := ∅;
  schema.Step_Exec := None; schema.Step_Inputs := ∅; schema.Step_Name := None;
  schema.Step_Outputs := ∅; schema.Step_Script := None; schema.Step_Step := schema.SVNil;
  schema.Step_Run := Some [sample_schema_step None None git_value;
                           sample_schema_step None None (schema.SVString "./a")] |}.

Definition raw_decode (text : string) : res (schema.Spec * schema.Step) := Ok (sample_spec, raw_definition).

Lemma raw_decode_decided text : decided (decoding.unmarshalSchema raw_decode text) = true.
Proof. vm_compute. reflexivity. Qed.

Definition decoding_system : System := {|
  os_state := nat;
  MkdirTemp o := (Ok "/tmp/step-runner-1", o);
  Uint32 o := (N.of_nat o, S o);
  WriteFile_error _ _ _ := None;
  Remove_error _ f p := match f !! p with Some _ => None | None => Some (NewError "no such file") end;
  Write_stdout o _ := (None, o);
  Cmd_Run := demo_run;
  Git_Get url version o f := (Ok "/git", f, o);
  Dist_Fetch dir o f := (Ok "/dist", f, o);
  World.unmarshalSchema := decoding.unmarshalSchema raw_decode;
  validateSpec _ := None;
  validateStep _ := None;
  MkdirTemp_decided o := eq_refl;
  Git_Get_decided url version o f := eq_refl;
  Dist_Fetch_decided dir o f := eq_refl;
  unmarshalSchema_decided := raw_decode_decided
|}.

Definition decoded_steps : res SpecDefinition :=
  @loadSteps decoding_system ref_structpb canonical_range sample_format "" service_request.

Lemma loaded_steps_parse_witness :
  exists sd step, decoded_steps = Ok sd /\
    Parse demo_global sd {| Params_Inputs := ∅; Params_Env := ∅ |} StepDefinedInGitLabJob = Ok step.
Proof.
  assert (match decoded_steps with
          | Ok sd => bool_decide (map_Forall (fun _ i => is_Some (proto.Input_Default i)) (SpecInputs sd))
          | _ => false
          end = true) as Hok by (vm_compute; reflexivity).
  destruct decoded_steps as [sd| | |] eqn:E; [|discriminate Hok..]. apply bool_decide_eq_true in Hok.
  pose proof (@loaded_steps_parse decoding_system ref_structpb canonical_range sample_format sample_json
    raw_decode "" service_request sd demo_global (fun text => eq_refl) E) as H.
  destruct (Parse demo_global _ _ _) as [step|err|why|] eqn:Ep; [|exfalso|destruct H..].
  - exists sd, step. split; [reflexivity|exact Ep].
  - destruct H as (k & i & Hi & Hn). specialize (Hok k i Hi). cbn in Hok. rewrite Hn in Hok. by destruct Hok.
Defined.

Example decoded_references :
  match decoded_steps with
  | Ok sd => (fun s => proto.Ref_Protocol <$> proto.Step_Step s) <$> Steps sd = [Some proto.git; Some proto.local]
  | _ => False
  end.
Proof. vm_compute. reflexivity. Qed.

(** ** What decoding makes of odd references *)

Example decoded_reference :
  decoding.Reference_UnmarshalJSON
    (JObject [("git", JObject [("Dir", JString "steps"); ("rev", JString "v1"); ("url", JString "u")])]) =
  Ok {| schema.Reference_Git := Some {| schema.Git_Dir := Some "steps"; schema.Git_Rev := "v1";
                                        schema.Git_Url := "u"; schema.Git_File := None |};
        schema.Reference_OCI := None |}.
Proof. reflexivity. Qed.

Example wrong_kind :
  decoding.Reference_UnmarshalJSON (JObject [("git", JObject [("rev", JBool true); ("url", JArray [])])]) =
  Err (type_error "bool" "string").
Proof. reflexivity. Qed.

(** The test for two locations looks at the exact names, and the decoder does not:
    both references are decoded, and the compiler refuses what the decoder should
    have refused. *)
Lemma both_references_decoded :
  exists r, decoding.Reference_UnmarshalJSON
      (JObject [("OCI", JObject [("registry", JString "r"); ("repository", JString "p"); ("tag", JString "t")]);
                ("git", JObject [("rev", JString "v1"); ("url", JString "u")])]) = Ok r /\
    is_Some (schema.Reference_Git r) /\ is_Some (schema.Reference_OCI r).
Proof. eexists. split; [reflexivity|]. cbn. eauto. Qed.

Lemma null_reference_decoded :
  decoding.Reference_UnmarshalJSON (JObject [("git", JNull)]) = Ok decoding.zero_reference.
Proof. reflexivity. Qed.

(** [Exec_UnmarshalJSON] on a command and on an empty one. *)
Example decoded_exec :
  decoding.Exec_UnmarshalJSON (JObject [("command", JArray [JString "ls"; JString "-l"]); ("work_dir", JNull)]) =
  Ok {| schema.Exec_Command := ["ls"; "-l"]; schema.Exec_WorkDir := None |} /\
  decoding.Exec_UnmarshalJSON (JObject [("command", JArray [])]) =
  Err (NewError "field command length: must be >= 1").
Proof. split; reflexivity. Qed.

Example unknown_type :
  is_ok (decoding.Unmarshal_Outputs (JObject [("a", JObject [("type", JString "float")])])) = false /\
  decoding.Unmarshal_Outputs (JObject [("a", JObject [("type", JString "number")])]) =
  Ok {["a" := {| schema.Output_Default := ANil; schema.Output_Sensitive := None;
                 schema.Output_Type := Some "number" |}]}.
Proof. split; vm_compute; reflexivity. Qed.
