(* ===== verification/CommandWitnesses.v ===== *)
(** Concrete inputs for the properties of the commands: each applied where its
    hypotheses hold; and the documents [step-runner run] makes of its options. *)

From stdpp Require Import gmap strings list.
From S2P Require Import Prelude GoStrings GoPaths Values Expression Environment Evolution Proto StepFile.
From S2P Require Import Schema SpecDefinition World Resources Runner RunnerFacts Termination Jobs.
From S2P Require Import Commands CommandsFacts Program SchemaWitnesses RunnerWitnesses ServiceWitnesses.
Open Scope go_scope.
Open Scope string_scope.
Open Scope list_scope.

#[local] Existing Instance service_system.
#[local] Existing Instance service_jobs.
#[local] Existing Instance demo_files.
#[local] Existing Instance demo_format.
#[local] Existing Instance canonical_range.
#[local] Existing Instance ref_structpb.

(** Every text definition is the one that exports FOO, every list of steps is
    empty, and a report is the name of the status. *)
Definition demo_marshal (r : option proto.StepResult) : string + error :=
  match r with
  | Some r => inl (if decide (proto.SR_Status r = proto.success) then "success" else "failure")
  | None => inl "{}"
  end.

Definition command_system : CommandSystem := {|
  Environ _ := ["FOO=old"; "PATH=/bin"; "CI_JOB_ID=7"; "CI_STEPS_LOG_LEVEL=debug"; "STEPS=[]"];
  UnmarshalRun _ := Ok (Some []);
  UnmarshalDefinition _ := Ok export_def;
  MarshalJSON := demo_marshal;
  MarshalText := demo_marshal;
  UnmarshalRun_decided _ := eq_refl;
  UnmarshalDefinition_decided _ := eq_refl
|}.

#[local] Existing Instance command_system.

Definition command_world : @World service_system := {|
  heap := [{| vars := {["HOME" := "/root"]}; parent := None; mutations := [] |}];
  files := {["/etc/step.txtpb" := ""]}; filesDir := "/tmp/d"; os := 7 |}.

Definition run_options : run.Options := {|
  run.Opt_Step := ""; run.OCIRegistry := ""; run.OCIRepository := ""; run.OCITag := "";
  run.OCIDir := ""; run.OCIFilename := ""; run.GitURL := "https://gitlab.com/steps/echo";
  run.GitRev := "v1"; run.GitDir := ""; run.Inputs := {["message" := "hi"]}; run.Env := ∅;
  run.Opt_Job := {[LogLevelEnvName := "Warn"]}; run.TextProtoStepFile := "/etc/step.txtpb";
  run.WriteStepResults := true; run.StepResultsFile := ""; run.StepResultsFormat := "json" |}.

(** The whole command: the step runs, the report is written, and the step files
    are removed. *)
Example run_command :
  let '(r, w) := run.run 1 run_options command_world in
  r = Ok tt /\ map_to_list (files w) = [("/etc/step.txtpb", ""); ("step-results.json", "success")].
Proof. vm_compute. split; reflexivity. Qed.

Example ci_command :
  (ci.run 1 (ci.NewCmd_options false command_world) command_world).1 = Ok tt /\
  map_to_list (ci.JobVariables (ci.NewCmd_options false command_world)) =
    [("CI_STEPS_LOG_LEVEL", "debug"); ("CI_JOB_ID", "7")].
Proof. vm_compute. split; reflexivity. Qed.

(** ** Witnesses *)

Lemma command_acyclic : acyclic (heap command_world).
Proof. exact service_acyclic. Qed.

Lemma command_environments_witness :
  exists g w', run.createGlobalCtx run_options command_world = (Ok g, w') /\
    gc_job g = run.Opt_Job run_options /\
    Values (heap w') (gc_env g) !! "PATH" = Some "/bin" /\
    Values (heap w') (gc_env g) !! "CI_JOB_ID" = None /\
    Values (heap w') (gc_env g) !! LogLevelEnvName = Some "warn".
Proof.
  destruct (command_environments command_world command_acyclic) as [Hr _].
  destruct (run.createGlobalCtx run_options command_world) as [r w'] eqn:E.
  assert (exists g, r = Ok g) as [g ->].
  { replace r with (run.createGlobalCtx run_options command_world).1 by (by rewrite E).
    vm_compute. by eexists. }
  destruct (Hr run_options g w' E) as (Hj & _ & _ & _ & _ & _ & HV).
  exists g, w'. split; [done|]. split; [exact Hj|]. rewrite !HV. vm_compute. done.
Defined.

Definition context_world : @World service_system := {|
  heap := [{| vars := {["FOO" := "old"]}; parent := None; mutations := [] |}];
  files := {["/out" := ""]} ∪ {["/export" := ""]}; filesDir := "/tmp/d"; os := 7 |}.

Lemma command_returns_witness :
  let '(r, w) := run.run_in_context 1 run_options export_step (demo_context 0) context_world in
  r = Ok tt /\ files w !! "/out" = None /\ files w !! "/export" = None.
Proof.
  destruct (run.run_in_context 1 run_options export_step (demo_context 0) context_world) as [o w] eqn:Ec.
  assert (is_ok (Runner.run 1 export_step (demo_context 0) context_world).1 = true) as Hok
    by (vm_compute; reflexivity).
  assert (match (Runner.run 1 export_step (demo_context 0) context_world).1 with
          | Ok (_, e, _) => e = None | _ => False end) as He by (vm_compute; reflexivity).
  destruct (Runner.run 1 export_step (demo_context 0) context_world) as [[[[r e] s']| | |] w1] eqn:E;
    [|done..]. cbn [fst] in He. subst e.
  destruct (command_returns 1 export_step (demo_context 0) context_world r None s' w1 E) as [Hr _].
  destruct (Hr run_options) as (w2 & Hw & _ & _ & Hf). rewrite Hw in Ec. injection Ec as <- <-.
  assert (forall p, p = "/out" \/ p = "/export" -> files w2 !! p = None) as Hgone.
  { intros p Hp. rewrite Hf. match goal with |- remove_step_files ?o ?s ?f !! _ = _ =>
      destruct (proj2 (remove_step_files_spec o s f) p Hp) as [Hn|(f1 & err & Hf1 & -> & Herr)] end; [exact Hn|].
    cbn in Herr. rewrite <- Hf1. by destruct (f1 !! p). }
  split; [done|]. split; apply Hgone; [by left|by right].
Defined.

Lemma commands_end_witness :
  decided (run.run 5 run_options command_world).1 = true /\
  decided (ci.run 5 (ci.NewCmd_options false command_world) command_world).1 = true.
Proof.
  destruct (commands_end 0 5 command_world ltac:(lia)) as [Hr Hc]. split.
  - apply Hr. intros sd w1 E Ht.
    assert (match (run.load_definition run_options command_world).1 with
            | Ok sd => IsTypeSteps sd = false | _ => True end) as Hload by (vm_compute; reflexivity).
    rewrite E in Hload. cbn [fst] in Hload. by rewrite Hload in Ht.
  - apply Hc. intros sd E _.
    assert (match ci.load_definition (ci.NewCmd_options false command_world) with
            | Ok sd => Steps sd = [] | _ => True end) as Hload by (vm_compute; reflexivity).
    by rewrite E in Hload.
Defined.

(** ** The document of the options *)

Example yamlStep_git :
  run.yamlStep run_options =
  Ok (String.concat newline
        ["- step:"; "    git:"; "      url: https://gitlab.com/steps/echo"; "      rev: v1";
         "  inputs:"; "    message: hi"; ""]).
Proof. reflexivity. Qed.

(** The values are written as they are: one input whose value holds a new line
    gives the document of two inputs. *)
Lemma values_are_not_quoted :
  ({["a" := "1" +:+ newline +:+ "    b: 2"]} : gmap string string) <> {["a" := "1"; "b" := "2"]} /\
  run.yamlObject "inputs" {["a" := "1" +:+ newline +:+ "    b: 2"]} =
  run.yamlObject "inputs" {["a" := "1"; "b" := "2"]}.
Proof. split; [|vm_compute; reflexivity]. intros Heq%(f_equal (lookup "b")). vm_compute in Heq. discriminate. Qed.

(** ** The program *)

(** A command line without flags. *)
Fixpoint find_command (name : string) (cs : list Command) : option Command :=
  match cs with
  | [] => None
  | c :: cs' => if String.eqb (command_name c) name then Some c else find_command name cs'
  end.

Definition demo_Execute (root : RootCommand) (args : list string) : M unit :=
  match args with
  | name :: args' =>
      match find_command name (SubCommands root) with
      | Some c =>
          match Args c with
          | Some valid => match valid args' with Some err => lift (Err err) | None => mret tt end
          | None => mret tt
          end ≫= fun _ => _ ← PersistentPreRun root c; RunE c (defaults (Flags c)) args'
      | None => lift (Err (NewError "unknown command"))
      end
  | [] => mret tt
  end.

Lemma find_command_unique name cs c :
  c ∈ cs -> (forall c', c' ∈ cs -> command_name c' = name -> c' = c) -> command_name c = name ->
  find_command name cs = Some c.
Proof.
  intros Hc Hu Hn. induction cs as [|c1 cs IH]; [by apply elem_of_nil in Hc|]. cbn.
  destruct (String.eqb_spec (command_name c1) name) as [E|E].
  - by rewrite (Hu c1 ltac:(left) E).
  - apply elem_of_cons in Hc as [->|Hc]; [done|]. apply IH; [done|]. intros c' Hc'. apply Hu. by right.
Qed.

Lemma demo_Execute_command root c args vals rest :
  c ∈ SubCommands root ->
  (forall c', c' ∈ SubCommands root -> command_name c' = command_name c -> c' = c) ->
  Ok (defaults (Flags c), args) = Ok (vals, rest) ->
  match Args c with Some valid => valid rest = None | None => True end ->
  forall w, demo_Execute root (command_name c :: args) w = (_ ← PersistentPreRun root c; RunE c vals rest) w.
Proof.
  intros Hc Hu [= <- <-] Ha w. unfold demo_Execute.
  rewrite (find_command_unique _ _ c Hc Hu eq_refl). destruct (Args c) as [valid|]; [by rewrite Ha|done].
Qed.

Definition demo_args (ok : bool) : option error := if ok then None else Some (NewError "wrong number of arguments").

Lemma demo_args_spec (ok : bool) (P : Prop) : (ok = true <-> P) -> demo_args ok = None <-> P.
Proof. intros <-. by destruct ok. Qed.

Definition demo_line : CommandLine := {|
  Executable := mret "/usr/bin/step-runner";
  on_files A c w := ((c {| GoFiles.tree_of := ∅; GoFiles.cwd := []; GoFiles.super := true;
                           GoFiles.random := []; GoFiles.faults := [] |}).1, w);
  Listener := string;
  ListenUnix addr := mret addr;
  grpc_Serve _ _ := mret tt;
  UnixConn := string;
  DialUnix addr := lift (Err (NewError "connection refused"));
  Proxy _ := mret tt;
  ParseBool s := if String.eqb s "true" then Some true else None;
  ExactArgs n args := demo_args (length args =? n)%nat;
  MaximumNArgs n args := demo_args (length args <=? n)%nat;
  ParseFlags flags args := Ok (defaults flags, args);
  Execute := demo_Execute;
  ExactArgs_spec n args := demo_args_spec _ _ (Nat.eqb_eq (length args) n);
  MaximumNArgs_spec n args := demo_args_spec _ _ (Nat.leb_le (length args) n);
  Execute_command := demo_Execute_command
|}.

#[local] Existing Instance demo_line.

(** The statuses of some command lines. *)
Definition status (args : list string) : res Z := (main "v1" 9 args command_world).1.

Example statuses : status <$> [["ci"]; ["run"]; ["serve"]; ["proxy"]; ["proxy"; "x"]] =
  [Ok 0%Z; Ok 1%Z; Ok 0%Z; Ok 1%Z; Ok 1%Z].
Proof. vm_compute. reflexivity. Qed.

Lemma main_runs_witness :
  main "v1" 9 ["proxy"] command_world =
  exit_status proxy_run command_world.
Proof.
  destruct (main_runs "v1" 9 command_world [] ∅ []) as (_ & _ & _ & H & _). exact (H eq_refl).
Defined.
