(* ===== verification/OCIWitnesses.v ===== *)
(** The theorems about OCI images at concrete inputs: references that are a
    repository and a tag, and registries that are maps of tags. *)

From stdpp Require Import gmap strings list.
From S2P Require Import Prelude GoStrings GoPaths GoNumbers GoFiles GoFilesFacts Promote PromoteFacts.
From S2P Require Import OCIFetch OCIFetchFacts.
Open Scope go_scope.
Open Scope string_scope.
Open Scope list_scope.

(** ** References that are a repository and a tag *)

Definition parse_ref (s : string) : res (string * string) :=
  let '(c, t, found) := Cut s ":" in
  if String.eqb c "" then Err (NewError "could not parse reference")
  else if found then
    if valid_tag t then Ok (c, t) else Err (NewError "could not parse reference")
  else Ok (c, "latest").

Lemma cut_last s x c t :
  cut_at ":" (s +:+ ":" +:+ x) = Some (c, t) -> Contains t ":" = false -> t = x.
Proof.
  revert c. induction s as [|a s IH]; intros c.
  - cbn. destruct x; by intros [= _ <-].
  - rewrite string_app_cons. cbn [cut_at cut_prefix].
    destruct (Ascii.eqb_spec ":" a) as [<-|Hne].
    + intros [= _ <-] Hno. cbn in Hno.
      assert (Contains (s +:+ ":" +:+ x) ":" = true) as Hc by (apply Contains_spec; by exists s, x).
      cbn in Hc. congruence.
    + destruct (cut_at ":" (s +:+ ":" +:+ x)) as [[c' t']|]; [|done].
      intros [= _ <-] Hno. by eapply IH.
Qed.

Lemma cut_first c x : Contains c ":" = false -> cut_at ":" (c +:+ ":" +:+ x) = Some (c, x).
Proof.
  induction c as [|a c IH]; [by destruct x|]. rewrite string_app_cons. cbn [Contains cut_at cut_prefix].
  unfold HasPrefix. cbn [cut_prefix]. destruct (Ascii.eqb ":" a); [done|]. cbn [orb]. intros H. by rewrite IH.
Qed.

Lemma cut_no_colon s c x : cut_at ":" s = Some (c, x) -> Contains c ":" = false.
Proof.
  revert c. induction s as [|a s IH]; intros c; [done|]. cbn [cut_at cut_prefix].
  destruct (Ascii.eqb_spec ":" a) as [<-|Hne]; [by intros [= <- _]|].
  destruct (cut_at ":" s) as [[c' x']|]; [|done]. intros [= <- <-].
  cbn [Contains]. unfold HasPrefix. cbn [cut_prefix]. destruct (Ascii.eqb_spec ":" a); [done|].
  by apply IH.
Qed.

Lemma valid_tag_no_colon t : valid_tag t = true -> Contains t ":" = false.
Proof.
  unfold valid_tag. intros [_ H]%andb_true_iff. apply not_true_is_false. intros (a & b & ->)%Contains_spec.
  rewrite !all_bytes_app in H. cbn in H. by rewrite andb_false_r in H.
Qed.

Lemma parse_ref_Ok s c t :
  parse_ref s = Ok (c, t) -> c <> "" /\ valid_tag t = true /\ Contains c ":" = false.
Proof.
  unfold parse_ref, Cut. destruct (cut_at ":" s) as [[c' t']|] eqn:E.
  - destruct (String.eqb_spec c' ""); [done|]. destruct (valid_tag t') eqn:Ht; [|done].
    intros [= <- <-]. split; [done|]. split; [done|]. by eapply cut_no_colon.
  - apply cut_at_None in E. destruct (String.eqb_spec s ""); [done|]. by intros [= <- <-].
Qed.

Lemma parse_ref_returns s : (exists r, parse_ref s = Ok r) \/ (exists e, parse_ref s = Err e).
Proof. unfold parse_ref. repeat case_match; eauto. Qed.

Lemma parse_ref_number s d t r :
  all_digits d = true -> d <> "" -> parse_ref (s +:+ ":" +:+ d +:+ "." +:+ t) = Ok r ->
  false = false -> r.2 = d +:+ "." +:+ t.
Proof.
  intros _ _ H _. destruct r as [c t']. pose proof (parse_ref_Ok _ _ _ H) as (_ & Ht & _).
  unfold parse_ref, Cut in H. destruct (cut_at ":" _) as [[c' x]|] eqn:E.
  - destruct (String.eqb c' ""); [done|]. destruct (valid_tag x); [|done]. injection H as -> ->.
    eapply cut_last; [exact E|by apply valid_tag_no_colon].
  - apply cut_at_None in E. rewrite (proj2 (Contains_spec _ _)) in E; [done|]. by eexists _, _.
Qed.

Lemma parse_ref_tag s r tag :
  parse_ref s = Ok r -> valid_tag tag = true ->
  exists r', parse_ref (r.1 +:+ ":" +:+ tag) = Ok r' /\ r'.1 = r.1 /\ r'.2 = tag /\ false = false.
Proof.
  destruct r as [c t]. intros (Hc & _ & Hno)%parse_ref_Ok Htag. exists (c, tag).
  split; [|done]. cbn [fst]. unfold parse_ref, Cut. rewrite cut_first, Htag by done.
  by destruct (String.eqb_spec c "").
Qed.

Definition pair_names : ImageName := {|
  Reference := string * string;
  ParseReference := parse_ref;
  ref_Context := fst;
  ref_Identifier := snd;
  ref_Name r := r.1 +:+ ":" +:+ r.2;
  ref_String r := r.1 +:+ ":" +:+ r.2;
  ref_RegistryStr := fst;
  ref_RepositoryStr := fst;
  is_Digest _ := false;
  ParseReference_returns := parse_ref_returns;
  ParseReference_number := parse_ref_number;
  ParseReference_tag := parse_ref_tag
|}.

(** ** Registries that are maps *)

Abbreviation registries := (gmap string (gmap string (nat + nat))).

Definition reg_tags (reg : registries) (C : string) : gmap string (nat + nat) := default ∅ (reg !! C).
Definition reg_at (reg : registries) (r : string * string) : option (nat + nat) := reg_tags reg r.1 !! r.2.
Definition reg_put (reg : registries) (r : string * string) (c : nat + nat) : registries :=
  <[r.1 := <[r.2 := c]> (reg_tags reg r.1)]> reg.

Lemma reg_tags_put reg r c C :
  reg_tags (reg_put reg r c) C =
  if String.eqb C r.1 then <[r.2 := c]> (reg_tags reg C) else reg_tags reg C.
Proof.
  unfold reg_put. destruct (String.eqb_spec C r.1) as [->|Hne]; unfold reg_tags at 1.
  - by rewrite lookup_insert_eq.
  - by rewrite lookup_insert_ne.
Qed.

Lemma reg_at_put reg from to c : reg_at reg from = Some c -> reg_at (reg_put reg to c) from = Some c.
Proof.
  unfold reg_at. intros H. rewrite reg_tags_put. destruct (String.eqb from.1 to.1); [|done].
  destruct (decide (to.2 = from.2)) as [->|]; [by rewrite lookup_insert_eq|by rewrite lookup_insert_ne].
Qed.

#[local] Existing Instance pair_names.
#[local] Existing Instance word64.

Definition map_registry : Registry registries := {|
  index := nat;
  image := nat;
  remote_List reg C :=
    match reg !! C with
    | Some t => Ok (map_to_list t).*1
    | None => Err (NewError "NAME_UNKNOWN")
    end;
  transport_Error e := if String.eqb (Error e) "NAME_UNKNOWN" then Some ["NAME_UNKNOWN"] else None;
  remote_Index reg r := match reg_at reg r with Some (inl i) => inl i | _ => inr (NewError "no index") end;
  remote_Image reg r := match reg_at reg r with Some (inr m) => inl m | _ => inr (NewError "no image") end;
  remote_WriteIndex reg r i := (None, reg_put reg r (inl i));
  remote_Write reg r m := (None, reg_put reg r (inr m))
|}.
#[local] Existing Instance map_registry.

Lemma map_write reg r c : write (RG := map_registry) reg r c = (None, reg_put reg r c).
Proof. by destruct c. Qed.

Lemma map_fetch reg r c : fetch (RG := map_registry) reg r = Some c <-> reg_at reg r = Some c.
Proof.
  unfold fetch. cbn. destruct (reg_at reg r) as [[i|m]|]; cbn; split; congruence.
Qed.

Lemma map_laws : RegistryLaws (RG := map_registry).
Proof.
  refine {| tags := reg_tags |}.
  - intros reg C. cbn. destruct (reg !! C); eauto.
  - intros reg C ts. cbn. unfold reg_tags. destruct (reg !! C) as [t|]; [|done]. intros [= <-] tag. cbn.
    rewrite list_elem_of_fmap. split.
    + intros ([k c] & -> & H%elem_of_map_to_list). by exists c.
    + intros [c H]. exists (tag, c). split; [done|]. by apply elem_of_map_to_list.
  - intros reg C e. cbn. unfold reg_tags. by destruct (reg !! C).
  - intros reg r c reg'. rewrite map_write. intros [= <-] C. cbn. rewrite andb_true_r. apply reg_tags_put.
  - intros reg from to c reg'. rewrite !map_fetch, map_write. intros H [= <-]. by apply reg_at_put.
Defined.

(** ** Promotions *)

Definition no_env : string -> string := fun _ => "INFO".
Definition promote_args (from version : string) : list string :=
  ["--from-image"; from; "--to-registry"; "r.io"; "--to-repository"; "a"; "--to-version"; version].

(** Versions out of order, a candidate, and a command line that is refused. *)
Definition promotions : list (list string * (string -> string)) :=
  [(promote_args "build:1" "1.2.3", no_env); (promote_args "build:2" "1.1.9", no_env);
   (promote_args "build:3" "2.0.0-rc1", no_env); (["--to-tag"; "x"], no_env);
   (promote_args "build:4" "1.10.0", no_env)].

Definition builds : registries :=
  {["build" := {["1" := inl 1; "2" := inl 2; "3" := inl 3; "4" := inr 4]}]}.

Definition promote_step (reg : registries) (run : list string * (string -> string)) : option registries :=
  match promotion run.1 run.2 reg, promote_run run.1 run.2 reg with
  | _, (Ok tt, reg') => Some reg'
  | Err _, (Err _, reg') => Some reg'
  | _, _ => None
  end.

Definition promoted : registries := default ∅ (run_labels promote_step builds promotions).

Lemma promote_step_complete reg run reg' :
  promote_step reg run = Some reg' -> complete (RG := map_registry) reg run reg'.
Proof.
  unfold promote_step, complete. intros H.
  destruct (promotion run.1 run.2 reg), (promote_run run.1 run.2 reg) as [[[]| | |] reg1];
    try discriminate H; injection H as ->; eexists; split; by (reflexivity || auto).
Qed.

Lemma promotions_run : run_labels promote_step builds promotions = Some promoted.
Proof. vm_compute. reflexivity. Qed.

Lemma promotions_complete : steps (complete (RG := map_registry)) builds promotions promoted.
Proof.
  pose proof promotions_run as H. apply run_labels_steps in H.
  induction H as [|s l s' ls s'' H1 _ IH]; [constructor|]. econstructor; [|exact IH].
  by apply promote_step_complete.
Qed.

Lemma promoted_tags :
  (fun t => (reg_tags promoted "r.io/a") !! t) <$>
    ["1.2.3"; "1.2"; "1.1.9"; "1.1"; "1.10.0"; "1.10"; "1"; "2.0.0-rc1"; "2"] =
  [Some (inl 1); Some (inl 1); Some (inl 2); Some (inl 2); Some (inr 4); Some (inr 4); Some (inr 4);
   Some (inl 3); None].
Proof. vm_compute. reflexivity. Qed.

Lemma promoted_latest : reg_tags promoted "r.io/a" !! "latest" = Some (inr 4).
Proof. vm_compute. reflexivity. Qed.

Lemma floating_tags_are_greatest_witness :
  floating (RG := map_registry) (reg_tags promoted "r.io/a") /\
  reg_tags promoted "r.io/a" !! "latest" = Some (inr 4).
Proof.
  split; [|exact promoted_latest].
  apply (floating_tags_are_greatest (RL := map_laws) builds promotions promoted "r.io/a").
  - reflexivity.
  - exact promotions_complete.
Defined.

Lemma version_roundtrip_witness :
  ParseSemanticVersion (H := word32) "1.20.4294967295" = Ok (NewVersion 1 20 4294967295 "") /\
  ParseSemanticVersion (H := word32) "1.20.4294967296" = Err (does_not_conform "1.20.4294967296") /\
  ParseSemanticVersion (H := word64) "1.20.4294967296" = Ok (NewVersion 1 20 4294967296 "").
Proof.
  split; [|split].
  - exact (version_roundtrip (WS := word32) (NewVersion 1 20 4294967295 "") eq_refl).
  - exact (version_roundtrip (WS := word32) (NewVersion 1 20 4294967296 "") eq_refl).
  - exact (version_roundtrip (WS := word64) (NewVersion 1 20 4294967296 "") eq_refl).
Defined.

(** ** Fetching *)

(** A platform runs what is for its system and architecture, and prefers its own
    variant. *)
Definition variant_rank (f p : Platform) : nat := if String.eqb (Variant f) (Variant p) then 0 else 1.

Definition variant_matcher : Matcher := {|
  Match f p := String.eqb (OS f) (OS p) && String.eqb (Architecture f) (Architecture p);
  Less f a b := (variant_rank f a <? variant_rank f b)%nat
|}.

#[global] Instance variant_laws : MatcherLaws (MT := variant_matcher).
Proof.
  split; intros f a b; cbn.
  - intros H%Nat.ltb_lt. apply Nat.ltb_ge. lia.
  - intros c H1%Nat.ltb_ge H2%Nat.ltb_ge. apply Nat.ltb_ge. lia.
Qed.

Definition v1_platform (os arch variant : string) : option v1_Platform := Some {|
  v1_Architecture := arch; v1_OS := os; v1_OSVersion := ""; v1_OSFeatures := []; v1_Variant := variant;
  v1_Features := [] |}.

Definition demo_manifests : list Descriptor := [
  {| Digest := "sha256:1"; d_Platform := v1_platform "linux" "amd64" "" |};
  {| Digest := "sha256:2"; d_Platform := v1_platform "linux" "arm" "v6" |};
  {| Digest := "sha256:3"; d_Platform := v1_platform "linux" "arm" "v7" |};
  {| Digest := "sha256:4"; d_Platform := v1_platform "generic" "" "" |}].

Definition arm_v7 : Platform :=
  {| Architecture := "arm"; OS := "linux"; OSVersion := ""; OSFeatures := []; Variant := "v7" |}.

(** On ARM the third manifest is chosen: the second runs there too, but it is for
    another variant. *)
Lemma chosen_manifest_is_best_witness :
  FindManifestForPlatforms (MT := variant_matcher) [arm_v7; generic_platform] demo_manifests =
    Ok (demo_manifests !! 2) /\
  exists r, FindManifestForPlatforms (MT := variant_matcher) [arm_v7; generic_platform] demo_manifests = Ok r /\
  match r with
  | Some d => exists pre f post, [arm_v7; generic_platform] = pre ++ f :: post /\
      best_manifest (MT := variant_matcher) f demo_manifests d /\
      (forall f' x, f' ∈ pre -> x ∈ demo_manifests -> runs_on (MT := variant_matcher) f' x = false)
  | None => forall f' x, f' ∈ [arm_v7; generic_platform] -> x ∈ demo_manifests ->
      runs_on (MT := variant_matcher) f' x = false
  end.
Proof.
  split; [vm_compute; reflexivity|].
  apply (chosen_manifest_is_best (MT := variant_matcher)). repeat constructor; by eexists.
Defined.

(** Layers whose names go nowhere up, or are all one name. *)
Definition sanitize_name (s : string) : string :=
  if bool_decide (Forall no_up (Split s "/")) then s else "unsafe".

Definition archive_layers : Layers := {|
  Layer := list tar_entry * option error;
  layer_Digest _ := "sha256:0";
  layer_Uncompressed l := Ok l;
  SanitizePath := sanitize_name
|}.

#[global] Instance archive_laws : LayerLaws (LY := archive_layers).
Proof.
  split. intros s. cbn. unfold sanitize_name. case_bool_decide; [done|]. repeat constructor; done.
Qed.

Definition reg_entry (name content : string) : tar_entry :=
  {| hdr_Name := name; hdr_Typeflag := TypeReg; hdr_Content := content; hdr_Error := None |}.

Definition demo_layer : list tar_entry * option error :=
  ([{| hdr_Name := "bin"; hdr_Typeflag := TypeDir; hdr_Content := ""; hdr_Error := None |};
    reg_entry "bin/run" "#!/bin/sh"; reg_entry "../../etc/passwd" "root"; reg_entry "step.yml" "spec: {}"], None).

Definition one_layer_client : ImageClient (IN := pair_names) (LY := archive_layers) := {|
  Image := string;
  fetch_Index _ := Ok (demo_manifests, fun digest => Ok digest);
  IndexManifest ms := Ok ms;
  image_Layers _ := Ok [demo_layer : Layer (Layers := archive_layers)];
  DefaultSpec := arm_v7
|}.

Definition cache_machine : machine := {|
  tree_of := {[ ["tmp"] := Dir 1023; ["tmp"; "cache"] := Dir 488 ]};
  cwd := [];
  super := false;
  random := [12]%N;
  faults := []
|}.

Definition demo_pull : F string :=
  Pull (IN := pair_names) (LY := archive_layers) (MT := variant_matcher) (IC := one_layer_client)
    "/tmp/cache" ("registry/step", "1") None.

Lemma demo_pull_eval :
  (demo_pull cache_machine).1 = Ok "/tmp/cache/oci-image-12" /\
  tree_of (demo_pull cache_machine).2 !! ["tmp"; "cache"; "oci-image-12"; "unsafe"] = Some (File 256 "root").
Proof. vm_compute. split; reflexivity. Qed.

Lemma pull_stays_in_new_directory_witness :
  ((demo_pull cache_machine).1 = Ok "/tmp/cache/oci-image-12" /\
  tree_of (demo_pull cache_machine).2 !! ["tmp"; "cache"; "oci-image-12"; "unsafe"] = Some (File 256 "root")) /\
  ((tree_of (demo_pull cache_machine).2 = tree_of cache_machine /\ is_ok (demo_pull cache_machine).1 = false) \/
   exists name, let D := resolve_from [] "/tmp/cache" ++ [name] in
     (forall p, below D p = true -> tree_of cache_machine !! p = None) /\
     only_below D (tree_of cache_machine) (tree_of (demo_pull cache_machine).2) /\
     (forall dir, (demo_pull cache_machine).1 = Ok dir -> resolve (demo_pull cache_machine).2 dir = D)).
Proof.
  split; [exact demo_pull_eval|].
  apply (pull_stays_in_new_directory (IN := pair_names) (LY := archive_layers) (MT := variant_matcher)
    (IC := one_layer_client) "/tmp/cache" ("registry/step", "1") None cache_machine).
  - reflexivity.
  - apply dirs_tob_true. vm_compute. reflexivity.
  - apply surjective_pairing.
Defined.
