(* ===== verification/BuildWitnesses.v ===== *)
(** The theorems about building an image at concrete inputs: archives that are
    texts, images that are lists of layers, and a machine with the files of a
    step. *)

From stdpp Require Import gmap strings list sorting.
From S2P Require Import Prelude GoStrings GoPaths GoNumbers GoFiles GoFilesFacts Promote OCIFetch OCIFetchFacts.
From S2P Require Import OCIBuild OCIBuildFacts OCIReleaseFacts OCIWitnesses.
Open Scope go_scope.
Open Scope string_scope.
Open Scope list_scope.

(** ** Archives that are texts *)

(** A text, with a mark before each byte and one at its end. *)
Fixpoint put_text (s rest : string) : string :=
  match s with
  | EmptyString => String "." rest
  | String c s' => String "+" (String c (put_text s' rest))
  end.

Fixpoint take_text (x : string) : string * string :=
  match x with
  | String "+" (String c x') => let '(s, rest) := take_text x' in (String c s, rest)
  | String _ rest => ("", rest)
  | EmptyString => ("", "")
  end.

Lemma take_put s rest : take_text (put_text s rest) = (s, rest).
Proof. induction s as [|c s IH]; [done|]. cbn. by rewrite IH. Qed.

Lemma put_length s rest : String.length (put_text s rest) = (2 * String.length s + 1 + String.length rest)%nat.
Proof. induction s as [|c s IH]; cbn; [lia|]. rewrite IH. cbn. lia. Qed.

Fixpoint put_entries (es : list tar_entry) : string :=
  match es with
  | [] => ""
  | e :: es' =>
      put_text (hdr_Name e)
        (String (match hdr_Typeflag e with TypeDir => "d" | _ => "f" end) (put_text (hdr_Content e) (put_entries es')))
  end.

Fixpoint take_entries (fuel : nat) (x : string) : list tar_entry :=
  match fuel, x with
  | O, _ | _, EmptyString => []
  | Datatypes.S fuel', _ =>
      let '(name, x) := take_text x in
      match x with
      | EmptyString => []
      | String flag x =>
          let '(content, x) := take_text x in
          {| hdr_Name := name; hdr_Typeflag := if Ascii.eqb flag "d" then TypeDir else TypeReg;
             hdr_Content := content; hdr_Error := None |} :: take_entries fuel' x
      end
  end.

Lemma take_put_entries es fuel :
  Forall plain_entry es -> (String.length (put_entries es) <= fuel)%nat -> take_entries fuel (put_entries es) = es.
Proof.
  revert fuel. induction es as [|e es IH]; intros fuel Hes Hf; [by destruct fuel|].
  apply Forall_cons in Hes as [([r n] & -> & _) Hes]. cbn [put_entries] in *. rewrite put_length in Hf.
  cbn [String.length] in Hf. rewrite put_length in Hf. destruct fuel as [|fuel]; [lia|].
  set (x := put_text _ _). assert (x <> "") as Hx by (unfold x; by destruct (hdr_Name _)).
  cbn [take_entries]. destruct x as [|c x'] eqn:Ex; [done|]. rewrite <- Ex. unfold x. rewrite take_put. cbn iota beta.
  rewrite take_put. rewrite IH; [|done|lia]. f_equal. by destruct n.
Qed.

Lemma put_entries_grow es e : (String.length (put_entries es) <= String.length (put_entries (es ++ [e])))%nat.
Proof.
  induction es as [|x es IH]; [cbn; lia|]. cbn [put_entries app]. rewrite !put_length. cbn [String.length].
  rewrite !put_length. lia.
Qed.

(** ** The libraries *)

Fixpoint dashes (s : string) : string :=
  match s with EmptyString => "" | String c s' => String (if Ascii.eqb "/" c then "-" else c) (dashes s') end.

Lemma dashes_plain s : Contains (dashes s) "/" = false.
Proof.
  induction s as [|c s IH]; [done|]. cbn [dashes Contains]. unfold HasPrefix. cbn [cut_prefix].
  destruct (Ascii.eqb "/" c) eqn:E; [exact IH|]. by rewrite E.
Qed.

#[global] Instance text_builder : ImageBuilder := {|
  sha256_hex := dashes;
  zstd_NewWriter := Ok tt;
  archive_added := put_entries;
  archive_tar_closed := put_entries;
  archive_closed := put_entries;
  LocalLayer := F string;
  LayerFromOpener opener _ := _ ← opener; mret opener;
  layer_Compressed l := l;
  v1_Image := list (F string);
  empty_Image := [];
  Image_Annotations i _ _ := i;
  Image_MediaType i _ := i;
  Image_ConfigFile i := Ok i;
  AppendLayers i l := Ok (i ++ l);
  v1_ImageIndex := list (v1_Platform * list (F string));
  empty_Index := [];
  Index_Annotations i _ _ := i;
  AppendManifests i img _ p := i ++ [(p, img)];
  Index_Digest _ := Ok ("sha256", "0")
|}.

(** The layer of a registry, of the bytes that were pushed. *)
Definition pulled_text (content : string) : Layer (Layers := archive_layers) :=
  (take_entries (String.length content) content, None).

#[global] Instance text_builder_laws : BuilderLaws (LY := archive_layers).
Proof.
  refine (Build_BuilderLaws (IB := text_builder) archive_layers
    (fun i : list (F string) => i) pulled_text eq_refl
    (fun i : list (v1_Platform * list (F string)) => i) _ _ _ _ _ _ _ _ _ _ _ _ _ _ _ _);
    cbn; try done.
  - exact dashes_plain.
  - exact put_entries_grow.
  - intros opener _ Ho. apply keeps_bind; [done|]. intros c. apply keeps_ret.
  - intros opener _ es m _ Ho. apply wp_bind. eapply wp_mono; [by apply Ho|]. cbn beta. intros c t [_ ->] m' _ E.
    by apply wp_ret.
  - intros es Hes. unfold pulled_text. by rewrite take_put_entries.
  - intros i. by exists i.
  - intros i l. by exists (i ++ l).
  - intros i. by eexists.
Defined.

#[global] Instance equal_platforms : Platforms := {|
  Equals p q := bool_decide (p = q);
  Platform_String p := v1_OS p +:+ "/" +:+ v1_Architecture p;
  Normalize p := p
|}.

#[global] Instance equal_platforms_laws : PlatformLaws.
Proof.
  split; intros; cbn in *.
  - by apply bool_decide_eq_true.
  - apply bool_decide_ext. done.
  - rewrite bool_decide_eq_true in *. congruence.
Qed.

(** A registry that keeps the bytes of the layers of each platform. *)
Abbreviation published := (list ((string * string) * list (v1_Platform * list string))).
Abbreviation index := (list (v1_Platform * list (F string))).

Definition was_published (reg : published) (ref : string * string) : bool :=
  existsb (fun p => bool_decide (p.1 = ref)) reg.

Definition upload_all (reg : published) (ref : string * string) (idx : index) (contents : list (list string)) :
    option error * published := (None, reg ++ [(ref, zip idx.*1 contents)]).

(** A push reads the layers one after the other. *)
Definition publish (reg : published) (ref : string * string) (idx : index) (m : machine) :
    (option error * published) * machine :=
  match F_map (fun e : v1_Platform * list (F string) => F_map id e.2) idx m with
  | (Ok contents, m') => (upload_all reg ref idx contents, m')
  | (Err err, m') => ((Some err, reg), m')
  | (_, m') => ((Some (NewError "push"), reg), m')
  end.

#[global] Instance list_publisher : Publisher (IN := pair_names) (IB := text_builder) published :=
  Build_Publisher pair_names text_builder published was_published publish.

Lemma wp_F_map {A A'} (g : A -> F A') (l : list A) (ys : list A') (m : machine) :
  Forall2 (fun x y => forall m' : machine, same_process m m' -> tree_of m' = tree_of m ->
    wp (g x) m' (fun r t => r = y /\ t = tree_of m)) l ys ->
  forall m' : machine, same_process m m' -> tree_of m' = tree_of m ->
    wp (F_map g l) m' (fun r t => r = ys /\ t = tree_of m).
Proof.
  induction 1 as [|x y l ys Hx _ IH]; intros m' Hs E; cbn [F_map]; [by apply wp_ret|].
  apply wp_bind. eapply wp_mono; [by apply Hx|]. cbn beta. intros r t [-> ->] m1 Hs1 E1.
  apply wp_bind. eapply wp_mono; [apply IH; [by etrans|done]|]. cbn beta. intros rs t [-> ->] m2 Hs2 E2.
  by apply wp_ret.
Qed.

#[global] Instance list_publisher_laws : PublisherLaws (BL := text_builder_laws) (PB := list_publisher).
Proof.
  refine (Build_PublisherLaws (BL := text_builder_laws) (PB := list_publisher) upload_all _).
  intros reg ref idx contents m Hnf Hread. unfold push_WriteIndex, list_publisher, publish.
  assert (wp (F_map (fun e : v1_Platform * list (F string) => F_map id e.2) idx) m
    (fun r t => r = contents /\ t = tree_of m)) as Hwp.
  { apply wp_F_map with (m := m); [|done..]. eapply Forall2_impl; [exact Hread|]. intros e cs He. by apply wp_F_map. }
  unfold wp in Hwp. destruct (F_map _ idx m) as [[r|e|w|] m']; [|done..].
  destruct Hwp as (Hf & Hs & -> & Et). exists m'. split; [done|]. split; [done|]. split; [done|]. auto.
Defined.

Lemma name_elems_plain q : Forall good_elem q -> q <> [] -> name_elems (Join q "/") = q.
Proof. intros Hq Hne. unfold name_elems. by rewrite join_elems_good_list, split_join by (rewrite ?split_join; done). Qed.

Lemma split_slash q : Forall good_elem q -> q <> [] -> Split (Join q "/" +:+ "/") "/" = q ++ [""].
Proof. intros Hq Hne. change (Join q "/" +:+ "/") with (Join q "/" +:+ "/" +:+ ""). by rewrite split_head, split_join. Qed.

Lemma good_no_up q : Forall good_elem q -> Forall no_up q.
Proof. intros H. eapply Forall_impl; [exact H|]. intros x Hx. apply Hx. Qed.

#[global] Instance archive_sanitize_laws : SanitizeLaws (LY := archive_layers).
Proof.
  split; intros q Hq Hne; cbn; unfold sanitize_name.
  - rewrite bool_decide_true; [by apply name_elems_plain|]. rewrite split_join by done. by apply good_no_up.
  - rewrite split_slash by done. rewrite bool_decide_true.
    + unfold name_elems, join_elems. rewrite split_slash, foldl_app, (clean_fold_push _ q) by done. cbn [foldl clean_elem String.eqb orb].
      change (clean_elem true (reverse q ++ reverse []) "") with (reverse q ++ reverse []).
      by rewrite reverse_app, !reverse_involutive.
    + apply Forall_app. split; [by apply good_no_up|]. repeat constructor. done.
Qed.

(** ** A step to publish *)

Definition build_machine (numbers : list N) : machine := {|
  tree_of := {[
    ["tmp"] := Dir 1023;
    ["work"] := Dir 493;
    ["work"; "step.yml"] := File 420 "spec: {}";
    ["work"; "linux"] := Dir 493;
    ["work"; "linux"; "run"] := File 493 "ELF";
    ["work"; "linux"; "lib"] := Dir 493;
    ["work"; "linux"; "lib"; "a.so"] := File 420 "so";
    ["work"; "windows"] := Dir 493;
    ["work"; "windows"; "run.exe"] := File 493 "MZ" ]};
  cwd := ["work"];
  super := false;
  random := numbers;
  faults := []
|}.

Definition platform (os arch : string) : v1_Platform := {|
  v1_Architecture := arch; v1_OS := os; v1_OSVersion := ""; v1_OSFeatures := []; v1_Variant := "";
  v1_Features := [] |}.

Definition step_yml : Artifact := NewArtifact PlatformGeneric "step.yml" "/step.yml".
Definition linux_bin : Artifact := NewArtifact (platform "linux" "amd64") "./linux" "bin/linux/".
Definition windows_bin : Artifact := NewArtifact (platform "windows" "amd64") "/work/windows/run.exe" "run.exe".

Definition numbers : list N := [5; 6; 7; 8; 9]%N.

(** The conditions on the files, decided. *)
Definition readable_files (m : machine) : bool :=
  forallb (fun kn => match kn.2 with File mode _ => readable (super m) mode | Dir _ => true end) (map_to_list (tree_of m)).

Lemma readable_files_true (m : machine) p mode c :
  readable_files m = true -> tree_of m !! p = Some (File mode c) -> readable (super m) mode = true.
Proof.
  unfold readable_files. rewrite forallb_forall. intros H Hp. specialize (H (p, File mode c)).
  apply H. apply list_elem_of_In. by apply elem_of_map_to_list.
Qed.

Definition closed_treeb (t : tree) : bool :=
  forallb (fun kn => forallb (fun q => match t !! q with Some (Dir _) => true | _ => false end)
                       (tail (strict_prefixes kn.1))) (map_to_list t).

Lemma closed_treeb_true t : closed_treeb t = true -> closed_tree t.
Proof.
  unfold closed_treeb. rewrite forallb_forall. intros H p x rel Hp [n Hn].
  specialize (H (p ++ x :: rel, n)). rewrite <- list_elem_of_In in H. apply elem_of_map_to_list, H in Hn. clear H.
  rewrite forallb_forall in Hn. cbn [fst] in Hn. specialize (Hn p). rewrite <- list_elem_of_In in Hn.
  assert (p ∈ tail (strict_prefixes (p ++ x :: rel))) as Hin.
  { pose proof (strict_prefixes_app p x rel) as Hin. destruct p as [|y p]; [done|]. cbn in *.
    apply elem_of_cons in Hin as [Hin|Hin]; [done|exact Hin]. }
  specialize (Hn Hin). destruct (t !! p) as [[mode|]|]; [by exists mode|done..].
Qed.

Lemma build_machine_artifact numbers a S rel :
  resolve (build_machine numbers) (Clean (Src a)) = S -> name_elems (Clean (Dst a)) = rel ->
  forallb (fun x => negb (String.eqb x "..")) (Split (Clean (Dst a)) "/") = true ->
  below S ["tmp"] = false -> tree_of (build_machine []) !! S <> None ->
  (rel = [] -> exists mode, tree_of (build_machine []) !! S = Some (Dir mode)) ->
  artifact_ok (build_machine numbers) ["tmp"] S rel a.
Proof.
  intros H1 H2 H3 H4 H5 H6. split; [done|done| |done| | |done].
  - rewrite Forall_forall. rewrite forallb_forall in H3. intros x Hx ->. by specialize (H3 ".." (proj1 (list_elem_of_In _ _) Hx)).
  - change (tree_of (build_machine numbers)) with (tree_of (build_machine [])).
    destruct (tree_of (build_machine []) !! S); [by eexists|done].
  - intros r mode c. apply (readable_files_true (build_machine [])). vm_compute. reflexivity.
Qed.

Lemma step_yml_ok numbers : artifact_ok (build_machine numbers) ["tmp"] ["work"; "step.yml"] ["step.yml"] step_yml.
Proof. apply build_machine_artifact; [vm_compute; reflexivity..|vm_compute; discriminate|discriminate]. Qed.

Lemma linux_bin_ok numbers : artifact_ok (build_machine numbers) ["tmp"] ["work"; "linux"] ["bin"; "linux"] linux_bin.
Proof. apply build_machine_artifact; [vm_compute; reflexivity..|vm_compute; discriminate|discriminate]. Qed.

Lemma windows_bin_ok numbers :
  artifact_ok (build_machine numbers) ["tmp"] ["work"; "windows"; "run.exe"] ["run.exe"] windows_bin.
Proof. apply build_machine_artifact; [vm_compute; reflexivity..|vm_compute; discriminate|discriminate]. Qed.

Lemma numbers_free n :
  n ∈ numbers -> exists_at (tree_of (build_machine numbers)) (["tmp"] ++ [FormatUint n]) = false.
Proof. unfold numbers. rewrite !elem_of_cons, elem_of_nil. intros [->|[->|[->|[->|[->|[]]]]]]; vm_compute; reflexivity. Qed.

Lemma numbers_digests : NoDup ((fun n => dashes (PathJoin ["/tmp"; FormatUint n])) <$> numbers).
Proof. apply (bool_decide_eq_true (NoDup _)). vm_compute. reflexivity. Qed.

Lemma all_buildable :
  Forall (fun a => exists S rel, artifact_ok (build_machine numbers) ["tmp"] S rel a) ([step_yml] ++ [linux_bin; windows_bin]).
Proof. repeat constructor; do 2 eexists; [apply step_yml_ok|apply linux_bin_ok|apply windows_bin_ok]. Qed.

Lemma artifact_has_one_platform_witness :
  Artifacts_Platforms [linux_bin; windows_bin; linux_bin] = [platform "linux" "amd64"; platform "windows" "amd64"] /\
  (forall p, p ∈ Artifacts_Platforms [linux_bin; windows_bin; linux_bin] ->
     exists x, x ∈ ForPlatform [linux_bin; windows_bin; linux_bin] p /\ a_Platform x = p) /\
  forall x, x ∈ [linux_bin; windows_bin; linux_bin] -> exists i p,
    Artifacts_Platforms [linux_bin; windows_bin; linux_bin] !! i = Some p /\
    x ∈ ForPlatform [linux_bin; windows_bin; linux_bin] p /\
    forall j q, Artifacts_Platforms [linux_bin; windows_bin; linux_bin] !! j = Some q ->
      x ∈ ForPlatform [linux_bin; windows_bin; linux_bin] q -> j = i.
Proof. split; [vm_compute; reflexivity|]. apply artifact_has_one_platform. Defined.

Definition demo_ref : Reference (ImageName := pair_names) := ("registry/step", "1.0").

Lemma release_publishes_artifacts_witness :
  exists idx contents err reg' m', upload_all [] demo_ref idx contents = (err, reg') /\
    Release (PB := list_publisher) "/tmp" "2025-01-01T00:00:00Z" demo_ref [step_yml] [linux_bin; windows_bin]
      [] (build_machine numbers) =
      (match err with None => Ok idx | Some e => Err (WrapError "push index image: " e "") end, reg', m') /\
    tree_of m' = tree_of (build_machine numbers) /\
    length contents = length (index_images (LY := archive_layers) (IB := text_builder) idx) /\
    Forall2 (entry_for (LY := archive_layers) "/tmp" (build_machine numbers) [step_yml] [linux_bin; windows_bin])
      (Artifacts_Platforms [linux_bin; windows_bin])
      (zip (index_images (LY := archive_layers) (IB := text_builder) idx) contents).
Proof.
  apply (@release_publishes_artifacts _ _ _ _ "/tmp" (build_machine numbers)) with (PBL := list_publisher_laws).
  - reflexivity.
  - apply dirs_tob_true. vm_compute. reflexivity.
  - apply closed_treeb_true. vm_compute. reflexivity.
  - apply good_namesb_true. vm_compute. reflexivity.
  - exact numbers_free.
  - exact numbers_digests.
  - apply faultyb_false. reflexivity.
  - exact all_buildable.
  - vm_compute. repeat constructor.
  - reflexivity.
Defined.

(** The directory the layer is fetched to. *)
Definition fetch_machine : machine := {|
  tree_of := {[ ["cache"] := Dir 488; ["cache"; "step"] := Dir 448 ]};
  cwd := [];
  super := false;
  random := [];
  faults := []
|}.

Lemma fetch_dir_empty : empty_dir (tree_of fetch_machine) (resolve_from [] "/cache/step").
Proof.
  split; [apply dirs_tob_true; vm_compute; reflexivity|].
  assert (forall kn, kn ∈ map_to_list (tree_of fetch_machine) -> inside ["cache"; "step"] kn.1 = false) as H.
  { intros kn Hkn. apply not_true_is_false. intros Hi.
    assert (forallb (fun kn => negb (inside ["cache"; "step"] kn.1)) (map_to_list (tree_of fetch_machine)) = true) as Hb
      by (vm_compute; reflexivity).
    rewrite forallb_forall in Hb. specialize (Hb kn (proj1 (list_elem_of_In _ _) Hkn)). by rewrite Hi in Hb. }
  intros p Hp. destruct (tree_of fetch_machine !! p) as [n|] eqn:E; [|done]. apply elem_of_map_to_list in E.
  apply H in E. cbn [fst] in E. change (resolve_from [] "/cache/step") with ["cache"; "step"] in Hp. congruence.
Qed.

Lemma built_layer_unpacks_witness :
  exists l f' m' blob m'' m2', buildImageLayer "/tmp" linux_bin NewImageFactory (build_machine numbers) = (Ok l, f', m') /\
    layer_Compressed l m' = (Ok blob, m'') /\ tree_of m'' = tree_of m' /\
    DiskLayerWriter_Write (LY := archive_layers) [pulled_text blob] "/cache/step" fetch_machine = (Ok tt, m2') /\
    only_inside (resolve_from [] "/cache/step") (tree_of fetch_machine) (tree_of m2') /\
    forall r, r <> [] -> shape <$> tree_of m2' !! (resolve_from [] "/cache/step" ++ r) =
      artifact_shape (tree_of (build_machine numbers)) ["work"; "linux"] ["bin"; "linux"] r.
Proof.
  apply (built_layer_unpacks (BL := text_builder_laws) "/tmp" (build_machine numbers) 5%N [6; 7; 8; 9]%N).
  - reflexivity.
  - apply dirs_tob_true. vm_compute. reflexivity.
  - apply closed_treeb_true. vm_compute. reflexivity.
  - apply good_namesb_true. vm_compute. reflexivity.
  - apply faultyb_false. reflexivity.
  - reflexivity.
  - discriminate.
  - exact numbers_free.
  - exact numbers_digests.
  - exact (linux_bin_ok numbers).
  - reflexivity.
  - exact fetch_dir_empty.
  - apply faultyb_false. reflexivity.
Defined.

(** A temporary directory whose name was used before makes the factory take the
    archive of the former one: the second layer has the files of the first. *)
Lemma reused_name_reuses_archive :
  let '(r, _, m) := buildImageLayers "/tmp" [step_yml; windows_bin] NewImageFactory (build_machine [5; 6; 5]%N) in
  match r with
  | Ok [l1; l2] => (layer_Compressed l1 m).1 = (layer_Compressed l2 m).1
  | _ => False
  end.
Proof. vm_compute. reflexivity. Qed.

(** Once the factory is cleaned up, a layer it made can not be read any more: an
    index must be pushed before. *)
Lemma cleaned_up_layer_is_lost :
  let '(r, f, m) := buildImageLayer "/tmp" step_yml NewImageFactory (build_machine [5; 6]%N) in
  match r with
  | Ok l => is_ok (layer_Compressed l m).1 = true /\ is_ok (layer_Compressed l (if_CleanUp f m).2).1 = false
  | _ => False
  end.
Proof. vm_compute. split; reflexivity. Qed.

(** A destination that goes up is written outside the temporary directory: it is
    not in the layer, and it stays. *)
Lemma destination_that_goes_up :
  let '(r, _, m) := buildImageLayers "/tmp" [NewArtifact PlatformGeneric "step.yml" "../../work/left.yml"]
                      NewImageFactory (build_machine [5; 6]%N) in
  match r with
  | Ok [l] => (layer_Compressed l m).1 = Ok (put_entries [])
  | _ => False
  end /\ tree_of m !! ["work"; "left.yml"] = Some (File 292 "spec: {}").
Proof. vm_compute. split; reflexivity. Qed.

(** A platform without files has no artifact, so it gets no image, not even one of
    the common files, and a second platform equal to it is not noticed. *)
Definition spec_of (files : gmap string string) : platform_spec := {|
  ps_OSVersion := ""; ps_OSFeatures := []; ps_Variant := ""; ps_Features := []; ps_Files := files |}.

Lemma platform_without_files :
  parse_platforms [("linux/amd64", spec_of ∅)] [] = Ok [] /\
  parse_platforms [("linux /amd64", spec_of ∅); ("linux/amd64", spec_of {["run" := "run"]})] [] =
    Ok [NewArtifact (platform "linux" "amd64") "run" "run"].
Proof. vm_compute. split; reflexivity. Qed.
