(* ===== verification/CacheWitnesses.v ===== *)
(** The theorems about the caches of steps at concrete inputs. *)

From stdpp Require Import gmap strings list.
From S2P Require Import Prelude GoStrings GoPaths GoNumbers GoFiles GoFilesFacts DistCache DistCacheFacts.
From S2P Require Import GitCache GitCacheFacts.
Open Scope go_scope.
Open Scope string_scope.
Open Scope list_scope.

(** ** Distributed steps *)

Definition embedded : tree := {[
  ([] : path) := Dir 365;
  ["bin"] := Dir 365;
  ["bin"; "script"] := Dir 365;
  ["bin"; "script"; "run"] := File 292 "#!/bin/sh";
  ["bin"; "script"; "step.yml"] := File 292 "spec: {}";
  ["bin"; "oci"] := Dir 365;
  ["bin"; "oci"; "fetch"] := Dir 365;
  ["bin"; "oci"; "fetch"; "step.yml"] := File 292 "delegate";
  ["bin"; "oci"; "fetch"; "fetch.exe"] := File 292 "MZ"
]}.

Definition tmp_machine : machine := {|
  tree_of := {[ ["tmp"] := Dir 1023; ["home"] := Dir 493; ["tmp"; "17"] := Dir 448 ]};
  cwd := ["home"];
  super := false;
  random := [17; 42; 99]%N;
  faults := []
|}.

Definition fetched_steps : list string := ["oci/fetch"; "script"; "oci/fetch"].

Definition sub_script : tree := subtree embedded ["bin"; "script"].
Definition sub_fetch : tree := subtree embedded ["bin"; "oci"; "fetch"].

Lemma found_step step name n :
  PathJoin ["bin"; Clean step] = name -> String.eqb name "bin" || String.eqb name "." = false ->
  ValidPath name = true -> fs_Stat embedded name = Ok n ->
  FindDistributedStep embedded step = Ok (subtree embedded (fs_path name)).
Proof.
  intros E H1 H2 H3. unfold FindDistributedStep. rewrite E, H1, H3. unfold fs_Sub. by rewrite H2.
Qed.

Lemma script_fetchable : fetchable (FindDistributedStep embedded) "script" sub_script.
Proof.
  split; [|apply fs_closedb_true; vm_compute; reflexivity
         |apply good_namesb_true; vm_compute; reflexivity|by repeat constructor|vm_compute; discriminate].
  apply (found_step _ "bin/script" (Dir 365)); [reflexivity..|vm_compute; reflexivity].
Qed.

Lemma fetch_fetchable : fetchable (FindDistributedStep embedded) "oci/fetch" sub_fetch.
Proof.
  split; [|apply fs_closedb_true; vm_compute; reflexivity
         |apply good_namesb_true; vm_compute; reflexivity|by repeat constructor|vm_compute; discriminate].
  apply (found_step _ "bin/oci/fetch" (Dir 365)); [reflexivity..|vm_compute; reflexivity].
Qed.

Lemma requests_fetchable s :
  s ∈ fetched_steps -> exists fsys, fetchable (FindDistributedStep embedded) s fsys.
Proof.
  unfold fetched_steps. rewrite !elem_of_cons, elem_of_nil.
  intros [->|[->|[->|[]]]]; eauto using script_fetchable, fetch_fetchable.
Qed.

Lemma requests_separate : separate fetched_steps.
Proof.
  intros s s'. unfold fetched_steps. rewrite !elem_of_cons, !elem_of_nil.
  intros [->|[->|[->|[]]]] [->|[->|[->|[]]]] H; done.
Qed.

Lemma fetched_steps_installed_witness :
  exists f m', fetch_all (MR := canonical_range) "/tmp" (FindDistributedStep embedded) NewFetcher fetched_steps tmp_machine =
    ([Ok "/tmp/42"; Ok "/tmp/42"; Ok "/tmp/42"], f, m') /\
  forall s fsys, s ∈ fetched_steps -> fetchable (FindDistributedStep embedded) s fsys ->
    installed (tree_of m') (resolve m' (PathJoin ["/tmp/42"; s])) fsys.
Proof.
  apply (fetched_steps_installed (MR := canonical_range) "/tmp" (FindDistributedStep embedded)
           fetched_steps tmp_machine "42" [99%N]).
  - reflexivity.
  - apply dirs_tob_true. vm_compute. reflexivity.
  - apply good_namesb_true. vm_compute. reflexivity.
  - vm_compute. reflexivity.
  - apply faultyb_false. reflexivity.
  - exact requests_fetchable.
  - exact requests_separate.
Defined.

(** A copy that fails leaves the directory of the step, and the next request of
    the step takes it for the whole step. *)
Definition failing_machine : machine :=
  with_faults [None; None; None; None; Some {| fault_errno := ENOSPC; fault_written := 0 |}] tmp_machine.

Lemma failed_copy_taken_as_complete :
  let '(results, f, m) := fetch_all (MR := canonical_range) "/tmp" (FindDistributedStep embedded) NewFetcher
                            ["script"; "script"] failing_machine in
  (is_ok <$> results) = [false; true] /\
  tree_of m !! ["tmp"; "42"; "script"; "step.yml"] = None.
Proof. vm_compute. split; reflexivity. Qed.

(** ** Git versions *)

(** A library whose remote has a tag [v1], a branch [main] and three commits,
    with given trees; a repository is the directory it is cloned to. *)
Definition demo_EscapePath (p : string) : res string :=
  if forallb good_elemb (Split p "/") then Ok p else Err (NewError "malformed path").
Definition demo_EscapeVersion (v : string) : res string :=
  if good_elemb v then Ok v else Err (NewError "malformed version").
Definition demo_hash (h : N) : string := "abcdef" +:+ FormatUint h.
Definition demo_clone (gitDir : string) (m : machine) : res path * machine :=
  (Ok (resolve m gitDir), with_tree (<[resolve m gitDir := Dir 493]> (tree_of m)) m).

Definition demo_git (trees : N -> list object_File) : GitLib := {|
  hash := N;
  hash_String := demo_hash;
  Repository := path;
  object_Tag := N;
  object_Commit := N;
  NewEndpoint url := Ok ("git.example", url);
  EscapePath := demo_EscapePath;
  EscapeVersion := demo_EscapeVersion;
  PlainOpen gitDir m := (Ok (resolve m gitDir), m);
  PlainClone gitDir url depth := demo_clone gitDir;
  FetchContext repo depth m := (Err (NewError "already up-to-date"), m);
  NoErrAlreadyUpToDate e := String.eqb (Error e) "already up-to-date";
  repo_Tag repo v m := if String.eqb v "v1" then Ok ("refs/tags/v1", 1000001%N) else Err (NewError "tag not found");
  TagObject repo h m := Err (NewError "object not found");
  ErrObjectNotFound e := String.eqb (Error e) "object not found";
  tag_Hash t := t;
  tag_Commit t m := Ok t;
  repo_Reference repo name m :=
    if String.eqb name "refs/heads/main" then Ok ("refs/heads/main", 1000002%N) else Err (NewError "reference not found");
  CommitObjects repo m := Ok [Ok 1000001%N; Ok 1000002%N; Ok 1000003%N];
  commit_Hash c := c;
  CommitObject repo h m := Ok h;
  commit_Tree c m := Ok (trees c);
  git_dir repo := repo
|}.

Lemma demo_laws trees : GitLaws (GL := demo_git trees).
Proof.
  split.
  - done.
  - cbn. by intros gitDir m repo m' [= <- _].
  - cbn. intros gitDir _ _ m p Hp. cbn. rewrite lookup_insert_ne; [done|]. intros <-.
    apply not_true_iff_false in Hp. apply Hp, below_spec. exists []. by rewrite app_nil_r.
  - cbn. by intros gitDir url depth m repo m' [= <- _].
  - done.
  - cbn. unfold demo_EscapePath. intros p p'. destruct (forallb _ _) eqn:E; [|done]. intros [= <-].
    apply Forall_forall. intros x Hx. rewrite forallb_forall in E.
    apply good_elemb_true, E. by apply list_elem_of_In.
  - cbn. unfold demo_EscapeVersion. intros v v'. destruct (good_elemb v) eqn:E; [|done]. intros [= <-].
    by apply good_elemb_true.
  - cbn. unfold demo_EscapeVersion. intros h v. destruct (good_elemb _); [|done]. by intros [= <-].
Qed.

Definition text_file (name content : string) : object_File :=
  {| f_Name := name; f_Mode := Ok 420%N; f_Reader := Ok content |}.

Definition demo_trees (c : N) : list object_File :=
  [text_file "step.yml" (demo_hash c); text_file "bin/run" "#!/bin/sh"].

Definition git_cache : GitFetcher := {| cacheDir := "/cache"; Depth := 1 |}.

Definition git_machine (flts : list (option fault)) : machine := {|
  tree_of := {[ ["cache"] := Dir 493 ]};
  cwd := [];
  super := false;
  random := [7; 8]%N;
  faults := flts
|}.

(** What is in the directory of a version after a run. *)
Definition version_files (flts : list (option fault)) (version v : string) : list (option node) :=
  let m := (Get (GL := demo_git demo_trees) git_cache "a/b" version (git_machine flts)).2 in
  (fun rel => tree_of m !! (["cache"; "git.example"; "a"; "b"; v] ++ rel)) <$> [[]; ["step.yml"]; ["bin"; "run"]].

Definition write_fails : list (option fault) :=
  repeat None 9 ++ [Some {| fault_errno := ENOSPC; fault_written := 3 |}].

(** A run that succeeds, and one whose disk is full in the middle of a file. *)
Lemma version_files_whole :
  version_files [] "v1" "abcdef1000001" =
  [Some (Dir 448); Some (File 420 "abcdef1000001"); Some (File 420 "#!/bin/sh")].
Proof. vm_compute. reflexivity. Qed.

Lemma version_files_absent : version_files write_fails "v1" "abcdef1000001" = [None; None; None].
Proof. vm_compute. reflexivity. Qed.

Lemma demo_trees_named gf repoDir url version m repo ref files :
  requested (GL := demo_git demo_trees) gf repoDir url version m repo ref files ->
  Forall well_named files /\ NoDup (name_elems ∘ f_Name <$> files).
Proof.
  intros (m1 & m2 & m3 & commit & _ & _ & _ & _ & H). injection H as <-. unfold demo_trees. split.
  - repeat constructor; (done || vm_compute; discriminate).
  - cbn. apply NoDup_cons. split; [|apply NoDup_singleton]. vm_compute. set_solver.
Qed.

Lemma versions_are_whole_witness :
  let m' := (Get (GL := demo_git demo_trees) git_cache "a/b" "v1" (git_machine write_fails)).2 in
  same_below (version_dir git_cache "git.example/a/b" "abcdef1000001") (tree_of (git_machine write_fails)) (tree_of m') \/
  exists repo ref files,
    requested (GL := demo_git demo_trees) git_cache "git.example/a/b" "a/b" "v1" (git_machine write_fails) repo ref files /\
    EscapeHash (GL := demo_git demo_trees) ref = Ok "abcdef1000001" /\
    whole (version_dir git_cache "git.example/a/b" "abcdef1000001") files (tree_of m').
Proof.
  apply (versions_are_whole (LAWS := demo_laws demo_trees) git_cache "a/b" "v1" "git.example" "a/b").
  - reflexivity.
  - reflexivity.
  - vm_compute. reflexivity.
  - apply demo_trees_named.
  - discriminate.
Defined.

Lemma find_names_witness :
  find (GL := demo_git demo_trees) ["cache"] "abcdef1000003" (git_machine []) =
    Ok (Some (NewReference (GL := demo_git demo_trees) ("abcdef1000003", 1000003%N))).
Proof.
  apply (find_names (GL := demo_git demo_trees) ["cache"] "abcdef1000003" (git_machine [])); [reflexivity|].
  apply (names_commit (GL := demo_git demo_trees) _ _ _ [Ok 1000001%N; Ok 1000002%N; Ok 1000003%N]
           [Ok 1000001%N; Ok 1000002%N] 1000003%N []); try reflexivity.
  intros x Hx. repeat (apply elem_of_cons in Hx as [->|Hx]; [eexists; split; reflexivity|]).
  by apply elem_of_nil in Hx.
Defined.

(** A tree may name a file out of the worktree: it is written there. *)
Definition hostile_trees (c : N) : list object_File := [text_file "../../home/.profile" "evil"].

Lemma file_written_out_of_the_cache :
  let m := with_tree (<[["home"] := Dir 493]> {[ ["cache"] := Dir 493 ]}) (git_machine []) in
  tree_of (Get (GL := demo_git hostile_trees) git_cache "a/b" "v1" m).2 !! ["home"; ".profile"] =
  Some (File 420 "evil").
Proof. vm_compute. reflexivity. Qed.
