(* ===== verification/FetcherWitnesses.v ===== *)
(** The runner on the caches of CacheWitnesses.v: the resources of a distributed
    step and of a Git step at concrete inputs. *)

From stdpp Require Import gmap strings list.
From S2P Require Import Prelude GoStrings GoPaths GoNumbers GoFiles GoFilesFacts DistCache DistCacheFacts.
From S2P Require Import GitCache GitCacheFacts CacheWitnesses.
From S2P Require Import Values Expression Environment Proto StepFile Schema SpecDefinition World Resources.
From S2P Require Import Fetchers SchemaWitnesses RunnerWitnesses.
Open Scope go_scope.
Open Scope string_scope.
Open Scope list_scope.

#[local] Existing Instance demo_files.
#[local] Existing Instance demo_format.
#[local] Existing Instance canonical_range.
#[local] Existing Instance ref_structpb.

(** ** A system with caches *)

(** A step file is read as the definition that runs its text. *)
Definition text_definition (content : string) : schema.Step := {|
  schema.Step_Action := None; schema.Step_Delegate := None; schema.Step_Env := ∅;
  schema.Step_Exec := Some {| schema.Exec_Command := [content]; schema.Exec_WorkDir := None |};
  schema.Step_Inputs := ∅; schema.Step_Name := None;
  schema.Step_Outputs := ∅; schema.Step_Script := None; schema.Step_Step := schema.SVNil;
  schema.Step_Run := None |}.

Definition text_system : System := {|
  os_state := nat;
  World.MkdirTemp o := (Ok "/tmp/step-runner-1", o);
  Uint32 o := (N.of_nat o, S o);
  WriteFile_error _ _ _ := None;
  Remove_error _ f p := match f !! p with Some _ => None | None => Some (NewError "no such file") end;
  Write_stdout o _ := (None, o);
  Cmd_Run := demo_run;
  Git_Get url version o f := (Err (NewError "no network"), f, o);
  Dist_Fetch dir o f := (Err (NewError "no steps"), f, o);
  World.unmarshalSchema content := Ok (sample_spec, text_definition content);
  validateSpec _ := None;
  validateStep _ := None;
  MkdirTemp_decided o := eq_refl;
  Git_Get_decided url version o f := eq_refl;
  Dist_Fetch_decided dir o f := eq_refl;
  unmarshalSchema_decided content := eq_refl
|}.

Lemma demo_returns : GitReturns (GL := demo_git demo_trees).
Proof.
  split; try done.
  - intros p. cbn. unfold demo_EscapePath. by destruct (forallb _ _).
  - intros v. cbn. unfold demo_EscapeVersion. by destruct (good_elemb v).
  - intros repo m commits c. cbn. intros [= <-]. rewrite !elem_of_cons, elem_of_nil. by intros [->|[->|[->|[]]]].
  - intros commit m files f. cbn. intros [= <-]. unfold demo_trees. rewrite !elem_of_cons, elem_of_nil.
    by intros [->|[->|[]]].
Qed.

Lemma finder_decided step : decided (FindDistributedStep embedded step) = true.
Proof.
  unfold FindDistributedStep. cbv zeta. destruct (String.eqb _ _ || _); [done|].
  destruct (fs_Stat embedded _) as [n|e|w|] eqn:E.
  - rewrite wrap_err_decided. unfold fs_Sub. by destruct (ValidPath _).
  - by destruct (is_ErrNotExist e).
  - rewrite wrap_err_decided. unfold fs_Sub. by destruct (ValidPath _).
  - rewrite wrap_err_decided. unfold fs_Sub. by destruct (ValidPath _).
Qed.

Definition caching : System :=
  cached_system text_system (GR := demo_returns) "/tmp" (FindDistributedStep embedded) git_cache finder_decided.

Definition caching_fetchers :
    Fetchers (Sy := caching) (GL := demo_git demo_trees) "/tmp" (FindDistributedStep embedded) git_cache :=
  cached_fetchers text_system (GR := demo_returns) "/tmp" (FindDistributedStep embedded) git_cache finder_decided.

(** A machine with a directory for temporary files and one for the Git cache. *)
Definition cache_machine : machine := {|
  tree_of := {[ ["tmp"] := GoFiles.Dir 1023; ["home"] := GoFiles.Dir 493; ["tmp"; "17"] := GoFiles.Dir 448;
                ["cache"] := GoFiles.Dir 493 ]};
  cwd := ["home"];
  super := false;
  random := [17; 42; 99]%N;
  faults := []
|}.

Definition caching_state : @os_state caching := (cache_machine, NewFetcher, 0).

Definition caching_world : @World caching := {|
  heap := []; files := {["/home/notes" := "x"]}; filesDir := "";
  os := caching_state |}.

Definition dist_result : res SpecDefinition * @World caching :=
  Fetch (Sy := caching) 0 (NewDistStepResource "script" "step.yml") None caching_world.

(** The definition is the text of the embedded file, in the directory of the step. *)
Example dist_step_evaluates :
  match dist_result with
  | (Ok sd, w) => (ExecCommand sd, Dir sd, files w !! "/tmp/42/script/run", files w !! "/home/notes") =
                  (Ok ["spec: {}"], "/tmp/42/script", Some "#!/bin/sh", Some "x")
  | _ => False
  end.
Proof. vm_compute. reflexivity. Qed.

Lemma distributed_step_loaded_witness :
  exists w',
    dist_result = (read_definition (Sy := caching) "/tmp/42/script" "/tmp/42/script/step.yml" "spec: {}"
                     or_wrap "fetching dist step: ", w') /\
    heap w' = [] /\
    dist_ready (Sy := caching) (FE := caching_fetchers) "/tmp/42" ["script"] (os w') /\
    forall s, s ∈ ["script"] -> exists files, fetchable (FindDistributedStep embedded) s files /\
      installed (tree_of (machine_of (Fetchers := caching_fetchers) (os w')))
        (resolve_from [] "/tmp/42" ++ name_elems s) files.
Proof.
  apply (distributed_step_loaded (Sy := caching) (FE := caching_fetchers) 0 "script" "step.yml" None "/tmp/42" []
           sub_script 292 "spec: {}" caching_world).
  - reflexivity.
  - split; [by apply faultyb_false|]. left. split; [reflexivity|]. split; [reflexivity|].
    split; [apply dirs_tob_true; vm_compute; reflexivity|].
    split; [apply good_namesb_true; vm_compute; reflexivity|].
    exists "42", [99%N]. split; [reflexivity|vm_compute; reflexivity].
  - exact script_fetchable.
  - intros s s'. rewrite !elem_of_cons, !elem_of_nil. by intros [->|[]] [->|[]].
  - vm_compute. reflexivity.
  - reflexivity.
  - by repeat constructor.
  - vm_compute. reflexivity.
Defined.

(** ** A Git step *)

Definition git_result : res SpecDefinition * @World caching :=
  Fetch (Sy := caching) 0 (NewGitStepResource "a/b" "v1" "." "step.yml") None caching_world.

Lemma git_step_loaded_witness :
  let '(r, w') := git_result in
  heap w' = [] /\ git_ready (Sy := caching) (FE := caching_fetchers) "git.example/a/b" (os w') /\
  exists sd, r = Ok sd /\ ExecCommand sd = Ok ["abcdef1000001"] /\
    exists repo ref files v commit_files f content dir,
      requested (GL := demo_git demo_trees) git_cache "git.example/a/b" "a/b" "v1"
        (machine_of (Fetchers := caching_fetchers) (os caching_world)) repo ref files /\
      EscapeHash (GL := demo_git demo_trees) ref = Ok v /\
      (commit_files = files \/
       checked_out (GL := demo_git demo_trees) (gf := git_cache)
         (tree_of (machine_of (Fetchers := caching_fetchers) (os caching_world))) "git.example/a/b" v commit_files) /\
      whole (version_dir git_cache "git.example/a/b" v) commit_files
        (tree_of (machine_of (Fetchers := caching_fetchers) (os w'))) /\
      f ∈ commit_files /\ name_elems (f_Name f) = ["step.yml"] /\ f_Reader f = Ok content /\
      dir = PathJoin [PathJoin ["/cache"; "git.example/a/b"; v]; "."] /\
      read_definition (Sy := caching) dir (PathJoin [dir; "step.yml"]) content = Ok sd.
Proof.
  assert (match git_result.1 with
          | Ok sd => match ExecCommand sd with Ok [c] => String.eqb c "abcdef1000001" | _ => false end
          | _ => false
          end = true) as Hok by (vm_compute; reflexivity).
  pose proof (git_step_loaded (Sy := caching) (LAWS := demo_laws demo_trees) (FE := caching_fetchers)
    0 "a/b" "a/b" "v1" "." "step.yml" None caching_world "git.example" "a/b" "git.example/a/b") as H.
  fold git_result in H. destruct git_result as [r w'].
  destruct H as (Hh & Hr & Hsd).
  - reflexivity.
  - vm_compute. reflexivity.
  - reflexivity.
  - vm_compute. reflexivity.
  - apply demo_trees_named.
  - vm_compute. reflexivity.
  - reflexivity.
  - by repeat constructor.
  - by repeat constructor.
  - vm_compute. discriminate.
  - intros v Hv. left. intros rel. change (tree_of cache_machine !! (["cache"; "git.example"; "a"; "b"; v] ++ rel) = None).
    unfold cache_machine. cbn [tree_of app].
    rewrite !lookup_insert_ne by discriminate. apply lookup_singleton_ne. discriminate.
  - split; [exact Hh|]. split; [exact Hr|]. cbn in Hok. destruct r as [sd| | |]; [|discriminate Hok..].
    exists sd. split; [reflexivity|]. split; [|exact (Hsd sd eq_refl)].
    destruct (ExecCommand sd) as [[|c [|]]| | |]; try discriminate Hok.
    apply String.eqb_eq in Hok. by rewrite Hok.
Defined.
