(* ===== verification/ToolWitnesses.v ===== *)
(** Concrete inputs for the properties of the bootstrap command, the proxy and the
    steps of the release, each applied where its hypotheses hold, and what the
    step of the change log does to the changes it reports. *)

From stdpp Require Import gmap strings list.
From S2P Require Import Prelude GoStrings GoPaths GoNumbers GoFiles GoFilesFacts.
From S2P Require Import ReleaseSteps Bootstrap Proxy.
Open Scope go_scope.
Open Scope string_scope.
Open Scope list_scope.

(** ** The change log *)

Definition sample_header : list string := ["# Changelog"; ""; "See [Releases]."; ""].
Definition sample_versions : list Version :=
  [{| major := "0"; minor := "11"; patch := "0"; changes := [""; "- Fix a bug in run"; ""] |};
   {| major := "0"; minor := "10"; patch := "2"; changes := [""; "- Fetch steps"] |}].

Lemma changelog_roundtrip_witness :
  LatestVersion (log_text (sample_header ++ concat (version_lines <$> sample_versions))) =
  Ok {| major := "0"; minor := "11"; patch := "0"; changes := [""; "- Fix a bug in run"; ""] |}.
Proof.
  destruct (changelog_roundtrip sample_header sample_versions) as [_ ->]; [reflexivity| | |reflexivity].
  - repeat constructor.
  - repeat constructor; discriminate.
Defined.

(** The cutset of [strings.Trim] is a backslash and the letter n, so the last
    change loses its last letter. *)
Lemma changes_lose_their_n :
  changelog_outputs {| major := "1"; minor := "2"; patch := "3"; changes := [""; "- Fix a bug in run"; ""] |} =
  changelog_outputs {| major := "1"; minor := "2"; patch := "3"; changes := ["- Fix a bug in ru"] |}.
Proof. vm_compute. reflexivity. Qed.

(** A change that mentions a header is taken for one. *)
Lemma change_taken_for_a_version :
  Changelog_read (log_text (sample_header ++ ["## v1.0.0"; "- Revert ## v0.9.0"])) =
  Ok [NewVersion "1" "0" "0" []; NewVersion "0" "9" "0" []].
Proof. vm_compute. reflexivity. Qed.

(** ** Bootstrap *)

Definition tool_machine : machine := {|
  tree_of := list_to_map
    [(["opt"], Dir 493); (["opt"; "step-runner"], File 448 "program"); (["builds"], Dir 493)];
  cwd := ["opt"]; super := false; random := []; faults := [] |}.

Lemma bootstrap_installs_witness :
  exists m', bootstrap_run "step-runner" "/builds/bin" tool_machine = (Ok tt, m') /\
    tree_of m' !! ["builds"; "bin"; "step-runner"] = Some (File 493 "program") /\
    tree_of m' !! ["builds"; "bin"] = Some (Dir 493).
Proof.
  assert (HasPrefix "/builds/bin" "/" = true) as H1 by reflexivity.
  assert (tree_of tool_machine !! resolve tool_machine "step-runner" = Some (File 448 "program")) as H2
    by (vm_compute; reflexivity).
  assert (no_file_to (tree_of tool_machine) (resolve_from [] "/builds/bin")) as H3.
  { intros q Hq. assert (q = ["builds"] \/ q = ["builds"; "bin"]) as [-> | ->]; [|by vm_compute..].
    vm_compute in Hq. repeat (apply elem_of_cons in Hq as [Hq|Hq]; [by auto|]). by apply elem_of_nil in Hq. }
  assert (wp (bootstrap_run "step-runner" "/builds/bin") tool_machine (fun _ t =>
    t !! ["builds"; "bin"; "step-runner"] = Some (File 493 "program") /\
    t !! ["builds"; "bin"] = Some (Dir 493))) as Hwp.
  { eapply wp_mono.
    - apply (bootstrap_installs "step-runner" "/builds/bin" 448 "program" tool_machine H1);
        [done|exact H3|exact H2|reflexivity|vm_compute; discriminate|vm_compute; discriminate|].
      vm_compute. exact I.
    - intros [] t [Ht Hq]. split; [exact Ht|]. rewrite Hq by (vm_compute; discriminate). vm_compute. reflexivity. }
  apply wp_no_fault in Hwp as ([] & m' & -> & H & _); [|reflexivity]. by exists m'.
Defined.

Example default_socket : (GetSocketAddr "/tmp" [] tool_machine).1 = Ok "/tmp/step-runner.sock".
Proof. vm_compute. reflexivity. Qed.
Example given_socket : (GetSocketAddr "/tmp" [" /opt "] tool_machine).1 = Ok "/opt/step-runner.sock".
Proof. vm_compute. reflexivity. Qed.
Example socket_is_no_directory :
  (GetSocketAddr "/tmp" ["/opt/step-runner"] tool_machine).1 =
  Err (NewError "invalid socket dir /opt/step-runner").
Proof. vm_compute. reflexivity. Qed.

(** ** The proxy *)

(** A request and its answer, after which the server closes the connection: the
    proxy still waits, and returns when the input ends. *)
Definition conversation : list event :=
  [SourceYields "status" None; ConnYields "finished" None; ConnEnds None; ReaderCloses None].

Lemma conversation_runs : exists s,
  steps (proxy_step "@") start conversation s /\ Wait s = None /\ writer s = Copying /\
  sent s = "status" /\ printed s = "finished".
Proof.
  destruct (run_labels (fire "@") start conversation) as [s|] eqn:E; [|discriminate].
  exists s. split; [by apply run_labels_steps|]. vm_compute in E. injection E as <-. done.
Qed.

Lemma proxy_carries_witness :
  exists s, steps (proxy_step "@") start (conversation ++ [SourceEnds None; WriterCloses None]) s /\
    Wait s = Some None /\ sent s = taken s /\ printed s = received s.
Proof.
  destruct (run_labels (fire "@") start (conversation ++ [SourceEnds None; WriterCloses None])) as [s|] eqn:E;
    [|discriminate].
  assert (steps (proxy_step "@") start (conversation ++ [SourceEnds None; WriterCloses None]) s) as Hs
    by by apply run_labels_steps.
  assert (Wait s = Some None) as Hw by (vm_compute in E; injection E as <-; reflexivity).
  exists s. split; [exact Hs|]. split; [exact Hw|]. by apply (proxy_carries "@" _ s Hs).
Defined.

Lemma proxy_waits_for_input_witness :
  exists s evs s', steps (proxy_step "@") start [SourceEnds None] s /\
    steps (proxy_step "@") s evs s' /\ is_Some (Wait s').
Proof.
  destruct (run_labels (fire "@") start [SourceEnds None]) as [s|] eqn:E; [|discriminate].
  assert (steps (proxy_step "@") start [SourceEnds None] s) as Hs by by apply run_labels_steps.
  destruct (proxy_waits_for_input "@" _ s Hs) as [_ Hw].
  destruct Hw as (evs & s' & H1 & _ & _ & H2); [vm_compute in E; injection E as <-; discriminate|].
  by exists s, evs, s'.
Defined.
