(* ===== verification/OCIStepWitnesses.v ===== *)
(** Concrete inputs for the properties of the OCI steps at the runner: a format of
    lines that is written and read back, a machine, and inputs that look like flags. *)

From stdpp Require Import gmap strings list.
From S2P Require Import Prelude GoStrings GoPaths GoNumbers GoFlags GoFiles GoFilesFacts Promote OCIFetch OCIBuild.
From S2P Require Import Values Expression ExpressionFacts Environment Proto StepFile World Resources Runner RunnerSpec.
From S2P Require Import RunnerWitnesses OCISteps OCIWitnesses BuildWitnesses.
Open Scope go_scope.
Open Scope string_scope.
Open Scope list_scope.

(** ** Lines that are hexadecimal *)

(** A half of a byte, as one of the letters from a to p. *)
Definition put_nibble (n : N) : Ascii.ascii := Ascii.ascii_of_N (97 + n).
Definition take_nibble (c : Ascii.ascii) : N := (Ascii.N_of_ascii c - 97)%N.
Definition is_nibble (c : Ascii.ascii) : bool := (97 <=? Ascii.N_of_ascii c)%N && (Ascii.N_of_ascii c <? 113)%N.

Fixpoint put_hex (s rest : string) : string :=
  match s with
  | EmptyString => rest
  | String c s' =>
      String (put_nibble (byte_of c / 16)) (String (put_nibble (byte_of c mod 16)) (put_hex s' rest))
  end.

Fixpoint take_hex (x : string) : string * string :=
  match x with
  | String a (String b x') =>
      if is_nibble a then
        let '(s, rest) := take_hex x' in
        (String (Ascii.ascii_of_N (16 * take_nibble a + take_nibble b)) s, rest)
      else ("", x)
  | _ => ("", x)
  end.

(** A byte comes back from its halves, which are letters. *)
Lemma byte_halves c :
  is_nibble (put_nibble (byte_of c / 16)) = true /\
  Ascii.ascii_of_N (16 * take_nibble (put_nibble (byte_of c / 16)) + take_nibble (put_nibble (byte_of c mod 16))) = c /\
  (byte_of (put_nibble (byte_of c / 16)) =? 10)%N = false /\ (byte_of (put_nibble (byte_of c mod 16)) =? 10)%N = false.
Proof. destruct c as [[] [] [] [] [] [] [] []]; repeat split; reflexivity. Qed.

Lemma take_put_hex s c rest : is_nibble c = false -> take_hex (put_hex s (String c rest)) = (s, String c rest).
Proof.
  intros Hc. induction s as [|b s IH]; [cbn; destruct rest; [done|by rewrite Hc]|].
  destruct (byte_halves b) as (Hn & Hb & _). cbn [put_hex take_hex]. by rewrite Hn, IH, Hb.
Qed.

Lemma put_hex_app s a b : put_hex s (a +:+ b) = put_hex s a +:+ b.
Proof. induction s as [|c s IH]; [done|]. cbn. by rewrite IH. Qed.

Lemma put_hex_rest s rest : put_hex s rest = put_hex s "" +:+ rest.
Proof. exact (put_hex_app s "" rest). Qed.

Definition on_line (s : string) : bool := all_bytes (fun c => negb (byte_of c =? 10)%N) s.

Lemma put_hex_on_line s rest : on_line (put_hex s rest) = on_line rest.
Proof.
  unfold on_line. induction s as [|c s IH]; [done|]. destruct (byte_halves c) as (_ & _ & H1 & H2).
  cbn [put_hex all_bytes]. by rewrite H1, H2, IH.
Qed.

Fixpoint put_fields (fields : list (string * string)) : string :=
  match fields with
  | [] => "}"
  | (k, v) :: fields' => String "," (put_hex k (String ":" (put_hex v (put_fields fields'))))
  end.

Fixpoint take_fields (fuel : nat) (x : string) : list (string * value) :=
  match fuel, x with
  | Datatypes.S fuel', String "," x' =>
      let '(k, x') := take_hex x' in
      match x' with
      | String _ x' => let '(v, x') := take_hex x' in (k, VString v) :: take_fields fuel' x'
      | EmptyString => []
      end
  | _, _ => []
  end.

Lemma put_fields_head fields : exists c rest, put_fields fields = String c rest /\ is_nibble c = false.
Proof. destruct fields as [|[k v] fields]; cbn; by eexists _, _. Qed.

Lemma take_put_fields fields fuel :
  (length fields <= fuel)%nat -> take_fields fuel (put_fields fields) = prod_map id VString <$> fields.
Proof.
  revert fuel. induction fields as [|[k v] fields IH]; intros fuel Hf; [by destruct fuel|].
  destruct fuel as [|fuel]; [cbn in Hf; lia|]. cbn [put_fields take_fields]. rewrite take_put_hex by done.
  destruct (put_fields_head fields) as (c & rest & E & Hc). rewrite E, take_put_hex, <- E by done.
  cbn [length] in Hf. by rewrite IH by lia.
Qed.

Lemma put_fields_on_line fields : on_line (put_fields fields) = true.
Proof.
  induction fields as [|[k v] fields IH]; [done|]. cbn [put_fields].
  change (on_line (put_hex k (String ":" (put_hex v (put_fields fields)))) = true).
  rewrite put_hex_on_line. change (on_line (put_hex v (put_fields fields)) = true). by rewrite put_hex_on_line.
Qed.

Lemma put_fields_ends fields : exists r, put_fields fields = r +:+ "}".
Proof.
  induction fields as [|[k v] fields [r IH]]; [by exists ""|]. cbn [put_fields]. rewrite IH.
  exists (String "," (put_hex k (String ":" (put_hex v r)))).
  rewrite put_hex_app. change (String ":" (put_hex v r +:+ "}")) with (String ":" (put_hex v r) +:+ "}").
  by rewrite put_hex_app.
Qed.

Lemma fields_length fields : (length fields <= String.length (put_fields fields))%nat.
Proof.
  induction fields as [|[k v] fields IH]; [cbn; lia|]. cbn [put_fields length String.length].
  rewrite put_hex_rest, string_length_app. cbn [String.length]. rewrite (put_hex_rest v), string_length_app. lia.
Qed.

(** A line: the name and a text, or the name and a structure. *)
Definition hex_line (name : string) (v : OutputValue) : string :=
  put_hex name (match v with
    | OutString s => String "=" (put_hex s "}")
    | OutStruct fields => put_fields fields end).

Definition hex_decode (line : string) : res StepFileLine :=
  let '(name, x) := take_hex line in
  match x with
  | String "=" x' => Ok {| line_Name := Some name; line_Value := Some (VString (take_hex x').1) |}
  | _ => Ok {| line_Name := Some name; line_Value := Some (VStruct (take_fields (String.length x) x)) |}
  end.

Lemma hex_decode_decided line : decided (hex_decode line) = true.
Proof. unfold hex_decode. destruct (take_hex line) as [? [|[[] [] [] [] [] [] [] []] ?]]; reflexivity. Qed.

Definition hex_files : StepFileEnv := {|
  UnmarshalLine := hex_decode;
  UnmarshalStepResult data := Err (NewError "invalid step result");
  UnmarshalLine_decided := hex_decode_decided;
  UnmarshalStepResult_decided data := eq_refl;
  open_error path := NewError "no such file or directory";
  RunningInDebugMode := false
|}.

Lemma hex_line_read name v :
  hex_decode (hex_line name v) = Ok {| line_Name := Some name; line_Value := Some (runner_value v) |}.
Proof.
  unfold hex_decode, hex_line. destruct v as [s|fields].
  - rewrite take_put_hex by done. cbn [runner_value]. by rewrite take_put_hex.
  - pose proof (fields_length fields) as Hl. pose proof (take_put_fields fields _ Hl) as Ht. cbn [runner_value].
    destruct fields as [|[k u] fields].
    + cbn [put_fields]. by rewrite take_put_hex.
    + cbn [put_fields] in *. rewrite take_put_hex by done. by rewrite Ht.
Qed.

Lemma hex_line_ends name v : HasSuffix (hex_line name v) "}" = true.
Proof.
  apply HasSuffix_spec. unfold hex_line. destruct v as [s|fields].
  - exists (put_hex name (String "=" (put_hex s ""))). rewrite (put_hex_rest s "}").
    apply (put_hex_app name (String "=" (put_hex s ""))).
  - destruct (put_fields_ends fields) as [r ->]. eexists. apply put_hex_app.
Qed.

Definition hex_lines : OutputLines (H := hex_files).
Proof.
  refine {| json_line := hex_line : string -> OutputValue -> string;
            json_line_ends := hex_line_ends |}.
  - intros name v. change (on_line (hex_line name v) = true). unfold hex_line. rewrite put_hex_on_line.
    destruct v as [s|fields]; [|apply put_fields_on_line].
    change (on_line (put_hex s "}") = true). by rewrite put_hex_on_line.
  - intros name v _ _. apply hex_line_read.
Defined.

(** ** A run of the programs *)

Definition step_context : StepsContext := {|
  sc_globalCtx := demo_global;
  sc_stepDir := "/steps/oci"; sc_outputFile := "/tmp/output"; sc_exportFile := "/tmp/export"; sc_env := 0;
  sc_inputs := list_to_map [
    ("registry", Some (VString "-h")); ("repository", Some (VString "--tag=1")); ("tag", Some (VString "${{job.x}}"));
    ("step_path", Some (VString "")); ("from_image", Some (VString "a b")); ("to_registry", Some (VString "--"));
    ("to_repository", Some (VString "r")); ("to_version", Some (VString "1.2.3"));
    ("common", Some (VStruct [])); ("platforms", Some (VStruct [("linux/arm64", VStruct [])]))];
  sc_steps := ∅ |}.

#[local] Existing Instance word32.

Lemma inputs_reach_programs_witness :
  let no_files : string -> res (gmap string string) := fun _ => Ok ∅ in
  let no_platforms : string -> res (gmap string platform_spec) := fun _ => Ok ∅ in
  let getenv : string -> string := fun _ => "" in
  (exists args, runs_program (Sy := demo_system) (SP := ref_structpb) (MR := canonical_range) (fetch_step "/def") step_context demo_world args /\
     forall m inputs m', fetch_ParseInputs (IN := pair_names) args getenv m = (Ok inputs, m') <->
       fetch_parsed (IN := pair_names) "-h" "--tag=1" "${{job.x}}" "" "/tmp/output" getenv m inputs m') /\
  (exists args, runs_program (Sy := demo_system) (SP := ref_structpb) (MR := canonical_range) (OCISteps.promote_step "/def")
       step_context demo_world args /\
     forall inputs, ParseInputs (IN := pair_names) args getenv = Ok inputs <->
       promote_parsed (IN := pair_names) "a b" "--" "r" "1.2.3" getenv inputs) /\
  (exists args, runs_program (Sy := demo_system) (SP := ref_structpb) (MR := canonical_range) (build_step "/def") step_context demo_world args /\
     forall m inputs m',
       build_ParseInputs (IN := pair_names) (PL := equal_platforms) no_platforms no_files (fun _ => false) args getenv m =
         (Ok inputs, m') <->
       build_parsed (IN := pair_names) (PL := equal_platforms) no_platforms no_files (fun _ => false)
         "-h" "--tag=1" "${{job.x}}" "{}" ("{" +:+ quote "linux/arm64" +:+ ":{}}") "/tmp/output" getenv m inputs m').
Proof.
  intros no_files no_platforms getenv.
  destruct (@inputs_reach_programs word32 demo_system ref_structpb canonical_range pair_names equal_platforms no_platforms no_files
    (fun _ => false) step_context demo_world "/def" getenv) as (H1 & H2 & H3); [reflexivity..|].
  split; [|split].
  - apply H1; reflexivity.
  - apply H2; reflexivity.
  - apply H3; [reflexivity..| |]; (split; [reflexivity|eexists; split; reflexivity]).
Defined.

(** The machine of a program: the runner made its output file. *)
Definition output_machine : GoFiles.machine := {|
  tree_of := {[ ["tmp"] := GoFiles.Dir 1023; ["tmp"; "output"] := File 384 "left over" ]};
  cwd := ["work"];
  super := false;
  random := [];
  faults := []
|}.

Lemma output_machine_file : output_file output_machine "/tmp/output" ["tmp"] "output".
Proof.
  split; [done|]. split; [by intros m' _|]. split; [apply dirs_tob_true; vm_compute; reflexivity|reflexivity].
Qed.

(** The fetch program runs, and its file is read; the same for build. *)
Lemma outputs_reach_the_runner_witness :
  (exists text,
     wp (fetch_Outputs_Write (IN := pair_names) (fun n s => Ok (hex_line n (OutString s)))
           "/tmp/output" "/cache/1" ("r/step", "1.0") "bin") output_machine
        (fun _ t => holds ["tmp"; "output"] (tree_of output_machine) text t) /\
     ReadValues (SE := hex_files) (MR := canonical_range) {["/tmp/output" := text]} "/tmp/output" fetch_outputs_spec =
       Ok (<["ref" := VString "r/step:1.0"]> {["fetched_step_path" := VString "/cache/1/bin"]})) /\
  (exists text values,
     wp (build_Outputs_Write (IN := pair_names) (IB := text_builder) (fun n v => Ok (hex_line n v))
           "/tmp/output" ("r/step", "1.0") []) output_machine
        (fun _ t => holds ["tmp"; "output"] (tree_of output_machine) text t) /\
     ReadValues (SE := hex_files) (MR := canonical_range) {["/tmp/output" := text]} "/tmp/output" build_outputs_spec =
       Ok values /\
     values !! "digest" = Some (VStruct [("algorithm", VString "sha256"); ("hash", VString "0");
                                         ("value", VString "sha256:0")])).
Proof.
  destruct (@outputs_reach_the_runner hex_files hex_lines canonical_range pair_names text_builder
    output_machine "/tmp/output" ["tmp"] "output" output_machine_file) as [Hf Hb].
  split.
  - destruct (Hf "/cache/1" ("r/step", "1.0") "bin") as (text & Hw & Hr).
    + repeat constructor.
    + repeat constructor; done.
    + exists text. split; [exact Hw|]. apply Hr. reflexivity.
  - destruct (Hb ("r/step", "1.0") [] ("sha256", "0")) as (text & Hw & Hr).
    + reflexivity.
    + repeat constructor.
    + repeat constructor; done.
    + destruct (Hr {["/tmp/output" := text]} "/tmp/output") as (values & Hv & _ & _ & _ & _ & Hd); [reflexivity|].
      exists text, values. split; [exact Hw|]. split; [exact Hv|exact Hd].
Defined.
